(** * Search engine: a shallow embedding of the Go back end

    The development follows the packages of the repository:
    - [entity]     internal/domain/entity          (records)
    - scoring      internal/domain/service          (CalculateScore)
    - search       internal/application/usecase     (validateParams,
                   generateCacheKey, Execute) and internal/transport/http
    - providers    internal/infrastructure/provider (normalize, FetchContents)
    - repository   internal/infrastructure/repository, with the tables of
                   the migration as finite maps, and the sync use case.

    Go's [int], [int64] and [time.Duration] are [Z] with the wrap-around or
    saturation written out; [float64] is the kernel's binary64 [float];
    Go strings are byte strings ([string]); an instant is the number of
    nanoseconds since the Unix epoch. *)

From Stdlib Require Import ZArith QArith Qround Qabs Qpower Floats Lia Lqa.
From Stdlib Require Import Ascii DecimalString DecimalZ.
From stdpp Require Import gmap strings list fin_maps finite sorting.

Open Scope Z_scope.
Set Warnings "-inexact-float".

(** ** Machine integers *)

Definition maxInt64 : Z := 9223372036854775807.
Definition minInt64 : Z := -9223372036854775808.

(** Two's complement wrap-around of a 64-bit signed result. *)
Definition wrap64 (z : Z) : Z := (z + 2 ^ 63) mod 2 ^ 64 - 2 ^ 63.

(** ** float64

    The scoring code is written over the operations of float64 it uses;
    the program computes with binary64. *)

Class Float64 (F : Type) := {
  of_int : Z -> F;         (* float64(n), and the literals 1000.0, 5.0, ... *)
  fadd : F -> F -> F;
  fmul : F -> F -> F;
  fdiv : F -> F -> F;
  Round : F -> F;          (* math.Round: nearest integer, halves away from zero *)
  is_zero : F -> bool      (* x == 0 *)
}.

(** int64 to float64 rounds to nearest, ties to even. *)
Definition float_of_Z (z : Z) : float :=
  SF2Prim (binary_normalize prec emax z 0 false).

(** math.Round on binary64: a value [m * 2^e] with [e < 0] has a fractional
    part; its magnitude is rounded to [m / 2^-e], plus one when the remainder
    is at least one half. The sign is kept, also on a zero result. NaN,
    infinities and integers are returned unchanged. *)
Definition float_Round (x : float) : float :=
  match Prim2SF x with
  | S754_finite s m e =>
      if 0 <=? e then x
      else
        let d := 2 ^ (- e) in
        let q := Z.pos m / d in
        let r := Z.pos m mod d in
        let n := if d <=? 2 * r then q + 1 else q in
        if n =? 0 then (if s then (-0)%float else 0%float)
        else if s then (- float_of_Z n)%float else float_of_Z n
  | _ => x
  end.

#[export] Instance binary64 : Float64 float := {
  of_int := float_of_Z;
  fadd := PrimFloat.add;
  fmul := PrimFloat.mul;
  fdiv := PrimFloat.div;
  Round := float_Round;
  is_zero := fun x => PrimFloat.eqb x 0%float
}.

(** The exact value of a finite binary64 number. *)
Definition float_to_Q (x : float) : Q :=
  match Prim2SF x with
  | S754_finite s m e =>
      let v := if 0 <=? e then inject_Z (Z.pos m * 2 ^ e)
               else Z.pos m # Z.to_pos (2 ^ (- e)) in
      if s then (- v)%Q else v
  | _ => 0%Q
  end.

(** ** Entities (internal/domain/entity) *)

Definition ContentType := string.
Definition ContentTypeVideo : ContentType := "video".
Definition ContentTypeArticle : ContentType := "article".

Record ContentStats := {
  stats_ID : Z;
  stats_ContentID : Z;
  Views : Z;          (* int64 *)
  Likes : Z;          (* int32 *)
  ReadingTime : Z;    (* int32, minutes *)
  Reactions : Z;      (* int32 *)
  stats_UpdatedAt : Z
}.

Record ContentScore (F : Type) := {
  score_ID : Z;
  score_ContentID : Z;
  BaseScore : F;
  TypeWeight : F;
  RecencyScore : F;
  EngagementScore : F;
  FinalScore : F;
  CalculatedAt : Z
}.
Arguments score_ID {F}. Arguments score_ContentID {F}.
Arguments BaseScore {F}. Arguments TypeWeight {F}.
Arguments RecencyScore {F}. Arguments EngagementScore {F}.
Arguments FinalScore {F}. Arguments CalculatedAt {F}.

Record Tag := { tag_ID : Z; tag_Name : string; tag_CreatedAt : Z }.

Record Content (F : Type) := {
  ID : Z;
  ProviderID : Z;
  ProviderContentID : string;
  Title : string;
  Description : string;
  content_Type : ContentType;
  PublishedAt : Z;
  CreatedAt : Z;
  UpdatedAt : Z;
  Stats : option ContentStats;
  Score : option (ContentScore F);
  Tags : list Tag;
  RelevanceScore : F;
  RawData : string;
  Deleted : bool
}.
Arguments ID {F}. Arguments ProviderID {F}. Arguments ProviderContentID {F}.
Arguments Title {F}. Arguments Description {F}. Arguments content_Type {F}.
Arguments PublishedAt {F}. Arguments CreatedAt {F}. Arguments UpdatedAt {F}.
Arguments Stats {F}. Arguments Score {F}. Arguments Tags {F}.
Arguments RelevanceScore {F}. Arguments RawData {F}. Arguments Deleted {F}.

Record NormalizedContent := {
  ExternalID : string;
  nc_Title : string;
  nc_Description : string;
  nc_ContentType : ContentType;
  nc_PublishedAt : Z;
  nc_Stats : ContentStats;
  nc_Tags : list string;
  nc_RawData : string
}.

(** ** Scoring service (internal/domain/service) *)

Definition Hour : Z := 3600 * 1000000000.

(** time.Time.Sub: the difference in nanoseconds, saturated to int64. *)
Definition time_Sub (t u : Z) : Z :=
  let d := t - u in
  if d <? minInt64 then minInt64 else if maxInt64 <? d then maxInt64 else d.

Section Scoring.
Context {F : Type} `{Float64 F}.

Record ScoringRules := {
  VideoTypeWeight : F;
  ArticleTypeWeight : F
}.

Definition NewScoringService (rules : ScoringRules) : ScoringRules :=
  {| VideoTypeWeight :=
       if is_zero (VideoTypeWeight rules) then fdiv (of_int 3) (of_int 2)
       else VideoTypeWeight rules;
     ArticleTypeWeight :=
       if is_zero (ArticleTypeWeight rules) then of_int 1
       else ArticleTypeWeight rules |}.

(** [now] is the reading of time.Now(). *)
Definition calculateRecencyScore (now publishedAt : Z) : F :=
  let duration := time_Sub now publishedAt in
  if duration <=? 7 * 24 * Hour then of_int 5
  else if duration <=? 30 * 24 * Hour then of_int 3
  else if duration <=? 90 * 24 * Hour then of_int 1
  else of_int 0.

Definition calculateEngagementScore (content : Content F) : F :=
  match Stats content with
  | None => of_int 0
  | Some st =>
      if String.eqb (content_Type content) ContentTypeVideo then
        if Views st =? 0 then of_int 0
        else fmul (fdiv (of_int (Likes st)) (of_int (Views st))) (of_int 10)
      else
        if ReadingTime st =? 0 then of_int 0
        else fmul (fdiv (of_int (Reactions st)) (of_int (ReadingTime st))) (of_int 5)
  end.

(** Two decimals: math.Round(x*100) / 100. *)
Definition round2 (x : F) : F := fdiv (Round (fmul x (of_int 100))) (of_int 100).

(** CalculateScore; [None] is the (nil, nil) returned without statistics.
    The one clock reading [now] stands for both calls of time.Now(). *)
Definition CalculateScore (rules : ScoringRules) (now : Z) (content : Content F)
  : option (ContentScore F) :=
  match Stats content with
  | None => None
  | Some st =>
      let '(base, weight) :=
        if String.eqb (content_Type content) ContentTypeVideo then
          (fadd (fdiv (of_int (Views st)) (of_int 1000))
                (fdiv (of_int (Likes st)) (of_int 100)),
           VideoTypeWeight rules)
        else
          (fadd (of_int (ReadingTime st))
                (fdiv (of_int (Reactions st)) (of_int 50)),
           ArticleTypeWeight rules) in
      let recency := calculateRecencyScore now (PublishedAt content) in
      let engagement := calculateEngagementScore content in
      let final := fadd (fadd (fmul base weight) recency) engagement in
      Some {| score_ID := 0;
              score_ContentID := ID content;
              BaseScore := round2 base;
              TypeWeight := weight;
              RecencyScore := round2 recency;
              EngagementScore := round2 engagement;
              FinalScore := round2 final;
              CalculatedAt := now |}
  end.
End Scoring.
Arguments ScoringRules F : clear implicits.

(** The rules the service is built with in cmd/api: 1.5 (that is 3/2, exact
    in binary64) for videos and 1.0 for articles. *)
Definition defaultRules {F} `{Float64 F} : ScoringRules F :=
  NewScoringService {| VideoTypeWeight := fdiv (of_int 3) (of_int 2);
                       ArticleTypeWeight := of_int 1 |}.

(** A content as the sync use case hands it to the scorer. *)
Definition content_with_stats {F} `{Float64 F}
  (kind : ContentType) (published : Z) (st : ContentStats) : Content F :=
  {| ID := 1; ProviderID := 1; ProviderContentID := "v1"; Title := "";
     Description := ""; content_Type := kind; PublishedAt := published;
     CreatedAt := 0; UpdatedAt := 0; Stats := Some st; Score := None;
     Tags := []; RelevanceScore := of_int 0; RawData := ""; Deleted := false |}.

Definition video_stats (views likes : Z) : ContentStats :=
  {| stats_ID := 0; stats_ContentID := 1; Views := views; Likes := likes;
     ReadingTime := 0; Reactions := 0; stats_UpdatedAt := 0 |}.

(** The four stored components and the final score of a score row. *)
Definition components {F} (s : ContentScore F) : F * F * F * F * F :=
  (BaseScore s, TypeWeight s, RecencyScore s, EngagementScore s, FinalScore s).

(** [final - (base * type_weight + recency + engagement)] on the stored
    values, computed exactly. *)
Definition stored_gap (s : ContentScore Q) : Q :=
  (FinalScore s - (BaseScore s * TypeWeight s + RecencyScore s + EngagementScore s))%Q.

Definition score_to_Q (s : ContentScore float) : ContentScore Q :=
  {| score_ID := score_ID s; score_ContentID := score_ContentID s;
     BaseScore := float_to_Q (BaseScore s);
     TypeWeight := float_to_Q (TypeWeight s);
     RecencyScore := float_to_Q (RecencyScore s);
     EngagementScore := float_to_Q (EngagementScore s);
     FinalScore := float_to_Q (FinalScore s);
     CalculatedAt := CalculatedAt s |}.

(** ** The value of a binary64 number

    What is proved of the arithmetic of binary64 is proved from the
    specification of the operations in the standard library (SpecFloat),
    on the exact values of the numbers. *)

Definition pow2 (e : Z) : Q := (2 ^ e)%Q.

Definition SF2Q (x : spec_float) : Q :=
  match x with
  | S754_finite s m e =>
      ((if s then - inject_Z (Z.pos m) else inject_Z (Z.pos m)) * pow2 e)%Q
  | _ => 0%Q
  end.

Definition SFfinite (x : spec_float) : bool :=
  match x with
  | S754_finite _ _ _ | S754_zero _ => true
  | _ => false
  end.

(** A number that is neither an infinity nor a NaN. *)
Definition finite (x : float) : bool := SFfinite (Prim2SF x).

(** The value of a binary64 number that is finite, 0 otherwise. *)
Definition fval (x : float) : Q := SF2Q (Prim2SF x).

(** Half a unit of the last place, relative to the number: 2^-53. *)
Definition unit_roundoff : Q := 1 # 9007199254740992.

(** The integer [a], of at most 53 bits, as a binary64 number: a zero, or
    the 53 digits of its magnitude at an exponent between -52 and 0. *)
Definition SFint (f : spec_float) (a : Z) : Prop :=
  match f with
  | S754_zero _ => a = 0
  | S754_finite s m e =>
      Z.pos (digits2_pos m) = 53 /\ -52 <= e <= 0 /\
      Z.pos m = Z.abs a * 2 ^ (- e) /\ s = (a <? 0)
  | _ => False
  end.

Definition int_float (x : float) (a : Z) : Prop := SFint (Prim2SF x) a.

(** The counters for which the bound on the stored score is proved: the
    int32 counters as their type has them, the int64 view count up to 10^12
    in magnitude. *)
Definition in_int32 (z : Z) : bool := (- 2 ^ 31 <=? z) && (z <? 2 ^ 31).

Definition counters_in_range (st : ContentStats) : bool :=
  (Z.abs (Views st) <=? 10 ^ 12) && in_int32 (Likes st) &&
  in_int32 (ReadingTime st) && in_int32 (Reactions st).

(** Type weights that are numbers of magnitude at most 10. *)
Definition weight_in_range (w : float) : bool :=
  finite w && Qle_bool (Qabs (fval w)) 10.

Definition rules_in_range (rules : ScoringRules float) : bool :=
  weight_in_range (VideoTypeWeight rules) && weight_in_range (ArticleTypeWeight rules).

(** The value [xi], at least 0, is where the record of a shift places it:
    at or beyond the mantissa by less than one, on or beyond the half as the
    round bit says, and on that mark exactly when the sticky bit is clear. *)
Definition placed (xi : Q) (mrs : shr_record) : Prop :=
  let mark := (inject_Z (shr_m mrs) + (if shr_r mrs then 1 # 2 else 0))%Q in
  0 <= shr_m mrs /\ (mark <= xi)%Q /\ (xi < mark + (1 # 2))%Q /\
  (shr_s mrs = false <-> (xi == mark)%Q).

(** ** Errors and results *)

Inductive error :=
  | ErrInvalidSortBy (s : string)          (* validateParams: sort criterion *)
  | ErrInvalidContentType (s : ContentType) (* validateParams: content type *)
  | ErrSearch (e : error)                  (* Execute: wrapped repository error *)
  | ErrMissingID                           (* xml normalize: "ID eksik" *)
  | ErrDate (s : string)                   (* normalize: date does not parse *)
  | ErrType (s : string)                   (* normalize: unknown content type *)
  | ErrRateLimiter                         (* FetchContents: limiter.Wait failed *)
  | ErrTransport                           (* FetchContents: http.Get failed *)
  | ErrStatus (code : Z)                   (* FetchContents: status is not 200 *)
  | ErrDecode                              (* FetchContents: body does not decode *)
  | ErrDB                                  (* a statement the database refused *)
  | ErrWrap (what : string) (e : error).   (* fmt.Errorf("...: %w", err) *)

Inductive Result (A : Type) :=
  | Ok (a : A)
  | Err (e : error).
Arguments Ok {A}. Arguments Err {A}.

(** ** Strings and formatting *)

Fixpoint bytes_of_string (s : string) : list Z :=
  match s with
  | EmptyString => []
  | String c s' => Z.of_N (Ascii.N_of_ascii c) :: bytes_of_string s'
  end.

(** The verb %d of fmt. *)
Definition itoa (z : Z) : string := NilZero.string_of_int (Z.to_int z).

Definition is_digit (c : Ascii.ascii) : bool :=
  let n := Ascii.N_of_ascii c in (48 <=? n)%N && (n <=? 57)%N.

Fixpoint digits_value (acc : Z) (s : string) : option Z :=
  match s with
  | EmptyString => Some acc
  | String c s' =>
      if is_digit c
      then digits_value (10 * acc + (Z.of_N (Ascii.N_of_ascii c) - 48)) s'
      else None
  end.

(** strconv.Atoi with its error dropped, as the handler calls it: 0 on a
    syntax error, the nearest int64 on a range error. *)
Definition Atoi (s : string) : Z :=
  let '(neg, ds) :=
    match s with
    | String "-"%char s' => (true, s')
    | String "+"%char s' => (false, s')
    | _ => (false, s)
    end in
  match ds with
  | EmptyString => 0
  | _ =>
      match digits_value 0 ds with
      | None => 0
      | Some v =>
          let v := if neg : bool then - v else v in
          Z.max minInt64 (Z.min maxInt64 v)
      end
  end.

(** ** crypto/md5 (RFC 1321), on bytes as numbers below 256 *)

Definition add32 (x y : Z) : Z := (x + y) mod 2 ^ 32.
Definition not32 (x : Z) : Z := Z.lxor x 0xffffffff.
Definition rotl32 (x c : Z) : Z :=
  Z.lor (Z.shiftl x c mod 2 ^ 32) (Z.shiftr x (32 - c)).

Definition md5_shift : list Z :=
  [7; 12; 17; 22; 7; 12; 17; 22; 7; 12; 17; 22; 7; 12; 17; 22;
   5; 9; 14; 20; 5; 9; 14; 20; 5; 9; 14; 20; 5; 9; 14; 20;
   4; 11; 16; 23; 4; 11; 16; 23; 4; 11; 16; 23; 4; 11; 16; 23;
   6; 10; 15; 21; 6; 10; 15; 21; 6; 10; 15; 21; 6; 10; 15; 21].

Definition md5_table : list Z :=
  [0xd76aa478; 0xe8c7b756; 0x242070db; 0xc1bdceee; 0xf57c0faf; 0x4787c62a;
   0xa8304613; 0xfd469501; 0x698098d8; 0x8b44f7af; 0xffff5bb1; 0x895cd7be;
   0x6b901122; 0xfd987193; 0xa679438e; 0x49b40821; 0xf61e2562; 0xc040b340;
   0x265e5a51; 0xe9b6c7aa; 0xd62f105d; 0x02441453; 0xd8a1e681; 0xe7d3fbc8;
   0x21e1cde6; 0xc33707d6; 0xf4d50d87; 0x455a14ed; 0xa9e3e905; 0xfcefa3f8;
   0x676f02d9; 0x8d2a4c8a; 0xfffa3942; 0x8771f681; 0x6d9d6122; 0xfde5380c;
   0xa4beea44; 0x4bdecfa9; 0xf6bb4b60; 0xbebfbc70; 0x289b7ec6; 0xeaa127fa;
   0xd4ef3085; 0x04881d05; 0xd9d4d039; 0xe6db99e5; 0x1fa27cf8; 0xc4ac5665;
   0xf4292244; 0x432aff97; 0xab9423a7; 0xfc93a039; 0x655b59c3; 0x8f0ccc92;
   0xffeff47d; 0x85845dd1; 0x6fa87e4f; 0xfe2ce6e0; 0xa3014314; 0x4e0811a1;
   0xf7537e82; 0xbd3af235; 0x2ad7d2bb; 0xeb86d391].

Definition md5_state : Type := Z * Z * Z * Z.
Definition md5_init : md5_state :=
  (0x67452301, 0xefcdab89, 0x98badcfe, 0x10325476).

Definition md5_step (M : list Z) (st : md5_state) (i : nat) : md5_state :=
  let '(A, B, C, D) := st in
  let '(f, g) :=
    if (i <? 16)%nat then (Z.lor (Z.land B C) (Z.land (not32 B) D), i)
    else if (i <? 32)%nat
    then (Z.lor (Z.land D B) (Z.land (not32 D) C), ((5 * i + 1) mod 16)%nat)
    else if (i <? 48)%nat
    then (Z.lxor (Z.lxor B C) D, ((3 * i + 5) mod 16)%nat)
    else (Z.lxor C (Z.lor B (not32 D)), ((7 * i) mod 16)%nat) in
  let f' := add32 (add32 (add32 f A) (md5_table !!! i)) (M !!! g) in
  (D, add32 B (rotl32 f' (md5_shift !!! i)), B, C).

Definition le32 (bs : list Z) : Z := foldr (fun b acc => b + 256 * acc) 0 bs.

Fixpoint words (n : nat) (bs : list Z) : list Z :=
  match n with
  | O => []
  | S n' => le32 (take 4 bs) :: words n' (drop 4 bs)
  end.

Definition md5_block (st : md5_state) (block : list Z) : md5_state :=
  let '(a0, b0, c0, d0) := st in
  let '(A, B, C, D) := foldl (md5_step (words 16 block)) st (seq 0 64) in
  (add32 a0 A, add32 b0 B, add32 c0 C, add32 d0 D).

Fixpoint blocks (n : nat) (bs : list Z) : list (list Z) :=
  match n with
  | O => []
  | S n' => take 64 bs :: blocks n' (drop 64 bs)
  end.

Definition le_bytes (n : nat) (w : Z) : list Z :=
  (fun k => Z.shiftr w (8 * Z.of_nat k) mod 256) <$> seq 0 n.

Definition md5_pad (msg : list Z) : list Z :=
  let len := Z.of_nat (length msg) in
  let zeros := Z.to_nat ((55 - len) mod 64) in
  msg ++ [0x80] ++ replicate zeros 0 ++ le_bytes 8 ((8 * len) mod 2 ^ 64).

Definition md5_digest (msg : list Z) : md5_state :=
  let padded := md5_pad msg in
  foldl md5_block md5_init (blocks (length padded / 64) padded).

Definition state_bytes (st : md5_state) : list Z :=
  let '(a, b, c, d) := st in
  le_bytes 4 a ++ le_bytes 4 b ++ le_bytes 4 c ++ le_bytes 4 d.

(** md5.Sum: the sixteen bytes of the digest. *)
Definition md5_Sum (msg : list Z) : list Z := state_bytes (md5_digest msg).

(** The verb %x of fmt on a byte array: two lower-case digits a byte. *)
Definition hex_digit (n : Z) : Ascii.ascii :=
  Ascii.ascii_of_N (Z.to_N (if n <? 10 then 48 + n else 87 + n)).
Definition hex_byte (b : Z) : string :=
  String (hex_digit (b / 16)) (String (hex_digit (b mod 16)) "").
Definition hex (bs : list Z) : string :=
  foldr (fun b acc => hex_byte b +:+ acc) "" bs.

(** ** Search use case (internal/application/usecase) *)

Record SearchParams := {
  Query : string;
  sp_ContentType : ContentType;
  SortBy : string;
  Page : Z;         (* int *)
  PageSize : Z      (* int *)
}.

Record Pagination := {
  pg_Page : Z;
  pg_PageSize : Z;
  TotalItems : Z;   (* int64 *)
  TotalPages : Z    (* int64 *)
}.

Record SearchResult := {
  Items : list (Content float);
  sr_Pagination : Pagination
}.

(** validateParams: the parameters after defaulting and clamping, or the
    validation error. The Go function updates the parameters in place and
    returns the error; the updates made before a rejection are lost with the
    caller's copy. *)
Definition validateParams (params : SearchParams) : Result SearchParams :=
  let page := if Page params <? 1 then 1 else Page params in
  let pageSize := if PageSize params <? 1 then 20 else PageSize params in
  let pageSize := if 50 <? pageSize then 50 else pageSize in
  let sortBy := if String.eqb (SortBy params) "" then "popularity" else SortBy params in
  if negb (String.eqb sortBy "popularity") && negb (String.eqb sortBy "relevance")
  then Err (ErrInvalidSortBy sortBy)
  else if negb (String.eqb (sp_ContentType params) "")
          && negb (String.eqb (sp_ContentType params) ContentTypeVideo)
          && negb (String.eqb (sp_ContentType params) ContentTypeArticle)
  then Err (ErrInvalidContentType (sp_ContentType params))
  else Ok {| Query := Query params;
             sp_ContentType := sp_ContentType params;
             SortBy := sortBy;
             Page := page;
             PageSize := pageSize |}.

(** fmt.Sprintf("search:%s:%s:%s:%d:%d", ...): the string that is hashed. *)
Definition cacheKeyString (params : SearchParams) : string :=
  "search:" +:+ Query params +:+ ":" +:+ sp_ContentType params +:+ ":"
  +:+ SortBy params +:+ ":" +:+ itoa (Page params) +:+ ":" +:+ itoa (PageSize params).

Definition generateCacheKey (params : SearchParams) : string :=
  "search:" +:+ hex (md5_Sum (bytes_of_string (cacheKeyString params))).

(** The result cache: a key holds the JSON of a result, or bytes that do not
    decode as one. *)
Inductive cached :=
  | Encoded (r : SearchResult)
  | Garbage.

(** What the cache server does during one request: whether Get answers and
    whether the result is marshalled and Set stores it. *)
Record CacheEnv := { get_ok : bool; set_ok : bool }.

Section Execute.
Variable repo_Search : SearchParams -> Result (list (Content float) * Z).
Variable env : CacheEnv.

Definition Execute (cache : gmap string cached) (params : SearchParams)
  : Result SearchResult * gmap string cached :=
  match validateParams params with
  | Err e => (Err e, cache)
  | Ok params =>
      let cacheKey := generateCacheKey params in
      let hit :=
        if get_ok env then
          match cache !! cacheKey with
          | Some (Encoded r) => Some r
          | _ => None
          end
        else None in
      match hit with
      | Some r => (Ok r, cache)
      | None =>
          match repo_Search params with
          | Err e => (Err (ErrSearch e), cache)
          | Ok (contents, total) =>
              let result :=
                {| Items := contents;
                   sr_Pagination :=
                     {| pg_Page := Page params;
                        pg_PageSize := PageSize params;
                        TotalItems := total;
                        TotalPages :=
                          wrap64 (Z.quot (wrap64 (total + PageSize params - 1))
                                         (PageSize params)) |} |} in
              (Ok result,
               if set_ok env then <[cacheKey := Encoded result]> cache else cache)
          end
      end
  end.

(** *** HTTP handler (internal/transport/http) *)

(** The query string of a request: r.URL.Query().Get(name) for each name the
    handler reads; an absent parameter reads as the empty string. *)
Record Request := {
  q_query : string;
  q_type : string;
  q_sort : string;
  q_page : string;
  q_page_size : string
}.

Inductive ResponseBody :=
  | ErrorBody (message : error)     (* {"error": err.Error()} *)
  | ResultBody (r : SearchResult).

Record Response := { status : Z; body : ResponseBody }.

Definition StatusOK : Z := 200.
Definition StatusBadRequest : Z := 400.
Definition StatusInternalServerError : Z := 500.

Definition HandleSearch (cache : gmap string cached) (r : Request)
  : Response * gmap string cached :=
  let sortBy := if String.eqb (q_sort r) "" then "popularity" else q_sort r in
  let page := Atoi (q_page r) in
  let page := if page <? 1 then 1 else page in
  let pageSize := Atoi (q_page_size r) in
  let pageSize := if pageSize <? 1 then 20 else pageSize in
  let params := {| Query := q_query r; sp_ContentType := q_type r;
                   SortBy := sortBy; Page := page; PageSize := pageSize |} in
  match Execute cache params with
  | (Err e, cache') =>
      ({| status := StatusInternalServerError; body := ErrorBody e |}, cache')
  | (Ok result, cache') =>
      ({| status := StatusOK; body := ResultBody result |}, cache')
  end.
End Execute.

(** *** Specification of the search use case *)

Definition no_search : SearchParams -> Result (list (Content float) * Z) :=
  fun _ => Ok ([], 0).
Definition cache_up : CacheEnv := {| get_ok := true; set_ok := true |}.

(** The ceiling of a/b for a positive b, by floor division. *)
Definition ceil_div (a b : Z) : Z := - ((- a) / b).

(** The envelope of a search with the validated parameters [v]: their page
    and page size, a row count that leaves room for the rounding-up
    addition in int64, and the ceiling of the row count over the page size
    as the number of pages. *)
Definition envelope_of (v : SearchParams) (r : SearchResult) : Prop :=
  let p := sr_Pagination r in
  pg_Page p = Page v /\ pg_PageSize p = PageSize v /\
  0 <= TotalItems p <= maxInt64 - 49 /\
  TotalPages p = ceil_div (TotalItems p) (pg_PageSize p).

(** What the cache holds when only Execute writes to it: under a key, the
    envelope of a search whose validated parameters have that key. *)
Definition cache_ok (cache : gmap string cached) : Prop :=
  forall k r, cache !! k = Some (Encoded r) ->
    exists v, validateParams v = Ok v /\ generateCacheKey v = k /\ envelope_of v r.

(** The repository reports a row count that leaves room for the rounding-up
    addition in int64. *)
Definition repo_counts (repo : SearchParams -> Result (list (Content float) * Z)) : Prop :=
  forall p items total, repo p = Ok (items, total) -> 0 <= total <= maxInt64 - 49.

(** *** Specification of the cache key *)

(** The number of colons in a string. *)
Fixpoint count_colon (s : string) : nat :=
  match s with
  | EmptyString => 0
  | String c s' => (if Ascii.eqb c ":" then 1 else 0) + count_colon s'
  end.

Definition is_byte (b : Z) : Prop := 0 <= b < 256.

Definition word32 (w : Z) : Prop := 0 <= w < 2 ^ 32.

Definition state_range (st : md5_state) : Prop :=
  let '(a, b, c, d) := st in word32 a /\ word32 b /\ word32 c /\ word32 d.

Definition state_num (st : md5_state) : Z :=
  let '(a, b, c, d) := st in a + 2 ^ 32 * (b + 2 ^ 32 * (c + 2 ^ 32 * d)).

(** A family of validated parameter sets, one per natural number. *)
Definition probe (n : nat) : SearchParams :=
  {| Query := itoa (Z.of_nat n); sp_ContentType := ""; SortBy := "popularity";
     Page := 1; PageSize := 20 |}.

Definition raw_go : SearchParams :=
  {| Query := "go"; sp_ContentType := ""; SortBy := ""; Page := 0; PageSize := 100 |}.
Definition valid_go (page : Z) : SearchParams :=
  {| Query := "go"; sp_ContentType := ""; SortBy := "popularity";
     Page := page; PageSize := 50 |}.

(** ** Strings as UTF-8 (packages unicode/utf8, unicode and strings)

    A Go string is a string of bytes; the functions of package strings
    that the program calls read it as UTF-8, rune by rune. *)

Definition byte_string (bs : list Z) : string :=
  foldr (fun b s => String (ascii_of_N (Z.to_N b)) s) EmptyString bs.

Definition RuneError : Z := 0xFFFD.

(** utf8.AppendRune: the encoding of a code point, or of U+FFFD when the
    number is none (negative, a surrogate, beyond U+10FFFF). *)
Definition utf8 (r : Z) : list Z :=
  if (r <? 0) || (0x10FFFF <? r) || ((0xD800 <=? r) && (r <=? 0xDFFF))
  then [0xEF; 0xBF; 0xBD]
  else if r <? 0x80 then [r]
  else if r <? 0x800 then [Z.lor 0xC0 (Z.shiftr r 6); Z.lor 0x80 (Z.land r 0x3F)]
  else if r <? 0x10000
  then [Z.lor 0xE0 (Z.shiftr r 12); Z.lor 0x80 (Z.land (Z.shiftr r 6) 0x3F);
        Z.lor 0x80 (Z.land r 0x3F)]
  else [Z.lor 0xF0 (Z.shiftr r 18); Z.lor 0x80 (Z.land (Z.shiftr r 12) 0x3F);
        Z.lor 0x80 (Z.land (Z.shiftr r 6) 0x3F); Z.lor 0x80 (Z.land r 0x3F)].

Definition continuation (lo hi b : Z) : bool := (lo <=? b) && (b <=? hi).

(** utf8.DecodeRuneInString: the first rune of the bytes and its width. A
    first byte that starts no encoding, a missing byte or a byte outside the
    range that the first byte accepts gives (RuneError, 1); no byte at all
    gives (RuneError, 0). The ranges exclude the encodings that are too
    long, the surrogates and what is beyond U+10FFFF. *)
Definition DecodeRune (bs : list Z) : Z * nat :=
  match bs with
  | [] => (RuneError, 0%nat)
  | b0 :: rest =>
      if b0 <? 0x80 then (b0, 1%nat)
      else if (0xC2 <=? b0) && (b0 <=? 0xDF) then
        match rest with
        | b1 :: _ =>
            if continuation 0x80 0xBF b1
            then (Z.lor (Z.shiftl (Z.land b0 0x1F) 6) (Z.land b1 0x3F), 2%nat)
            else (RuneError, 1%nat)
        | _ => (RuneError, 1%nat)
        end
      else if (0xE0 <=? b0) && (b0 <=? 0xEF) then
        match rest with
        | b1 :: b2 :: _ =>
            if continuation (if b0 =? 0xE0 then 0xA0 else 0x80)
                            (if b0 =? 0xED then 0x9F else 0xBF) b1
               && continuation 0x80 0xBF b2
            then (Z.lor (Z.shiftl (Z.land b0 0x0F) 12)
                    (Z.lor (Z.shiftl (Z.land b1 0x3F) 6) (Z.land b2 0x3F)), 3%nat)
            else (RuneError, 1%nat)
        | _ => (RuneError, 1%nat)
        end
      else if (0xF0 <=? b0) && (b0 <=? 0xF4) then
        match rest with
        | b1 :: b2 :: b3 :: _ =>
            if continuation (if b0 =? 0xF0 then 0x90 else 0x80)
                            (if b0 =? 0xF4 then 0x8F else 0xBF) b1
               && continuation 0x80 0xBF b2 && continuation 0x80 0xBF b3
            then (Z.lor (Z.shiftl (Z.land b0 0x07) 18)
                    (Z.lor (Z.shiftl (Z.land b1 0x3F) 12)
                       (Z.lor (Z.shiftl (Z.land b2 0x3F) 6) (Z.land b3 0x3F))), 4%nat)
            else (RuneError, 1%nat)
        | _ => (RuneError, 1%nat)
        end
      else (RuneError, 1%nat)
  end.

(** utf8.RuneStart: the byte is no continuation byte. *)
Definition RuneStart (b : Z) : bool := negb (Z.land b 0xC0 =? 0x80).

(** utf8.DecodeLastRuneInString: the last rune of the bytes and its width.
    From the byte before the last, the function goes back to the nearest
    byte that can start a rune, over at most four bytes of the string, and
    decodes from there; a rune that does not end with the string gives
    (RuneError, 1). *)
Definition DecodeLastRune (bs : list Z) : Z * nat :=
  let n := length bs in
  match last bs with
  | None => (RuneError, 0%nat)
  | Some b =>
      if b <? 0x80 then (b, 1%nat)
      else
        let lim := (n - 4)%nat in
        let starts (k : nat) : bool :=
          (lim + k <=? n)%nat
          && match bs !! (n - k)%nat with
             | Some b' => RuneStart b'
             | None => false
             end in
        let start := if starts 2%nat then (n - 2)%nat
                     else if starts 3%nat then (n - 3)%nat
                     else if starts 4%nat then (n - 4)%nat
                     else (lim - 1)%nat in
        let '(r, size) := DecodeRune (drop start bs) in
        if (start + size =? n)%nat then (r, size) else (RuneError, 1%nat)
  end.

(** unicode.IsSpace: the white space of Latin-1 and the characters of the
    property White_Space beyond it. *)
Definition IsSpace (r : Z) : bool :=
  ((0x09 <=? r) && (r <=? 0x0D)) || (r =? 0x20) || (r =? 0x85) || (r =? 0xA0)
  || (r =? 0x1680) || ((0x2000 <=? r) && (r <=? 0x200A)) || (r =? 0x2028) || (r =? 0x2029)
  || (r =? 0x202F) || (r =? 0x205F) || (r =? 0x3000).

(** strings.TrimLeftFunc and strings.TrimRightFunc: the runes at the start,
    or at the end, that satisfy [f] are dropped. Every turn drops a byte at
    least, so that [fuel] is enough when it is the length of the bytes. *)
Fixpoint TrimLeftFunc (f : Z -> bool) (fuel : nat) (bs : list Z) : list Z :=
  match fuel with
  | O => bs
  | S fuel' =>
      match bs with
      | [] => []
      | _ => let '(r, size) := DecodeRune bs in
             if f r then TrimLeftFunc f fuel' (drop size bs) else bs
      end
  end.

Fixpoint TrimRightFunc (f : Z -> bool) (fuel : nat) (bs : list Z) : list Z :=
  match fuel with
  | O => bs
  | S fuel' =>
      match bs with
      | [] => []
      | _ => let '(r, size) := DecodeLastRune bs in
             if f r then TrimRightFunc f fuel' (take (length bs - size) bs) else bs
      end
  end.

(** strings.TrimSpace: the white space at both ends is dropped. (The
    function has a fast path for the white space of ASCII, with the same
    result.) *)
Definition TrimSpace (s : string) : string :=
  let bs := bytes_of_string s in
  byte_string (TrimRightFunc IsSpace (length bs) (TrimLeftFunc IsSpace (length bs) bs)).

(** The runes of a string as [for _, c := range s] gives them: a byte that
    does not decode is the rune U+FFFD of width 1. *)
Fixpoint runes (fuel : nat) (bs : list Z) : list Z :=
  match fuel with
  | O => []
  | S fuel' =>
      match bs with
      | [] => []
      | _ => let '(r, size) := DecodeRune bs in r :: runes fuel' (drop size bs)
      end
  end.

(** strings.Map: every rune is replaced by the encoding of what [mapping]
    makes of it, and dropped when that is negative. *)
Definition Map (mapping : Z -> Z) (s : string) : string :=
  let bs := bytes_of_string s in
  byte_string
    (concat ((fun c => let r := mapping c in if r <? 0 then [] else utf8 r)
             <$> runes (length bs) bs)).

(** The white space and the capital letters of ASCII, as bytes. *)
Definition is_space (c : ascii) : bool :=
  let n := N_of_ascii c in ((9 <=? n)%N && (n <=? 13)%N) || (n =? 32)%N.

Definition lower (c : ascii) : ascii :=
  let n := N_of_ascii c in
  if (65 <=? n)%N && (n <=? 90)%N then ascii_of_N (n + 32) else c.

Fixpoint lower_ascii (s : string) : string :=
  match s with
  | EmptyString => EmptyString
  | String c s' => String (lower c) (lower_ascii s')
  end.

Fixpoint is_ascii (s : string) : bool :=
  match s with
  | EmptyString => true
  | String c s' => (N_of_ascii c <? 128)%N && is_ascii s'
  end.

(** The case tables of Go's package unicode are not part of the program:
    [To_LowerCase] stands for unicode.To(unicode.LowerCase, r) on the runes
    beyond ASCII, and what is proved of ToLower holds whatever the tables
    are. *)
Class CaseTables := { To_LowerCase : Z -> Z }.

(** unicode.ToLower. *)
Definition unicode_ToLower {U : CaseTables} (r : Z) : Z :=
  if r <=? 0x7F then (if (0x41 <=? r) && (r <=? 0x5A) then r + 0x20 else r)
  else To_LowerCase r.

(** strings.ToLower: a string of ASCII has its capital letters replaced,
    byte by byte; any other string is mapped rune by rune. *)
Definition ToLower {U : CaseTables} (s : string) : string :=
  if is_ascii s then lower_ascii s else Map unicode_ToLower s.

(** Tables without an entry. A string of ASCII is lowered without the
    tables being read, so that a run whose strings are ASCII is the run of
    the program with these tables as with any. *)
Definition no_tables : CaseTables := {| To_LowerCase := fun r => r |}.

(** ** Provider clients (internal/infrastructure/provider) *)

(** One decoded page of a feed: the items and the pagination block
    (pagination.total / per_page in JSON, meta.total_count / items_per_page
    in XML). *)
Record FeedPage (Item : Type) := {
  page_items : list Item;
  Total : Z;      (* int *)
  PerPage : Z     (* int *)
}.
Arguments page_items {Item}. Arguments Total {Item}. Arguments PerPage {Item}.

(** What one http.Get gives: an error, or a response with its status and a
    body that decodes to a page or does not. *)
Inductive HttpReply (Item : Type) :=
  | TransportError
  | Reply (status : Z) (body : option (FeedPage Item)).
Arguments TransportError {Item}. Arguments Reply {Item}.

(** One turn of the page loop. *)
Inductive Step :=
  | Stop (r : Result (list NormalizedContent))
  | Next (totalPages : Z) (all : list NormalizedContent).

Section Fetch.
Context {Item : Type}.
Variable normalize : Item -> string -> Result NormalizedContent.
Variable marshal : Item -> string.            (* json.Marshal / xml.Marshal of one item *)
Variable limiter_ok : Z -> bool.              (* limiter.Wait(ctx) before the page *)
Variable server : Z -> nat -> HttpReply Item. (* page, attempt *)

Definition succeeded (r : HttpReply Item) : bool :=
  match r with
  | Reply status _ => status =? 200
  | TransportError => false
  end.

(** The retry loop: three attempts, the first success or else the last reply. *)
Definition get_page (page : Z) : HttpReply Item :=
  let r0 := server page 0 in
  if succeeded r0 then r0 else
  let r1 := server page 1 in
  if succeeded r1 then r1 else server page 2.

Definition normalize_all (items : list Item) : list NormalizedContent :=
  flat_map (fun raw => match normalize raw (marshal raw) with
                       | Ok content => [content]
                       | Err _ => []
                       end) items.

Definition fetch_page (page totalPages : Z) (all : list NormalizedContent) : Step :=
  if negb (limiter_ok page) then Stop (Err (ErrWrap "rate limiter" ErrRateLimiter)) else
  match get_page page with
  | TransportError => Stop (Err (ErrWrap "request" ErrTransport))
  | Reply status body =>
      if negb (status =? 200) then Stop (Err (ErrStatus status)) else
      match body with
      | None => Stop (Err (ErrWrap "parse" ErrDecode))
      | Some response =>
          let totalPages :=
            if (page =? 1) && (0 <? PerPage response)
            then wrap64 (Z.quot (wrap64 (Total response + PerPage response - 1))
                                (PerPage response))
            else totalPages in
          let n := Z.of_nat (length all) in
          if (Total response <=? n) || (1000 <=? n) then Stop (Ok all)
          else Next totalPages (all ++ normalize_all (page_items response))
      end
  end.

(** The loop [for page <= totalPages] from a given page on. The bound on the
    number of pages is fixed by the first page, so the turns that remain are
    counted by [n]. *)
Fixpoint fetch_from (n : nat) (page totalPages : Z) (all : list NormalizedContent)
  : Result (list NormalizedContent) :=
  match n with
  | O => Ok all
  | S n' =>
      if page <=? totalPages then
        match fetch_page page totalPages all with
        | Stop r => r
        | Next totalPages' all' => fetch_from n' (page + 1) totalPages' all'
        end
      else Ok all
  end.

(** FetchContents: page 1 with totalPages = 1, then pages 2 .. totalPages. *)
Definition fetch_all : Result (list NormalizedContent) :=
  match fetch_page 1 1 [] with
  | Stop r => r
  | Next totalPages all => fetch_from (Z.to_nat (totalPages - 1)) 2 totalPages all
  end.
End Fetch.

Record JSONMetrics := {
  jm_Views : Z;
  jm_Likes : Z;
  jm_Duration : string;
  jm_ReadingTime : Z;
  jm_Reactions : Z
}.

Record JSONContent := {
  jc_ID : string;
  jc_Title : string;
  jc_Type : string;
  jc_Metrics : JSONMetrics;
  jc_PublishedAt : string;
  jc_Tags : list string
}.

Record XMLStats := {
  xs_Views : Z;
  xs_Likes : Z;
  xs_ReadingTime : Z;
  xs_Reactions : Z
}.

Record XMLItem := {
  xi_ID : string;
  xi_Title : string;        (* headline *)
  xi_Type : string;
  xi_Stats : XMLStats;
  xi_PubDate : string;      (* publication_date *)
  xi_Categories : list string
}.

Definition new_stats (views likes readingTime reactions : Z) : ContentStats :=
  {| stats_ID := 0; stats_ContentID := 0; Views := views; Likes := likes;
     ReadingTime := readingTime; Reactions := reactions; stats_UpdatedAt := 0 |}.

(** time.Parse for the two layouts the providers use; the layouts are Go's,
    the parsers are parameters of the clients. *)
Record TimeParser := {
  parse_RFC3339 : string -> option Z;   (* time.Parse(time.RFC3339, s) *)
  parse_date : string -> option Z       (* time.Parse("2006-01-02", s) *)
}.

(** The switch on the type of a raw item, the same in both clients. *)
Definition content_type_of (t : string) : option ContentType :=
  if String.eqb t "video" then Some ContentTypeVideo
  else if String.eqb t "article" then Some ContentTypeArticle
  else None.

Module jsonProvider.
Section Client.
Variable time : TimeParser.
Variable marshal : JSONContent -> string.
Variable limiter_ok : Z -> bool.
Variable server : Z -> nat -> HttpReply JSONContent.

Definition normalize (raw : JSONContent) (rawData : string) : Result NormalizedContent :=
  match parse_RFC3339 time (jc_PublishedAt raw) with
  | None => Err (ErrDate (jc_PublishedAt raw))
  | Some publishedAt =>
      match content_type_of (jc_Type raw) with
      | None => Err (ErrType (jc_Type raw))
      | Some contentType =>
          Ok {| ExternalID := jc_ID raw;
                nc_Title := jc_Title raw;
                nc_Description := "";
                nc_ContentType := contentType;
                nc_PublishedAt := publishedAt;
                nc_Stats := new_stats (jm_Views (jc_Metrics raw)) (jm_Likes (jc_Metrics raw))
                              (jm_ReadingTime (jc_Metrics raw)) (jm_Reactions (jc_Metrics raw));
                nc_Tags := jc_Tags raw;
                nc_RawData := rawData |}
      end
  end.

Definition FetchContents : Result (list NormalizedContent) :=
  fetch_all normalize marshal limiter_ok server.
End Client.
End jsonProvider.

Module xmlProvider.
Section Client.
Variable time : TimeParser.
Variable marshal : XMLItem -> string.
Variable limiter_ok : Z -> bool.
Variable server : Z -> nat -> HttpReply XMLItem.

Definition normalize (raw : XMLItem) (rawData : string) : Result NormalizedContent :=
  if String.eqb (xi_ID raw) "" then Err ErrMissingID else
  let published :=
    match parse_RFC3339 time (xi_PubDate raw) with
    | Some t => Some t
    | None => parse_date time (xi_PubDate raw)
    end in
  match published with
  | None => Err (ErrDate (xi_PubDate raw))
  | Some publishedAt =>
      match content_type_of (xi_Type raw) with
      | None => Err (ErrType (xi_Type raw))
      | Some contentType =>
          Ok {| ExternalID := xi_ID raw;
                nc_Title := xi_Title raw;
                nc_Description := "";
                nc_ContentType := contentType;
                nc_PublishedAt := publishedAt;
                nc_Stats := new_stats (xs_Views (xi_Stats raw)) (xs_Likes (xi_Stats raw))
                              (xs_ReadingTime (xi_Stats raw)) (xs_Reactions (xi_Stats raw));
                nc_Tags := xi_Categories raw;
                nc_RawData := rawData |}
      end
  end.

Definition FetchContents : Result (list NormalizedContent) :=
  fetch_all normalize marshal limiter_ok server.
End Client.
End xmlProvider.

(** *** A clock and feeds to run the clients on *)

(** Days from 1970-01-01 to a date of the proleptic Gregorian calendar. *)
Definition days_from_civil (y m d : Z) : Z :=
  let y := if m <=? 2 then y - 1 else y in
  let era := y / 400 in
  let yoe := y - era * 400 in
  let doy := (153 * (if 2 <? m then m - 3 else m + 9) + 2) / 5 + d - 1 in
  let doe := yoe * 365 + yoe / 4 - yoe / 100 + doy in
  era * 146097 + doe - 719468.

Definition field (s : string) (from len : nat) : option Z :=
  let f := String.substring from len s in
  if Nat.eqb (String.length f) len then digits_value 0 f else None.

Definition char_at (s : string) (i : nat) (c : string) : bool :=
  String.eqb (String.substring i 1 s) c.

Definition parse_ymd (s : string) : option Z :=
  y ← field s 0 4; m ← field s 5 2; d ← field s 8 2;
  if char_at s 4 "-" && char_at s 7 "-" && (1 <=? m) && (m <=? 12) && (1 <=? d) && (d <=? 31)
  then Some (days_from_civil y m d) else None.

(** The UTC, whole-second form of RFC 3339 (2024-01-01T12:00:00Z) and the
    date form 2024-01-01, in nanoseconds since the epoch. *)
Definition utc_parser : TimeParser :=
  {| parse_RFC3339 := fun s =>
       if Nat.eqb (String.length s) 20 && char_at s 10 "T" && char_at s 13 ":"
          && char_at s 16 ":" && char_at s 19 "Z"
       then
         days ← parse_ymd s; h ← field s 11 2; mi ← field s 14 2; sec ← field s 17 2;
         if (h <? 24) && (mi <? 60) && (sec <? 60)
         then Some ((days * 86400 + h * 3600 + mi * 60 + sec) * 1000000000) else None
       else None;
     parse_date := fun s =>
       if Nat.eqb (String.length s) 10
       then days ← parse_ymd s; Some (days * 86400 * 1000000000)
       else None |}.

Definition json_item (id : string) : JSONContent :=
  {| jc_ID := id; jc_Title := "Go Tutorial"; jc_Type := "video";
     jc_Metrics := {| jm_Views := 1000; jm_Likes := 500; jm_Duration := "10m";
                      jm_ReadingTime := 0; jm_Reactions := 0 |};
     jc_PublishedAt := "2024-01-01T12:00:00Z"; jc_Tags := ["go"; "tutorial"] |}.

Definition xml_item (id : string) : XMLItem :=
  {| xi_ID := id; xi_Title := "Go Tutorial"; xi_Type := "article";
     xi_Stats := {| xs_Views := 0; xs_Likes := 0; xs_ReadingTime := 5; xs_Reactions := 100 |};
     xi_PubDate := "2024-01-01"; xi_Categories := ["go"] |}.

(** A feed that serves [items] in pages of [perPage], as the mock API of the
    repository does, every request answered 200 at the first attempt. *)
Definition paged_feed {Item} (items : list Item) (perPage : Z)
  : Z -> nat -> HttpReply Item :=
  fun page _ =>
    Reply 200 (Some {| page_items :=
                         take (Z.to_nat perPage) (drop (Z.to_nat ((page - 1) * perPage)) items);
                       Total := Z.of_nat (length items);
                       PerPage := perPage |}).

Definition numbered_items (n : nat) : list JSONContent :=
  (fun i => json_item (itoa (Z.of_nat i))) <$> seq 1 n.

Definition result_length {A} (r : Result (list A)) : option nat :=
  match r with
  | Ok l => Some (length l)
  | Err _ => None
  end.

Definition result_ids (r : Result (list NormalizedContent)) : option (list string) :=
  match r with
  | Ok l => Some (ExternalID <$> l)
  | Err _ => None
  end.

(** ** The database (migrations) and its clock

    A table is a finite map from its unique key to the rest of the row:
    contents by (provider_id, provider_content_id), content_stats and
    content_scores by content_id, tags by name, content_tags by
    (content_id, tag_id). The SERIAL counters are kept beside the tables:
    a sequence is advanced by every INSERT that is tried, and is not part of
    what a transaction rolls back. *)

Record ContentRow := {
  row_id : Z;
  row_title : string;
  row_description : string;
  row_content_type : ContentType;
  row_published_at : Z;
  row_created_at : Z;
  row_updated_at : Z;
  row_raw_data : string;
  row_deleted : Z
}.

Record StatsRow := {
  st_id : Z;
  st_views : Z;
  st_likes : Z;
  st_reading_time : Z;
  st_reactions : Z;
  st_updated_at : Z
}.

Record ScoreRow := {
  sc_id : Z;
  sc_base_score : float;
  sc_type_weight : float;
  sc_recency_score : float;
  sc_engagement_score : float;
  sc_final_score : float;
  sc_calculated_at : Z
}.

Record TagRow := { tg_id : Z; tg_created_at : Z }.

Record DB := {
  contents : gmap (Z * string) ContentRow;
  content_stats : gmap Z StatsRow;
  content_scores : gmap Z ScoreRow;
  tags : gmap string TagRow;
  content_tags : gmap (Z * Z) Z;     (* created_at *)
  contents_seq : Z;
  stats_seq : Z;
  scores_seq : Z;
  tags_seq : Z
}.

Definition empty_db : DB :=
  {| contents := ∅; content_stats := ∅; content_scores := ∅; tags := ∅;
     content_tags := ∅; contents_seq := 0; stats_seq := 0; scores_seq := 0;
     tags_seq := 0 |}.

(** The five tables, without the sequences. *)
Definition tables (d : DB) :=
  (contents d, content_stats d, content_scores d, tags d, content_tags d).

(** What a ROLLBACK restores: the tables as they were, the sequences as they are. *)
Definition restore (before now : DB) : DB :=
  {| contents := contents before; content_stats := content_stats before;
     content_scores := content_scores before; tags := tags before;
     content_tags := content_tags before; contents_seq := contents_seq now;
     stats_seq := stats_seq now; scores_seq := scores_seq now;
     tags_seq := tags_seq now |}.

(** What the environment does to one statement: the time that passes before
    the database runs it, and whether the database refuses it (a constraint,
    a lost connection, a cancelled context). The constraints of the schema
    (foreign keys, CHECK, column widths) are not evaluated: a violation is
    one of the refusals, so what holds for all events holds with them. The
    runs on concrete data further down violate none. *)
Record Event := { delay : N; fault : bool }.

Record World := {
  db : DB;
  clock : Z;                 (* the one clock of time.Now() and CURRENT_TIMESTAMP *)
  pending : list Event       (* the events of the statements to come *)
}.

(** State and error: a computation returns a result and the next world. *)
Definition M (A : Type) : Type := World -> Result A * World.

Definition ret {A} (a : A) : M A := fun w => (Ok a, w).

Definition bind {A B} (m : M A) (k : A -> M B) : M B :=
  fun w => match m w with
           | (Ok a, w') => k a w'
           | (Err e, w') => (Err e, w')
           end.

Notation "x <- m ;; k" := (bind m (fun x => k))
  (at level 100, m at next level, right associativity).

(** fmt.Errorf("what: %w", err) on the error path. *)
Definition wrap_err {A} (what : string) (m : M A) : M A :=
  fun w => match m w with
           | (Err e, w') => (Err (ErrWrap what e), w')
           | r => r
           end.

(** The error is logged and the caller goes on. *)
Definition logged {A} (m : M A) : M unit :=
  fun w => (Ok tt, snd (m w)).

(** time.Now(). *)
Definition time_Now : M Z := fun w => (Ok (clock w), w).

Definition next_event (w : World) : Event * list Event :=
  match pending w with
  | [] => ({| delay := 0; fault := false |}, [])
  | ev :: rest => (ev, rest)
  end.

(** One SQL statement: [run] is given CURRENT_TIMESTAMP and the database. *)
Definition statement {A} (run : Z -> DB -> A * DB) : M A :=
  fun w =>
    let '(ev, rest) := next_event w in
    let t := clock w + Z.of_N (delay ev) in
    if fault ev then (Err ErrDB, {| db := db w; clock := t; pending := rest |})
    else let '(a, d) := run t (db w) in
         (Ok a, {| db := d; clock := t; pending := rest |}).

(** ** Repository (internal/infrastructure/repository) *)

Definition set_contents (d : DB) (c : gmap (Z * string) ContentRow) (seq : Z) : DB :=
  {| contents := c; content_stats := content_stats d;
     content_scores := content_scores d; tags := tags d;
     content_tags := content_tags d; contents_seq := seq;
     stats_seq := stats_seq d; scores_seq := scores_seq d; tags_seq := tags_seq d |}.

Definition set_content_stats (d : DB) (s : gmap Z StatsRow) (seq : Z) : DB :=
  {| contents := contents d; content_stats := s;
     content_scores := content_scores d; tags := tags d;
     content_tags := content_tags d; contents_seq := contents_seq d;
     stats_seq := seq; scores_seq := scores_seq d; tags_seq := tags_seq d |}.

Definition set_content_scores (d : DB) (s : gmap Z ScoreRow) (seq : Z) : DB :=
  {| contents := contents d; content_stats := content_stats d;
     content_scores := s; tags := tags d;
     content_tags := content_tags d; contents_seq := contents_seq d;
     stats_seq := stats_seq d; scores_seq := seq; tags_seq := tags_seq d |}.

Definition set_tags (d : DB) (t : gmap string TagRow) (seq : Z) : DB :=
  {| contents := contents d; content_stats := content_stats d;
     content_scores := content_scores d; tags := t;
     content_tags := content_tags d; contents_seq := contents_seq d;
     stats_seq := stats_seq d; scores_seq := scores_seq d; tags_seq := seq |}.

Definition set_content_tags (d : DB) (t : gmap (Z * Z) Z) : DB :=
  {| contents := contents d; content_stats := content_stats d;
     content_scores := content_scores d; tags := tags d;
     content_tags := t; contents_seq := contents_seq d;
     stats_seq := stats_seq d; scores_seq := scores_seq d; tags_seq := tags_seq d |}.

Definition with_row (content : Content float) (id created updated : Z) : Content float :=
  {| ID := id; ProviderID := ProviderID content;
     ProviderContentID := ProviderContentID content; Title := Title content;
     Description := Description content; content_Type := content_Type content;
     PublishedAt := PublishedAt content; CreatedAt := created; UpdatedAt := updated;
     Stats := Stats content; Score := Score content; Tags := Tags content;
     RelevanceScore := RelevanceScore content; RawData := RawData content;
     Deleted := Deleted content |}.

(** Upsert: INSERT .. ON CONFLICT (provider_id, provider_content_id) DO
    UPDATE SET title, description, content_type, published_at, raw_data,
    deleted = 0 RETURNING id, created_at, updated_at. On the update path the
    trigger update_contents_updated_at sets updated_at to CURRENT_TIMESTAMP.
    The content comes back with the three returned columns scanned in. *)
Definition Upsert (content : Content float) : M (Content float) :=
  statement (fun t d =>
    let key := (ProviderID content, ProviderContentID content) in
    let fresh := contents_seq d + 1 in
    let '(id, created) :=
      match contents d !! key with
      | Some old => (row_id old, row_created_at old)
      | None => (fresh, t)
      end in
    let row := {| row_id := id; row_title := Title content;
                  row_description := Description content;
                  row_content_type := content_Type content;
                  row_published_at := PublishedAt content;
                  row_created_at := created; row_updated_at := t;
                  row_raw_data := RawData content; row_deleted := 0 |} in
    (with_row content id created t, set_contents d (<[key := row]> (contents d)) fresh)).

(** CreateOrUpdateStats: upsert on content_id, RETURNING id, updated_at. *)
Definition CreateOrUpdateStats (stats : ContentStats) : M ContentStats :=
  statement (fun t d =>
    let fresh := stats_seq d + 1 in
    let id := match content_stats d !! stats_ContentID stats with
              | Some old => st_id old
              | None => fresh
              end in
    let row := {| st_id := id; st_views := Views stats; st_likes := Likes stats;
                  st_reading_time := ReadingTime stats; st_reactions := Reactions stats;
                  st_updated_at := t |} in
    ({| stats_ID := id; stats_ContentID := stats_ContentID stats;
        Views := Views stats; Likes := Likes stats; ReadingTime := ReadingTime stats;
        Reactions := Reactions stats; stats_UpdatedAt := t |},
     set_content_stats d (<[stats_ContentID stats := row]> (content_stats d)) fresh)).

(** CreateOrUpdateScore: upsert on content_id, RETURNING id, calculated_at. *)
Definition CreateOrUpdateScore (score : ContentScore float) : M (ContentScore float) :=
  statement (fun t d =>
    let fresh := scores_seq d + 1 in
    let id := match content_scores d !! score_ContentID score with
              | Some old => sc_id old
              | None => fresh
              end in
    let row := {| sc_id := id; sc_base_score := BaseScore score;
                  sc_type_weight := TypeWeight score;
                  sc_recency_score := RecencyScore score;
                  sc_engagement_score := EngagementScore score;
                  sc_final_score := FinalScore score; sc_calculated_at := t |} in
    ({| score_ID := id; score_ContentID := score_ContentID score;
        BaseScore := BaseScore score; TypeWeight := TypeWeight score;
        RecencyScore := RecencyScore score; EngagementScore := EngagementScore score;
        FinalScore := FinalScore score; CalculatedAt := t |},
     set_content_scores d (<[score_ContentID score := row]> (content_scores d)) fresh)).

(** The name a tag is stored under. *)
Definition tag_name {U : CaseTables} (tagName : string) : string :=
  ToLower (TrimSpace tagName).

(** INSERT INTO tags (name) VALUES ($1) ON CONFLICT (name) DO UPDATE SET
    name = EXCLUDED.name RETURNING id; [tx] is the time of the transaction. *)
Definition insert_tag (tx : Z) (name : string) : M Z :=
  statement (fun _ d =>
    let fresh := tags_seq d + 1 in
    match tags d !! name with
    | Some row => (tg_id row, set_tags d (tags d) fresh)
    | None => (fresh, set_tags d (<[name := {| tg_id := fresh; tg_created_at := tx |}]> (tags d)) fresh)
    end).

(** INSERT INTO content_tags (content_id, tag_id) .. ON CONFLICT DO NOTHING. *)
Definition insert_content_tag (tx contentID tagID : Z) : M unit :=
  statement (fun _ d =>
    match content_tags d !! (contentID, tagID) with
    | Some _ => (tt, d)
    | None => (tt, set_content_tags d (<[(contentID, tagID) := tx]> (content_tags d)))
    end).

Fixpoint add_tags_loop {U : CaseTables} (tx contentID : Z) (names : list string) : M unit :=
  match names with
  | [] => ret tt
  | tagName :: rest =>
      tagID <- insert_tag tx (ToLower (TrimSpace tagName)) ;;
      _ <- insert_content_tag tx contentID tagID ;;
      add_tags_loop tx contentID rest
  end.

Definition BeginTx : M Z := statement (fun t d => (t, d)).
Definition Commit : M unit := statement (fun _ d => (tt, d)).

(** The deferred tx.Rollback(): the tables go back to [before]. *)
Definition rolled_back {A} (before : DB) (r : Result A * World) : Result A * World :=
  match r with
  | (Err e, w) => (Err e, {| db := restore before (db w); clock := clock w;
                             pending := pending w |})
  | ok => ok
  end.

Definition AddTags {U : CaseTables} (contentID : Z) (names : list string) : M unit :=
  fun w =>
    match names with
    | [] => (Ok tt, w)
    | _ =>
        match BeginTx w with
        | (Err e, w') => (Err e, w')
        | (Ok tx, w') =>
            rolled_back (db w)
              ((_ <- add_tags_loop tx contentID names ;; Commit) w')
        end
    end.

(** The rows the sweep selects. *)
Definition stale (providerID threshold : Z) (key : Z * string) (row : ContentRow) : bool :=
  (key.1 =? providerID) && (row_updated_at row <? threshold) && (row_deleted row =? 0).

Definition mark_deleted (t : Z) (row : ContentRow) : ContentRow :=
  {| row_id := row_id row; row_title := row_title row;
     row_description := row_description row;
     row_content_type := row_content_type row;
     row_published_at := row_published_at row;
     row_created_at := row_created_at row; row_updated_at := t;
     row_raw_data := row_raw_data row; row_deleted := 1 |}.

(** UPDATE contents SET deleted = 1, updated_at = CURRENT_TIMESTAMP WHERE
    provider_id = $1 AND updated_at < $2 AND deleted = 0. *)
Definition MarkStaleContentsAsDeleted (providerID threshold : Z) : M unit :=
  statement (fun t d =>
    (tt, set_contents d
           (map_imap (fun key row =>
              Some (if stale providerID threshold key row then mark_deleted t row else row))
              (contents d))
           (contents_seq d))).

(** ** Sync use case (internal/application/usecase) *)

Definition with_stats (content : Content float) (stats : ContentStats) : Content float :=
  {| ID := ID content; ProviderID := ProviderID content;
     ProviderContentID := ProviderContentID content; Title := Title content;
     Description := Description content; content_Type := content_Type content;
     PublishedAt := PublishedAt content; CreatedAt := CreatedAt content;
     UpdatedAt := UpdatedAt content; Stats := Some stats; Score := Score content;
     Tags := Tags content; RelevanceScore := RelevanceScore content;
     RawData := RawData content; Deleted := Deleted content |}.

Definition with_content_id (score : ContentScore float) (id : Z) : ContentScore float :=
  {| score_ID := score_ID score; score_ContentID := id;
     BaseScore := BaseScore score; TypeWeight := TypeWeight score;
     RecencyScore := RecencyScore score; EngagementScore := EngagementScore score;
     FinalScore := FinalScore score; CalculatedAt := CalculatedAt score |}.

Section Sync.
Context {U : CaseTables}.
Variable rules : ScoringRules float.

Definition processContent (providerID : Z) (nc : NormalizedContent) : M unit :=
  let content :=
    {| ID := 0; ProviderID := providerID; ProviderContentID := ExternalID nc;
       Title := nc_Title nc; Description := nc_Description nc;
       content_Type := nc_ContentType nc; PublishedAt := nc_PublishedAt nc;
       CreatedAt := 0; UpdatedAt := 0; Stats := None; Score := None; Tags := [];
       RelevanceScore := 0%float; RawData := ""; Deleted := false |} in
  content <- wrap_err "upsert" (Upsert content) ;;
  let stats :=
    {| stats_ID := 0; stats_ContentID := ID content; Views := Views (nc_Stats nc);
       Likes := Likes (nc_Stats nc); ReadingTime := ReadingTime (nc_Stats nc);
       Reactions := Reactions (nc_Stats nc); stats_UpdatedAt := 0 |} in
  stats <- wrap_err "stats" (CreateOrUpdateStats stats) ;;
  let content := with_stats content stats in
  t <- time_Now ;;
  _ <- match CalculateScore rules t content with
       | Some score =>
           _ <- wrap_err "score" (CreateOrUpdateScore (with_content_id score (ID content))) ;;
           ret tt
       | None => ret tt
       end ;;
  match nc_Tags nc with
  | [] => ret tt
  | _ => logged (AddTags (ID content) (nc_Tags nc))
  end.

(** syncProvider for one client: [fetched] is what FetchContents returned
    and [fetch_time] how long it took. *)
Definition syncProvider (providerID : Z) (fetch_time : N)
    (fetched : Result (list NormalizedContent)) : M unit :=
  fun w =>
    let startTime := clock w in
    let w := {| db := db w; clock := clock w + Z.of_N fetch_time; pending := pending w |} in
    match fetched with
    | Err e => (Err (ErrWrap "fetch" e), w)
    | Ok normalized =>
        let w := foldl (fun w nc => snd (processContent providerID nc w)) w normalized in
        logged (MarkStaleContentsAsDeleted providerID startTime) w
    end.
End Sync.

(** *** Specification of the sync *)

(** No statement to come is refused. *)
Definition calm (w : World) : Prop := Forall (fun ev => fault ev = false) (pending w).

Definition quiet_world (d : DB) (t : Z) : World := {| db := d; clock := t; pending := [] |}.

(** *** Specification of AddTags *)

(** The content is linked to the tag of that name. *)
Definition has_tag_link (d : DB) (contentID : Z) (name : string) : Prop :=
  exists row, tags d !! name = Some row /\
              is_Some (content_tags d !! (contentID, tg_id row)).

(** From [d] to [d'] rows were only added, to tags under the given names
    and to content_tags for the given content; nothing else changed. *)
Definition tags_grow (contentID : Z) (names : list string) (d d' : DB) : Prop :=
  contents d' = contents d /\ content_stats d' = content_stats d /\
  content_scores d' = content_scores d /\
  tags d ⊆ tags d' /\ content_tags d ⊆ content_tags d' /\
  (forall n, is_Some (tags d' !! n) -> is_Some (tags d !! n) \/ n ∈ names) /\
  (forall c t, is_Some (content_tags d' !! (c, t)) ->
               is_Some (content_tags d !! (c, t)) \/ c = contentID).

(** From [w] to [w'] the contents table is the same, time did not run
    backwards and a calm world stayed calm. *)
Definition keeps_contents (w w' : World) : Prop :=
  contents (db w') = contents (db w) /\ clock w <= clock w' /\ (calm w -> calm w').

(** The store of the stale sweep scenario: provider 1 with the live contents
    a, b and c, last written at time 50. *)
Definition live_row (id : Z) : ContentRow :=
  {| row_id := id; row_title := "T"; row_description := "";
     row_content_type := "video"; row_published_at := 0; row_created_at := 10;
     row_updated_at := 50; row_raw_data := ""; row_deleted := 0 |}.

Definition abc_db : DB :=
  set_contents empty_db
    (<[(1, "a") := live_row 1]> (<[(1, "b") := live_row 2]> (<[(1, "c") := live_row 3]> ∅))) 3.

Definition record (id : string) : NormalizedContent :=
  {| ExternalID := id; nc_Title := "T"; nc_Description := "";
     nc_ContentType := "video"; nc_PublishedAt := 0;
     nc_Stats := new_stats 1000 500 0 0; nc_Tags := ["Go "]; nc_RawData := "{}" |}.

(** The instants of the scoring examples. *)
Definition day : Z := 24 * Hour.
Definition t0 : Z := 1700000000 * 1000000000.

Section Pages.
Context {Item : Type}.
Variable normalize : Item -> string -> Result NormalizedContent.
Variable marshal : Item -> string.
Variable server : Z -> nat -> HttpReply Item.

(** The number of pages the first page announces: the ceiling of total over
    per_page when per_page is positive, one page otherwise. *)
Definition hint_pages : Z :=
  match get_page server 1 with
  | Reply _ (Some response) =>
      if 0 <? PerPage response
      then wrap64 (Z.quot (wrap64 (Total response + PerPage response - 1))
                          (PerPage response))
      else 1
  | _ => 1
  end.

(** The records of page [p], and of the pages 1 .. k in order. *)
Definition page_records (p : Z) : list NormalizedContent :=
  match get_page server p with
  | Reply _ (Some response) => normalize_all normalize marshal (page_items response)
  | _ => []
  end.

Definition first_pages (k : nat) : list NormalizedContent :=
  concat ((fun i => page_records (Z.of_nat i)) <$> seq 1 k).
End Pages.

(** *** Requests to run the handler on *)

Definition lenient_request : Request :=
  {| q_query := "go"; q_type := ""; q_sort := ""; q_page := "abc"; q_page_size := "-3" |}.

(** ** The mock feeds (mock-api)

    The two handlers of the mock server cut the page out of the items of the
    file they read. [file] is what os.ReadFile and the decoder gave: [None]
    when the file cannot be read, the decoded items otherwise (none when the
    file does not decode: the error of Unmarshal is dropped). *)

Inductive MockReply (Item : Type) :=
  | MockPanic                                           (* the handler panicked *)
  | MockStatus (status : Z) (body : option (FeedPage Item)).
Arguments MockPanic {Item}. Arguments MockStatus {Item}.

(** The slice expression s[low:high], which panics out of range. *)
Definition slice {A} (s : list A) (low high : Z) : option (list A) :=
  if (0 <=? low) && (low <=? high) && (high <=? Z.of_nat (length s))
  then Some (take (Z.to_nat (high - low)) (drop (Z.to_nat low) s))
  else None.

Definition mock_reply {Item} (totalItems : Z) (sliced : option (list Item)) : MockReply Item :=
  match sliced with
  | None => MockPanic
  | Some items =>
      MockStatus 200 (Some {| page_items := items; Total := totalItems; PerPage := 10 |})
  end.

Definition handleJSON {Item} (file : option (list Item)) (pageParam : string) : MockReply Item :=
  match file with
  | None => MockStatus 500 None
  | Some contents =>
      let page := Atoi pageParam in
      let page := if page <? 1 then 1 else page in
      let pageSize := 10 in
      let totalItems := Z.of_nat (length contents) in
      let start := wrap64 ((page - 1) * pageSize) in
      let end_ := wrap64 (start + pageSize) in
      mock_reply totalItems
        (if totalItems <? start then Some []
         else
           let end_ := if totalItems <? end_ then totalItems else end_ in
           slice contents start end_)
  end.

Definition handleXML {Item} (file : option (list Item)) (pageParam : string) : MockReply Item :=
  match file with
  | None => MockStatus 500 None
  | Some items =>
      let page := Atoi pageParam in
      let page := if page <? 1 then 1 else page in
      let pageSize := 10 in
      let totalItems := Z.of_nat (length items) in
      let start := wrap64 ((page - 1) * pageSize) in
      let end_ := wrap64 (start + pageSize) in
      mock_reply totalItems
        (if start <? totalItems then
           let end_ := if totalItems <? end_ then totalItems else end_ in
           slice items start end_
         else Some [])
  end.

(** A client pointed at a mock handler: the request for a page carries
    ?page=%d; a panic of the handler closes the connection; [wire] is what
    the client decodes of an item the mock encodes. *)
Definition mock_server {MItem Item} (handler : string -> MockReply MItem) (wire : MItem -> Item)
  : Z -> nat -> HttpReply Item :=
  fun page _ =>
    match handler (itoa page) with
    | MockPanic => TransportError
    | MockStatus status body =>
        Reply status
          ((fun p => {| page_items := wire <$> page_items p; Total := Total p;
                        PerPage := PerPage p |}) <$> body)
    end.

(** A feed that answers 200 with items and without a total, as a body with
    no pagination block decodes. *)
Definition untotalled_feed {Item} (items : list Item) : Z -> nat -> HttpReply Item :=
  fun _ _ => Reply 200 (Some {| page_items := items; Total := 0; PerPage := 0 |}).

(** The server [good] behind a connection that fails the first two attempts
    of every page. *)
Definition flaky {Item} (good : Z -> HttpReply Item) : Z -> nat -> HttpReply Item :=
  fun page attempt =>
    match attempt with
    | 0%nat => TransportError
    | 1%nat => Reply 503 None
    | _ => good page
    end.

(** Page [i] of a run is read: the limiter lets it pass and the retry loop
    ends with a 200 whose body decodes. *)
Definition page_read {Item} (limiter_ok : Z -> bool) (server : Z -> nat -> HttpReply Item)
    (i : nat) : Prop :=
  limiter_ok (Z.of_nat i) = true /\
  exists response, get_page server (Z.of_nat i) = Reply 200 (Some response).

(** ** Repository: reading (FindByID, loadTags) *)

(** The three ways FindByID returns. *)
Inductive FindResult :=
  | Found (content : Content float)
  | NotFound (id : Z)          (* "content with id %d not found" *)
  | FindFailed (e : error).    (* "failed to find content: %w" *)

(** WHERE c.id = $1 AND c.deleted = 0. *)
Definition live_with_id (id : Z) (entry : (Z * string) * ContentRow) : bool :=
  (row_id entry.2 =? id) && (row_deleted entry.2 =? 0).

(** The row QueryRow scans: the first one the query gives. *)
Definition select_content (d : DB) (id : Z) : option ((Z * string) * ContentRow) :=
  head (filter (fun entry => live_with_id id entry = true) (map_to_list (contents d))).

(** LEFT JOIN content_stats / content_scores ON c.id = content_id: the joined
    columns, or nil when there is no such row. *)
Definition joined_stats (d : DB) (id : Z) : option ContentStats :=
  (fun st => {| stats_ID := st_id st; stats_ContentID := id; Views := st_views st;
                Likes := st_likes st; ReadingTime := st_reading_time st;
                Reactions := st_reactions st; stats_UpdatedAt := st_updated_at st |})
  <$> content_stats d !! id.

Definition joined_score (d : DB) (id : Z) : option (ContentScore float) :=
  (fun sc => {| score_ID := sc_id sc; score_ContentID := id;
                BaseScore := sc_base_score sc; TypeWeight := sc_type_weight sc;
                RecencyScore := sc_recency_score sc;
                EngagementScore := sc_engagement_score sc;
                FinalScore := sc_final_score sc; CalculatedAt := sc_calculated_at sc |})
  <$> content_scores d !! id.

Definition found_content (d : DB) (entry : (Z * string) * ContentRow) : Content float :=
  let '(key, row) := entry in
  {| ID := row_id row; ProviderID := key.1; ProviderContentID := key.2;
     Title := row_title row; Description := row_description row;
     content_Type := row_content_type row; PublishedAt := row_published_at row;
     CreatedAt := row_created_at row; UpdatedAt := row_updated_at row;
     Stats := joined_stats d (row_id row); Score := joined_score d (row_id row);
     Tags := []; RelevanceScore := 0%float; RawData := row_raw_data row;
     Deleted := false |}.

Definition with_tags (content : Content float) (tags : list Tag) : Content float :=
  {| ID := ID content; ProviderID := ProviderID content;
     ProviderContentID := ProviderContentID content; Title := Title content;
     Description := Description content; content_Type := content_Type content;
     PublishedAt := PublishedAt content; CreatedAt := CreatedAt content;
     UpdatedAt := UpdatedAt content; Stats := Stats content; Score := Score content;
     Tags := tags; RelevanceScore := RelevanceScore content; RawData := RawData content;
     Deleted := Deleted content |}.

Section Reading.
(** ORDER BY t.name follows the collation of the database. *)
Variable collate : string -> string -> bool.

Definition tag_le (a b : Tag) : Prop := collate (tag_Name a) (tag_Name b) = true.

#[local] Instance tag_le_dec (a b : Tag) : Decision (tag_le a b).
Proof. unfold tag_le. apply _. Defined.

(** SELECT t.id, t.name, t.created_at FROM tags t INNER JOIN content_tags ct
    ON t.id = ct.tag_id WHERE ct.content_id = $1 ORDER BY t.name. *)
Definition tags_of (d : DB) (contentID : Z) : list Tag :=
  merge_sort tag_le
    ((fun entry : string * TagRow =>
        {| tag_ID := tg_id entry.2; tag_Name := entry.1; tag_CreatedAt := tg_created_at entry.2 |})
     <$> filter (fun entry : string * TagRow =>
                   is_Some (content_tags d !! (contentID, tg_id entry.2)))
                (map_to_list (tags d))).

Definition loadTags (contentID : Z) : M (list Tag) :=
  statement (fun _ d => (tags_of d contentID, d)).

(** FindByID: the joined row, then the tags; an error of loadTags leaves
    the content without tags. *)
Definition FindByID (id : Z) : World -> FindResult * World :=
  fun w =>
    match statement (fun _ d => (found_content d <$> select_content d id, d)) w with
    | (Err e, w') => (FindFailed e, w')
    | (Ok None, w') => (NotFound id, w')
    | (Ok (Some content), w') =>
        match loadTags (ID content) w' with
        | (Ok tags, w'') => (Found (with_tags content tags), w'')
        | (Err _, w'') => (Found content, w'')
        end
    end.
End Reading.

(** *** Specification of the content ids *)

(** What the primary key and the sequence give: no content id is above the
    sequence and no two content rows share an id. *)
Definition content_ids_ok (d : DB) : Prop :=
  (forall key row, contents d !! key = Some row -> row_id row <= contents_seq d) /\
  (forall k1 k2 r1 r2, contents d !! k1 = Some r1 -> contents d !! k2 = Some r2 ->
                       row_id r1 = row_id r2 -> k1 = k2).

(** Byte order, for the runs. *)
Definition byte_order (a b : string) : bool :=
  match String.compare a b with
  | Gt => false
  | _ => true
  end.

(** A content to upsert over the row b of the store. *)
Definition content_b : Content float :=
  {| ID := 0; ProviderID := 1; ProviderContentID := "b"; Title := "New title";
     Description := "d"; content_Type := "article"; PublishedAt := 7;
     CreatedAt := 0; UpdatedAt := 0; Stats := None; Score := None; Tags := [];
     RelevanceScore := 0%float; RawData := "{}"; Deleted := false |}.

(** The content the scorer sees of a record. *)
Definition scored_content (nc : NormalizedContent) : Content float :=
  content_with_stats (nc_ContentType nc) (nc_PublishedAt nc) (nc_Stats nc).

(** A world in which the first statement runs and the second is refused. *)
Definition second_refused (d : DB) (t : Z) : World :=
  {| db := d; clock := t;
     pending := [{| delay := 1; fault := false |}; {| delay := 1; fault := true |}] |}.

(** ** The pager of the front end (frontend/components/Pagination.vue)

    The entries of the pager: page numbers and the string '...'. The two
    props are numbers; they are modelled for whole numbers. *)

Inductive PageEntry :=
  | PageNumber (n : Z)
  | Dots.

(** for (let i = from; i <= to; i++): the values of i. *)
Definition counting (from to : Z) : list Z :=
  (fun k => from + Z.of_nat k) <$> seq 0 (Z.to_nat (to - from + 1)).

Definition visiblePages (currentPage totalPages : Z) : list PageEntry :=
  let maxVisible := 5 in
  if totalPages <=? maxVisible then PageNumber <$> counting 1 totalPages
  else
    let start := Z.max 2 (currentPage - 1) in
    let end_ := Z.min (totalPages - 1) (currentPage + 1) in
    [PageNumber 1]
    ++ (if 3 <? currentPage then [Dots] else [])
    ++ (PageNumber <$> List.filter (fun i => negb (i =? 1) && negb (i =? totalPages))
                         (counting start end_))
    ++ (if currentPage <? totalPages - 2 then [Dots] else [])
    ++ [PageNumber totalPages].

(** *** Specification of the pager *)

(** After the page [prev]: the numbers go up one by one, and dots stand
    for at least one page that is left out. *)
Fixpoint pager_wf (prev : Z) (entries : list PageEntry) : bool :=
  match entries with
  | [] => true
  | PageNumber n :: rest => (n =? prev + 1) && pager_wf n rest
  | Dots :: rest =>
      match rest with
      | PageNumber n :: _ => (prev + 2 <? n + 1) && pager_wf (n - 1) rest
      | _ => false
      end
  end.

(** How often the pager shows the entry '...', which the template also uses
    as the key of its button (:key="page"). *)
Definition dots_count (entries : list PageEntry) : nat :=
  length (List.filter (fun e => match e with Dots => true | PageNumber _ => false end) entries).

(** ** Health check (internal/transport/http) *)

(** A dependency of the health handler: not configured (a nil client), or
    configured with the outcome of its ping. *)
Inductive Dependency :=
  | NotConfigured
  | Ping (ok : bool).

Record HealthReply := {
  health_code : Z;
  health_status : string;
  health_timestamp : Z;                  (* time.Now(), before formatting *)
  health_version : string;
  health_services : gmap string string
}.

Definition StatusServiceUnavailable : Z := 503.

Definition check_service (name : string) (dep : Dependency)
    (health : string * gmap string string) : string * gmap string string :=
  match dep with
  | NotConfigured => health
  | Ping true => (health.1, <[name := "healthy"]> health.2)
  | Ping false => ("degraded", <[name := "unhealthy"]> health.2)
  end.

Definition HandleHealth (now : Z) (database redis : Dependency) : HealthReply :=
  let health := check_service "redis" redis (check_service "database" database ("healthy", ∅)) in
  {| health_code := if String.eqb health.1 "degraded" then StatusServiceUnavailable
                    else StatusOK;
     health_status := health.1;
     health_timestamp := now;
     health_version := "1.0.0";
     health_services := health.2 |}.

(** ** Rate limiting (internal/transport/middleware) *)

(** What the middleware reads of a request. *)
Record ClientRequest := {
  XForwardedFor : string;    (* r.Header.Get("X-Forwarded-For") *)
  XRealIP : string;          (* r.Header.Get("X-Real-IP") *)
  RemoteAddr : string
}.

(** strings.Split(s, ",")[0]: what is before the first comma. *)
Fixpoint before_comma (s : string) : string :=
  match s with
  | EmptyString => EmptyString
  | String c s' => if Ascii.eqb c "," then EmptyString else String c (before_comma s')
  end.

Definition getRealIP (r : ClientRequest) : string :=
  if negb (String.eqb (XForwardedFor r) "") then TrimSpace (before_comma (XForwardedFor r))
  else if negb (String.eqb (XRealIP r) "") then XRealIP r
  else RemoteAddr r.

(** string(rune(n)) for an int n: the conversion to rune keeps the low 32
    bits, and the string is the UTF-8 encoding [utf8] of the code point, or
    of U+FFFD when it is none. *)
Definition wrap32 (z : Z) : Z := (z + 2 ^ 31) mod 2 ^ 32 - 2 ^ 31.

Definition rune_string (n : Z) : string := byte_string (utf8 (wrap32 n)).

(** The body of a reply: the JSON object with the rate limit message in
    its error field, or what the handler wrote. *)
Inductive MiddlewareBody :=
  | RateLimitMessage
  | HandlerBody (body : string).

Record MiddlewareReply := {
  reply_code : Z;
  reply_headers : gmap string string;
  reply_body : MiddlewareBody
}.

Definition StatusTooManyRequests : Z := 429.

Section RateLimiter.
(** The limiters are those of golang.org/x/time/rate: [Limiter] is the state
    of one, [NewLimiter] the state of a new one for the rate and the burst
    of the middleware, and [Allow] what a call of Allow answers and leaves. *)
Variable Limiter : Type.
Variable NewLimiter : Limiter.
Variable Allow : Limiter -> bool * Limiter.
Variable burst : Z.
(** The handler behind the middleware, given the headers set so far. (The
    counter of refused requests that the middleware also feeds is left
    out.) *)
Variable next : ClientRequest -> gmap string string -> MiddlewareReply.

(** getLimiter: the limiter of the address, made when there is none. *)
Definition getLimiter (limiters : gmap string Limiter) (ip : string)
  : Limiter * gmap string Limiter :=
  match limiters !! ip with
  | Some limiter => (limiter, limiters)
  | None => (NewLimiter, <[ip := NewLimiter]> limiters)
  end.

Definition Middleware (limiters : gmap string Limiter) (r : ClientRequest)
  : MiddlewareReply * gmap string Limiter :=
  let ip := getRealIP r in
  let '(limiter, limiters) := getLimiter limiters ip in
  let '(allowed, limiter) := Allow limiter in
  let limiters := <[ip := limiter]> limiters in
  if negb allowed then
    ({| reply_code := StatusTooManyRequests;
        reply_headers :=
          <["Content-Type" := "application/json"]>
            (<["Retry-After" := "60"]>
               (<["X-RateLimit-Remaining" := "0"]>
                  (<["X-RateLimit-Limit" := rune_string burst]> ∅)));
        reply_body := RateLimitMessage |}, limiters)
  else (next r (<["X-RateLimit-Limit" := rune_string burst]> ∅), limiters).

(** One tick of CleanupOldLimiters: all limiters are dropped. *)
Definition cleanup (limiters : gmap string Limiter) : gmap string Limiter := ∅.
End RateLimiter.

(** ** Configuration (internal/infrastructure/config) *)

(** strconv.Atoi with its error: [None] for a string that is no decimal
    number with an optional sign, and for a number outside int64. *)
Definition Atoi_checked (s : string) : option Z :=
  let '(neg, ds) :=
    match s with
    | String "-"%char s' => (true, s')
    | String "+"%char s' => (false, s')
    | _ => (false, s)
    end in
  match ds with
  | EmptyString => None
  | _ =>
      match digits_value 0 ds with
      | None => None
      | Some v =>
          let v := if neg : bool then - v else v in
          if (minInt64 <=? v) && (v <=? maxInt64) then Some v else None
      end
  end.

(** os.Getenv: the value, empty for a variable that is not set. *)
Definition Getenv (env : gmap string string) (key : string) : string :=
  default "" (env !! key).

Definition getEnv (env : gmap string string) (key defaultValue : string) : string :=
  let value := Getenv env key in
  if negb (String.eqb value "") then value else defaultValue.

Definition getEnvAsInt (env : gmap string string) (key : string) (defaultValue : Z) : Z :=
  let value := Getenv env key in
  if negb (String.eqb value "") then
    match Atoi_checked value with
    | Some intValue => intValue
    | None => defaultValue
    end
  else defaultValue.

(** ** Repository: the statements of Search

    Search builds two statements, the count and the page, as text with
    numbered placeholders and a list of arguments. The text is kept in
    pieces: what the code writes as it stands, and the placeholders. The
    white space of the raw string literals is reduced to single spaces. *)

Inductive sql :=
  | Sql (text : string)
  | Placeholder (n : Z).         (* $n *)

Inductive sqlarg :=
  | ArgString (s : string)
  | ArgInt (n : Z).

Definition is_alnum (c : ascii) : bool :=
  let n := N_of_ascii c in
  ((97 <=? n)%N && (n <=? 122)%N) || ((65 <=? n)%N && (n <=? 90)%N)
  || ((48 <=? n)%N && (n <=? 57)%N).

(** strings.Map(cleaner, w): the letters and digits of ASCII are kept, every
    other character is dropped. *)
Fixpoint clean (w : string) : string :=
  match w with
  | EmptyString => EmptyString
  | String c w' => if is_alnum c then String c (clean w') else clean w'
  end.

(** strings.Fields, for white space of ASCII. *)
Fixpoint Fields (s : string) : list string :=
  match s with
  | EmptyString => []
  | String c s' =>
      if is_space c then Fields s'
      else
        match s' with
        | EmptyString => [String c EmptyString]
        | String c' _ =>
            if is_space c' then String c EmptyString :: Fields s'
            else
              match Fields s' with
              | w :: ws => String c w :: ws
              | [] => [String c EmptyString]
              end
        end
  end.

Fixpoint Join (elems : list string) (sep : string) : string :=
  match elems with
  | [] => EmptyString
  | [e] => e
  | e :: rest => e +:+ sep +:+ Join rest sep
  end.

(** The words of the full-text query: the cleaned words of the query that
    are not empty, each with the prefix operator. *)
Definition ftsWords (query : string) : list string :=
  omap (fun w => let cleanWord := clean w in
                 if String.eqb cleanWord "" then None else Some (cleanWord +:+ ":*"))
       (Fields query).

Definition fromParts : string :=
  " FROM contents c LEFT JOIN content_stats cs ON c.id = cs.content_id LEFT JOIN content_scores csc ON c.id = csc.content_id WHERE c.deleted = 0 ".

Definition searchVector : string :=
  "( setweight(to_tsvector('english', COALESCE(c.title, '')), 'A') || setweight(to_tsvector('english', COALESCE(( SELECT string_agg(t.name, ' ') FROM content_tags ct JOIN tags t ON ct.tag_id = t.id WHERE ct.content_id = c.id ), '')), 'B') )".

Definition selectColumns : string :=
  " SELECT c.id, c.provider_id, c.provider_content_id, c.title, c.description, c.content_type, c.published_at, c.created_at, c.updated_at, c.raw_data, cs.id, cs.views, cs.likes, cs.reading_time, cs.reactions, cs.updated_at, csc.id, csc.base_score, csc.type_weight, csc.recency_score, csc.engagement_score, csc.final_score, csc.calculated_at, ".

Record SearchStatements := {
  countQuery : list sql;
  countArgs : list sqlarg;
  selectQuery : list sql;
  selectArgs : list sqlarg
}.

Definition Search_statements (params : SearchParams) : SearchStatements :=
  let words := ftsWords (Query params) in
  (* the query, the arguments, argCount and the WHERE clause after the query *)
  let '(query, args, argCount, whereClause) :=
    if negb (String.eqb (Query params) "") then
      match words with
      | _ :: _ =>
          (Query params, [ArgString (Join words " & ")], 1,
           [Sql " AND "; Sql searchVector; Sql " @@ to_tsquery('english', ";
            Placeholder 1; Sql ")"])
      | [] => ("", [], 0, [])
      end
    else (Query params, [], 0, []) in
  let '(args, argCount, whereClause) :=
    if negb (String.eqb (sp_ContentType params) "") then
      (args ++ [ArgString (sp_ContentType params)], argCount + 1,
       whereClause ++ [Sql " AND c.content_type = "; Placeholder (argCount + 1)])
    else (args, argCount, whereClause) in
  let relevanceExpr :=
    if negb (String.eqb query "") then
      [Sql "ts_rank_cd('{0.1, 0.2, 0.4, 1.0}', "; Sql searchVector;
       Sql ", to_tsquery('english', "; Placeholder 1; Sql "))"]
    else [Sql "0.0"] in
  let orderBy :=
    if String.eqb (SortBy params) "relevance" && negb (String.eqb query "")
    then " ORDER BY relevance_score DESC, c.published_at DESC"
    else " ORDER BY csc.final_score DESC NULLS LAST, c.published_at DESC" in
  let argCount' := argCount + 1 in
  let limit := PageSize params in
  let offset := wrap64 ((Page params - 1) * PageSize params) in
  {| countQuery := [Sql "SELECT COUNT(*) "; Sql fromParts] ++ whereClause;
     countArgs := args;
     selectQuery :=
       [Sql selectColumns] ++ relevanceExpr ++ [Sql " as relevance_score "; Sql fromParts]
       ++ whereClause ++ [Sql orderBy]
       ++ [Sql " LIMIT "; Placeholder argCount'; Sql " OFFSET "; Placeholder (argCount' + 1)];
     selectArgs := args ++ [ArgInt limit; ArgInt offset] |}.

(** *** Specification of the statements *)

(** What each placeholder of a statement stands for: the argument of its
    number ([None] when there is none), in the order of the text. *)
Definition bound (query : list sql) (args : list sqlarg) : list (option sqlarg) :=
  omap (fun piece => match piece with
                     | Placeholder n =>
                         Some (if 1 <=? n then args !! Z.to_nat (n - 1) else None)
                     | Sql _ => None
                     end) query.

(** The characters of a query of prefix terms joined by &. *)
Definition tsquery_char (c : ascii) : bool :=
  is_alnum c || Ascii.eqb c ":" || Ascii.eqb c "*" || Ascii.eqb c " " || Ascii.eqb c "&".

Fixpoint all_chars (p : ascii -> bool) (s : string) : bool :=
  match s with
  | EmptyString => true
  | String c s' => p c && all_chars p s'
  end.

(** White space outside ASCII, as UTF-8: U+0085 and U+00A0, U+1680, U+2000
    to U+200A, U+2028, U+2029, U+202F, U+205F and U+3000. strings.Fields
    splits at these too; [Fields] above is strings.Fields for a string that
    holds none of them. *)
Definition wide_space_at (s : string) : bool :=
  match bytes_of_string (String.substring 0 3 s) with
  | 0xC2 :: b :: _ => (b =? 0x85) || (b =? 0xA0)
  | [0xE1; 0x9A; 0x80] => true
  | [0xE2; 0x80; b] => ((0x80 <=? b) && (b <=? 0x8A)) || (b =? 0xA8) || (b =? 0xA9) || (b =? 0xAF)
  | [0xE2; 0x81; 0x9F] => true
  | [0xE3; 0x80; 0x80] => true
  | _ => false
  end.

Fixpoint has_wide_space (s : string) : bool :=
  match s with
  | EmptyString => false
  | String _ s' => wide_space_at s || has_wide_space s'
  end.

(** A query in Turkish: the letters outside ASCII are two bytes each. *)
Definition turkish_query : string :=
  byte_string [0xC5; 0x9F; 0x61; 0x72; 0x6B; 0xC4; 0xB1; 0x20; 0x67; 0x6F; 0x21].

Definition params_of (query type sort : string) (page pageSize : Z) : SearchParams :=
  {| Query := query; sp_ContentType := type; SortBy := sort; Page := page;
     PageSize := pageSize |}.

(** The loop takes page [i] of a run: the page is answered 200 with a body
    that decodes, and neither guard of the loop holds of the records of the
    pages before it: they are fewer than the total the page announces and
    fewer than 1000. *)
Definition page_taken {Item} (normalize : Item -> string -> Result NormalizedContent)
    (marshal : Item -> string) (server : Z -> nat -> HttpReply Item) (i : nat) : Prop :=
  exists response,
    get_page server (Z.of_nat i) = Reply 200 (Some response) /\
    Z.of_nat (length (first_pages normalize marshal server (i - 1))) < Total response /\
    Z.of_nat (length (first_pages normalize marshal server (i - 1))) < 1000.

(** The loop ends of itself after [k] pages: the next page is beyond the
    page count of the first page, or it is read and one of the two guards
    holds. Page 1 is always asked for. *)
Definition ends_after {Item} (normalize : Item -> string -> Result NormalizedContent)
    (marshal : Item -> string) (limiter_ok : Z -> bool) (server : Z -> nat -> HttpReply Item)
    (k : nat) : Prop :=
  ((1 <= k)%nat /\ hint_pages server < Z.of_nat (S k)) \/
  (page_read limiter_ok server (S k) /\ ~ page_taken normalize marshal server (S k)).

(** The run of a fetch, as the loop is written: it returns the records of
    the pages 1 .. k when it took these pages and then ended of itself, and
    it fails when a page it asks for is not read. *)
Definition fetch_outcome {Item} (normalize : Item -> string -> Result NormalizedContent)
    (marshal : Item -> string) (limiter_ok : Z -> bool) (server : Z -> nat -> HttpReply Item)
    (r : Result (list NormalizedContent)) : Prop :=
  match r with
  | Ok l =>
      exists k, l = first_pages normalize marshal server k /\
                (forall i, (1 <= i <= k)%nat ->
                   page_read limiter_ok server i /\ page_taken normalize marshal server i) /\
                ends_after normalize marshal limiter_ok server k
  | Err _ =>
      exists i, (1 <= i)%nat /\
                (forall j, (1 <= j < i)%nat ->
                   page_read limiter_ok server j /\ page_taken normalize marshal server j) /\
                (i = 1%nat \/ Z.of_nat i <= hint_pages server) /\
                ~ page_read limiter_ok server i
  end.

(* ================================================================== *)
(** * Theorems *)
(* ================================================================== *)

(** ** Scoring *)

Lemma time_Sub_ago (now d : Z) :
  minInt64 <= d <= maxInt64 -> time_Sub now (now - d) = d.
Proof.
  intros Hd. unfold time_Sub.
  replace (now - (now - d)) with d by lia.
  destruct (Z.ltb_spec d minInt64); [lia|].
  destruct (Z.ltb_spec maxInt64 d); [lia|reflexivity].
Qed.

(** Two binary64 numbers with different decodings are different. *)
Lemma float_neq (x y : float) : Prim2SF x <> Prim2SF y -> x <> y.
Proof. intros Hne ->. now apply Hne. Qed.

(** The unit test of the repository: a one day old video with 10000 views
    and 500 likes scores 15, 5, 0.5 and 28. *)
Example CalculateScore_test_video :
  components <$> CalculateScore (F:=float) defaultRules t0
     (content_with_stats "video" (t0 - 1 * day) (video_stats 10000 500))
  = Some (15, 1.5, 5, 0.5, 28)%float.
Proof. vm_compute. reflexivity. Qed.

(** C1, as the claim states it, fails: for the video with 150000 views and
    5000 likes published five days ago the engagement component is not 3.33
    and the final score is not 308.33. *)
Lemma CalculateScore_hot_video_not_as_claimed :
  ~ (components <$> CalculateScore (F:=float) defaultRules t0
       (content_with_stats "video" (t0 - 5 * day) (video_stats 150000 5000))
     = Some (200, 1.5, 5, 3.33, 308.33)%float).
Proof.
  vm_compute. intros Heq.
  assert (Hf : (305.33 = 308.33)%float) by congruence.
  revert Hf. apply float_neq. vm_compute. discriminate.
Qed.

(** C1 (amended): whatever the current time, the video with 150000 views and
    5000 likes published five days before it gets base 200, type weight 1.5,
    recency 5, engagement (5000/150000)*10 = 0.333.. rounded to 0.33, and
    final 200*1.5 + 5 + 0.333.. = 305.333.. rounded to 305.33. *)
Theorem CalculateScore_hot_video (now : Z) :
  components <$> CalculateScore (F:=float) defaultRules now
     (content_with_stats "video" (now - 5 * day) (video_stats 150000 5000))
  = Some (200, 1.5, 5, 0.33, 305.33)%float.
Proof.
  unfold CalculateScore, calculateRecencyScore, content_with_stats.
  cbn [Stats PublishedAt].
  rewrite time_Sub_ago by (vm_compute; split; discriminate).
  vm_compute. reflexivity.
Qed.

(** ** binary64 arithmetic: rounding *)

Lemma pow2_pos (e : Z) : (0 < pow2 e)%Q.
Proof. apply Qpower_0_lt. reflexivity. Qed.

Lemma pow2_add (a b : Z) : (pow2 (a + b) == pow2 a * pow2 b)%Q.
Proof. apply Qpower_plus. discriminate. Qed.

Lemma pow2_Z (n : Z) : 0 <= n -> (pow2 n == inject_Z (2 ^ n))%Q.
Proof. intros Hn. unfold pow2. rewrite Zpower_Qpower by exact Hn. reflexivity. Qed.

Lemma pow2_le (a b : Z) : a <= b -> (pow2 a <= pow2 b)%Q.
Proof. intros H. apply Qpower_le_compat_l; [exact H | discriminate]. Qed.

Lemma pow2_lt_inv (a b : Z) : (pow2 a < pow2 b)%Q -> a < b.
Proof. intros H. eapply Qpower_lt_compat_l_inv; [exact H | reflexivity]. Qed.

Lemma pow2_half (e : Z) : (pow2 (e - 1) * 2 == pow2 e)%Q.
Proof.
  replace e with ((e - 1) + 1) at 2 by lia. rewrite pow2_add.
  change (pow2 1) with (2 ^ 1)%Q. rewrite Qpower_1_r. reflexivity.
Qed.

(** *** The number of digits of a mantissa *)

Lemma digits2_size (p : positive) : digits2_pos p = Pos.size p.
Proof. induction p; cbn; congruence. Qed.

Lemma digits2_bounds (p : positive) :
  2 ^ (Z.pos (digits2_pos p) - 1) <= Z.pos p < 2 ^ Z.pos (digits2_pos p).
Proof.
  rewrite digits2_size. pose proof (Pos.size_gt p) as Hgt. pose proof (Pos.size_le p) as Hle.
  assert (H2 : Z.pos (2 ^ Pos.size p) = 2 ^ Z.pos (Pos.size p)) by (apply Pos2Z.inj_pow).
  split.
  - assert (Hs : 2 ^ Z.pos (Pos.size p) = 2 * 2 ^ (Z.pos (Pos.size p) - 1)).
    { rewrite <- Z.pow_succ_r by lia. f_equal. lia. }
    assert (Z.pos (2 ^ Pos.size p) <= Z.pos p~0) by (apply Pos2Z.pos_le_pos; exact Hle).
    lia.
  - rewrite <- H2. apply Pos2Z.pos_lt_pos. exact Hgt.
Qed.

Lemma digits2_unique (p : positive) (k : Z) :
  2 ^ (k - 1) <= Z.pos p < 2 ^ k -> Z.pos (digits2_pos p) = k.
Proof.
  intros [Hlo Hhi]. destruct (digits2_bounds p) as [Hlo' Hhi'].
  set (d := Z.pos (digits2_pos p)) in *.
  assert (Hk : 0 < k).
  { destruct (Z.lt_ge_cases 0 k) as [|Hk]; [assumption|].
    destruct (Z.eq_dec k 0) as [->|]; [cbn in Hhi; lia|].
    rewrite Z.pow_neg_r in Hhi by lia. lia. }
  destruct (Z.lt_trichotomy d k) as [Hlt|[Heq|Hgt]]; [|exact Heq|].
  - assert (2 ^ d <= 2 ^ (k - 1)) by (apply Z.pow_le_mono_r; lia). lia.
  - assert (2 ^ k <= 2 ^ (d - 1)) by (apply Z.pow_le_mono_r; lia). lia.
Qed.

(** *** Shifting a mantissa to the right *)

Lemma placed_eq (xi xi' : Q) (mrs : shr_record) :
  (xi == xi')%Q -> placed xi mrs -> placed xi' mrs.
Proof.
  unfold placed. intros He (Hm & Hlo & Hhi & Hs).
  rewrite <- He. auto.
Qed.

Lemma inject_xO (p : positive) : (inject_Z (Z.pos p~0) == 2 * inject_Z (Z.pos p))%Q.
Proof. rewrite Pos2Z.inj_xO, inject_Z_mult. reflexivity. Qed.

Lemma inject_xI (p : positive) : (inject_Z (Z.pos p~1) == 2 * inject_Z (Z.pos p) + 1)%Q.
Proof. rewrite Pos2Z.inj_xI, inject_Z_plus, inject_Z_mult. reflexivity. Qed.

Lemma shr_1_placed (xi : Q) (mrs : shr_record) :
  placed xi mrs -> placed (xi * (1 # 2)) (shr_1 mrs).
Proof.
  destruct mrs as [m r s]. unfold placed. cbn [shr_m shr_r shr_s].
  intros (Hm & Hlo & Hhi & Hs).
  assert (Hsticky : forall mark' : Q,
            (mark' == inject_Z m * (1 # 2))%Q ->
            (r || s = false <-> (xi * (1 # 2) == mark'))%Q).
  { intros mark' Hmark. rewrite Hmark. destruct r; cbn [orb].
    - split; [discriminate | intros H; exfalso; lra].
    - destruct s.
      + split; [discriminate|]. intros H.
        assert (xi == inject_Z m + 0)%Q as H0 by lra. apply Hs in H0. discriminate.
      + split; [|reflexivity]. intros _.
        assert (xi == inject_Z m + 0)%Q as H0 by (apply Hs; reflexivity). lra. }
  destruct m as [|[p|p|]|p]; cbn [shr_1 shr_m shr_r shr_s]; try lia.
  - (* 0 *)
    split; [lia|]. change (inject_Z 0) with 0%Q in *.
    split; [destruct r; lra|]. split; [destruct r; lra|].
    apply Hsticky. destruct r; lra.
  - (* p~1 *)
    pose proof (inject_xI p) as Hp. split; [lia|].
    split; [destruct r; lra|]. split; [destruct r; lra|].
    apply Hsticky. destruct r; lra.
  - (* p~0 *)
    pose proof (inject_xO p) as Hp. split; [lia|].
    split; [destruct r; lra|]. split; [destruct r; lra|].
    apply Hsticky. destruct r; lra.
  - (* 1 *)
    split; [lia|]. change (inject_Z 1) with 1%Q in *. change (inject_Z 0) with 0%Q.
    split; [destruct r; lra|]. split; [destruct r; lra|].
    apply Hsticky. destruct r; lra.
Qed.

Lemma pow_xI (p : positive) : 2 ^ Z.pos p~1 = 2 * (2 ^ Z.pos p * 2 ^ Z.pos p).
Proof.
  replace (Z.pos p~1) with (Z.pos p + Z.pos p + 1) by lia.
  rewrite !Z.pow_add_r by lia. change (2 ^ 1) with 2. lia.
Qed.

Lemma pow_xO (p : positive) : 2 ^ Z.pos p~0 = 2 ^ Z.pos p * 2 ^ Z.pos p.
Proof.
  replace (Z.pos p~0) with (Z.pos p + Z.pos p) by lia.
  rewrite Z.pow_add_r by lia. reflexivity.
Qed.

Lemma iter_shr_placed (p : positive) (xi : Q) (mrs : shr_record) :
  placed xi mrs -> placed (xi / inject_Z (2 ^ Z.pos p)) (SpecFloat.iter_pos shr_1 p mrs).
Proof.
  revert xi mrs. induction p as [p IH|p IH|]; intros xi mrs H; cbn [SpecFloat.iter_pos].
  - apply shr_1_placed in H. apply IH in H. apply IH in H.
    eapply placed_eq; [|exact H].
    rewrite pow_xI, !inject_Z_mult. change (inject_Z 2) with 2%Q.
    set (q := inject_Z (2 ^ Z.pos p)).
    assert (0 < q)%Q by (subst q; rewrite <- pow2_Z by lia; apply pow2_pos).
    field. lra.
  - apply IH in H. apply IH in H.
    eapply placed_eq; [|exact H].
    rewrite pow_xO, !inject_Z_mult.
    set (q := inject_Z (2 ^ Z.pos p)).
    assert (0 < q)%Q by (subst q; rewrite <- pow2_Z by lia; apply pow2_pos).
    field. lra.
  - apply shr_1_placed in H. eapply placed_eq; [|exact H].
    change (2 ^ 1) with 2. change (inject_Z 2) with 2%Q. field.
Qed.

Lemma shr_1_m (mrs : shr_record) : 0 <= shr_m mrs -> shr_m (shr_1 mrs) = shr_m mrs / 2.
Proof.
  destruct mrs as [m r s]. cbn [shr_m]. intros Hm.
  destruct m as [|[p|p|]|p]; cbn [shr_1 shr_m]; try lia; try reflexivity.
  - rewrite Pos2Z.inj_xI. apply Z.div_unique with 1; lia.
  - rewrite Pos2Z.inj_xO. apply Z.div_unique with 0; lia.
Qed.

Lemma iter_shr_m (p : positive) (mrs : shr_record) :
  0 <= shr_m mrs -> shr_m (SpecFloat.iter_pos shr_1 p mrs) = shr_m mrs / 2 ^ Z.pos p.
Proof.
  assert (Hnn : forall q mrs, 0 <= shr_m mrs ->
            0 <= shr_m mrs / 2 ^ Z.pos q) by (intros; apply Z.div_pos; lia).
  revert mrs. induction p as [p IH|p IH|]; intros mrs Hm; cbn [SpecFloat.iter_pos].
  - assert (H1 : 0 <= shr_m (shr_1 mrs)) by (rewrite shr_1_m by lia; apply Z.div_pos; lia).
    assert (H2 : 0 <= shr_m (SpecFloat.iter_pos shr_1 p (shr_1 mrs))) by (rewrite IH by lia; apply Hnn; lia).
    rewrite IH, IH, shr_1_m by lia.
    rewrite !Z.div_div by lia. f_equal. rewrite pow_xI. lia.
  - assert (H2 : 0 <= shr_m (SpecFloat.iter_pos shr_1 p mrs)) by (rewrite IH by lia; apply Hnn; lia).
    rewrite IH, IH by lia. rewrite Z.div_div by lia. f_equal. rewrite pow_xO. reflexivity.
  - rewrite shr_1_m by lia. reflexivity.
Qed.

(** The record after a shift by [n] places, none when [n] is not positive. *)
Lemma shr_placed (xi : Q) (mrs : shr_record) (e n : Z) :
  0 <= n -> placed xi mrs ->
  let '(mrs', e') := shr mrs e n in
  e' = e + n /\ shr_m mrs' = shr_m mrs / 2 ^ n /\ placed (xi / inject_Z (2 ^ n)) mrs'.
Proof.
  intros Hn H. destruct n as [|p|p]; [| |lia]; cbn [shr].
  - split; [lia|]. split; [cbn; rewrite Z.div_1_r; reflexivity|].
    apply (placed_eq xi); [|exact H]. change (inject_Z (2 ^ 0)) with 1%Q. field.
  - split; [reflexivity|]. split; [apply iter_shr_m, H | apply iter_shr_placed, H].
Qed.

(** Rounding to nearest, ties to even, moves a placed value by a half at
    most, to the mantissa or the one after it. *)
Lemma round_nearest_even_placed (xi : Q) (mrs : shr_record) :
  placed xi mrs ->
  let m := round_nearest_even (shr_m mrs) (loc_of_shr_record mrs) in
  (shr_m mrs <= m <= shr_m mrs + 1) /\
  (inject_Z m - (1 # 2) <= xi <= inject_Z m + (1 # 2))%Q.
Proof.
  destruct mrs as [m r s]. unfold placed. cbn [shr_m shr_r shr_s].
  intros (Hm & Hlo & Hhi & Hs).
  destruct r, s; cbn [loc_of_shr_record round_nearest_even];
    try (destruct (Z.even m)); rewrite ?inject_Z_plus; change (inject_Z 1) with 1%Q;
    (split; [lia | lra]).
Qed.

Lemma Zdigits2_le (m k : Z) : 0 < m -> m < 2 ^ k -> Zdigits2 m <= k.
Proof.
  intros Hm Hk. destruct m as [|p|p]; try lia. cbn [Zdigits2].
  destruct (digits2_bounds p) as [Hlo _].
  destruct (Z.le_gt_cases (Z.pos (digits2_pos p)) k) as [|Hgt]; [assumption|].
  assert (2 ^ k <= 2 ^ (Z.pos (digits2_pos p) - 1)).
  { destruct (Z.le_gt_cases 0 k); [apply Z.pow_le_mono_r; lia|].
    rewrite (Z.pow_neg_r 2 k) by lia. apply Z.pow_nonneg. lia. }
  lia.
Qed.

Lemma Zdigits2_pow (k : Z) : 0 <= k -> Zdigits2 (2 ^ k) = k + 1.
Proof.
  intros Hk. assert (Hp : 0 < 2 ^ k) by (apply Z.pow_pos_nonneg; lia).
  destruct (2 ^ k) as [|p|p] eqn:Hpk; try lia. cbn [Zdigits2].
  apply digits2_unique. rewrite <- Hpk. replace (k + 1 - 1) with k by lia.
  split; [lia|]. rewrite Z.pow_add_r by lia. change (2 ^ 1) with 2. lia.
Qed.

Local Abbreviation fexp64 := (fexp prec emax).

Lemma fexp64_eq (e : Z) : fexp64 e = Z.max (e - 53) (-1074).
Proof. reflexivity. Qed.

(** The rounding that ends every operation: a mantissa [mx] at the exponent
    [ex] with what is beyond it, of value [xi * 2^ex], that has at least as
    many digits as the format keeps and is below the overflow threshold,
    becomes a finite number of the sign [sx] whose magnitude is within half
    a unit of the last place of that value. *)
Lemma binary_round_aux_correct (sx : bool) (mx ex : Z) (lx : location) (xi : Q) :
  0 < mx ->
  placed xi (shr_record_of_loc mx lx) ->
  ex <= fexp64 (Zdigits2 mx + ex) -> Zdigits2 mx + ex <= 1023 ->
  exists V : Q,
    (0 <= V)%Q /\
    SFfinite (binary_round_aux prec emax sx mx ex lx) = true /\
    (SF2Q (binary_round_aux prec emax sx mx ex lx) == if sx then - V else V)%Q /\
    (- pow2 (fexp64 (Zdigits2 mx + ex)) <= (V - xi * pow2 ex) * 2
     <= pow2 (fexp64 (Zdigits2 mx + ex)))%Q.
Proof.
  intros Hmx Hpl HE Hov.
  set (d := Zdigits2 mx) in *. set (E := fexp64 (d + ex)) in *.
  assert (Hd : 2 ^ (d - 1) <= mx < 2 ^ d /\ 0 < d).
  { subst d. destruct mx as [|p|p]; try lia. cbn [Zdigits2].
    split; [apply digits2_bounds | lia]. }
  destruct Hd as [Hd Hdpos].
  unfold binary_round_aux, shr_fexp. fold d. fold E.
  set (n := E - ex).
  assert (Hshr_m : shr_m (shr_record_of_loc mx lx) = mx) by (destruct lx as [|[]]; reflexivity).
  pose proof (shr_placed xi (shr_record_of_loc mx lx) ex n ltac:(lia) Hpl) as H1.
  destruct (shr (shr_record_of_loc mx lx) ex n) as [mrs' e'].
  destruct H1 as (He' & Hm' & Hpl'). rewrite Hshr_m in Hm'.
  assert (HeE : e' = E) by lia. clear He'. subst e'.
  pose proof (round_nearest_even_placed _ _ Hpl') as [Hrange Hnear].
  set (m2 := round_nearest_even (shr_m mrs') (loc_of_shr_record mrs')) in *.
  assert (Hm'0 : 0 <= shr_m mrs') by (rewrite Hm'; apply Z.div_pos; lia).
  assert (HEval : E = Z.max (d + ex - 53) (-1074)) by reflexivity.
  (* the mantissa after the shift has at most 53 digits, 52 at most when the
     exponent is the least one *)
  assert (Hpn : 0 < 2 ^ n) by (apply Z.pow_pos_nonneg; lia).
  assert (Hm'hi : shr_m mrs' < 2 ^ 53 /\ (d + ex - 53 < -1074 -> shr_m mrs' < 2 ^ 52)).
  { rewrite Hm'. split.
    - apply Z.div_lt_upper_bound; [lia|].
      rewrite <- Z.pow_add_r by lia.
      assert (2 ^ d <= 2 ^ (n + 53)) by (apply Z.pow_le_mono_r; lia). lia.
    - intros Hsub. apply Z.div_lt_upper_bound; [lia|].
      rewrite <- Z.pow_add_r by lia.
      assert (2 ^ d <= 2 ^ (n + 52)) by (apply Z.pow_le_mono_r; lia). lia. }
  destruct Hm'hi as [Hm'hi Hm'sub].
  (* the value of the result *)
  assert (Hval : (- pow2 E <= (inject_Z m2 * pow2 E - xi * pow2 ex) * 2 <= pow2 E)%Q).
  { assert (HEn : (pow2 E == pow2 ex * inject_Z (2 ^ n))%Q).
    { replace E with (ex + n) by lia. rewrite pow2_add.
      rewrite (pow2_Z n) by lia. reflexivity. }
    rewrite HEn.
    set (T := inject_Z (2 ^ n)) in *. set (P := pow2 ex).
    assert (HT : (0 < T)%Q) by (subst T; rewrite <- pow2_Z by lia; apply pow2_pos).
    assert (HP : (0 < P)%Q) by apply pow2_pos.
    set (y := (xi / T)%Q) in *.
    assert (Hxi : (xi == y * T)%Q) by (subst y; field; lra).
    rewrite Hxi. set (M := inject_Z m2) in *.
    assert (HK : (0 < P * T)%Q) by (apply Qmult_lt_0_compat; assumption).
    assert (Heq : ((M * (P * T) - y * T * P) * 2 == (P * T) * ((M - y) * 2))%Q) by ring.
    rewrite Heq.
    assert (Hb : (-1 <= (M - y) * 2 <= 1)%Q) by lra.
    split.
    - assert ((P * T) * (-1) <= (P * T) * ((M - y) * 2))%Q
        by (apply Qmult_le_l; [exact HK | lra]). lra.
    - assert ((P * T) * ((M - y) * 2) <= (P * T) * 1)%Q
        by (apply Qmult_le_l; [exact HK | lra]). lra. }
  assert (Hm2 : 0 <= m2 <= 2 ^ 53) by lia.
  assert (Hsign : forall (m : positive) (e : Z),
            (SF2Q (S754_finite sx m e) ==
             if sx then - (inject_Z (Z.pos m) * pow2 e) else inject_Z (Z.pos m) * pow2 e)%Q).
  { intros m e. cbn [SF2Q]. destruct sx; ring. }
  assert (HEmax : E + 1 <= 971) by lia.
  destruct (Z.eq_dec m2 0) as [Hz|Hnz].
  - (* the result is a zero *)
    rewrite Hz in *. cbn [shr_record_of_loc Zdigits2].
    assert (Hn2 : fexp64 (0 + E) - E <= 0) by (rewrite fexp64_eq; lia).
    destruct (fexp64 (0 + E) - E) as [|q|q] eqn:Hq; try lia; cbn [shr shr_m];
      exists 0%Q; (split; [lra|]); (split; [reflexivity|]); (split; [destruct sx; reflexivity|]);
      change (inject_Z 0) with 0%Q in Hval; lra.
  - destruct (Z.eq_dec m2 (2 ^ 53)) as [Htop|Hntop].
    + (* the mantissa has grown by a digit *)
      assert (Hnormal : -1074 <= d + ex - 53).
      { destruct (Z.le_gt_cases (-1074) (d + ex - 53)); [assumption|].
        specialize (Hm'sub ltac:(lia)). change (2 ^ 53) with (2 * 2 ^ 52) in Htop. lia. }
      rewrite Htop in *. rewrite (Zdigits2_pow 53) by lia.
      assert (Hn2 : fexp64 (53 + 1 + E) - E = 1) by (rewrite fexp64_eq; lia).
      rewrite Hn2. change (2 ^ 53) with 9007199254740992 in *.
      cbn [shr_record_of_loc shr SpecFloat.iter_pos shr_1 shr_m].
      change (emax - prec) with 971.
      replace (E + 1 <=? 971) with true by (symmetry; apply Z.leb_le; lia).
      exists (inject_Z 9007199254740992 * pow2 E)%Q.
      split; [apply Qmult_le_0_compat; [discriminate | apply Qlt_le_weak, pow2_pos]|].
      split; [reflexivity|]. split; [|exact Hval].
      assert (Hlit : (inject_Z 9007199254740992 == inject_Z 4503599627370496 * 2)%Q)
        by reflexivity.
      rewrite Hsign.
      destruct sx; rewrite (pow2_add E 1); change (pow2 1) with 2%Q; rewrite Hlit; ring.
    + assert (Hdig : Zdigits2 m2 <= 53) by (apply Zdigits2_le; lia).
      assert (Hn2 : fexp64 (Zdigits2 m2 + E) - E <= 0) by (rewrite fexp64_eq; lia).
      destruct m2 as [|p2|p2] eqn:Hp2; try lia.
      destruct (fexp64 (Zdigits2 (Z.pos p2) + E) - E) as [|q|q] eqn:Hq; try lia;
        cbn [shr_record_of_loc shr shr_m];
        change (emax - prec) with 971;
        replace (E <=? 971) with true by (symmetry; apply Z.leb_le; lia);
        exists (inject_Z (Z.pos p2) * pow2 E)%Q;
        (split; [apply Qmult_le_0_compat; [discriminate | apply Qlt_le_weak, pow2_pos]|]);
        (split; [reflexivity|]); (split; [apply Hsign | exact Hval]).
Qed.

(** A mantissa that is already where the format wants it is kept. *)
Lemma binary_round_aux_exact (sx : bool) (m : positive) (e : Z) :
  fexp64 (Z.pos (digits2_pos m) + e) = e -> e <= 971 ->
  binary_round_aux prec emax sx (Z.pos m) e loc_Exact = S754_finite sx m e.
Proof.
  intros Hc He. unfold binary_round_aux, shr_fexp. cbn [Zdigits2 shr_record_of_loc].
  rewrite Hc, Z.sub_diag. cbn [shr shr_m loc_of_shr_record round_nearest_even Zdigits2].
  rewrite Hc, Z.sub_diag. cbn [shr shr_m]. change (emax - prec) with 971.
  replace (e <=? 971) with true by (symmetry; apply Z.leb_le; exact He). reflexivity.
Qed.

Lemma iter_xO (m k : positive) : Z.pos (Pos.iter xO m k) = Z.pos m * 2 ^ Z.pos k.
Proof.
  change (Pos.iter xO m k) with (shift_pos k m). rewrite shift_pos_correct.
  change (Z.pow_pos 2 k) with (2 ^ Z.pos k). lia.
Qed.

Lemma shl_align_spec (m : positive) (e e' : Z) :
  let '(m', e'') := shl_align m e e' in
  (e' < e /\ e'' = e' /\ Z.pos m' = Z.pos m * 2 ^ (e - e')) \/
  (e <= e' /\ m' = m /\ e'' = e).
Proof.
  unfold shl_align. destruct (e' - e) as [|k|k] eqn:Hk.
  - right. repeat split. lia.
  - right. repeat split. lia.
  - left. split; [lia|]. split; [reflexivity|].
    rewrite iter_xO. f_equal. f_equal. lia.
Qed.

Lemma digits2_shift (m : positive) (k : Z) (m' : positive) :
  0 <= k -> Z.pos m' = Z.pos m * 2 ^ k ->
  Z.pos (digits2_pos m') = Z.pos (digits2_pos m) + k.
Proof.
  intros Hk Hm'. apply digits2_unique. rewrite Hm'.
  destruct (digits2_bounds m) as [Hlo Hhi].
  assert (Hp : 0 < 2 ^ k) by (apply Z.pow_pos_nonneg; lia).
  replace (Z.pos (digits2_pos m) + k - 1) with (Z.pos (digits2_pos m) - 1 + k) by lia.
  rewrite !Z.pow_add_r by lia. split; [apply Z.mul_le_mono_nonneg_r; lia|].
  apply Z.mul_lt_mono_pos_r; lia.
Qed.

(** The value of a finite number, by its sign. *)
Lemma SF2Q_finite (s : bool) (m : positive) (e : Z) :
  (SF2Q (S754_finite s m e) ==
   (if s then -1 else 1) * (inject_Z (Z.pos m) * pow2 e))%Q.
Proof. cbn [SF2Q]. destruct s; ring. Qed.

(** *** int64 to float64, for a number of at most 53 bits *)

(** The integer [N] as a binary64 number: a zero, or the 53 digits of the
    magnitude of [N] at an exponent between -52 and 0. *)
Lemma binary_normalize_int (z : Z) :
  z <> 0 -> Z.abs z < 2 ^ 53 ->
  exists (m : positive) (e : Z),
    binary_normalize prec emax z 0 false = S754_finite (z <? 0) m e /\
    Z.pos (digits2_pos m) = 53 /\ -52 <= e <= 0 /\ Z.pos m = Z.abs z * 2 ^ (- e).
Proof.
  intros Hz Hlt.
  assert (Hp : forall (s : bool) (p : positive), Z.pos p < 2 ^ 53 ->
            exists (m : positive) (e : Z),
              binary_round prec emax s p 0 = S754_finite s m e /\
              Z.pos (digits2_pos m) = 53 /\ -52 <= e <= 0 /\ Z.pos m = Z.pos p * 2 ^ (- e)).
  { intros s p Hp. unfold binary_round.
    set (d := Z.pos (digits2_pos p)).
    assert (Hd : 1 <= d <= 53).
    { split; [subst d; lia|]. apply (Zdigits2_le (Z.pos p) 53); lia. }
    assert (Hf : fexp64 (d + 0) = d - 53) by (rewrite fexp64_eq; lia).
    rewrite Hf. pose proof (shl_align_spec p 0 (d - 53)) as Hsh.
    destruct (shl_align p 0 (d - 53)) as [m e].
    destruct Hsh as [(Hlt' & -> & Hm)|(Hge & -> & ->)].
    - exists m, (d - 53).
      assert (Hdm : Z.pos (digits2_pos m) = 53).
      { rewrite (digits2_shift p (0 - (d - 53)) m); [subst d; lia | lia | exact Hm]. }
      split; [|split; [exact Hdm|split; [lia|]]].
      + apply binary_round_aux_exact; [rewrite Hdm, fexp64_eq; lia | lia].
      + rewrite Hm. replace (0 - (d - 53)) with (- (d - 53)) by lia. reflexivity.
    - exists p, 0. assert (d = 53) by lia.
      split; [|split; [assumption|split; [lia|cbn; lia]]].
      apply binary_round_aux_exact; [fold d; rewrite fexp64_eq; lia | lia]. }
  destruct z as [|p|p]; [contradiction| |]; cbn [binary_normalize Z.abs].
  - change (Z.pos p <? 0) with false. apply Hp. exact Hlt.
  - change (Z.neg p <? 0) with true. apply Hp. exact Hlt.
Qed.

Lemma valid_binary_canonical (s : bool) (m : positive) (e : Z) :
  fexp64 (Z.pos (digits2_pos m) + e) = e -> e <= 971 ->
  valid_binary (S754_finite s m e) = true.
Proof.
  intros Hc He. cbn [valid_binary]. unfold bounded, canonical_mantissa.
  rewrite Hc, Z.eqb_refl. change (emax - prec) with 971.
  cbn [andb]. apply Z.leb_le. exact He.
Qed.

Lemma Prim2SF_float_of_Z (z : Z) :
  Z.abs z < 2 ^ 53 -> Prim2SF (float_of_Z z) = binary_normalize prec emax z 0 false.
Proof.
  intros Hz. unfold float_of_Z. apply Prim2SF_SF2Prim.
  destruct (Z.eq_dec z 0) as [->|Hnz]; [reflexivity|].
  destruct (binary_normalize_int z Hnz Hz) as (m & e & -> & Hd & He & _).
  apply valid_binary_canonical; [rewrite Hd, fexp64_eq; lia | lia].
Qed.

(** *** From half a unit of the last place to a relative error *)

Lemma pow2_m52 : (pow2 (-52) == 2 * unit_roundoff)%Q.
Proof. reflexivity. Qed.

Lemma pow2_max (a b : Z) : (pow2 (Z.max a b) <= pow2 a + pow2 b)%Q.
Proof.
  pose proof (pow2_pos a). pose proof (pow2_pos b).
  destruct (Z.max_spec a b) as [[_ ->]|[_ ->]]; lra.
Qed.

(** [X] has [k] digits before the binary point; [V] is within half a unit of
    the last place of it, the last place being the 53rd digit or the place
    of the least exponent. *)
Lemma round_bound (V X : Q) (k : Z) :
  (pow2 (k - 1) <= X)%Q ->
  (- pow2 (Z.max (k - 53) (-1074)) <= (V - X) * 2 <= pow2 (Z.max (k - 53) (-1074)))%Q ->
  (Qabs (V - X) <= unit_roundoff * X + pow2 (-1075))%Q /\
  (-1074 <= k - 53 -> (Qabs (V - X) <= unit_roundoff * X)%Q).
Proof.
  intros HX Herr.
  assert (Hk : (pow2 (k - 53) == pow2 (k - 1) * (2 * unit_roundoff))%Q).
  { replace (k - 53) with ((k - 1) + (-52)) by lia. rewrite pow2_add, pow2_m52. reflexivity. }
  assert (Heta : (pow2 (-1074) == 2 * pow2 (-1075))%Q).
  { pose proof (pow2_half (-1074)) as H. change (-1074 - 1) with (-1075) in H. lra. }
  assert (Hu : (0 < unit_roundoff)%Q) by reflexivity.
  pose proof (pow2_pos (k - 1)) as Hp1. pose proof (pow2_pos (-1075)) as Hp2.
  assert (Hmul : (pow2 (k - 1) * (2 * unit_roundoff) <= X * (2 * unit_roundoff))%Q)
    by (apply Qmult_le_compat_r; lra).
  split.
  - pose proof (pow2_max (k - 53) (-1074)) as Hmax.
    apply Qabs_Qle_condition. lra.
  - intros Hn. rewrite Z.max_l in Herr by lia.
    apply Qabs_Qle_condition. lra.
Qed.

Lemma Qabs_signed (s : bool) (a : Q) : (Qabs (if s then - a else a) == Qabs a)%Q.
Proof. destruct s; [apply Qabs_opp | reflexivity]. Qed.

Lemma placed_exact (m : Z) : 0 <= m -> placed (inject_Z m) (shr_record_of_loc m loc_Exact).
Proof.
  intros Hm. unfold placed. cbn [shr_record_of_loc shr_m shr_r shr_s].
  split; [exact Hm|]. split; [lra|]. split; [lra|]. split; [intros _; ring | reflexivity].
Qed.

Lemma valid_finite (s : bool) (m : positive) (e : Z) :
  valid_binary (S754_finite s m e) = true ->
  fexp64 (Z.pos (digits2_pos m) + e) = e /\ e <= 971.
Proof.
  cbn [valid_binary]. unfold bounded, canonical_mantissa. change (emax - prec) with 971.
  intros H. apply andb_prop in H as [Hc Hb].
  split; [apply Z.eqb_eq, Hc | apply Z.leb_le, Hb].
Qed.

Lemma inject_pos_ge (m : positive) :
  (pow2 (Z.pos (digits2_pos m) - 1) <= inject_Z (Z.pos m))%Q.
Proof.
  rewrite pow2_Z by lia. rewrite <- Zle_Qle. apply digits2_bounds.
Qed.

(** *** Multiplication *)

Lemma digits2_mul (mx my : positive) :
  Z.pos (digits2_pos mx) + Z.pos (digits2_pos my) - 1 <= Z.pos (digits2_pos (mx * my)).
Proof.
  destruct (digits2_bounds mx) as [Hx _]. destruct (digits2_bounds my) as [Hy _].
  destruct (digits2_bounds (mx * my)) as [_ Hxy].
  set (dx := Z.pos (digits2_pos mx)) in *. set (dy := Z.pos (digits2_pos my)) in *.
  set (d := Z.pos (digits2_pos (mx * my))) in *.
  assert (Hprod : 2 ^ (dx - 1) * 2 ^ (dy - 1) <= Z.pos mx * Z.pos my).
  { apply Z.mul_le_mono_nonneg; try lia; apply Z.pow_nonneg; lia. }
  rewrite <- Z.pow_add_r in Hprod by (subst dx dy; lia).
  rewrite Pos2Z.inj_mul in Hxy.
  assert (dx - 1 + (dy - 1) < d).
  { apply (Z.pow_lt_mono_r_iff 2); [lia | subst d; lia | lia]. }
  lia.
Qed.

Lemma SFmul_correct (sx : bool) (mx : positive) (ex : Z) (sy : bool) (my : positive) (ey : Z) :
  valid_binary (S754_finite sx mx ex) = true ->
  valid_binary (S754_finite sy my ey) = true ->
  let X := (inject_Z (Z.pos mx) * pow2 ex * (inject_Z (Z.pos my) * pow2 ey))%Q in
  (X < pow2 1023)%Q ->
  let z := SFmul prec emax (S754_finite sx mx ex) (S754_finite sy my ey) in
  SFfinite z = true /\
  (Qabs (SF2Q z - SF2Q (S754_finite sx mx ex) * SF2Q (S754_finite sy my ey))
   <= unit_roundoff * X + pow2 (-1075))%Q.
Proof.
  intros Hvx Hvy X Hov z.
  apply valid_finite in Hvx as [Hcx _]. apply valid_finite in Hvy as [Hcy _].
  rewrite fexp64_eq in Hcx, Hcy.
  pose proof (digits2_mul mx my) as Hd.
  set (dx := Z.pos (digits2_pos mx)) in *. set (dy := Z.pos (digits2_pos my)) in *.
  set (d := Z.pos (digits2_pos (mx * my))) in *.
  assert (Hdx : 1 <= dx) by (subst dx; lia). assert (Hdy : 1 <= dy) by (subst dy; lia).
  assert (HX : (X == inject_Z (Z.pos (mx * my)) * pow2 (ex + ey))%Q).
  { subst X. rewrite Pos2Z.inj_mul, inject_Z_mult, pow2_add. ring. }
  assert (Hlow : (pow2 (d + (ex + ey) - 1) <= X)%Q).
  { rewrite HX. replace (d + (ex + ey) - 1) with ((d - 1) + (ex + ey)) by lia.
    rewrite pow2_add. apply Qmult_le_compat_r; [apply inject_pos_ge|].
    apply Qlt_le_weak, pow2_pos. }
  assert (Hmag : d + (ex + ey) - 1 < 1023).
  { apply pow2_lt_inv. eapply Qle_lt_trans; [exact Hlow | exact Hov]. }
  destruct (binary_round_aux_correct (xorb sx sy) (Z.pos (mx * my)) (ex + ey) loc_Exact
              (inject_Z (Z.pos (mx * my)))) as (V & HV & Hfin & Hval & Herr).
  { lia. }
  { apply placed_exact. lia. }
  { cbn [Zdigits2]. fold d. rewrite fexp64_eq. lia. }
  { cbn [Zdigits2]. fold d. lia. }
  cbn [Zdigits2] in Herr. fold d in Herr. rewrite fexp64_eq in Herr. rewrite <- HX in Herr.
  subst z. cbn [SFmul]. split; [exact Hfin|].
  destruct (round_bound V X (d + (ex + ey)) Hlow) as [Hb _].
  { replace (d + (ex + ey) - 53) with (d + (ex + ey) - 53) by lia. exact Herr. }
  rewrite Hval, !SF2Q_finite.
  assert (Hs : ((if xorb sx sy then - V else V)
                - (if sx then -1 else 1) * (inject_Z (Z.pos mx) * pow2 ex)
                  * ((if sy then -1 else 1) * (inject_Z (Z.pos my) * pow2 ey))
                == if xorb sx sy then - (V - X) else V - X)%Q).
  { subst X. destruct sx, sy; cbn [xorb]; ring. }
  rewrite Hs, Qabs_signed. exact Hb.
Qed.

Tactic Notation "qreplace" constr(a) "with" constr(b) "by" tactic3(t) :=
  let H := fresh "Heq" in assert (H : (a == b)%Q); [solve [t] | rewrite H; clear H].

Lemma SF2Q_abs (s : bool) (m : positive) (e : Z) :
  (Qabs (SF2Q (S754_finite s m e)) == inject_Z (Z.pos m) * pow2 e)%Q.
Proof.
  assert (Hpos : (0 <= inject_Z (Z.pos m) * pow2 e)%Q).
  { apply Qmult_le_0_compat; [change 0%Q with (inject_Z 0); rewrite <- Zle_Qle; lia|].
    apply Qlt_le_weak, pow2_pos. }
  cbn [SF2Q]. destruct s.
  - qreplace (- inject_Z (Z.pos m) * pow2 e)%Q with (- (inject_Z (Z.pos m) * pow2 e))%Q by ring.
    rewrite Qabs_opp. apply Qabs_pos, Hpos.
  - apply Qabs_pos, Hpos.
Qed.

Lemma error_of_zero (v : Q) :
  (v == 0 -> Qabs (0 - v) <= unit_roundoff * Qabs v + pow2 (-1075))%Q.
Proof.
  intros Hv. rewrite Hv. qreplace (0 - 0)%Q with 0%Q by ring.
  change (Qabs 0) with 0%Q. pose proof (pow2_pos (-1075)). lra.
Qed.

Theorem fmul_correct (x y : float) :
  finite x = true -> finite y = true ->
  (Qabs (fval x * fval y) < pow2 1023)%Q ->
  finite (x * y) = true /\
  (Qabs (fval (x * y) - fval x * fval y)
   <= unit_roundoff * Qabs (fval x * fval y) + pow2 (-1075))%Q.
Proof.
  unfold finite, fval. rewrite mul_spec.
  pose proof (Prim2SF_valid x) as Hvx. pose proof (Prim2SF_valid y) as Hvy.
  destruct (Prim2SF x) as [sx|sx| |sx mx ex], (Prim2SF y) as [sy|sy| |sy my ey];
    try discriminate; intros _ _ Hov.
  - split; [reflexivity|]. apply error_of_zero. cbn [SF2Q]. ring.
  - split; [reflexivity|]. apply error_of_zero. cbn [SF2Q]. ring.
  - split; [reflexivity|]. apply error_of_zero. cbn [SF2Q]. ring.
  - rewrite Qabs_Qmult, !SF2Q_abs in *.
    apply (SFmul_correct sx mx ex sy my ey Hvx Hvy Hov).
Qed.

(** *** Addition *)

Lemma binary_round_correct (sx : bool) (mx : positive) (ex : Z) :
  let X := (inject_Z (Z.pos mx) * pow2 ex)%Q in
  (X < pow2 1023)%Q ->
  exists V : Q,
    SFfinite (binary_round prec emax sx mx ex) = true /\
    (SF2Q (binary_round prec emax sx mx ex) == if sx then - V else V)%Q /\
    (Qabs (V - X) <= unit_roundoff * X + pow2 (-1075))%Q.
Proof.
  intros X Hov. unfold binary_round.
  set (d := Z.pos (digits2_pos mx)).
  assert (Hlow : (pow2 (d + ex - 1) <= X)%Q).
  { subst X. replace (d + ex - 1) with ((d - 1) + ex) by lia.
    rewrite pow2_add. apply Qmult_le_compat_r; [apply inject_pos_ge|].
    apply Qlt_le_weak, pow2_pos. }
  assert (Hmag : d + ex - 1 < 1023).
  { apply pow2_lt_inv. eapply Qle_lt_trans; [exact Hlow | exact Hov]. }
  pose proof (shl_align_spec mx ex (fexp64 (d + ex))) as Hsh.
  destruct (shl_align mx ex (fexp64 (d + ex))) as [m' e''].
  assert (Hm' : Z.pos (digits2_pos m') + e'' = d + ex /\ e'' <= fexp64 (d + ex) /\
                (inject_Z (Z.pos m') * pow2 e'' == X)%Q).
  { destruct Hsh as [(Hlt & -> & Hm)|(Hge & -> & ->)].
    - rewrite (digits2_shift mx (ex - fexp64 (d + ex)) m') by (lia || exact Hm).
      fold d. split; [lia|]. split; [lia|].
      rewrite Hm, inject_Z_mult, <- pow2_Z by lia. subst X.
      rewrite <- Qmult_assoc, <- pow2_add.
      replace (ex - fexp64 (d + ex) + fexp64 (d + ex)) with ex by lia. reflexivity.
    - fold d. split; [lia|]. split; [lia|]. reflexivity. }
  destruct Hm' as (Hd' & He'' & HX).
  destruct (binary_round_aux_correct sx (Z.pos m') e'' loc_Exact (inject_Z (Z.pos m')))
    as (V & HV & Hfin & Hval & Herr).
  { lia. }
  { apply placed_exact. lia. }
  { cbn [Zdigits2]. rewrite Hd'. exact He''. }
  { cbn [Zdigits2]. lia. }
  cbn [Zdigits2] in Herr. rewrite Hd', fexp64_eq, HX in Herr.
  exists V. split; [exact Hfin|]. split; [exact Hval|].
  apply (round_bound V X (d + ex) Hlow Herr).
Qed.

Lemma binary_normalize_correct (z e : Z) :
  (Qabs (inject_Z z * pow2 e) < pow2 1023)%Q ->
  SFfinite (binary_normalize prec emax z e false) = true /\
  (Qabs (SF2Q (binary_normalize prec emax z e false) - inject_Z z * pow2 e)
   <= unit_roundoff * Qabs (inject_Z z * pow2 e) + pow2 (-1075))%Q.
Proof.
  intros Hov. pose proof (pow2_pos e) as Hpe.
  destruct z as [|p|p]; cbn [binary_normalize].
  - split; [reflexivity|]. apply error_of_zero. change (inject_Z 0) with 0%Q. ring.
  - assert (Hpos : (0 <= inject_Z (Z.pos p) * pow2 e)%Q).
    { apply Qmult_le_0_compat; [change 0%Q with (inject_Z 0); rewrite <- Zle_Qle; lia | lra]. }
    rewrite (Qabs_pos _ Hpos) in *.
    destruct (binary_round_correct false p e Hov) as (V & Hfin & Hval & Herr).
    split; [exact Hfin|]. rewrite Hval. exact Herr.
  - assert (Hneg : (inject_Z (Z.neg p) * pow2 e == - (inject_Z (Z.pos p) * pow2 e))%Q).
    { change (Z.neg p) with (- Z.pos p). rewrite inject_Z_opp. ring. }
    assert (Hpos : (0 <= inject_Z (Z.pos p) * pow2 e)%Q).
    { apply Qmult_le_0_compat; [change 0%Q with (inject_Z 0); rewrite <- Zle_Qle; lia | lra]. }
    rewrite Hneg, Qabs_opp, (Qabs_pos _ Hpos) in *.
    destruct (binary_round_correct true p e Hov) as (V & Hfin & Hval & Herr).
    split; [exact Hfin|]. rewrite Hval.
    qreplace (- V - - (inject_Z (Z.pos p) * pow2 e))%Q with (- (V - inject_Z (Z.pos p) * pow2 e))%Q by ring.
    rewrite Qabs_opp. exact Herr.
Qed.

Lemma shl_align_fst (m : positive) (e e' : Z) :
  e' <= e -> Z.pos (fst (shl_align m e e')) = Z.pos m * 2 ^ (e - e').
Proof.
  intros Hle. pose proof (shl_align_spec m e e') as Hsh.
  destruct (shl_align m e e') as [m' e'']. cbn [fst].
  destruct Hsh as [(_ & _ & Hm)|(Hge & -> & _)]; [exact Hm|].
  replace (e - e') with 0 by lia. lia.
Qed.

Lemma aligned_value (s : bool) (m : positive) (e e' : Z) :
  e' <= e ->
  (inject_Z (cond_Zopp s (Z.pos (fst (shl_align m e e')))) * pow2 e'
   == SF2Q (S754_finite s m e))%Q.
Proof.
  intros Hle. rewrite shl_align_fst by exact Hle.
  assert (Hp : (inject_Z (Z.pos m * 2 ^ (e - e')) * pow2 e' == inject_Z (Z.pos m) * pow2 e)%Q).
  { rewrite inject_Z_mult, <- pow2_Z by lia. rewrite <- Qmult_assoc, <- pow2_add.
    replace (e - e' + e') with e by lia. reflexivity. }
  destruct s; cbn [cond_Zopp SF2Q].
  - rewrite inject_Z_opp.
    transitivity (- (inject_Z (Z.pos m * 2 ^ (e - e')) * pow2 e'))%Q; [ring|].
    rewrite Hp. ring.
  - exact Hp.
Qed.

Theorem fadd_correct (x y : float) :
  finite x = true -> finite y = true ->
  (Qabs (fval x + fval y) < pow2 1023)%Q ->
  finite (x + y) = true /\
  (Qabs (fval (x + y) - (fval x + fval y))
   <= unit_roundoff * Qabs (fval x + fval y) + pow2 (-1075))%Q.
Proof.
  unfold finite, fval. rewrite add_spec.
  destruct (Prim2SF x) as [sx|sx| |sx mx ex], (Prim2SF y) as [sy|sy| |sy my ey];
    try discriminate; intros _ _ Hov.
  - destruct sx, sy; (split; [reflexivity|]); cbn [SF64add SFadd SF2Q];
      apply error_of_zero; ring.
  - cbn [SFadd]. split; [reflexivity|].
    qreplace (SF2Q (S754_finite sy my ey) - (SF2Q (S754_zero sx) + SF2Q (S754_finite sy my ey)))%Q
      with 0%Q by (cbn [SF2Q]; ring).
    change (Qabs 0) with 0%Q.
    pose proof (Qabs_nonneg (SF2Q (S754_zero sx) + SF2Q (S754_finite sy my ey))).
    pose proof (pow2_pos (-1075)).
    assert (0 <= unit_roundoff * Qabs (SF2Q (S754_zero sx) + SF2Q (S754_finite sy my ey)))%Q
      by (apply Qmult_le_0_compat; [discriminate | assumption]).
    lra.
  - cbn [SFadd]. split; [reflexivity|].
    qreplace (SF2Q (S754_finite sx mx ex) - (SF2Q (S754_finite sx mx ex) + SF2Q (S754_zero sy)))%Q
      with 0%Q by (cbn [SF2Q]; ring).
    change (Qabs 0) with 0%Q.
    pose proof (Qabs_nonneg (SF2Q (S754_finite sx mx ex) + SF2Q (S754_zero sy))).
    pose proof (pow2_pos (-1075)).
    assert (0 <= unit_roundoff * Qabs (SF2Q (S754_finite sx mx ex) + SF2Q (S754_zero sy)))%Q
      by (apply Qmult_le_0_compat; [discriminate | assumption]).
    lra.
  - cbn [SFadd].
    set (ez := Z.min ex ey).
    set (z := cond_Zopp sx (Z.pos (fst (shl_align mx ex ez)))
              + cond_Zopp sy (Z.pos (fst (shl_align my ey ez)))).
    assert (Hz : (inject_Z z * pow2 ez
                  == SF2Q (S754_finite sx mx ex) + SF2Q (S754_finite sy my ey))%Q).
    { subst z. rewrite inject_Z_plus, Qmult_plus_distr_l.
      rewrite !aligned_value by (subst ez; lia). reflexivity. }
    rewrite <- Hz in *. apply binary_normalize_correct. exact Hov.
Qed.

(** *** Integers and their quotients *)

Lemma int_float_of_int (z : Z) : Z.abs z < 2 ^ 53 -> int_float (float_of_Z z) z.
Proof.
  intros Hz. unfold int_float. rewrite Prim2SF_float_of_Z by exact Hz.
  destruct (Z.eq_dec z 0) as [->|Hnz]; [reflexivity|].
  destruct (binary_normalize_int z Hnz Hz) as (m & e & -> & Hd & He & Hm).
  cbn [SFint]. auto.
Qed.

Lemma SFint_value (f : spec_float) (a : Z) :
  SFint f a -> SFfinite f = true /\ (SF2Q f == inject_Z a)%Q.
Proof.
  destruct f as [s|s| |s m e]; cbn [SFint]; try contradiction.
  - intros ->. split; reflexivity.
  - intros (Hd & He & Hm & Hs). split; [reflexivity|].
    assert (Hv : (inject_Z (Z.pos m) * pow2 e == inject_Z (Z.abs a))%Q).
    { rewrite Hm, inject_Z_mult, <- pow2_Z by lia. rewrite <- Qmult_assoc, <- pow2_add.
      replace (- e + e) with 0 by lia. change (pow2 0) with 1%Q. ring. }
    rewrite SF2Q_finite, Hv, Hs. destruct (Z.ltb_spec a 0).
    + rewrite Z.abs_neq by lia. rewrite inject_Z_opp. ring.
    + rewrite Z.abs_eq by lia. ring.
Qed.

Lemma int_float_value (x : float) (a : Z) :
  int_float x a -> finite x = true /\ (fval x == inject_Z a)%Q.
Proof. apply SFint_value. Qed.

Lemma inject_Z_pos (z : Z) : 0 < z -> (0 < inject_Z z)%Q.
Proof. intros Hz. change 0%Q with (inject_Z 0). rewrite <- Zlt_Qlt. exact Hz. Qed.

(** The remainder [r] of a division by [n] places the quotient between the
    integer part and the next integer. *)
Lemma new_location_placed (q n r : Z) :
  0 <= q -> 0 <= r < n ->
  placed (inject_Z q + inject_Z r / inject_Z n) (shr_record_of_loc q (new_location n r)).
Proof.
  intros Hq Hr.
  assert (Hn : (0 < inject_Z n)%Q) by (apply inject_Z_pos; lia).
  assert (Hfrac : forall c : Z, (inject_Z r / inject_Z n ?= 1 # 2)%Q = (2 * r ?= n)).
  { intros _. unfold Qcompare, Qdiv, Qinv, inject_Z. cbn [Qnum Qden Qmult].
    destruct n as [|pn|pn]; try lia. cbn [Qnum Qden Qmult].
    rewrite !Z.mul_1_r, Pos.mul_1_l. cbn [Z.of_nat]. 
    rewrite Z.mul_comm. reflexivity. }
  assert (H0 : (0 <= inject_Z r / inject_Z n)%Q).
  { apply Qle_shift_div_l; [exact Hn|]. rewrite Qmult_0_l.
    change 0%Q with (inject_Z 0). rewrite <- Zle_Qle. lia. }
  assert (H1 : (inject_Z r / inject_Z n < 1)%Q).
  { apply Qlt_shift_div_r; [exact Hn|]. rewrite Qmult_1_l. rewrite <- Zlt_Qlt. lia. }
  assert (Hzero : r = 0 -> (inject_Z r / inject_Z n == 0)%Q).
  { intros ->. unfold Qdiv. change (inject_Z 0) with 0%Q. ring. }
  assert (Hnz : r <> 0 -> (0 < inject_Z r / inject_Z n)%Q).
  { intros Hne. apply Qlt_shift_div_l; [exact Hn|]. rewrite Qmult_0_l.
    apply inject_Z_pos. lia. }
  pose proof (Hfrac 0) as Hc. clear Hfrac.
  set (f := (inject_Z r / inject_Z n)%Q) in *.
  assert (Hlt : 2 * r < n -> (f < 1 # 2)%Q).
  { intros H. apply Z.compare_lt_iff in H. rewrite <- Hc in H. exact H. }
  assert (Heq : 2 * r = n -> (f == 1 # 2)%Q).
  { intros H. apply Z.compare_eq_iff in H. rewrite <- Hc in H.
    apply Qeq_alt. exact H. }
  assert (Hgt : n < 2 * r -> (1 # 2 < f)%Q).
  { intros H. apply Z.compare_gt_iff in H. rewrite <- Hc in H.
    apply Qgt_alt. exact H. }
  assert (Hexact : r = 0 -> placed (inject_Z q + f) (shr_record_of_loc q loc_Exact)).
  { intros Hr0. specialize (Hzero Hr0). unfold placed.
    cbn [shr_record_of_loc shr_m shr_r shr_s].
    split; [exact Hq|]. split; [lra|]. split; [lra|]. split; [intros _; lra | reflexivity]. }
  unfold new_location, new_location_even, new_location_odd.
  destruct (Z.even n) eqn:Heven; destruct (Z.eqb_spec r 0) as [Hr0|Hr0];
    try (apply Hexact; exact Hr0); specialize (Hnz Hr0); unfold placed.
  - destruct (Z.compare_spec (2 * r) n) as [Hcmp|Hcmp|Hcmp];
      cbn [shr_record_of_loc shr_m shr_r shr_s];
      (split; [exact Hq|]).
    + specialize (Heq Hcmp). split; [lra|]. split; [lra|]. split; [intros _; lra | reflexivity].
    + specialize (Hlt Hcmp). split; [lra|]. split; [lra|].
      split; [discriminate | intros Hx; lra].
    + specialize (Hgt Hcmp). split; [lra|]. split; [lra|].
      split; [discriminate | intros Hx; lra].
  - assert (Hodd : 2 * r <> n).
    { intros <-. rewrite Z.even_mul in Heven. discriminate. }
    destruct (Z.compare_spec (2 * r + 1) n) as [Hcmp|Hcmp|Hcmp];
      cbn [shr_record_of_loc shr_m shr_r shr_s];
      (split; [exact Hq|]).
    + assert (Hl : 2 * r < n) by lia. specialize (Hlt Hl). split; [lra|]. split; [lra|].
      split; [discriminate | intros Hx; lra].
    + assert (Hl : 2 * r < n) by lia. specialize (Hlt Hl). split; [lra|]. split; [lra|].
      split; [discriminate | intros Hx; lra].
    + assert (Hl : n < 2 * r) by lia. specialize (Hgt Hl). split; [lra|]. split; [lra|].
      split; [discriminate | intros Hx; lra].
Qed.

Lemma SFdiv_core_int (mx : positive) (ex : Z) (my : positive) (ey : Z) :
  Z.pos (digits2_pos mx) = 53 -> Z.pos (digits2_pos my) = 53 ->
  -52 <= ex <= 0 -> -52 <= ey <= 0 ->
  SFdiv_core_binary prec emax (Z.pos mx) ex (Z.pos my) ey
  = (Z.pos mx * 2 ^ 53 / Z.pos my, ex - ey - 53,
     new_location (Z.pos my) ((Z.pos mx * 2 ^ 53) mod Z.pos my)).
Proof.
  intros Hdx Hdy Hex Hey. unfold SFdiv_core_binary. cbv zeta. cbn [Zdigits2].
  rewrite Hdx, Hdy, fexp64_eq.
  replace (Z.max (53 + ex - (53 + ey) - 53) (-1074)) with (ex - ey - 53) by lia.
  rewrite Z.min_l by lia.
  replace (ex - ey - (ex - ey - 53)) with 53 by lia. cbv beta iota.
  rewrite Z.shiftl_mul_pow2 by lia.
  unfold Z.div, Z.modulo. destruct (Z.div_eucl _ _). reflexivity.
Qed.

Lemma SFdiv_int (sx : bool) (mx : positive) (ex : Z) (sy : bool) (my : positive) (ey : Z) :
  Z.pos (digits2_pos mx) = 53 -> Z.pos (digits2_pos my) = 53 ->
  -52 <= ex <= 0 -> -52 <= ey <= 0 ->
  let X := (inject_Z (Z.pos mx) * pow2 ex / (inject_Z (Z.pos my) * pow2 ey))%Q in
  let z := SFdiv prec emax (S754_finite sx mx ex) (S754_finite sy my ey) in
  exists V : Q,
    SFfinite z = true /\
    (SF2Q z == if xorb sx sy then - V else V)%Q /\
    (Qabs (V - X) <= unit_roundoff * X)%Q.
Proof.
  intros Hdx Hdy Hex Hey X z. subst z. cbn [SFdiv].
  rewrite SFdiv_core_int by assumption.
  destruct (digits2_bounds mx) as [Hxl Hxh]. destruct (digits2_bounds my) as [Hyl Hyh].
  rewrite Hdx in Hxl, Hxh. rewrite Hdy in Hyl, Hyh.
  change (2 ^ (53 - 1)) with (2 ^ 52) in *.
  set (P := 2 ^ 52) in *.
  assert (HP53 : 2 ^ 53 = 2 * P) by reflexivity.
  assert (HP54 : 2 ^ 54 = 4 * P) by reflexivity.
  assert (HPpos : 0 < P) by reflexivity.
  rewrite HP53 in *.
  set (N := Z.pos mx * (2 * P)).
  set (q := N / Z.pos my). set (r := N mod Z.pos my).
  assert (Hdm : N = Z.pos my * q + r) by (apply Z.div_mod; lia).
  assert (Hr : 0 <= r < Z.pos my) by (apply Z.mod_pos_bound; lia).
  assert (Hql : P <= q).
  { apply Z.div_le_lower_bound; [lia|]. subst N. nia. }
  assert (Hqh : q < 4 * P).
  { apply Z.div_lt_upper_bound; [lia|]. subst N. nia. }
  assert (Hdq : 53 <= Zdigits2 q <= 54).
  { destruct q as [|pq|pq]; try lia. cbn [Zdigits2].
    destruct (Z.lt_ge_cases (Z.pos pq) (2 * P)) as [Hlt|Hge].
    - rewrite (digits2_unique pq 53); [lia|].
      change (2 ^ (53 - 1)) with P. rewrite HP53. lia.
    - rewrite (digits2_unique pq 54); [lia|].
      change (2 ^ (54 - 1)) with (2 ^ 53). rewrite HP53, HP54. lia. }
  set (xi := (inject_Z q + inject_Z r / inject_Z (Z.pos my))%Q).
  destruct (binary_round_aux_correct (xorb sx sy) q (ex - ey - 53)
              (new_location (Z.pos my) r) xi) as (V & HV & Hfin & Hval & Herr).
  { lia. }
  { apply new_location_placed; lia. }
  { rewrite fexp64_eq. lia. }
  { lia. }
  assert (HMy : (0 < inject_Z (Z.pos my))%Q) by (apply inject_Z_pos; lia).
  pose proof (pow2_pos ey) as HPy. pose proof (pow2_pos ex) as HPx.
  assert (HX : (xi * pow2 (ex - ey - 53) == X)%Q).
  { subst xi X.
    assert (HN : (inject_Z (Z.pos mx) * inject_Z (2 * P)
                  == inject_Z (Z.pos my) * inject_Z q + inject_Z r)%Q).
    { rewrite <- !inject_Z_mult, <- inject_Z_plus. rewrite <- Hdm. reflexivity. }
    assert (HE : (pow2 (ex - ey - 53) * pow2 ey * inject_Z (2 * P) == pow2 ex)%Q).
    { rewrite <- HP53, <- pow2_Z by lia. rewrite <- !pow2_add.
      replace (ex - ey - 53 + ey + 53) with ex by lia. reflexivity. }
    rewrite <- HE.
    transitivity (inject_Z (Z.pos mx) * inject_Z (2 * P) / inject_Z (Z.pos my)
                  * pow2 (ex - ey - 53))%Q.
    - rewrite HN. field. lra.
    - field. split; lra. }
  rewrite fexp64_eq, HX in Herr.
  exists V. split; [exact Hfin|]. split; [exact Hval|].
  set (k := Zdigits2 q + (ex - ey - 53)) in *.
  assert (Hlow : (pow2 (k - 1) <= X)%Q).
  { rewrite <- HX. subst k.
    replace (Zdigits2 q + (ex - ey - 53) - 1) with ((Zdigits2 q - 1) + (ex - ey - 53)) by lia.
    rewrite pow2_add. apply Qmult_le_compat_r; [|apply Qlt_le_weak, pow2_pos].
    subst xi. apply Qle_trans with (inject_Z q).
    - destruct q as [|pq|pq]; try lia. cbn [Zdigits2]. apply inject_pos_ge.
    - assert (0 <= inject_Z r / inject_Z (Z.pos my))%Q.
      { apply Qle_shift_div_l; [exact HMy|]. rewrite Qmult_0_l.
        change 0%Q with (inject_Z 0). rewrite <- Zle_Qle. lia. }
      lra. }
  destruct (round_bound V X k Hlow Herr) as [_ Hb]. apply Hb. subst k. lia.
Qed.

(** The quotient of two integers of at most 53 bits is their exact quotient
    up to a relative error of 2^-53. *)
Theorem fdiv_int (x y : float) (a b : Z) :
  int_float x a -> int_float y b -> b <> 0 ->
  finite (x / y) = true /\
  (Qabs (fval (x / y) - inject_Z a / inject_Z b)
   <= unit_roundoff * Qabs (inject_Z a / inject_Z b))%Q.
Proof.
  intros Hx Hy Hb.
  destruct (int_float_value x a Hx) as [_ Hvx].
  destruct (int_float_value y b Hy) as [_ Hvy].
  rewrite <- Hvx, <- Hvy. clear Hvx Hvy.
  unfold int_float, finite, fval in *. rewrite div_spec.
  destruct (Prim2SF x) as [sx|sx| |sx mx ex], (Prim2SF y) as [sy|sy| |sy my ey];
    cbn [SFint] in Hx, Hy; try contradiction.
  - split; [reflexivity|]. cbn [SF64div SFdiv SF2Q].
    qreplace (0 - 0 / ((if sy then - inject_Z (Z.pos my) else inject_Z (Z.pos my)) * pow2 ey))%Q
      with 0%Q by (unfold Qdiv; ring).
    change (Qabs 0) with 0%Q. apply Qmult_le_0_compat; [discriminate | apply Qabs_nonneg].
  - destruct Hx as (Hdx & Hex & _ & _). destruct Hy as (Hdy & Hey & _ & _).
    destruct (SFdiv_int sx mx ex sy my ey Hdx Hdy Hex Hey) as (V & Hfin & Hval & Herr).
    split; [exact Hfin|]. unfold SF64div. rewrite Hval, !SF2Q_finite.
    assert (HMy : (0 < inject_Z (Z.pos my))%Q) by (apply inject_Z_pos; lia).
    assert (HMx : (0 < inject_Z (Z.pos mx))%Q) by (apply inject_Z_pos; lia).
    pose proof (pow2_pos ey) as HPy. pose proof (pow2_pos ex) as HPx.
    set (A := (inject_Z (Z.pos mx) * pow2 ex)%Q) in *.
    set (B := (inject_Z (Z.pos my) * pow2 ey)%Q) in *.
    assert (HA : (0 < A)%Q) by (subst A; apply Qmult_lt_0_compat; assumption).
    assert (HB : (0 < B)%Q) by (subst B; apply Qmult_lt_0_compat; assumption).
    assert (HAB : (0 <= A / B)%Q).
    { apply Qle_shift_div_l; [exact HB | lra]. }
    assert (Hq : ((if sx then -1 else 1) * A / ((if sy then -1 else 1) * B)
                  == if xorb sx sy then - (A / B) else A / B)%Q).
    { destruct sx, sy; cbn [xorb]; field; lra. }
    rewrite Hq.
    assert (Hd : ((if xorb sx sy then - V else V) - (if xorb sx sy then - (A / B) else A / B)
                  == if xorb sx sy then - (V - A / B) else V - A / B)%Q).
    { destruct (xorb sx sy); ring. }
    rewrite Hd, !Qabs_signed, (Qabs_pos (A / B)) by exact HAB. exact Herr.
Qed.

(** *** math.Round *)

Lemma SFint_opp (f : spec_float) (n : Z) : SFint f n -> SFint (SFopp f) (- n).
Proof.
  destruct f as [s|s| |s m e]; cbn [SFint SFopp]; try contradiction.
  - lia.
  - intros (Hd & He & Hm & Hs). rewrite Z.abs_opp. repeat split; try assumption; try lia.
    rewrite Hs. destruct (Z.ltb_spec n 0), (Z.ltb_spec (- n) 0); try reflexivity; try lia.
Qed.

(** Away from the integers of 53 bits and more, math.Round gives an integer
    that is at most one half away. *)
Theorem float_Round_int (x : float) :
  finite x = true -> (Qabs (fval x) < pow2 52)%Q ->
  exists n : Z, int_float (float_Round x) n /\ (Qabs (inject_Z n - fval x) <= 1 # 2)%Q.
Proof.
  unfold finite, fval, float_Round, int_float.
  pose proof (Prim2SF_valid x) as Hvalid.
  destruct (Prim2SF x) as [s|s| |s m e] eqn:Hx; try discriminate; intros _ Hlt.
  - exists 0. rewrite Hx. split; [reflexivity|]. cbn [SF2Q]. 
    qreplace (inject_Z 0 - 0)%Q with 0%Q by (change (inject_Z 0) with 0%Q; ring).
    discriminate.
  - apply valid_finite in Hvalid as [Hc _]. rewrite fexp64_eq in Hc.
    rewrite SF2Q_abs in Hlt.
    pose proof (pow2_pos e) as Hpe.
    destruct (digits2_bounds m) as [Hml _].
    assert (He : e < 0).
    { destruct (Z.lt_ge_cases e 0) as [|He]; [assumption|]. exfalso.
      assert (Hd : Z.pos (digits2_pos m) = 53) by lia.
      rewrite Hd in Hml. change (2 ^ (53 - 1)) with (2 ^ 52) in Hml.
      assert (Hge : (pow2 52 <= inject_Z (Z.pos m) * pow2 e)%Q).
      { rewrite (pow2_Z 52) by lia. rewrite (pow2_Z e) by lia. rewrite <- inject_Z_mult.
        rewrite <- Zle_Qle. assert (0 < 2 ^ e) by (apply Z.pow_pos_nonneg; lia). nia. }
      lra. }
    replace (0 <=? e) with false by (symmetry; apply Z.leb_gt; exact He).
    set (d := 2 ^ (- e)).
    assert (Hd : 0 < d) by (apply Z.pow_pos_nonneg; lia).
    set (q := Z.pos m / d). set (r := Z.pos m mod d).
    assert (Hdm : Z.pos m = d * q + r) by (apply Z.div_mod; lia).
    assert (Hr : 0 <= r < d) by (apply Z.mod_pos_bound; lia).
    assert (Hq : 0 <= q) by (apply Z.div_pos; lia).
    assert (Hde : (inject_Z d * pow2 e == 1)%Q).
    { subst d. rewrite <- pow2_Z by lia. rewrite <- pow2_add.
      replace (- e + e) with 0 by lia. reflexivity. }
    set (rho := (inject_Z r * pow2 e)%Q).
    assert (Hval : (inject_Z (Z.pos m) * pow2 e == inject_Z q + rho)%Q).
    { rewrite Hdm, inject_Z_plus, inject_Z_mult. subst rho.
      transitivity (inject_Z q * (inject_Z d * pow2 e) + inject_Z r * pow2 e)%Q; [ring|].
      rewrite Hde. ring. }
    assert (Hrho0 : (0 <= rho)%Q).
    { subst rho. apply Qmult_le_0_compat; [|lra].
      change 0%Q with (inject_Z 0). rewrite <- Zle_Qle. lia. }
    assert (Hhalf : (if d <=? 2 * r then 1 <= 2 * rho else 2 * rho < 1)%Q).
    { destruct (Z.leb_spec d (2 * r)) as [Hle|Hgt]; subst rho.
      - rewrite <- Hde. rewrite Zle_Qle, inject_Z_mult in Hle.
        change (inject_Z 2) with 2%Q in Hle.
        qreplace (2 * (inject_Z r * pow2 e))%Q with ((2 * inject_Z r) * pow2 e)%Q by ring.
        apply Qmult_le_compat_r; [exact Hle | lra].
      - rewrite <- Hde. rewrite Zlt_Qlt, inject_Z_mult in Hgt.
        change (inject_Z 2) with 2%Q in Hgt.
        qreplace (2 * (inject_Z r * pow2 e))%Q with ((2 * inject_Z r) * pow2 e)%Q by ring.
        apply Qmult_lt_compat_r; [lra | exact Hgt]. }
    assert (Hrho1 : (rho < 1)%Q).
    { subst rho. rewrite <- Hde. apply Qmult_lt_compat_r; [lra|].
      rewrite <- Zlt_Qlt. lia. }
    set (n := if d <=? 2 * r then q + 1 else q).
    assert (Hn : 0 <= n) by (subst n; destruct (d <=? 2 * r); lia).
    assert (Herr : (- (1 # 2) <= inject_Z n - (inject_Z q + rho) <= 1 # 2)%Q).
    { subst n. destruct (d <=? 2 * r).
      - rewrite inject_Z_plus. change (inject_Z 1) with 1%Q. lra.
      - lra. }
    assert (Hq52 : q < 2 ^ 52).
    { rewrite Zlt_Qlt, <- pow2_Z by lia. lra. }
    assert (Hn53 : Z.abs n < 2 ^ 53).
    { rewrite Z.abs_eq by exact Hn. subst n.
      change (2 ^ 53) with (2 * 2 ^ 52). destruct (d <=? 2 * r); lia. }
    assert (Hsv : (SF2Q (S754_finite s m e)
                   == (if s then -1 else 1) * (inject_Z q + rho))%Q).
    { rewrite SF2Q_finite, Hval. reflexivity. }
    fold d q r n.
    destruct (Z.eqb_spec n 0) as [Hn0|Hn0].
    + exists 0. split.
      * destruct s; reflexivity.
      * rewrite Hsv. rewrite Hn0 in Herr. change (inject_Z 0) with 0%Q in *.
        apply Qabs_Qle_condition. destruct s; lra.
    + pose proof (int_float_of_int n Hn53) as Hint. unfold int_float in Hint.
      destruct s.
      * exists (- n). split.
        -- rewrite opp_spec. apply SFint_opp. exact Hint.
        -- rewrite Hsv, inject_Z_opp. apply Qabs_Qle_condition. lra.
      * exists n. split; [exact Hint|]. rewrite Hsv. apply Qabs_Qle_condition. lra.
Qed.

(** *** The exact value of the stored numbers *)

Lemma float_to_Q_fval (x : float) : (float_to_Q x == fval x)%Q.
Proof.
  unfold float_to_Q, fval. destruct (Prim2SF x) as [s|s| |s m e]; try reflexivity.
  cbn [SF2Q].
  assert (Hv : ((if 0 <=? e then inject_Z (Z.pos m * 2 ^ e)
                 else Z.pos m # Z.to_pos (2 ^ (- e)))
                == inject_Z (Z.pos m) * pow2 e)%Q).
  { destruct (Z.leb_spec 0 e) as [He|He].
    - rewrite inject_Z_mult, pow2_Z by lia. reflexivity.
    - assert (Hd : 0 < 2 ^ (- e)) by (apply Z.pow_pos_nonneg; lia).
      assert (Hde : (inject_Z (2 ^ (- e)) * pow2 e == 1)%Q).
      { rewrite <- pow2_Z by lia. rewrite <- pow2_add.
        replace (- e + e) with 0 by lia. reflexivity. }
      assert (Hm : (Z.pos m # Z.to_pos (2 ^ (- e)) == inject_Z (Z.pos m) / inject_Z (2 ^ (- e)))%Q).
      { rewrite (Qmake_Qdiv (Z.pos m) (Z.to_pos (2 ^ (- e)))).
        rewrite Z2Pos.id by exact Hd. reflexivity. }
      rewrite Hm. pose proof (inject_Z_pos _ Hd) as Hdp.
      transitivity (inject_Z (Z.pos m) / inject_Z (2 ^ (- e)) * (inject_Z (2 ^ (- e)) * pow2 e))%Q.
      + rewrite Hde. ring.
      + field. lra. }
  destruct s; rewrite Hv; ring.
Qed.

(** *** The operations with their errors as inequalities *)

Lemma Qabs_bounds (x : Q) : (- Qabs x <= x <= Qabs x)%Q.
Proof. apply Qabs_Qle_condition. apply Qle_refl. Qed.

Lemma least_step_small : (pow2 (-1075) <= 1 # 1000000000000000000000000000000)%Q.
Proof. vm_compute. discriminate. Qed.

Lemma pow2_1023_large : (1000000000000000000000000000000 < pow2 1023)%Q.
Proof. vm_compute. reflexivity. Qed.

Lemma pow2_52_value : (pow2 52 == 4503599627370496)%Q.
Proof. reflexivity. Qed.

Lemma fmul_err (x y : float) (M : Q) :
  finite x = true -> finite y = true ->
  (Qabs (fval x * fval y) <= M)%Q -> (M <= 1000000000000000000000000000000)%Q ->
  finite (x * y) = true /\
  (Qabs (fval (x * y) - fval x * fval y)
   <= unit_roundoff * M + (1 # 1000000000000000000000000000000))%Q.
Proof.
  intros Hx Hy HM Hbig.
  pose proof pow2_1023_large as Hl. pose proof least_step_small as Hs.
  destruct (fmul_correct x y Hx Hy) as [Hf Herr]; [lra|].
  split; [exact Hf|]. unfold unit_roundoff in *. lra.
Qed.

Lemma fadd_err (x y : float) (M : Q) :
  finite x = true -> finite y = true ->
  (Qabs (fval x + fval y) <= M)%Q -> (M <= 1000000000000000000000000000000)%Q ->
  finite (x + y) = true /\
  (Qabs (fval (x + y) - (fval x + fval y))
   <= unit_roundoff * M + (1 # 1000000000000000000000000000000))%Q.
Proof.
  intros Hx Hy HM Hbig.
  pose proof pow2_1023_large as Hl. pose proof least_step_small as Hs.
  destruct (fadd_correct x y Hx Hy) as [Hf Herr]; [lra|].
  split; [exact Hf|]. unfold unit_roundoff in *. lra.
Qed.

Lemma Qabs_inject_Z (a : Z) : Qabs (inject_Z a) = inject_Z (Z.abs a).
Proof. reflexivity. Qed.

(** A quotient of integers is at most [M] when the dividend is at most [M]
    times the divisor. *)
Lemma quotient_bound (a b M : Z) :
  b <> 0 -> Z.abs a <= M * Z.abs b ->
  (Qabs (inject_Z a / inject_Z b) <= inject_Z M)%Q.
Proof.
  intros Hb Hle. unfold Qdiv. rewrite Qabs_Qmult, Qabs_Qinv, !Qabs_inject_Z.
  assert (Hpos : (0 < inject_Z (Z.abs b))%Q) by (apply inject_Z_pos; lia).
  apply Qle_shift_div_r; [exact Hpos|].
  rewrite <- inject_Z_mult, <- Zle_Qle. exact Hle.
Qed.

Lemma fdiv_int_err (x y : float) (a b M : Z) :
  int_float x a -> int_float y b -> b <> 0 -> Z.abs a <= M * Z.abs b ->
  finite (x / y) = true /\
  (Qabs (fval (x / y)) <= inject_Z M + unit_roundoff * inject_Z M)%Q.
Proof.
  intros Hx Hy Hb Hle.
  destruct (fdiv_int x y a b Hx Hy Hb) as [Hf Herr]. split; [exact Hf|].
  pose proof (quotient_bound a b M Hb Hle) as Hq.
  set (v := (inject_Z a / inject_Z b)%Q) in *.
  pose proof (Qabs_bounds v) as Hv. pose proof (Qabs_nonneg v) as Hv0.
  apply Qabs_Qle_condition in Herr. apply Qabs_Qle_condition.
  unfold unit_roundoff in *. lra.
Qed.

(** *** Two decimals *)

(** Rounding to two decimals moves a binary64 number of magnitude at most
    6e10 by at most 0.005 and the errors of the multiplication and of the
    division, less than 0.000015 together. *)
Lemma round2_binary64 (x : float) :
  finite x = true -> (Qabs (fval x) <= 60000000000)%Q ->
  finite (round2 x) = true /\
  (Qabs (fval (round2 x) - fval x) <= (1 # 200) + (15 # 1000000))%Q.
Proof.
  intros Hf Hx. unfold round2. cbn [fmul fdiv Round of_int binary64].
  assert (H100 : Z.abs 100 < 2 ^ 53) by reflexivity.
  pose proof (int_float_of_int 100 H100) as Hc.
  destruct (int_float_value _ _ Hc) as [Hcf Hcv]. change (inject_Z 100) with 100%Q in Hcv.
  set (c := float_of_Z 100) in *.
  apply Qabs_Qle_condition in Hx.
  assert (HM : (Qabs (fval x * fval c) <= 6000000000000)%Q).
  { rewrite Hcv. apply Qabs_Qle_condition. lra. }
  destruct (fmul_err x c _ Hf Hcf HM) as [Hyf Hy]; [discriminate|].
  rewrite Hcv in Hy. apply Qabs_Qle_condition in Hy. unfold unit_roundoff in Hy.
  set (y := (x * c)%float) in *.
  destruct (float_Round_int y Hyf) as (n & Hn & Hnerr).
  { rewrite pow2_52_value. apply Qabs_Qlt_condition. lra. }
  apply Qabs_Qle_condition in Hnerr.
  destruct (fdiv_int _ c n 100 Hn Hc) as [Hrf Hr]; [discriminate|].
  split; [exact Hrf|].
  assert (Hq : (inject_Z n / inject_Z 100 == inject_Z n * (1 # 100))%Q) by reflexivity.
  rewrite Hq in Hr.
  assert (HN : (Qabs (inject_Z n * (1 # 100)) <= 60000000001)%Q).
  { apply Qabs_Qle_condition. lra. }
  set (T := Qabs (inject_Z n * (1 # 100))) in *.
  apply Qabs_Qle_condition in Hr. apply Qabs_Qle_condition.
  unfold unit_roundoff in *. lra.
Qed.

(** *** The stored components against the stored final score *)

(** C2, as the claim states it, fails: for a five day old video with 36 views
    and 29 likes the stored values are base 0.33, weight 1.5, recency 5,
    engagement 8.06 and final 13.54, and 0.33*1.5 + 5 + 8.06 = 13.555 is
    0.015 away from the stored final score. The comparison is exact, on the
    binary64 values the program stores. *)
Lemma CalculateScore_stored_gap_exceeds :
  exists s : ContentScore float,
    CalculateScore (F:=float) defaultRules t0
      (content_with_stats "video" (t0 - 5 * day) (video_stats 36 29)) = Some s
    /\ components s = (0.33, 1.5, 5, 8.06, 13.54)%float
    /\ ~ (Qabs (stored_gap (score_to_Q s)) <= 1 # 100)%Q.
Proof.
  eexists. split; [vm_compute; reflexivity|]. split; [vm_compute; reflexivity|].
  intros Hle. vm_compute in Hle. apply Hle. reflexivity.
Qed.

Lemma in_int32_abs (z : Z) : in_int32 z = true -> Z.abs z <= 2147483648.
Proof.
  unfold in_int32. intros H. apply andb_prop in H as [Hl Hh].
  apply Z.leb_le in Hl. apply Z.ltb_lt in Hh.
  change (2 ^ 31) with 2147483648 in *. lia.
Qed.

Lemma counters_in_range_spec (st : ContentStats) :
  counters_in_range st = true ->
  Z.abs (Views st) <= 1000000000000 /\ Z.abs (Likes st) <= 2147483648 /\
  Z.abs (ReadingTime st) <= 2147483648 /\ Z.abs (Reactions st) <= 2147483648.
Proof.
  unfold counters_in_range. intros H.
  apply andb_prop in H as [H Hx]. apply andb_prop in H as [H Hr].
  apply andb_prop in H as [Hv Hl]. apply Z.leb_le in Hv.
  change (10 ^ 12) with 1000000000000 in Hv.
  auto using in_int32_abs.
Qed.

Lemma of_int_binary64 (z : Z) :
  Z.abs z <= 1000000000000 ->
  int_float (float_of_Z z) z /\ finite (float_of_Z z) = true /\
  (fval (float_of_Z z) == inject_Z z)%Q.
Proof.
  intros Hz. assert (Hlt : Z.abs z < 2 ^ 53) by (change (2 ^ 53) with 9007199254740992; lia).
  pose proof (int_float_of_int z Hlt) as Hi. split; [exact Hi|].
  apply int_float_value. exact Hi.
Qed.

Lemma inject_Z_abs_bounds (z M : Z) :
  Z.abs z <= M -> (- inject_Z M <= inject_Z z <= inject_Z M)%Q.
Proof.
  intros H. rewrite <- inject_Z_opp, <- !Zle_Qle. lia.
Qed.

(** The recency bonus is one of 5, 3, 1 and 0, and rounding leaves it alone. *)
Lemma recency_binary64 (now published : Z) :
  let r := calculateRecencyScore (F:=float) now published in
  finite r = true /\ (0 <= fval r <= 5)%Q /\
  finite (round2 r) = true /\ (fval (round2 r) == fval r)%Q.
Proof.
  unfold calculateRecencyScore.
  repeat match goal with |- context [if ?c then _ else _] => destruct c end;
    (split; [reflexivity|]); (split; [split; vm_compute; discriminate|]);
    (split; [reflexivity|]); vm_compute; reflexivity.
Qed.

Lemma engagement_binary64 (content : Content float) (st : ContentStats) :
  Stats content = Some st -> counters_in_range st = true ->
  finite (calculateEngagementScore content) = true /\
  (Qabs (fval (calculateEngagementScore content)) <= 22000000000)%Q.
Proof.
  intros Hst Hrange. apply counters_in_range_spec in Hrange as (Hv & Hl & Hr & Hx).
  unfold calculateEngagementScore. rewrite Hst.
  assert (Hzero : finite (of_int (F:=float) 0) = true /\
                  (Qabs (fval (of_int (F:=float) 0)) <= 22000000000)%Q).
  { split; [reflexivity | vm_compute; discriminate]. }
  assert (Hscaled : forall (a b c : Z), b <> 0 -> Z.abs a <= 2147483648 ->
            Z.abs b <= 1000000000000 -> 0 <= c <= 10 ->
            finite (fmul (fdiv (of_int a) (of_int b)) (of_int (F:=float) c)) = true /\
            (Qabs (fval (fmul (fdiv (of_int a) (of_int b)) (of_int (F:=float) c)))
             <= 22000000000)%Q).
  { intros a b c Hb Ha Hb' Hc. cbn [fmul fdiv of_int binary64].
    destruct (of_int_binary64 a) as (Hia & _ & _); [lia|].
    destruct (of_int_binary64 b Hb') as (Hib & _ & _).
    destruct (of_int_binary64 c) as (_ & Hcf & Hcv); [lia|].
    destruct (fdiv_int_err _ _ a b 2147483648 Hia Hib Hb) as [Hqf Hq]; [lia|].
    set (q := (float_of_Z a / float_of_Z b)%float) in *.
    apply Qabs_Qle_condition in Hq. unfold unit_roundoff in Hq.
    change (inject_Z 2147483648) with 2147483648%Q in Hq.
    assert (HC : (0 <= inject_Z c <= 10)%Q).
    { change 0%Q with (inject_Z 0). change 10%Q with (inject_Z 10).
      rewrite <- !Zle_Qle. exact Hc. }
    assert (HM : (Qabs (fval q * fval (float_of_Z c)) <= 21474836490)%Q).
    { rewrite Hcv, Qabs_Qmult.
      apply Qle_trans with (2147483649 * 10)%Q; [|discriminate].
      apply Qmult_le_compat_nonneg.
      - split; [apply Qabs_nonneg | apply Qabs_Qle_condition; lra].
      - split; [apply Qabs_nonneg | apply Qabs_Qle_condition; lra]. }
    destruct (fmul_err q (float_of_Z c) _ Hqf Hcf HM) as [Hf He]; [discriminate|].
    split; [exact Hf|].
    set (p := (fval q * fval (float_of_Z c))%Q) in *.
    apply Qabs_Qle_condition in HM, He. apply Qabs_Qle_condition.
    unfold unit_roundoff in *. lra. }
  destruct (String.eqb _ _).
  - destruct (Z.eqb_spec (Views st) 0) as [|Hnz]; [exact Hzero|].
    apply Hscaled; lia.
  - destruct (Z.eqb_spec (ReadingTime st) 0) as [|Hnz]; [exact Hzero|].
    apply Hscaled; lia.
Qed.

(** The base score of both content types is a number of magnitude at most
    3e9. *)
Lemma sum_binary64 (x y : float) (A B : Z) :
  finite x = true -> (Qabs (fval x) <= inject_Z A + unit_roundoff * inject_Z A)%Q ->
  finite y = true -> (Qabs (fval y) <= inject_Z B + unit_roundoff * inject_Z B)%Q ->
  0 <= A -> 0 <= B -> A + B <= 2900000000 ->
  finite (x + y) = true /\ (Qabs (fval (x + y)) <= 3000000000)%Q.
Proof.
  intros Hx Hxb Hy Hyb HA HB HAB.
  assert (HQ : (0 <= inject_Z A /\ 0 <= inject_Z B /\ inject_Z A + inject_Z B <= 2900000000)%Q).
  { change 0%Q with (inject_Z 0). change 2900000000%Q with (inject_Z 2900000000).
    rewrite <- inject_Z_plus, <- !Zle_Qle. lia. }
  destruct HQ as (HA' & HB' & HAB').
  set (a := inject_Z A) in *. set (b := inject_Z B) in *.
  apply Qabs_Qle_condition in Hxb, Hyb. unfold unit_roundoff in *.
  assert (HM : (Qabs (fval x + fval y) <= 2900000001)%Q).
  { apply Qabs_Qle_condition. lra. }
  destruct (fadd_err x y _ Hx Hy HM) as [Hf He]; [discriminate|].
  split; [exact Hf|].
  apply Qabs_Qle_condition in HM, He. apply Qabs_Qle_condition.
  unfold unit_roundoff in *. lra.
Qed.

Lemma int_float_abs (x : float) (a M : Z) :
  int_float x a -> Z.abs a <= M ->
  finite x = true /\ (Qabs (fval x) <= inject_Z M + unit_roundoff * inject_Z M)%Q.
Proof.
  intros Hx Ha. destruct (int_float_value x a Hx) as [Hf Hv]. split; [exact Hf|].
  rewrite Hv. pose proof (inject_Z_abs_bounds a M Ha) as Hb.
  apply Qabs_Qle_condition. unfold unit_roundoff.
  assert (0 <= inject_Z M)%Q by (change 0%Q with (inject_Z 0); rewrite <- Zle_Qle; lia).
  lra.
Qed.

Lemma base_video_binary64 (st : ContentStats) :
  counters_in_range st = true ->
  let base := fadd (fdiv (of_int (F:=float) (Views st)) (of_int 1000))
                   (fdiv (of_int (Likes st)) (of_int 100)) in
  finite base = true /\ (Qabs (fval base) <= 3000000000)%Q.
Proof.
  intros Hrange. apply counters_in_range_spec in Hrange as (Hv & Hl & Hr & Hx).
  cbn [fadd fdiv of_int binary64].
  destruct (of_int_binary64 (Views st) Hv) as (Hiv & _ & _).
  destruct (of_int_binary64 (Likes st)) as (Hil & _ & _); [lia|].
  destruct (of_int_binary64 1000) as (Hi1000 & _ & _); [cbn; lia|].
  destruct (of_int_binary64 100) as (Hi100 & _ & _); [cbn; lia|].
  destruct (fdiv_int_err _ _ _ _ 1000000000 Hiv Hi1000) as [Hf1 Hb1]; [lia | cbn; lia|].
  destruct (fdiv_int_err _ _ _ _ 21474837 Hil Hi100) as [Hf2 Hb2]; [lia | cbn; lia|].
  apply (sum_binary64 _ _ 1000000000 21474837); try assumption; lia.
Qed.

Lemma base_article_binary64 (st : ContentStats) :
  counters_in_range st = true ->
  let base := fadd (of_int (F:=float) (ReadingTime st))
                   (fdiv (of_int (Reactions st)) (of_int 50)) in
  finite base = true /\ (Qabs (fval base) <= 3000000000)%Q.
Proof.
  intros Hrange. apply counters_in_range_spec in Hrange as (Hv & Hl & Hr & Hx).
  cbn [fadd fdiv of_int binary64].
  destruct (of_int_binary64 (ReadingTime st)) as (Hir & _ & _); [lia|].
  destruct (of_int_binary64 (Reactions st)) as (Hix & _ & _); [lia|].
  destruct (of_int_binary64 50) as (Hi50 & _ & _); [cbn; lia|].
  destruct (int_float_abs _ _ 2147483648 Hir Hr) as [Hf1 Hb1].
  destruct (fdiv_int_err _ _ _ _ 42949673 Hix Hi50) as [Hf2 Hb2]; [lia | cbn; lia|].
  apply (sum_binary64 _ _ 2147483648 42949673); try assumption; lia.
Qed.

(** The stored final score against the stored components, for any base and
    engagement of the magnitudes above. *)
Lemma stored_gap_binary64 (b w r e : float) :
  finite b = true -> (Qabs (fval b) <= 3000000000)%Q ->
  finite w = true -> (Qabs (fval w) <= 10)%Q ->
  finite r = true -> (0 <= fval r <= 5)%Q ->
  finite (round2 r) = true -> (fval (round2 r) == fval r)%Q ->
  finite e = true -> (Qabs (fval e) <= 22000000000)%Q ->
  let f := fadd (fadd (fmul b w) r) e in
  finite (round2 b) = true /\ finite (round2 e) = true /\ finite (round2 f) = true /\
  (Qabs (fval (round2 f) - (fval (round2 b) * fval w + fval (round2 r) + fval (round2 e)))
   <= (2 + Qabs (fval w)) * (502 # 100000))%Q.
Proof.
  intros Hbf Hb Hwf Hw Hrf Hr Hrrf Hrr Hef He. cbn [fadd fmul binary64]. cbv zeta.
  pose proof (Qabs_nonneg (fval w)) as HAW0.
  assert (HM1 : (Qabs (fval b * fval w) <= 3000000000 * Qabs (fval w))%Q).
  { rewrite Qabs_Qmult. apply Qmult_le_compat_r; assumption. }
  set (AW := Qabs (fval w)) in *.
  destruct (fmul_err b w _ Hbf Hwf HM1) as [Hpf Hp]; [lra|].
  set (p := (b * w)%float) in *. set (P := (fval b * fval w)%Q) in *.
  apply Qabs_Qle_condition in HM1, Hp. unfold unit_roundoff in Hp.
  assert (HM2 : (Qabs (fval p + fval r) <= 3000000000 * AW + 6)%Q).
  { apply Qabs_Qle_condition. lra. }
  destruct (fadd_err p r _ Hpf Hrf HM2) as [Hsf Hs]; [lra|].
  set (s := (p + r)%float) in *.
  apply Qabs_Qle_condition in HM2, Hs, He. unfold unit_roundoff in Hs.
  assert (HM3 : (Qabs (fval s + fval e) <= 3000000000 * AW + 22000000007)%Q).
  { apply Qabs_Qle_condition. lra. }
  destruct (fadd_err s e _ Hsf Hef HM3) as [Hff Hf]; [lra|].
  set (f := (s + e)%float) in *.
  apply Qabs_Qle_condition in HM3, Hf. unfold unit_roundoff in Hf.
  destruct (round2_binary64 b Hbf) as [HBf HB]; [lra|].
  destruct (round2_binary64 e Hef) as [HEf HE]; [apply Qabs_Qle_condition; lra|].
  destruct (round2_binary64 f Hff) as [HFf HF]; [apply Qabs_Qle_condition; lra|].
  split; [exact HBf|]. split; [exact HEf|]. split; [exact HFf|].
  assert (Hd : (Qabs ((fval (round2 b) - fval b) * fval w)
                <= ((1 # 200) + (15 # 1000000)) * AW)%Q).
  { rewrite Qabs_Qmult. apply Qmult_le_compat_r; assumption. }
  set (d := ((fval (round2 b) - fval b) * fval w)%Q) in *.
  assert (Hsplit : (fval (round2 f) - (fval (round2 b) * fval w + fval (round2 r) + fval (round2 e))
                    == (fval (round2 f) - fval f) + (fval f - (fval s + fval e))
                       + (fval s - (fval p + fval r)) + (fval p - P) - d
                       - (fval (round2 e) - fval e))%Q).
  { rewrite Hrr. subst d P. ring. }
  rewrite Hsplit.
  apply Qabs_Qle_condition in HF, HE, Hd. apply Qabs_Qle_condition. lra.
Qed.

Lemma weight_in_range_spec (w : float) :
  weight_in_range w = true -> finite w = true /\ (Qabs (fval w) <= 10)%Q.
Proof.
  unfold weight_in_range. intros H. apply andb_prop in H as [Hf Hb].
  split; [exact Hf | apply Qle_bool_iff, Hb].
Qed.

(** C2 (amended): on the binary64 numbers the program computes and stores.
    For type weights of magnitude at most 10 and counters in range (the
    int32 counters, a view count of magnitude at most 10^12), CalculateScore
    produces a score whose five components are finite numbers with
    |final - (base * type_weight + recency + engagement)|
       <= 0.00502 * (2 + |type_weight|),
    the products and sums of the stored values taken exactly: 0.01757 for
    the video weight 1.5 and 0.01506 for the article weight 1.0. The final
    score is rounded from the unrounded components, so the roundings of the
    base (scaled by the weight), of the engagement and of the final score add
    up, each 0.005 and the error of the binary64 operations. *)
Theorem CalculateScore_stored_gap (rules : ScoringRules float) (now : Z)
    (content : Content float) (st : ContentStats) :
  rules_in_range rules = true -> Stats content = Some st -> counters_in_range st = true ->
  exists s : ContentScore float,
    CalculateScore rules now content = Some s /\
    finite (BaseScore s) = true /\ finite (TypeWeight s) = true /\
    finite (RecencyScore s) = true /\ finite (EngagementScore s) = true /\
    finite (FinalScore s) = true /\
    (Qabs (stored_gap (score_to_Q s))
     <= (2 + Qabs (float_to_Q (TypeWeight s))) * (502 # 100000))%Q.
Proof.
  intros Hrules Hst Hrange.
  unfold rules_in_range in Hrules. apply andb_prop in Hrules as [Hwv Hwa].
  apply weight_in_range_spec in Hwv as [Hwvf Hwvb].
  apply weight_in_range_spec in Hwa as [Hwaf Hwab].
  destruct (engagement_binary64 content st Hst Hrange) as [Hef Heb].
  destruct (recency_binary64 now (PublishedAt content)) as (Hrf & Hrb & Hrrf & Hrr).
  pose proof (base_video_binary64 st Hrange) as [Hbvf Hbvb].
  pose proof (base_article_binary64 st Hrange) as [Hbaf Hbab].
  unfold CalculateScore. rewrite Hst.
  destruct (String.eqb (content_Type content) ContentTypeVideo).
  - eexists. split; [reflexivity|].
    unfold stored_gap, score_to_Q.
    cbn [BaseScore TypeWeight RecencyScore EngagementScore FinalScore].
    rewrite !float_to_Q_fval.
    destruct (stored_gap_binary64 _ _ _ _ Hbvf Hbvb Hwvf Hwvb Hrf Hrb Hrrf Hrr Hef Heb)
      as (HB & HE & HF & Hgap).
    repeat (split; [assumption|]). exact Hgap.
  - eexists. split; [reflexivity|].
    unfold stored_gap, score_to_Q.
    cbn [BaseScore TypeWeight RecencyScore EngagementScore FinalScore].
    rewrite !float_to_Q_fval.
    destruct (stored_gap_binary64 _ _ _ _ Hbaf Hbab Hwaf Hwab Hrf Hrb Hrrf Hrr Hef Heb)
      as (HB & HE & HF & Hgap).
    repeat (split; [assumption|]). exact Hgap.
Qed.

Lemma CalculateScore_stored_gap_witness :
  rules_in_range defaultRules = true /\
  counters_in_range (video_stats 36 29) = true /\
  exists s : ContentScore float,
    CalculateScore defaultRules t0
      (content_with_stats "video" (t0 - 5 * day) (video_stats 36 29)) = Some s /\
    finite (BaseScore s) = true /\ finite (TypeWeight s) = true /\
    finite (RecencyScore s) = true /\ finite (EngagementScore s) = true /\
    finite (FinalScore s) = true /\
    (Qabs (stored_gap (score_to_Q s))
     <= (2 + Qabs (float_to_Q (TypeWeight s))) * (502 # 100000))%Q.
Proof.
  split; [reflexivity|]. split; [reflexivity|].
  apply (CalculateScore_stored_gap defaultRules t0
           (content_with_stats "video" (t0 - 5 * day) (video_stats 36 29))
           (video_stats 36 29)); reflexivity.
Defined.

(** Beyond the view counts of the theorem the bound is passed: with
    1234567890123456789 views the base is a number of 16 digits, the steps
    of binary64 are wider than a hundredth there, and the stored final score
    is 0.125 below the sum of the stored components. *)
Example CalculateScore_stored_gap_large_views :
  exists s : ContentScore float,
    CalculateScore (F:=float) defaultRules t0
      (content_with_stats "video" (t0 - 5 * day)
         (video_stats 1234567890123456789 3)) = Some s
    /\ in_int32 3 = true
    /\ (stored_gap (score_to_Q s) == - (1 # 8))%Q.
Proof.
  eexists. split; [vm_compute; reflexivity|]. split; [reflexivity|].
  vm_compute. reflexivity.
Qed.

(** ** Search use case and handler *)

(** Whatever the handler does with a rejected parameter set, it answers 500
    with the validation error as the message, and leaves the cache alone. *)
Lemma HandleSearch_rejected repo env cache (r : Request) (e : error) :
  validateParams
    {| Query := q_query r; sp_ContentType := q_type r;
       SortBy := if String.eqb (q_sort r) "" then "popularity" else q_sort r;
       Page := (if Atoi (q_page r) <? 1 then 1 else Atoi (q_page r));
       PageSize := (if Atoi (q_page_size r) <? 1 then 20 else Atoi (q_page_size r)) |}
  = Err e ->
  HandleSearch repo env cache r
  = ({| status := StatusInternalServerError; body := ErrorBody e |}, cache).
Proof.
  intros Hrej. unfold HandleSearch, Execute. rewrite Hrej. reflexivity.
Qed.

(** C6: on GET /api/v1/search?query=go&sort=date the handler answers 500, not
    400, with the validation message as the error. *)
Theorem HandleSearch_invalid_sort_is_500 repo env cache :
  HandleSearch repo env cache
    {| q_query := "go"; q_type := ""; q_sort := "date"; q_page := ""; q_page_size := "" |}
  = ({| status := 500; body := ErrorBody (ErrInvalidSortBy "date") |}, cache).
Proof. apply HandleSearch_rejected. reflexivity. Qed.

(** The same for a content type outside video and article. *)
Lemma HandleSearch_invalid_type_is_500 repo env cache :
  HandleSearch repo env cache
    {| q_query := "go"; q_type := "podcast"; q_sort := ""; q_page := "1"; q_page_size := "20" |}
  = ({| status := 500; body := ErrorBody (ErrInvalidContentType "podcast") |}, cache).
Proof. apply HandleSearch_rejected. reflexivity. Qed.

(** *** The pagination envelope *)

Lemma wrap64_id (z : Z) : minInt64 <= z <= maxInt64 -> wrap64 z = z.
Proof.
  unfold wrap64, minInt64, maxInt64. intros Hz.
  rewrite Z.mod_small; lia.
Qed.

Lemma validateParams_range (p v : SearchParams) :
  validateParams p = Ok v ->
  1 <= Page v /\ 1 <= PageSize v <= 50 /\
  (SortBy v = "popularity" \/ SortBy v = "relevance") /\
  (sp_ContentType v = "" \/ sp_ContentType v = "video" \/ sp_ContentType v = "article") /\
  Query v = Query p.
Proof.
  unfold validateParams.
  set (sortBy := if String.eqb (SortBy p) "" then _ else _).
  destruct (String.eqb_spec sortBy "popularity") as [Hs|Hs];
  destruct (String.eqb_spec sortBy "relevance") as [Hs'|Hs']; cbn [negb andb];
    try discriminate;
  destruct (String.eqb_spec (sp_ContentType p) "") as [Ht|Ht];
  destruct (String.eqb_spec (sp_ContentType p) ContentTypeVideo) as [Ht'|Ht'];
  destruct (String.eqb_spec (sp_ContentType p) ContentTypeArticle) as [Ht''|Ht''];
    cbn [negb andb]; try discriminate;
  intros [= <-]; cbn [Page PageSize SortBy sp_ContentType Query];
  unfold ContentTypeVideo, ContentTypeArticle in *;
  (repeat split; [| | | tauto | tauto]);
  repeat match goal with |- context [if ?a <? ?b then _ else _] =>
    destruct (Z.ltb_spec a b) end; lia.
Qed.

Lemma string_eqb_false (s t : string) : String.eqb s t = false -> s <> t.
Proof. intros H ->. rewrite String.eqb_refl in H. discriminate. Qed.

(** The outcomes of validateParams, by the sort and the type. *)
Lemma validateParams_cases (p : SearchParams) :
  match validateParams p with
  | Ok v =>
      SortBy p ∈ [""; "popularity"; "relevance"] /\
      sp_ContentType p ∈ [""; "video"; "article"] /\
      Query v = Query p /\ sp_ContentType v = sp_ContentType p /\
      SortBy v = (if String.eqb (SortBy p) "" then "popularity" else SortBy p) /\
      Page v = Z.max 1 (Page p) /\
      PageSize v = (if PageSize p <? 1 then 20 else Z.min 50 (PageSize p)) /\
      validateParams v = Ok v
  | Err _ =>
      SortBy p ∉ [""; "popularity"; "relevance"] \/
      sp_ContentType p ∉ [""; "video"; "article"]
  end.
Proof.
  destruct p as [q ty so pg ps]. unfold validateParams. cbn [Query sp_ContentType SortBy Page PageSize].
  unfold ContentTypeVideo, ContentTypeArticle.
  assert (Hpage : (if pg <? 1 then 1 else pg) = Z.max 1 pg)
    by (destruct (Z.ltb_spec pg 1); lia).
  assert (Hsize : (if 50 <? (if ps <? 1 then 20 else ps) then 50 else if ps <? 1 then 20 else ps)
                  = (if ps <? 1 then 20 else Z.min 50 ps)).
  { destruct (Z.ltb_spec ps 1); [reflexivity|]. destruct (Z.ltb_spec 50 ps); lia. }
  rewrite Hpage, Hsize.
  assert (Hpage' : (if Z.max 1 pg <? 1 then 1 else Z.max 1 pg) = Z.max 1 pg)
    by (destruct (Z.ltb_spec (Z.max 1 pg) 1); lia).
  set (size := if ps <? 1 then 20 else Z.min 50 ps).
  assert (Hsize' : (if 50 <? (if size <? 1 then 20 else size) then 50
                    else if size <? 1 then 20 else size) = size).
  { subst size. destruct (Z.ltb_spec ps 1); [reflexivity|].
    destruct (Z.ltb_spec (Z.min 50 ps) 1); [lia|].
    destruct (Z.ltb_spec 50 (Z.min 50 ps)); lia. }
  assert (Hmem : forall x : string, x ∈ [""; "popularity"; "relevance"] <->
                   x = "" \/ x = "popularity" \/ x = "relevance").
  { intros x. rewrite !elem_of_cons, elem_of_nil. tauto. }
  assert (Hmem' : forall x : string, x ∈ [""; "video"; "article"] <->
                    x = "" \/ x = "video" \/ x = "article").
  { intros x. rewrite !elem_of_cons, elem_of_nil. tauto. }
  assert (Hsort : (so = "" \/ so = "popularity" \/ so = "relevance") \/
                  (String.eqb so "" = false /\ String.eqb so "popularity" = false /\
                   String.eqb so "relevance" = false)).
  { destruct (String.eqb_spec so ""); [tauto|].
    destruct (String.eqb_spec so "popularity"); [tauto|].
    destruct (String.eqb_spec so "relevance"); tauto. }
  assert (Htype : (ty = "" \/ ty = "video" \/ ty = "article") \/
                  (String.eqb ty "" = false /\ String.eqb ty "video" = false /\
                   String.eqb ty "article" = false)).
  { destruct (String.eqb_spec ty ""); [tauto|].
    destruct (String.eqb_spec ty "video"); [tauto|].
    destruct (String.eqb_spec ty "article"); tauto. }
  destruct Hsort as [Hso|(Hs1 & Hs2 & Hs3)].
  - destruct Htype as [Hty|(Ht1 & Ht2 & Ht3)].
    + destruct Hso as [->| [->| ->]]; destruct Hty as [->| [->| ->]];
        cbn [String.eqb Ascii.eqb Bool.eqb negb andb];
        (repeat split; try (apply Hmem; tauto); try (apply Hmem'; tauto);
         unfold validateParams; cbn [Query sp_ContentType SortBy Page PageSize];
         rewrite Hpage', Hsize'; reflexivity).
    + assert (Hgo : forall s, s = "" \/ s = "popularity" \/ s = "relevance" ->
                negb (String.eqb (if String.eqb s "" then "popularity" else s) "popularity")
                && negb (String.eqb (if String.eqb s "" then "popularity" else s) "relevance")
                = false)
        by (intros s [->| [->| ->]]; reflexivity).
      rewrite (Hgo so Hso), Ht1, Ht2, Ht3. cbn [negb andb].
      right. rewrite Hmem'. intros [->| [->| ->]]; discriminate.
  - rewrite Hs1, Hs2, Hs3. cbn [negb andb].
    left. rewrite Hmem. intros [->| [->| ->]]; discriminate.
Qed.

Lemma total_pages_ceil (total size : Z) :
  0 <= total <= maxInt64 - 49 -> 1 <= size <= 50 ->
  wrap64 (Z.quot (wrap64 (total + size - 1)) size) = ceil_div total size.
Proof.
  unfold maxInt64. intros Ht Hs.
  rewrite (wrap64_id (total + size - 1)) by (unfold minInt64, maxInt64; lia).
  rewrite Z.quot_div_nonneg by lia.
  assert (Hq : (total + size - 1) / size = ceil_div total size).
  { unfold ceil_div.
    assert (Hm := Z.div_mod (total + size - 1) size ltac:(lia)).
    assert (Hb := Z.mod_pos_bound (total + size - 1) size ltac:(lia)).
    assert (Hm' := Z.div_mod (- total) size ltac:(lia)).
    assert (Hb' := Z.mod_pos_bound (- total) size ltac:(lia)).
    nia. }
  rewrite Hq. apply wrap64_id.
  rewrite <- Hq. unfold minInt64, maxInt64. split.
  - transitivity 0; [lia|]. apply Z.div_pos; lia.
  - transitivity (total + size - 1); [|lia].
    apply Z.div_le_upper_bound; nia.
Qed.

(** C8, as the claim states it, fails: a request for page 5 of a search with
    one match gets page = 5 with total_pages = 1. *)
Lemma Execute_page_beyond_total_pages :
  exists r cache',
    Execute (fun _ => Ok ([], 1)) cache_up ∅
      {| Query := "go"; sp_ContentType := ""; SortBy := "popularity";
         Page := 5; PageSize := 20 |} = (Ok r, cache')
    /\ TotalItems (sr_Pagination r) > 0
    /\ TotalPages (sr_Pagination r) = 1
    /\ ~ (pg_Page (sr_Pagination r) <= TotalPages (sr_Pagination r)).
Proof.
  eexists _, _. split; [vm_compute; reflexivity|].
  split; [vm_compute; reflexivity|]. split; [vm_compute; reflexivity|].
  vm_compute. intros Hle. apply Hle. reflexivity.
Qed.

(** C8 (amended): every envelope the search use case returns has
    total_pages = ceil(total_items / page_size), for a row count
    0 <= total_items <= 2^63 - 50, a page size in 1..50 and a page of at
    least 1. An envelope built from the repository's answer has the page and
    the page size of the request as validated: the page raised to 1, the
    size 20 when below 1 and at most 50. An envelope read from the cache
    (written by Execute only) has those of the request it was stored for,
    whose cache key is that of this request. The page is not compared with
    total_pages anywhere. The cache stays as described; a rejected or failed
    search leaves it as it was. *)
Theorem Execute_envelope repo env (cache : gmap string cached) (params : SearchParams) :
  repo_counts repo -> cache_ok cache ->
  match Execute repo env cache params with
  | (Ok r, cache') =>
      exists v v',
        validateParams params = Ok v /\
        Page v = Z.max 1 (Page params) /\
        PageSize v = (if PageSize params <? 1 then 20 else Z.min 50 (PageSize params)) /\
        validateParams v' = Ok v' /\ generateCacheKey v' = generateCacheKey v /\
        (v' = v \/ get_ok env = true /\ cache !! generateCacheKey v = Some (Encoded r)) /\
        envelope_of v' r /\
        1 <= pg_Page (sr_Pagination r) /\ 1 <= pg_PageSize (sr_Pagination r) <= 50 /\
        cache_ok cache'
  | (Err _, cache') => cache' = cache
  end.
Proof.
  intros Hrepo Hcache. unfold Execute.
  pose proof (validateParams_cases params) as Hv.
  destruct (validateParams params) as [v|e]; [|reflexivity].
  destruct Hv as (_ & _ & _ & _ & _ & Hpage & Hsize & Hidem).
  pose proof (validateParams_range v v Hidem) as (Hp1 & Hs1 & _).
  set (key := generateCacheKey v).
  assert (Hmiss :
    match repo v with
    | Ok (contents, total) =>
        let result :=
          {| Items := contents;
             sr_Pagination :=
               {| pg_Page := Page v; pg_PageSize := PageSize v; TotalItems := total;
                  TotalPages := wrap64 (Z.quot (wrap64 (total + PageSize v - 1)) (PageSize v)) |} |} in
        envelope_of v result /\
        cache_ok (if set_ok env then <[key := Encoded result]> cache else cache)
    | Err _ => True
    end).
  { destruct (repo v) as [[contents total]|e] eqn:Hr; [|exact I].
    apply Hrepo in Hr. cbn zeta.
    assert (Hok : envelope_of v
      {| Items := contents;
         sr_Pagination :=
           {| pg_Page := Page v; pg_PageSize := PageSize v; TotalItems := total;
              TotalPages := wrap64 (Z.quot (wrap64 (total + PageSize v - 1)) (PageSize v)) |} |}).
    { repeat split; cbn; try lia. apply total_pages_ceil; assumption. }
    split; [exact Hok|].
    destruct (set_ok env); [|exact Hcache].
    intros k r. rewrite lookup_insert.
    case_decide as Hk; [|apply Hcache].
    intros [= <-]. exists v. split; [exact Hidem|]. split; [exact Hk | exact Hok]. }
  assert (Hbuilt :
    match repo v with
    | Ok (contents, total) =>
        let result :=
          {| Items := contents;
             sr_Pagination :=
               {| pg_Page := Page v; pg_PageSize := PageSize v; TotalItems := total;
                  TotalPages := wrap64 (Z.quot (wrap64 (total + PageSize v - 1)) (PageSize v)) |} |} in
        exists v0 v',
          Ok v = Ok v0 /\ Page v0 = Z.max 1 (Page params) /\
          PageSize v0 = (if PageSize params <? 1 then 20 else Z.min 50 (PageSize params)) /\
          validateParams v' = Ok v' /\ generateCacheKey v' = generateCacheKey v0 /\
          (v' = v0 \/ get_ok env = true /\ cache !! generateCacheKey v0 = Some (Encoded result)) /\
          envelope_of v' result /\
          1 <= pg_Page (sr_Pagination result) /\ 1 <= pg_PageSize (sr_Pagination result) <= 50 /\
          cache_ok (if set_ok env then <[key := Encoded result]> cache else cache)
    | Err _ => True
    end).
  { destruct (repo v) as [[contents total]|e]; [|exact I]. cbn zeta in *.
    destruct Hmiss as [Hok Hc']. exists v, v. cbn [sr_Pagination pg_Page pg_PageSize].
    split; [reflexivity|]. split; [exact Hpage|]. split; [exact Hsize|].
    split; [exact Hidem|]. split; [reflexivity|]. split; [left; reflexivity|].
    split; [exact Hok|]. split; [lia|]. split; [lia | exact Hc']. }
  destruct (get_ok env) eqn:Hget.
  - destruct (cache !! key) as [[r|]|] eqn:Hk.
    + destruct (Hcache _ _ Hk) as (v' & Hv' & Hkey & Henv).
      pose proof (validateParams_range v' v' Hv') as (Hp1' & Hs1' & _).
      destruct Henv as (Hpg & Hps & Hrest).
      exists v, v'. rewrite Hpg, Hps.
      split; [reflexivity|]. split; [exact Hpage|]. split; [exact Hsize|].
      split; [exact Hv'|]. split; [exact Hkey|]. split; [right; split; [reflexivity | exact Hk]|].
      split; [split; [exact Hpg | split; [exact Hps | exact Hrest]]|].
      split; [lia|]. split; [lia | exact Hcache].
    + destruct (repo v) as [[contents total]|e]; [exact Hbuilt | reflexivity].
    + destruct (repo v) as [[contents total]|e]; [exact Hbuilt | reflexivity].
  - destruct (repo v) as [[contents total]|e]; [exact Hbuilt | reflexivity].
Qed.

Lemma Execute_envelope_witness :
  match Execute (fun _ => Ok ([], 45)) cache_up ∅
          {| Query := "go"; sp_ContentType := "video"; SortBy := "";
             Page := 0; PageSize := 100 |} with
  | (Ok r, cache') =>
      exists v v',
        validateParams {| Query := "go"; sp_ContentType := "video"; SortBy := "";
                          Page := 0; PageSize := 100 |} = Ok v /\
        Page v = Z.max 1 0 /\
        PageSize v = (if 100 <? 1 then 20 else Z.min 50 100) /\
        validateParams v' = Ok v' /\ generateCacheKey v' = generateCacheKey v /\
        (v' = v \/ get_ok cache_up = true /\ (∅ : gmap string cached) !! generateCacheKey v = Some (Encoded r)) /\
        envelope_of v' r /\
        1 <= pg_Page (sr_Pagination r) /\ 1 <= pg_PageSize (sr_Pagination r) <= 50 /\
        cache_ok cache'
  | (Err _, cache') => cache' = ∅
  end.
Proof.
  apply (Execute_envelope (fun _ => Ok ([], 45)) cache_up ∅).
  - intros p items total [= _ <-]. unfold maxInt64. lia.
  - intros k r Hk. rewrite lookup_empty in Hk. discriminate.
Defined.

(** *** The cache key *)


Lemma count_colon_app (s t : string) :
  count_colon (s +:+ t) = (count_colon s + count_colon t)%nat.
Proof. induction s as [|c s IH]; simpl; [reflexivity | rewrite IH; lia]. Qed.

(** Two strings that end in tails with the same number of colons, each tail
    starting with a colon, split at the same place. *)
Lemma split_at_tail (x y u v : string) :
  count_colon u = count_colon v ->
  x +:+ String ":" u = y +:+ String ":" v -> x = y /\ u = v.
Proof.
  revert y. induction x as [|c x IH]; intros [|d y] Hn Heq.
  - change (String ":" u = String ":" v) in Heq. injection Heq as ->. split; reflexivity.
  - change (String ":" u = String d (y +:+ String ":" v)) in Heq.
    injection Heq as <- ->. exfalso.
    rewrite count_colon_app in Hn. simpl in Hn. lia.
  - change (String c (x +:+ String ":" u) = String ":" v) in Heq.
    injection Heq as -> <-. exfalso.
    rewrite count_colon_app in Hn. simpl in Hn. lia.
  - change (String c (x +:+ String ":" u) = String d (y +:+ String ":" v)) in Heq.
    injection Heq as -> Heq. destruct (IH y Hn Heq) as [-> ->]. split; reflexivity.
Qed.

Lemma count_colon_uint (d : Decimal.uint) :
  count_colon (NilEmpty.string_of_uint d) = 0%nat.
Proof. induction d; cbn; auto. Qed.

Lemma count_colon_itoa (z : Z) : 0 <= z -> count_colon (itoa z) = 0%nat.
Proof.
  intros Hz. unfold itoa. destruct z as [|p|p]; [reflexivity| |lia].
  cbn. unfold NilZero.string_of_uint.
  destruct (Pos.to_uint p) eqn:Hp; try reflexivity; rewrite <- Hp; apply count_colon_uint.
Qed.

Lemma itoa_inj (a b : Z) : itoa a = itoa b -> a = b.
Proof.
  unfold itoa. intros Heq. apply DecimalZ.to_int_inj.
  assert (Hnn : forall z, Z.to_int z <> Decimal.Pos Decimal.Nil /\ Z.to_int z <> Decimal.Neg Decimal.Nil).
  { intros [|p|p]; cbn; split; try discriminate;
      intros [= Hp]; now apply DecimalPos.Unsigned.to_uint_nonnil in Hp. }
  assert (Hs : Some (Z.to_int a) = Some (Z.to_int b)).
  { rewrite <- (NilZero.isi (Z.to_int a)), <- (NilZero.isi (Z.to_int b)) by apply Hnn.
    now rewrite Heq. }
  now injection Hs.
Qed.

Lemma append_inv_head (s a b : string) : s +:+ a = s +:+ b -> a = b.
Proof. induction s as [|c s IH]; simpl; [auto | intros [= Heq]; auto]. Qed.

Lemma count_colon_tail (t s : string) (p z : Z) :
  t = "" \/ t = "video" \/ t = "article" ->
  s = "popularity" \/ s = "relevance" ->
  0 <= p -> 0 <= z ->
  count_colon t = 0%nat /\ count_colon s = 0%nat /\
  count_colon (itoa p) = 0%nat /\ count_colon (itoa z) = 0%nat.
Proof.
  intros Ht Hs Hp Hz. rewrite !count_colon_itoa by assumption.
  destruct Ht as [->|[->| ->]], Hs as [->| ->]; repeat split; reflexivity.
Qed.

(** The string that is hashed determines the validated parameters. *)
Lemma cacheKeyString_inj (p1 p2 v1 v2 : SearchParams) :
  validateParams p1 = Ok v1 -> validateParams p2 = Ok v2 ->
  cacheKeyString v1 = cacheKeyString v2 -> v1 = v2.
Proof.
  intros (Hp1 & Hz1 & Hs1 & Ht1 & _)%validateParams_range
         (Hp2 & Hz2 & Hs2 & Ht2 & _)%validateParams_range Heq.
  destruct v1 as [q1 t1 s1 pg1 z1], v2 as [q2 t2 s2 pg2 z2].
  cbn [Query sp_ContentType SortBy Page PageSize] in *.
  destruct (count_colon_tail t1 s1 pg1 z1) as (Ct1 & Cs1 & Cp1 & Cz1); try assumption; try lia.
  destruct (count_colon_tail t2 s2 pg2 z2) as (Ct2 & Cs2 & Cp2 & Cz2); try assumption; try lia.
  unfold cacheKeyString in Heq. cbn [Query sp_ContentType SortBy Page PageSize] in Heq.
  apply append_inv_head in Heq.
  change (q1 +:+ String ":" (t1 +:+ String ":" (s1 +:+ String ":" (itoa pg1 +:+ String ":" (itoa z1))))
          = q2 +:+ String ":" (t2 +:+ String ":" (s2 +:+ String ":" (itoa pg2 +:+ String ":" (itoa z2)))))
    in Heq.
  apply split_at_tail in Heq as [-> Heq];
    [|rewrite !count_colon_app; simpl; rewrite !count_colon_app; simpl;
      rewrite !count_colon_app; simpl; lia].
  apply split_at_tail in Heq as [-> Heq];
    [|rewrite !count_colon_app; simpl; rewrite !count_colon_app; simpl; lia].
  apply split_at_tail in Heq as [-> Heq];
    [|rewrite !count_colon_app; simpl; lia].
  apply split_at_tail in Heq as [Hpg Hz]; [|lia].
  apply itoa_inj in Hpg, Hz. subst. reflexivity.
Qed.

(** *** From the digest to the key *)


Lemma hex_digit_inj (n m : Z) :
  0 <= n < 16 -> 0 <= m < 16 -> hex_digit n = hex_digit m -> n = m.
Proof.
  intros Hn Hm Heq. apply (f_equal N_of_ascii) in Heq. unfold hex_digit in Heq.
  rewrite !N_ascii_embedding in Heq
    by (repeat match goal with |- context [if ?a <? ?b then _ else _] =>
          destruct (Z.ltb_spec a b) end; lia).
  repeat match goal with H : context [if ?a <? ?b then _ else _] |- _ =>
    destruct (Z.ltb_spec a b) end; lia.
Qed.

Lemma hex_byte_inj (b b' : Z) : is_byte b -> is_byte b' -> hex_byte b = hex_byte b' -> b = b'.
Proof.
  unfold is_byte, hex_byte. intros Hb Hb' [= Hhi Hlo].
  apply hex_digit_inj in Hhi, Hlo;
    try (split; [apply Z.div_pos | apply Z.div_lt_upper_bound]; lia);
    try (apply Z.mod_pos_bound; lia).
  rewrite (Z.div_mod b 16), (Z.div_mod b' 16) by lia. congruence.
Qed.

Lemma hex_inj (l1 l2 : list Z) :
  Forall is_byte l1 -> Forall is_byte l2 -> hex l1 = hex l2 -> l1 = l2.
Proof.
  intros H1. revert l2. induction H1 as [|b l1 Hb _ IH]; intros l2 H2 Heq;
    destruct H2 as [|b' l2 Hb' H2]; try discriminate; [reflexivity|].
  change (String (hex_digit (b / 16)) (String (hex_digit (b mod 16)) (hex l1))
          = String (hex_digit (b' / 16)) (String (hex_digit (b' mod 16)) (hex l2))) in Heq.
  injection Heq as Hhi Hlo Htl.
  f_equal; [apply hex_byte_inj; unfold hex_byte; congruence | apply IH; assumption].
Qed.

Lemma le_bytes_range (n : nat) (w : Z) : Forall is_byte (le_bytes n w).
Proof.
  unfold le_bytes. apply Forall_fmap, Forall_forall. intros k _.
  apply Z.mod_pos_bound. lia.
Qed.

Lemma md5_Sum_range (msg : list Z) : Forall is_byte (md5_Sum msg).
Proof.
  unfold md5_Sum, state_bytes. destruct (md5_digest msg) as [[[a b] c] d].
  repeat apply Forall_app_2; apply le_bytes_range.
Qed.

(** Two keys are equal exactly when the two digests are. *)
Lemma generateCacheKey_eq_iff (v1 v2 : SearchParams) :
  generateCacheKey v1 = generateCacheKey v2 <->
  md5_Sum (bytes_of_string (cacheKeyString v1))
  = md5_Sum (bytes_of_string (cacheKeyString v2)).
Proof.
  unfold generateCacheKey. split.
  - intros Heq%append_inv_head. apply hex_inj in Heq; auto using md5_Sum_range.
  - intros ->. reflexivity.
Qed.

(** *** No digest of 128 bits separates all queries *)


Lemma md5_block_range (st : md5_state) (block : list Z) : state_range (md5_block st block).
Proof.
  unfold md5_block. destruct st as [[[a0 b0] c0] d0].
  destruct (foldl _ _ _) as [[[A B] C] D].
  repeat split; apply Z.mod_pos_bound; lia.
Qed.

Lemma md5_digest_range (msg : list Z) : state_range (md5_digest msg).
Proof.
  unfold md5_digest. generalize (blocks (length (md5_pad msg) / 64) (md5_pad msg)).
  intros bs. induction bs as [|b bs IH] using rev_ind.
  - cbv. repeat split; discriminate.
  - rewrite foldl_snoc. apply md5_block_range.
Qed.

Lemma state_num_bound (st : md5_state) : state_range st -> 0 <= state_num st < 2 ^ 128.
Proof.
  destruct st as [[[a b] c] d]. unfold state_range, state_num, word32. lia.
Qed.

Lemma state_num_inj (s1 s2 : md5_state) :
  state_range s1 -> state_range s2 -> state_num s1 = state_num s2 -> s1 = s2.
Proof.
  destruct s1 as [[[a1 b1] c1] d1], s2 as [[[a2 b2] c2] d2].
  unfold state_range, state_num, word32. intros H1 H2 Heq.
  assert (a1 = a2 /\ b1 = b2 /\ c1 = c2 /\ d1 = d2) as (-> & -> & -> & ->) by lia.
  reflexivity.
Qed.


Lemma probe_valid (n : nat) : validateParams (probe n) = Ok (probe n).
Proof. reflexivity. Qed.

Lemma probe_inj (i j : nat) : probe i = probe j -> i = j.
Proof. intros [= Heq%itoa_inj]. lia. Qed.

Lemma md5_probe_collision :
  exists i j : nat, i <> j /\
    md5_digest (bytes_of_string (cacheKeyString (probe i)))
    = md5_digest (bytes_of_string (cacheKeyString (probe j))).
Proof.
  remember (Z.to_nat (2 ^ 128)) as N eqn:HN.
  assert (HN' : Z.of_nat N = 2 ^ 128) by (subst N; apply Z2Nat.id; lia).
  clear HN.
  set (D := fun n : nat => md5_digest (bytes_of_string (cacheKeyString (probe n)))).
  destruct (nat_pigeonhole (fun n => Z.to_nat (state_num (D n))) (S N) N)
    as (i & j & Hij & Heq).
  - lia.
  - intros i _. pose proof (state_num_bound _ (md5_digest_range
      (bytes_of_string (cacheKeyString (probe i))))) as Hb.
    fold (D i) in Hb. lia.
  - exists i, j. split; [lia|].
    pose proof (md5_digest_range (bytes_of_string (cacheKeyString (probe i)))) as Hi.
    pose proof (md5_digest_range (bytes_of_string (cacheKeyString (probe j)))) as Hj.
    apply state_num_inj; [exact Hi | exact Hj |].
    pose proof (state_num_bound _ Hi). pose proof (state_num_bound _ Hj).
    fold (D i) (D j) in *. lia.
Qed.

(** C7, as the claim states it, fails: it is not the case that two validated
    parameter sets have the same cache key only if they agree on all five
    fields. The key is a function of the 128-bit MD5 state; among the
    2^128 + 1 validated sets that differ only in the query (the decimal
    numerals 0 .. 2^128), two have the same state, hence the same key. *)
Lemma generateCacheKey_not_injective :
  ~ (forall p1 p2 v1 v2 : SearchParams,
       validateParams p1 = Ok v1 -> validateParams p2 = Ok v2 ->
       (generateCacheKey v1 = generateCacheKey v2 <-> v1 = v2)).
Proof.
  intros Hiff. destruct md5_probe_collision as (i & j & Hne & Heq).
  apply Hne, probe_inj.
  apply (Hiff (probe i) (probe j) _ _ (probe_valid i) (probe_valid j)).
  apply generateCacheKey_eq_iff. unfold md5_Sum. rewrite Heq. reflexivity.
Qed.

(** C7 (amended): for two parameter sets that pass validation, with v1 and
    v2 their values after defaulting and clamping: if v1 and v2 agree on
    (query, kind, sort, page, page_size) the cache keys are equal; the string
    search:query:kind:sort:page:size that is hashed is the same for both
    exactly when they agree on the five fields; and the keys are equal
    exactly when the MD5 digests of the two strings are equal. Distinct
    validated sets therefore get distinct keys unless MD5 collides on their
    strings. *)
Theorem generateCacheKey_coherence (p1 p2 v1 v2 : SearchParams) :
  validateParams p1 = Ok v1 -> validateParams p2 = Ok v2 ->
  (v1 = v2 -> generateCacheKey v1 = generateCacheKey v2) /\
  (cacheKeyString v1 = cacheKeyString v2 <-> v1 = v2) /\
  (generateCacheKey v1 = generateCacheKey v2 <->
   md5_Sum (bytes_of_string (cacheKeyString v1))
   = md5_Sum (bytes_of_string (cacheKeyString v2))).
Proof.
  intros Hv1 Hv2. split; [intros ->; reflexivity|]. split.
  - split; [apply (cacheKeyString_inj p1 p2); assumption | intros ->; reflexivity].
  - apply generateCacheKey_eq_iff.
Qed.


Lemma generateCacheKey_coherence_witness :
  (valid_go 1 = valid_go 2 -> generateCacheKey (valid_go 1) = generateCacheKey (valid_go 2)) /\
  (cacheKeyString (valid_go 1) = cacheKeyString (valid_go 2) <-> valid_go 1 = valid_go 2) /\
  (generateCacheKey (valid_go 1) = generateCacheKey (valid_go 2) <->
   md5_Sum (bytes_of_string (cacheKeyString (valid_go 1)))
   = md5_Sum (bytes_of_string (cacheKeyString (valid_go 2)))).
Proof.
  apply (generateCacheKey_coherence raw_go
           {| Query := "go"; sp_ContentType := ""; SortBy := ""; Page := 2; PageSize := 51 |});
    reflexivity.
Defined.

(** The key of the default first page of the query go, as md5sum gives it. *)
Example generateCacheKey_go :
  generateCacheKey {| Query := "go"; sp_ContentType := ""; SortBy := "popularity";
                      Page := 1; PageSize := 20 |}
  = "search:b63eaaa0934244e68bafea27a5e93ae3".
Proof. vm_compute. reflexivity. Qed.

(** ** Provider clients *)

(** A record the JSON client normalizes keeps the id of the raw item,
    whatever it is: the client has no check on it. *)
Lemma jsonProvider_normalize_keeps_id time (raw : JSONContent) (rawData : string)
    (c : NormalizedContent) :
  jsonProvider.normalize time raw rawData = Ok c -> ExternalID c = jc_ID raw.
Proof.
  unfold jsonProvider.normalize.
  destruct (parse_RFC3339 time _); [|discriminate].
  destruct (content_type_of _); [|discriminate].
  intros [= <-]. reflexivity.
Qed.

(** C5: the JSON client does not drop an item without id. A feed of one page
    whose only item has an empty id, a valid type and a valid date makes
    FetchContents return one record, with the empty external id. *)
Theorem jsonProvider_FetchContents_empty_id :
  exists c : NormalizedContent,
    jsonProvider.FetchContents utc_parser (fun _ => "{}") (fun _ => true)
      (paged_feed [json_item ""] 10) = Ok [c]
    /\ ExternalID c = "".
Proof. eexists. split; vm_compute; reflexivity. Qed.

(** The XML client does drop it: no record it normalizes has an empty id. *)
Lemma xmlProvider_normalize_nonempty_id time (raw : XMLItem) (rawData : string)
    (c : NormalizedContent) :
  xmlProvider.normalize time raw rawData = Ok c -> ExternalID c <> "".
Proof.
  unfold xmlProvider.normalize.
  destruct (String.eqb_spec (xi_ID raw) "") as [|Hid]; [discriminate|].
  destruct (match parse_RFC3339 time _ with Some _ => _ | None => _ end); [|discriminate].
  destruct (content_type_of _); [|discriminate].
  intros [= <-]. exact Hid.
Qed.

Section FetchFacts.
Context {Item : Type}.
Variable normalize : Item -> string -> Result NormalizedContent.
Variable marshal : Item -> string.
Variable limiter_ok : Z -> bool.
Variable server : Z -> nat -> HttpReply Item.
Variable P : NormalizedContent -> Prop.
Hypothesis normalize_P : forall raw rawData c, normalize raw rawData = Ok c -> P c.

Lemma normalize_all_Forall (items : list Item) :
  Forall P (normalize_all normalize marshal items).
Proof.
  unfold normalize_all. induction items as [|raw items IH]; cbn; [constructor|].
  apply Forall_app_2; [|exact IH].
  destruct (normalize raw (marshal raw)) eqn:Hn; [|constructor].
  repeat constructor. eapply normalize_P, Hn.
Qed.

Lemma fetch_page_Forall (page totalPages : Z) (all : list NormalizedContent) :
  Forall P all ->
  match fetch_page normalize marshal limiter_ok server page totalPages all with
  | Stop (Ok l) => Forall P l
  | Stop (Err _) => True
  | Next _ all' => Forall P all'
  end.
Proof.
  intros Hall. unfold fetch_page.
  destruct (limiter_ok page); cbn [negb]; [|exact I].
  destruct (get_page server page) as [|status [response|]]; try exact I;
    destruct (status =? 200); cbn [negb]; try exact I.
  destruct (_ || _); [exact Hall|].
  apply Forall_app_2; [exact Hall | apply normalize_all_Forall].
Qed.

Lemma fetch_from_Forall (n : nat) (page totalPages : Z) (all : list NormalizedContent) :
  Forall P all ->
  match fetch_from normalize marshal limiter_ok server n page totalPages all with
  | Ok l => Forall P l
  | Err _ => True
  end.
Proof.
  revert page totalPages all.
  induction n as [|n IH]; intros page totalPages all Hall; cbn [fetch_from]; [exact Hall|].
  destruct (page <=? totalPages); [|exact Hall].
  pose proof (fetch_page_Forall page totalPages all Hall) as Hstep.
  destruct (fetch_page _ _ _ _ _ _ _) as [[l|e]|tp all']; try exact Hstep.
  apply IH, Hstep.
Qed.

(** Whatever every normalized record satisfies, every fetched record does. *)
Lemma fetch_all_Forall :
  match fetch_all normalize marshal limiter_ok server with
  | Ok l => Forall P l
  | Err _ => True
  end.
Proof.
  unfold fetch_all.
  pose proof (fetch_page_Forall 1 1 [] (Forall_nil_2 P)) as Hstep.
  destruct (fetch_page _ _ _ _ _ _ _) as [[l|e]|tp all']; try exact Hstep.
  apply fetch_from_Forall, Hstep.
Qed.
End FetchFacts.

(** No record with an empty external id is in the list the XML client
    returns, whatever the feed answers. *)
Theorem xmlProvider_FetchContents_nonempty_ids time marshal limiter_ok server :
  match xmlProvider.FetchContents time marshal limiter_ok server with
  | Ok l => Forall (fun c => ExternalID c <> "") l
  | Err _ => True
  end.
Proof.
  apply fetch_all_Forall. intros raw rawData c.
  apply xmlProvider_normalize_nonempty_id.
Qed.

Section FetchBound.
Context {Item : Type}.
Variable normalize : Item -> string -> Result NormalizedContent.
Variable marshal : Item -> string.
Variable limiter_ok : Z -> bool.
Variable server : Z -> nat -> HttpReply Item.
Variable m : nat.
Hypothesis page_size : forall page attempt status response,
  server page attempt = Reply status (Some response) ->
  (length (page_items response) <= m)%nat.

Lemma normalize_all_length (items : list Item) :
  (length (normalize_all normalize marshal items) <= length items)%nat.
Proof.
  unfold normalize_all. induction items as [|raw items IH]; cbn; [lia|].
  rewrite length_app. destruct (normalize raw (marshal raw)); cbn; lia.
Qed.

Lemma get_page_size (page status : Z) (response : FeedPage Item) :
  get_page server page = Reply status (Some response) ->
  (length (page_items response) <= m)%nat.
Proof.
  unfold get_page.
  destruct (succeeded (server page 0)); [apply page_size|].
  destruct (succeeded (server page 1)); apply page_size.
Qed.

Lemma fetch_page_length (page totalPages : Z) (all : list NormalizedContent) :
  (length all <= 999 + m)%nat ->
  match fetch_page normalize marshal limiter_ok server page totalPages all with
  | Stop (Ok l) => (length l <= 999 + m)%nat
  | Stop (Err _) => True
  | Next _ all' => (length all' <= 999 + m)%nat
  end.
Proof.
  intros Hall. unfold fetch_page.
  destruct (limiter_ok page); cbn [negb]; [|exact I].
  destruct (get_page server page) as [|status [response|]] eqn:Hget; try exact I;
    destruct (status =? 200); cbn [negb]; try exact I.
  destruct (Z.leb_spec (Total response) (Z.of_nat (length all)));
    destruct (Z.leb_spec 1000 (Z.of_nat (length all))); cbn [orb]; try exact Hall.
  rewrite length_app.
  pose proof (normalize_all_length (page_items response)).
  pose proof (get_page_size _ _ _ Hget). lia.
Qed.

Lemma fetch_from_length (n : nat) (page totalPages : Z) (all : list NormalizedContent) :
  (length all <= 999 + m)%nat ->
  match fetch_from normalize marshal limiter_ok server n page totalPages all with
  | Ok l => (length l <= 999 + m)%nat
  | Err _ => True
  end.
Proof.
  revert page totalPages all.
  induction n as [|n IH]; intros page totalPages all Hall; cbn [fetch_from]; [exact Hall|].
  destruct (page <=? totalPages); [|exact Hall].
  pose proof (fetch_page_length page totalPages all Hall) as Hstep.
  destruct (fetch_page _ _ _ _ _ _ _) as [[l|e]|tp all']; try exact Hstep.
  apply IH, Hstep.
Qed.

(** What the loop does bound: when no page carries more than [m] items,
    at most 999 + m records are returned. *)
Lemma fetch_all_length :
  match fetch_all normalize marshal limiter_ok server with
  | Ok l => (length l <= 999 + m)%nat
  | Err _ => True
  end.
Proof.
  unfold fetch_all.
  pose proof (fetch_page_length 1 1 [] ltac:(cbn; lia)) as Hstep.
  destruct (fetch_page _ _ _ _ _ _ _) as [[l|e]|tp all']; try exact Hstep.
  apply fetch_from_length, Hstep.
Qed.
End FetchBound.

Section FetchPages.
Context {Item : Type}.
Variable normalize : Item -> string -> Result NormalizedContent.
Variable marshal : Item -> string.
Variable limiter_ok : Z -> bool.
Variable server : Z -> nat -> HttpReply Item.

Local Abbreviation pages := (first_pages normalize marshal server).

Lemma first_pages_S (k : nat) :
  pages (S k) = pages k ++ page_records normalize marshal server (Z.of_nat (S k)).
Proof.
  unfold first_pages. rewrite seq_S, fmap_app, concat_app. cbn [fmap list_fmap concat].
  rewrite app_nil_r. reflexivity.
Qed.

(** One turn from the records of the pages before [p]: the loop stops with
    them, or goes on with the records of page [p] added and, after the first
    page, the same page count. *)
Lemma fetch_page_pages (p : nat) (totalPages : Z) :
  (p = 0%nat -> totalPages = 1) ->
  match fetch_page normalize marshal limiter_ok server (Z.of_nat (S p)) totalPages (pages p) with
  | Stop (Ok l) => l = pages p
  | Stop (Err _) => True
  | Next totalPages' all' =>
      all' = pages (S p) /\
      totalPages' = (if p =? 0 then hint_pages server else totalPages)%nat
  end.
Proof.
  intros Hfirst. unfold fetch_page.
  destruct (limiter_ok _); cbn [negb]; [|exact I].
  destruct (get_page server (Z.of_nat (S p))) as [|status [response|]] eqn:Hget; try exact I;
    destruct (status =? 200); cbn [negb]; try exact I.
  destruct (_ || _); [reflexivity|]. split.
  - rewrite first_pages_S. unfold page_records. rewrite Hget. reflexivity.
  - destruct p as [|p]; cbn [Nat.eqb].
    + unfold hint_pages. change (Z.of_nat 1) with 1 in Hget. rewrite Hget.
      rewrite (Hfirst eq_refl). cbn [Z.eqb Pos.eqb andb]. reflexivity.
    + replace (Z.of_nat (S (S p)) =? 1) with false by (symmetry; apply Z.eqb_neq; lia).
      reflexivity.
Qed.

Lemma fetch_from_pages (n p : nat) (totalPages : Z) :
  (1 <= p)%nat ->
  match fetch_from normalize marshal limiter_ok server n (Z.of_nat (S p)) totalPages (pages p) with
  | Ok l => exists k, (p <= k)%nat /\ (k = p \/ Z.of_nat k <= totalPages) /\ l = pages k
  | Err _ => True
  end.
Proof.
  revert p. induction n as [|n IH]; intros p Hp; cbn [fetch_from].
  - exists p. auto.
  - destruct (Z.leb_spec (Z.of_nat (S p)) totalPages) as [Hle|Hgt]; [|exists p; auto].
    pose proof (fetch_page_pages p totalPages ltac:(lia)) as Hstep.
    destruct (fetch_page _ _ _ _ _ _ _) as [[l|e]|tp all']; [| exact I |].
    + exists p. auto.
    + destruct Hstep as [-> ->].
      replace (p =? 0)%nat with false by (symmetry; apply Nat.eqb_neq; lia).
      replace (Z.of_nat (S p) + 1) with (Z.of_nat (S (S p))) by lia.
      specialize (IH (S p) ltac:(lia)).
      destruct (fetch_from _ _ _ _ _ _ _ _) as [l|e]; [|exact I].
      destruct IH as (k & Hk & Hbound & ->). exists k. split; [lia|]. split; [|reflexivity].
      destruct Hbound as [->|Hb]; right; lia.
Qed.

(** FetchContents returns the records of the first k pages, in order, for
    some k within the page count that the first page announced. *)
Lemma fetch_all_pages :
  match fetch_all normalize marshal limiter_ok server with
  | Ok l => exists k, Z.of_nat k <= Z.max 1 (hint_pages server) /\ l = pages k
  | Err _ => True
  end.
Proof.
  unfold fetch_all.
  pose proof (fetch_page_pages 0 1 ltac:(reflexivity)) as Hstep. change (pages 0) with (@nil NormalizedContent) in Hstep.
  change (Z.of_nat 1) with 1 in Hstep.
  destruct (fetch_page _ _ _ _ _ _ _) as [[l|e]|tp all']; [| exact I |].
  - exists 0%nat. split; [lia | exact Hstep].
  - destruct Hstep as [-> ->]. cbn [Nat.eqb].
    pose proof (fetch_from_pages (Z.to_nat (hint_pages server - 1)) 1 (hint_pages server)
                  ltac:(lia)) as Hrest.
    change (Z.of_nat 2) with 2 in Hrest.
    destruct (fetch_from _ _ _ _ _ _ _ _) as [l|e]; [|exact I].
    destruct Hrest as (k & Hk & Hbound & ->). exists k. split; [lia | reflexivity].
Qed.
End FetchPages.

(** C9: the safety limit of the loop, which the comment of its guard names
    (Güvenlik sınırı 1000) and the claim states, is passed: the guard
    len(allNormalized) >= 1000 is tested before a page is added, not after.
    A feed of 2000 items in pages of 30 makes FetchContents return 1020
    records: 990 after page 33, 1020 after page 34, and only when page 35
    has been fetched does the loop stop. *)
Lemma jsonProvider_FetchContents_over_1000 :
  match jsonProvider.FetchContents utc_parser (fun _ => "{}") (fun _ => true)
          (paged_feed (numbered_items 2000) 30) with
  | Ok l => length l = 1020%nat /\ ~ (length l <= 1000)%nat
  | Err _ => False
  end.
Proof.
  assert (Hlen : result_length
    (jsonProvider.FetchContents utc_parser (fun _ => "{}") (fun _ => true)
       (paged_feed (numbered_items 2000) 30)) = Some 1020%nat)
    by (vm_compute; reflexivity).
  destruct (jsonProvider.FetchContents _ _ _ _) as [l|e]; [|discriminate].
  injection Hlen as ->. split; [reflexivity | lia].
Qed.

(** How far the limit is passed: what FetchContents (of either client)
    returns is the records of the pages 1 .. k in order, for a k within the
    page count that the first page announces, and at most 999 + m records
    when no page carries more than m items. *)
Theorem FetchContents_bound (m : nat) time
    (jmarshal : JSONContent -> string) (xmarshal : XMLItem -> string)
    (limiter_ok : Z -> bool)
    (jserver : Z -> nat -> HttpReply JSONContent)
    (xserver : Z -> nat -> HttpReply XMLItem) :
  (forall page attempt status response,
     jserver page attempt = Reply status (Some response) ->
     (length (page_items response) <= m)%nat) ->
  (forall page attempt status response,
     xserver page attempt = Reply status (Some response) ->
     (length (page_items response) <= m)%nat) ->
  match jsonProvider.FetchContents time jmarshal limiter_ok jserver with
  | Ok l =>
      (length l <= 999 + m)%nat /\
      exists k, Z.of_nat k <= Z.max 1 (hint_pages jserver) /\
                l = first_pages (jsonProvider.normalize time) jmarshal jserver k
  | Err _ => True
  end /\
  match xmlProvider.FetchContents time xmarshal limiter_ok xserver with
  | Ok l =>
      (length l <= 999 + m)%nat /\
      exists k, Z.of_nat k <= Z.max 1 (hint_pages xserver) /\
                l = first_pages (xmlProvider.normalize time) xmarshal xserver k
  | Err _ => True
  end.
Proof.
  intros Hj Hx. split.
  - pose proof (fetch_all_length (jsonProvider.normalize time) jmarshal limiter_ok jserver m Hj)
      as Hlen.
    pose proof (fetch_all_pages (jsonProvider.normalize time) jmarshal limiter_ok jserver)
      as Hpages.
    unfold jsonProvider.FetchContents.
    destruct (fetch_all _ _ _ _) as [l|e]; [split; assumption | exact I].
  - pose proof (fetch_all_length (xmlProvider.normalize time) xmarshal limiter_ok xserver m Hx)
      as Hlen.
    pose proof (fetch_all_pages (xmlProvider.normalize time) xmarshal limiter_ok xserver)
      as Hpages.
    unfold xmlProvider.FetchContents.
    destruct (fetch_all _ _ _ _) as [l|e]; [split; assumption | exact I].
Qed.

Lemma paged_feed_size {Item} (items : list Item) (perPage : Z) page attempt status response :
  paged_feed items perPage page attempt = Reply status (Some response) ->
  (length (page_items response) <= Z.to_nat perPage)%nat.
Proof.
  unfold paged_feed. intros [= _ <-]. cbn [page_items].
  rewrite length_take. lia.
Qed.

Lemma FetchContents_bound_witness :
  match jsonProvider.FetchContents utc_parser (fun _ => "{}") (fun _ => true)
          (paged_feed (numbered_items 45) 10) with
  | Ok l =>
      (length l <= 999 + 10)%nat /\
      exists k, Z.of_nat k <= Z.max 1 (hint_pages (paged_feed (numbered_items 45) 10)) /\
                l = first_pages (jsonProvider.normalize utc_parser) (fun _ => "{}")
                      (paged_feed (numbered_items 45) 10) k
  | Err _ => True
  end /\
  match xmlProvider.FetchContents utc_parser (fun _ => "<item/>") (fun _ => true)
          (paged_feed [xml_item "x1"; xml_item ""; xml_item "x3"] 10) with
  | Ok l =>
      (length l <= 999 + 10)%nat /\
      exists k, Z.of_nat k
                <= Z.max 1 (hint_pages (paged_feed [xml_item "x1"; xml_item ""; xml_item "x3"] 10)) /\
                l = first_pages (xmlProvider.normalize utc_parser) (fun _ => "<item/>")
                      (paged_feed [xml_item "x1"; xml_item ""; xml_item "x3"] 10) k
  | Err _ => True
  end.
Proof.
  apply (FetchContents_bound 10 utc_parser (fun _ => "{}") (fun _ => "<item/>")
           (fun _ => true) (paged_feed (numbered_items 45) 10)
           (paged_feed [xml_item "x1"; xml_item ""; xml_item "x3"] 10));
    intros page attempt status response Hreply;
    apply paged_feed_size in Hreply; exact Hreply.
Defined.

(** The two feeds of the witness, run: 45 records, and the two items with
    an id. *)
Example FetchContents_runs :
  result_length (jsonProvider.FetchContents utc_parser (fun _ => "{}") (fun _ => true)
                   (paged_feed (numbered_items 45) 10)) = Some 45%nat /\
  result_ids
     (xmlProvider.FetchContents utc_parser (fun _ => "<item/>") (fun _ => true)
        (paged_feed [xml_item "x1"; xml_item ""; xml_item "x3"] 10))
  = Some ["x1"; "x3"].
Proof. split; vm_compute; reflexivity. Qed.


(** ** Repository *)

(** The shape of a statement's outcome. *)
Lemma statement_cases {A} (run : Z -> DB -> A * DB) (w : World) :
  let ev := (next_event w).1 in
  let t := clock w + Z.of_N (delay ev) in
  (fault ev = true /\
   statement run w = (Err ErrDB, {| db := db w; clock := t; pending := (next_event w).2 |}))
  \/
  (fault ev = false /\
   statement run w = (Ok (run t (db w)).1,
                      {| db := (run t (db w)).2; clock := t; pending := (next_event w).2 |})).
Proof.
  unfold statement. destruct (next_event w) as [ev rest]. cbn [fst snd].
  destruct (fault ev); [left | right]; split; try reflexivity.
  destruct (run _ _). reflexivity.
Qed.

Lemma calm_next (w : World) :
  calm w -> fault (next_event w).1 = false /\ Forall (fun ev => fault ev = false) (next_event w).2.
Proof.
  unfold calm, next_event. destruct (pending w) as [|ev rest]; cbn.
  - split; [reflexivity | constructor].
  - intros [Hev Hrest]%Forall_cons. split; assumption.
Qed.

(** In a calm world a statement runs. *)
Lemma statement_calm {A} (run : Z -> DB -> A * DB) (w : World) :
  calm w ->
  exists t, clock w <= t /\
    statement run w = (Ok (run t (db w)).1,
                       {| db := (run t (db w)).2; clock := t; pending := (next_event w).2 |})
    /\ calm {| db := (run t (db w)).2; clock := t; pending := (next_event w).2 |}.
Proof.
  intros [Hev Hrest]%calm_next.
  destruct (statement_cases run w) as [[Hf _]|[_ Heq]]; [congruence|].
  eexists. split; [|split; [exact Heq | exact Hrest]]. lia.
Qed.

(** C10: MarkStaleContentsAsDeleted leaves the statistics, the scores, the
    tags and the tag links as they are, creates and removes no content row,
    and changes a content row only if it belongs to the provider, is live and
    has updated_at before the threshold; on such a row it changes deleted
    (to 1) and updated_at (to the time of the sweep) and nothing else. When
    the statement runs, every such row is changed so. *)
Theorem MarkStaleContentsAsDeleted_frame (providerID threshold : Z) (w : World) :
  let '(r, w') := MarkStaleContentsAsDeleted providerID threshold w in
  content_stats (db w') = content_stats (db w) /\
  content_scores (db w') = content_scores (db w) /\
  tags (db w') = tags (db w) /\
  content_tags (db w') = content_tags (db w) /\
  (forall key, contents (db w) !! key = None -> contents (db w') !! key = None) /\
  (forall key row, contents (db w) !! key = Some row ->
     exists row', contents (db w') !! key = Some row' /\
       row_id row' = row_id row /\ row_title row' = row_title row /\
       row_description row' = row_description row /\
       row_content_type row' = row_content_type row /\
       row_published_at row' = row_published_at row /\
       row_created_at row' = row_created_at row /\
       row_raw_data row' = row_raw_data row /\
       ((row_deleted row' = row_deleted row /\ row_updated_at row' = row_updated_at row) \/
        (key.1 = providerID /\ row_deleted row = 0 /\ row_updated_at row < threshold /\
         row_deleted row' = 1 /\ row_updated_at row' = clock w')) /\
       (r = Ok tt -> key.1 = providerID -> row_deleted row = 0 ->
        row_updated_at row < threshold ->
        row_deleted row' = 1 /\ row_updated_at row' = clock w')).
Proof.
  unfold MarkStaleContentsAsDeleted.
  destruct (statement_cases
    (fun t d => (tt, set_contents d
       (map_imap (fun key row =>
          Some (if stale providerID threshold key row then mark_deleted t row else row))
          (contents d)) (contents_seq d))) w) as [[_ ->]|[_ ->]]; cbn [db clock fst snd].
  - repeat split; try reflexivity; [tauto|].
    intros key row Hrow. exists row. repeat split; try assumption; [tauto | discriminate..].
  - cbn [set_contents contents content_stats content_scores tags content_tags].
    repeat split; try reflexivity.
    + intros key Hnone. rewrite map_lookup_imap, Hnone. reflexivity.
    + intros key row Hrow. rewrite map_lookup_imap, Hrow. cbn.
      eexists. split; [reflexivity|].
      unfold stale.
      destruct (Z.eqb_spec key.1 providerID), (Z.ltb_spec (row_updated_at row) threshold),
        (Z.eqb_spec (row_deleted row) 0); cbn [andb mark_deleted row_id row_title
          row_description row_content_type row_published_at row_created_at
          row_raw_data row_deleted row_updated_at];
        repeat split; try reflexivity; try tauto; try lia.
Qed.

(** *** AddTags *)

Lemma tags_grow_refl (contentID : Z) (names : list string) (d d' : DB) :
  tables d' = tables d -> tags_grow contentID names d d'.
Proof.
  unfold tables, tags_grow. intros [= Hc Hs Hsc Ht Hl].
  rewrite Hc, Hs, Hsc, Ht, Hl. repeat split; auto.
Qed.

Lemma tags_grow_trans (contentID : Z) (ns1 ns2 ns : list string) (d1 d2 d3 : DB) :
  (forall n, n ∈ ns1 \/ n ∈ ns2 -> n ∈ ns) ->
  tags_grow contentID ns1 d1 d2 -> tags_grow contentID ns2 d2 d3 ->
  tags_grow contentID ns d1 d3.
Proof.
  intros Hns (Hc & Hs & Hsc & Ht & Hl & Hnt & Hnl) (Hc' & Hs' & Hsc' & Ht' & Hl' & Hnt' & Hnl').
  repeat split; try congruence; try (etransitivity; eassumption).
  - intros n [H|H]%Hnt'; [destruct (Hnt n H); [left|right] | right]; auto.
  - intros c t [H|H]%Hnl'; auto.
Qed.

Lemma names_split {U : CaseTables} (name : string) (rest : list string) :
  forall n, n ∈ [tag_name name] \/ n ∈ tag_name <$> rest -> n ∈ tag_name <$> name :: rest.
Proof.
  intros n [Hn|Hn]; rewrite fmap_cons; apply elem_of_cons; [left | right; exact Hn].
  apply elem_of_cons in Hn as [Hn|Hn]; [exact Hn | inversion Hn].
Qed.

Lemma has_tag_link_mono (contentID : Z) (name : string) (d d' : DB) :
  tags d ⊆ tags d' -> content_tags d ⊆ content_tags d' ->
  has_tag_link d contentID name -> has_tag_link d' contentID name.
Proof.
  intros Ht Hl (row & Hrow & [c Hc]). exists row. split.
  - eapply lookup_weaken; eassumption.
  - exists c. eapply lookup_weaken; eassumption.
Qed.

Lemma insert_tag_spec (tx contentID : Z) (name : string) (w : World) :
  let '(r, w') := insert_tag tx name w in
  tags_grow contentID [name] (db w) (db w') /\
  content_tags (db w') = content_tags (db w) /\
  match r with
  | Ok id => exists row, tags (db w') !! name = Some row /\ tg_id row = id
  | Err _ => tables (db w') = tables (db w)
  end.
Proof.
  unfold insert_tag.
  match goal with |- context [statement ?run w] =>
    destruct (statement_cases run w) as [[_ ->]|[_ ->]] end; cbn [db fst snd].
  - split; [apply tags_grow_refl|]; auto.
  - destruct (tags (db w) !! name) as [row|] eqn:Hrow; cbn [fst snd].
    + split; [apply tags_grow_refl; reflexivity|]. split; [reflexivity|].
      exists row. auto.
    + cbn [set_tags tags content_tags]. split; [|split; [reflexivity|]].
      * repeat split; try reflexivity.
        -- cbn. apply insert_subseteq, Hrow.
        -- cbn. intros n. rewrite lookup_insert. case_decide; [subst; right; constructor | auto].
        -- auto.
      * eexists. rewrite lookup_insert_eq. auto.
Qed.

Lemma insert_content_tag_spec (tx contentID tagID : Z) (names : list string) (w : World) :
  let '(r, w') := insert_content_tag tx contentID tagID w in
  tags_grow contentID names (db w) (db w') /\
  tags (db w') = tags (db w) /\
  match r with
  | Ok _ => is_Some (content_tags (db w') !! (contentID, tagID))
  | Err _ => tables (db w') = tables (db w)
  end.
Proof.
  unfold insert_content_tag.
  match goal with |- context [statement ?run w] =>
    destruct (statement_cases run w) as [[_ ->]|[_ ->]] end; cbn [db fst snd].
  - split; [apply tags_grow_refl|]; auto.
  - destruct (content_tags (db w) !! (contentID, tagID)) as [c|] eqn:Hc; cbn [fst snd].
    + split; [apply tags_grow_refl; reflexivity|]. split; [reflexivity|]. eauto.
    + cbn [set_content_tags tags content_tags]. split; [|split; [reflexivity|]].
      * repeat split; try reflexivity.
        -- cbn. apply insert_subseteq, Hc.
        -- auto.
        -- cbn. intros c t. rewrite lookup_insert. case_decide as Heq; [injection Heq; auto | auto].
      * rewrite lookup_insert_eq. eauto.
Qed.

Lemma add_tags_loop_spec {U : CaseTables} (tx contentID : Z) (names : list string) (w : World) :
  let '(r, w') := add_tags_loop tx contentID names w in
  tags_grow contentID (tag_name <$> names) (db w) (db w') /\
  (r = Ok tt -> forall name, name ∈ names -> has_tag_link (db w') contentID (tag_name name)).
Proof.
  revert w. induction names as [|name rest IH]; intros w; cbn [add_tags_loop].
  - split; [apply tags_grow_refl; reflexivity|]. intros _ name Hin. inversion Hin.
  - unfold bind at 1.
    pose proof (insert_tag_spec tx contentID (tag_name name) w) as H1.
    fold (tag_name name).
    destruct (insert_tag tx (tag_name name) w) as [[tagID|e] w1].
    2:{ destruct H1 as (Hg & _ & _). split; [|discriminate].
        eapply tags_grow_trans;
          [apply names_split | exact Hg | apply tags_grow_refl; reflexivity]. }
    destruct H1 as (Hg1 & Hl1 & row & Hrow & Hid).
    unfold bind at 1.
    pose proof (insert_content_tag_spec tx contentID tagID (tag_name <$> rest) w1) as H2.
    destruct (insert_content_tag tx contentID tagID w1) as [[[]|e] w2].
    2:{ destruct H2 as (Hg2 & _ & _). split; [|discriminate].
        eapply tags_grow_trans; [apply names_split | exact Hg1 | exact Hg2]. }
    destruct H2 as (Hg2 & Ht2 & Hlink).
    specialize (IH w2). destruct (add_tags_loop tx contentID rest w2) as [r w3].
    destruct IH as (Hg3 & Hall). split.
    + eapply tags_grow_trans; [apply names_split | exact Hg1 |].
      eapply tags_grow_trans; [|exact Hg2 | exact Hg3]. tauto.
    + intros Hr n [->|Hin]%elem_of_cons; [|apply Hall; assumption].
      destruct Hg3 as (_ & _ & _ & Ht3 & Hl3 & _).
      eapply has_tag_link_mono; [exact Ht3 | exact Hl3 |].
      exists row. split; [rewrite Ht2; exact Hrow | rewrite Hid; exact Hlink].
Qed.

Lemma has_tag_link_tables (contentID : Z) (name : string) (d d' : DB) :
  tables d' = tables d -> has_tag_link d contentID name -> has_tag_link d' contentID name.
Proof.
  unfold tables, has_tag_link. intros [= _ _ _ Ht Hl]. rewrite Ht, Hl. auto.
Qed.

(** With the tag and the link in place the two statements change no table. *)
Lemma add_tags_loop_noop {U : CaseTables} (tx contentID : Z) (names : list string) (w : World) :
  (forall name, name ∈ names -> has_tag_link (db w) contentID (tag_name name)) ->
  tables (db (add_tags_loop tx contentID names w).2) = tables (db w).
Proof.
  revert w. induction names as [|name rest IH]; intros w Hall; cbn [add_tags_loop];
    [reflexivity|].
  destruct (Hall name ltac:(left)) as (row & Hrow & Hlink).
  unfold bind at 1. fold (tag_name name). unfold insert_tag.
  match goal with |- context [statement ?run w] =>
    destruct (statement_cases run w) as [[_ ->]|[_ ->]] end; [reflexivity|].
  cbn [fst snd]. rewrite Hrow. cbn [fst snd].
  unfold bind at 1. unfold insert_content_tag.
  match goal with |- context [statement ?run ?w1] =>
    destruct (statement_cases run w1) as [[_ ->]|[_ ->]] end; [reflexivity|].
  cbn [fst snd db set_tags content_tags]. destruct Hlink as [c ->]. cbn [fst snd].
  rewrite IH; [reflexivity|].
  intros n Hn. eapply has_tag_link_tables; [|apply Hall; right; exact Hn]. reflexivity.
Qed.

Lemma BeginTx_db (w : World) : db (BeginTx w).2 = db w.
Proof.
  unfold BeginTx.
  match goal with |- context [statement ?run w] =>
    destruct (statement_cases run w) as [[_ ->]|[_ ->]] end; reflexivity.
Qed.

Lemma Commit_db (w : World) : db (Commit w).2 = db w.
Proof.
  unfold Commit.
  match goal with |- context [statement ?run w] =>
    destruct (statement_cases run w) as [[_ ->]|[_ ->]] end; reflexivity.
Qed.

(** AddTags either fails with the tables as they were, or succeeds with the
    tables grown by the tags and links of the names. *)
Lemma AddTags_outcome {U : CaseTables} (contentID : Z) (names : list string) (w : World) :
  let '(r, w') := AddTags contentID names w in
  match r with
  | Err _ => tables (db w') = tables (db w)
  | Ok _ =>
      tags_grow contentID (tag_name <$> names) (db w) (db w') /\
      forall name, name ∈ names -> has_tag_link (db w') contentID (tag_name name)
  end.
Proof.
  unfold AddTags. destruct names as [|name0 rest].
  { split; [apply tags_grow_refl; reflexivity|]. intros name Hin. inversion Hin. }
  set (names := name0 :: rest).
  pose proof (BeginTx_db w) as Hb.
  destruct (BeginTx w) as [[tx|e] w1]; cbn [snd] in Hb; cbn beta iota;
    [|now rewrite Hb].
  unfold bind.
  pose proof (add_tags_loop_spec tx contentID names w1) as Hloop.
  destruct (add_tags_loop tx contentID names w1) as [[[]|e] w2];
    cbn [rolled_back]; cbn beta iota; [|reflexivity].
  pose proof (Commit_db w2) as Hc.
  destruct (Commit w2) as [[[]|e] w3]; cbn [snd rolled_back] in *; cbn beta iota;
    [|reflexivity].
  rewrite Hc, <- Hb. destruct Hloop as [Hg Hall]. split; [exact Hg | apply Hall; reflexivity].
Qed.

Lemma AddTags_noop {U : CaseTables} (contentID : Z) (names : list string) (w : World) :
  (forall name, name ∈ names -> has_tag_link (db w) contentID (tag_name name)) ->
  tables (db (AddTags contentID names w).2) = tables (db w).
Proof.
  intros Hall. unfold AddTags. destruct names as [|name0 rest]; [reflexivity|].
  set (names := name0 :: rest) in *.
  pose proof (BeginTx_db w) as Hb.
  destruct (BeginTx w) as [[tx|e] w1]; cbn [snd] in *; [|now rewrite Hb].
  unfold bind.
  pose proof (add_tags_loop_noop tx contentID names w1) as Hloop.
  destruct (add_tags_loop tx contentID names w1) as [[[]|e] w2]; cbn [rolled_back snd] in *;
    [|reflexivity].
  pose proof (Commit_db w2) as Hc.
  destruct (Commit w2) as [[[]|e] w3]; cbn [snd rolled_back] in *; [|reflexivity].
  rewrite Hc, Hloop, Hb; [reflexivity|].
  intros n Hn. rewrite Hb. apply Hall, Hn.
Qed.

(** C4, as the claim states it, fails: a name that is empty after trimming
    is not skipped. AddTags(1, [" "]) on a database with content 1 and no
    tag stores a tag with the empty name and links content 1 to it,
    whatever the case tables are. *)
Lemma AddTags_blank_name_not_skipped :
  exists w',
    (forall U : CaseTables,
       AddTags (U:=U) 1 [" "] (quiet_world abc_db 100) = (Ok tt, w')
       /\ tag_name (U:=U) " " = "")
    /\ tags (db w') !! "" = Some {| tg_id := 1; tg_created_at := 100 |}
    /\ content_tags (db w') !! (1, 1) = Some 100.
Proof.
  exists (AddTags (U:=no_tables) 1 [" "] (quiet_world abc_db 100)).2.
  split; [intros U; split; vm_compute; reflexivity|].
  split; vm_compute; reflexivity.
Qed.

(** C4 (amended): for every content id and every list of tag names, AddTags
    maps each name to [tag_name name], that is
    strings.ToLower(strings.TrimSpace(name)) with the white space and the
    letters of Unicode, whatever the case tables are, and skips none: when
    it succeeds, every name of the list, also one that is empty after this
    normalization, has its tag row and the content its link to that row;
    rows are only added (to tags under these names, to content_tags for
    this content) and no other table changes. It is idempotent: run again
    on tables as the first run left them, it leaves them unchanged. All
    inserts are in one transaction: when AddTags fails the five tables are
    as they were before the call. *)
Theorem AddTags_spec {U : CaseTables} (contentID : Z) (names : list string) (w : World) :
  let '(r, w') := AddTags contentID names w in
  match r with
  | Err _ => tables (db w') = tables (db w)
  | Ok _ =>
      tags_grow contentID (tag_name <$> names) (db w) (db w') /\
      (forall name, name ∈ names -> has_tag_link (db w') contentID (tag_name name)) /\
      (forall w2, tables (db w2) = tables (db w') ->
         tables (db (AddTags contentID names w2).2) = tables (db w'))
  end.
Proof.
  pose proof (AddTags_outcome contentID names w) as Hout.
  destruct (AddTags contentID names w) as [[[]|e] w']; [|exact Hout].
  destruct Hout as [Hg Hall].
  split; [exact Hg|]. split.
  - exact Hall.
  - intros w2 Hw2. rewrite AddTags_noop; [exact Hw2|].
    intros name Hin. eapply has_tag_link_tables; [exact Hw2 | apply Hall, Hin].
Qed.

(** *** The sync of one provider *)

Lemma keeps_contents_refl (w : World) : keeps_contents w w.
Proof. repeat split; auto. lia. Qed.

Lemma keeps_contents_trans (w1 w2 w3 : World) :
  keeps_contents w1 w2 -> keeps_contents w2 w3 -> keeps_contents w1 w3.
Proof.
  intros (Hc & Ht & Hcalm) (Hc' & Ht' & Hcalm'). repeat split; [congruence | lia | auto].
Qed.

Lemma calm_tail (w : World) : calm w -> Forall (fun ev => fault ev = false) (next_event w).2.
Proof. intros H. apply calm_next, H. Qed.

(** A statement that does not write contents keeps it, refused or not. *)
Lemma statement_keeps {A} (run : Z -> DB -> A * DB) (w : World) :
  (forall t d, contents (run t d).2 = contents d) ->
  keeps_contents w (statement run w).2.
Proof.
  intros Hrun.
  destruct (statement_cases run w) as [[_ ->]|[_ ->]]; cbn [snd];
    (split; [cbn; auto | split; [cbn; lia | intros Hcalm; apply calm_tail, Hcalm]]).
Qed.

Lemma insert_tag_keeps (tx : Z) (name : string) (w : World) :
  keeps_contents w (insert_tag tx name w).2.
Proof.
  unfold insert_tag. apply statement_keeps. intros t d. destruct (tags d !! name); reflexivity.
Qed.

Lemma insert_content_tag_keeps (tx contentID tagID : Z) (w : World) :
  keeps_contents w (insert_content_tag tx contentID tagID w).2.
Proof.
  unfold insert_content_tag. apply statement_keeps. intros t d.
  destruct (content_tags d !! _); reflexivity.
Qed.

Lemma BeginTx_keeps (w : World) : keeps_contents w (BeginTx w).2.
Proof. unfold BeginTx. apply statement_keeps. reflexivity. Qed.

Lemma Commit_keeps (w : World) : keeps_contents w (Commit w).2.
Proof. unfold Commit. apply statement_keeps. reflexivity. Qed.

Lemma CreateOrUpdateStats_keeps (stats : ContentStats) (w : World) :
  keeps_contents w (CreateOrUpdateStats stats w).2.
Proof. unfold CreateOrUpdateStats. apply statement_keeps. reflexivity. Qed.

Lemma CreateOrUpdateScore_keeps (score : ContentScore float) (w : World) :
  keeps_contents w (CreateOrUpdateScore score w).2.
Proof. unfold CreateOrUpdateScore. apply statement_keeps. reflexivity. Qed.

Lemma add_tags_loop_keeps {U : CaseTables} (tx contentID : Z) (names : list string) (w : World) :
  keeps_contents w (add_tags_loop tx contentID names w).2.
Proof.
  revert w. induction names as [|name rest IH]; intros w; cbn [add_tags_loop].
  - apply keeps_contents_refl.
  - unfold bind at 1.
    pose proof (insert_tag_keeps tx (ToLower (TrimSpace name)) w) as H1.
    destruct (insert_tag tx (ToLower (TrimSpace name)) w) as [[tagID|e] w1];
      cbn [snd] in *; [|exact H1].
    unfold bind at 1.
    pose proof (insert_content_tag_keeps tx contentID tagID w1) as H2.
    destruct (insert_content_tag tx contentID tagID w1) as [[[]|e] w2]; cbn [snd] in *.
    + eapply keeps_contents_trans; [exact H1|].
      eapply keeps_contents_trans; [exact H2 | apply IH].
    + eapply keeps_contents_trans; eassumption.
Qed.

Lemma rolled_back_keeps {A} (w w' : World) (before : DB) (r : Result A) :
  contents before = contents (db w) -> keeps_contents w w' ->
  keeps_contents w (rolled_back before (r, w')).2.
Proof.
  intros Hb (Hc & Ht & Hcalm). destruct r; cbn [rolled_back snd]; [repeat split; auto|].
  repeat split; cbn; auto.
Qed.

Lemma AddTags_keeps {U : CaseTables} (contentID : Z) (names : list string) (w : World) :
  keeps_contents w (AddTags contentID names w).2.
Proof.
  unfold AddTags. destruct names as [|name0 rest]; [apply keeps_contents_refl|].
  set (names := name0 :: rest).
  pose proof (BeginTx_keeps w) as Hb.
  destruct (BeginTx w) as [[tx|e] w1]; cbn [snd] in *; [|exact Hb].
  unfold bind.
  pose proof (add_tags_loop_keeps tx contentID names w1) as Hloop.
  destruct (add_tags_loop tx contentID names w1) as [[[]|e] w2]; cbn [snd] in *.
  - pose proof (Commit_keeps w2) as Hc.
    destruct (Commit w2) as [r w3]; cbn [snd] in *.
    apply rolled_back_keeps; [reflexivity|].
    eapply keeps_contents_trans; [exact Hb|].
    eapply keeps_contents_trans; eassumption.
  - apply (rolled_back_keeps w w2 (db w) (Err e)); [reflexivity|].
    eapply keeps_contents_trans; eassumption.
Qed.

(** In a calm world Upsert writes the row of its key, live and stamped with
    the time of the statement. *)
Lemma Upsert_calm (content : Content float) (w : World) :
  calm w ->
  exists c w' row,
    Upsert content w = (Ok c, w') /\ calm w' /\ clock w <= clock w' /\
    contents (db w') = <[(ProviderID content, ProviderContentID content) := row]> (contents (db w)) /\
    row_deleted row = 0 /\ row_updated_at row = clock w'.
Proof.
  intros Hcalm. unfold Upsert.
  match goal with |- context [statement ?run w] =>
    destruct (statement_calm run w Hcalm) as (t & Ht & -> & Hcalm') end.
  destruct (contents (db w) !! _) as [old|]; cbn [fst snd] in *;
    eexists _, _, _; (split; [reflexivity|]); cbn; repeat split; auto.
Qed.

(** In a calm world processContent writes the content row of the record,
    live and stamped during the call; the rest of contents is untouched. *)
Lemma processContent_calm {U : CaseTables} rules (providerID : Z) (nc : NormalizedContent) (w : World) :
  calm w ->
  calm (processContent rules providerID nc w).2 /\
  clock w <= clock (processContent rules providerID nc w).2 /\
  exists row,
    contents (db (processContent rules providerID nc w).2)
    = <[(providerID, ExternalID nc) := row]> (contents (db w)) /\
    row_deleted row = 0 /\ clock w <= row_updated_at row.
Proof.
  intros Hcalm.
  assert (Hsplit : exists w1 row,
    calm w1 /\ clock w <= clock w1 /\
    contents (db w1) = <[(providerID, ExternalID nc) := row]> (contents (db w)) /\
    row_deleted row = 0 /\ row_updated_at row = clock w1 /\
    keeps_contents w1 (processContent rules providerID nc w).2).
  { unfold processContent.
    match goal with |- context [Upsert ?content] =>
      destruct (Upsert_calm content w Hcalm)
        as (c & w1 & row & Heq & Hcalm1 & Ht1 & Hc1 & Hd & Hu)
    end.
    cbn [ProviderID ProviderContentID] in Hc1.
    exists w1, row. repeat (split; [assumption|]).
    unfold bind at 1, wrap_err at 1. rewrite Heq. cbn beta iota.
    unfold bind at 1, wrap_err at 1.
    match goal with |- context [CreateOrUpdateStats ?stats w1] =>
      pose proof (CreateOrUpdateStats_keeps stats w1) as H2;
      destruct (CreateOrUpdateStats stats w1) as [[stats'|e] w2] end;
      cbn [snd] in *; [|exact H2].
    eapply keeps_contents_trans; [exact H2|].
    unfold bind at 1, time_Now at 1. unfold bind at 1.
    match goal with |- keeps_contents w2 (match ?m w2 with _ => _ end).2 =>
      assert (H3 : keeps_contents w2 (m w2).2) end.
    { destruct (CalculateScore _ _ _) as [score|]; [|apply keeps_contents_refl].
      unfold bind, wrap_err, ret.
      match goal with |- context [CreateOrUpdateScore ?s w2] =>
        pose proof (CreateOrUpdateScore_keeps s w2) as H3;
        destruct (CreateOrUpdateScore s w2) as [[s'|e] w3] end; exact H3. }
    match goal with |- keeps_contents w2 (match ?m w2 with _ => _ end).2 =>
      destruct (m w2) as [[[]|e] w3] end; cbn [snd] in *; [|exact H3].
    eapply keeps_contents_trans; [exact H3|].
    destruct (nc_Tags nc) as [|t ts]; [apply keeps_contents_refl|].
    unfold logged. cbn [snd]. apply AddTags_keeps. }
  destruct Hsplit as (w1 & row & Hcalm1 & Ht1 & Hc1 & Hd & Hu & Hc & Ht & Hcalm').
  split; [auto|]. split; [lia|].
  exists row. rewrite Hc, Hc1. repeat split; auto. lia.
Qed.

Lemma sync_loop_spec {U : CaseTables} rules (providerID start : Z) (records : list NormalizedContent) (w : World) :
  calm w -> start <= clock w ->
  let w' := foldl (fun w nc => (processContent rules providerID nc w).2) w records in
  calm w' /\ clock w <= clock w' /\
  forall e,
    (e ∈ ExternalID <$> records ->
     exists row, contents (db w') !! (providerID, e) = Some row /\
                 row_deleted row = 0 /\ start <= row_updated_at row) /\
    (e ∉ ExternalID <$> records ->
     contents (db w') !! (providerID, e) = contents (db w) !! (providerID, e)).
Proof.
  revert w. induction records as [|nc rest IH]; intros w Hcalm Hstart; cbn [foldl].
  - split; [assumption|]. split; [lia|]. intros e.
    split; [intros Hin; inversion Hin | reflexivity].
  - destruct (processContent_calm rules providerID nc w Hcalm)
      as (Hcalm1 & Ht1 & row & Hc1 & Hd & Hu).
    set (w1 := (processContent rules providerID nc w).2) in *.
    destruct (IH w1 Hcalm1 ltac:(lia)) as (Hcalm' & Ht' & Hkeys).
    split; [exact Hcalm'|]. split; [lia|].
    intros e. destruct (Hkeys e) as [Hin Hout]. split.
    + intros He. destruct (decide (e ∈ ExternalID <$> rest)) as [Hrest|Hrest];
        [apply Hin, Hrest|].
      rewrite Hout by exact Hrest.
      assert (e = ExternalID nc) as ->
        by (apply elem_of_cons in He as [He|He]; [exact He | contradiction]).
      exists row. rewrite Hc1, lookup_insert_eq. repeat split; [assumption | lia].
    + intros He. rewrite Hout by (intros Hin'; apply He, elem_of_cons; right; exact Hin').
      rewrite Hc1, lookup_insert_ne; [reflexivity|].
      intros [= Heq]. apply He, elem_of_cons. left. symmetry. exact Heq.
Qed.

(** C3: in a world where no write is refused, after syncProvider with the
    client having returned the records S: every content row of the provider
    that was live with its last write before the start of the sync and whose
    external id is not in S has deleted = 1, and every external id in S has
    its content row with deleted = 0. *)
Theorem syncProvider_sweep {U : CaseTables} rules (providerID : Z) (fetch_time : N)
    (records : list NormalizedContent) (w : World) :
  calm w ->
  let w' := (syncProvider rules providerID fetch_time (Ok records) w).2 in
  (forall e row,
     contents (db w) !! (providerID, e) = Some row ->
     e ∉ ExternalID <$> records ->
     row_deleted row = 0 -> row_updated_at row < clock w ->
     exists row', contents (db w') !! (providerID, e) = Some row' /\ row_deleted row' = 1)
  /\
  (forall e, e ∈ ExternalID <$> records ->
     exists row', contents (db w') !! (providerID, e) = Some row' /\ row_deleted row' = 0).
Proof.
  intros Hcalm. unfold syncProvider.
  set (w0 := {| db := db w; clock := clock w + Z.of_N fetch_time; pending := pending w |}).
  assert (Hcalm0 : calm w0) by exact Hcalm.
  destruct (sync_loop_spec rules providerID (clock w) records w0 Hcalm0 ltac:(cbn; lia))
    as (Hcalm1 & Ht1 & Hkeys).
  set (w1 := foldl _ w0 records) in *.
  unfold logged, MarkStaleContentsAsDeleted. cbn [snd].
  match goal with |- context [statement ?run w1] =>
    destruct (statement_calm run w1 Hcalm1) as (t & Ht & -> & _) end.
  cbn [snd db fst set_contents contents]. split.
  - intros e row Hrow He Hlive Hold.
    destruct (Hkeys e) as [_ Hout]. rewrite map_lookup_imap, (Hout He).
    change (contents (db w0)) with (contents (db w)). rewrite Hrow. cbn.
    eexists. split; [reflexivity|]. unfold stale. cbn [fst].
    rewrite Z.eqb_refl, (proj2 (Z.ltb_lt _ _) Hold), Hlive. reflexivity.
  - intros e He. destruct (Hkeys e) as [Hin _].
    destruct (Hin He) as (row & Hrow & Hlive & Hnew).
    rewrite map_lookup_imap, Hrow. cbn. eexists. split; [reflexivity|].
    unfold stale. cbn [fst]. rewrite (proj2 (Z.ltb_ge _ _) Hnew).
    rewrite andb_false_r. exact Hlive.
Qed.

Lemma syncProvider_sweep_witness :
  let w' := (syncProvider (U:=no_tables) defaultRules 1 5 (Ok [record "a"; record "c"])
               (quiet_world abc_db 100)).2 in
  (forall e row,
     contents (db (quiet_world abc_db 100)) !! (1, e) = Some row ->
     e ∉ ExternalID <$> [record "a"; record "c"] ->
     row_deleted row = 0 -> row_updated_at row < clock (quiet_world abc_db 100) ->
     exists row', contents (db w') !! (1, e) = Some row' /\ row_deleted row' = 1)
  /\
  (forall e, e ∈ ExternalID <$> [record "a"; record "c"] ->
     exists row', contents (db w') !! (1, e) = Some row' /\ row_deleted row' = 0).
Proof.
  apply (syncProvider_sweep (U:=no_tables) defaultRules 1 5 [record "a"; record "c"] (quiet_world abc_db 100)).
  constructor.
Defined.

(** The stale sweep scenario, run: after the sync that returns a and c, the
    rows of a and c are live and the row of b is deleted. *)
Example syncProvider_abc :
  let w' := (syncProvider (U:=no_tables) defaultRules 1 5 (Ok [record "a"; record "c"])
               (quiet_world abc_db 100)).2 in
  (fun e => row_deleted <$> contents (db w') !! (1, e)) <$> ["a"; "b"; "c"]
  = [Some 0; Some 1; Some 0].
Proof. vm_compute. reflexivity. Qed.

(** ** Further properties of the scoring service and the search use case *)

(** The recency bonus at its boundaries, whatever the current time: 5 up to
    and including 7 days of age, then 3 up to and including 30 days, then 1
    up to and including 90 days, then 0. *)
Theorem calculateRecencyScore_boundaries (now : Z) :
  calculateRecencyScore (F:=float) now (now - 7 * day) = 5%float /\
  calculateRecencyScore (F:=float) now (now - (7 * day + 1)) = 3%float /\
  calculateRecencyScore (F:=float) now (now - 30 * day) = 3%float /\
  calculateRecencyScore (F:=float) now (now - (30 * day + 1)) = 1%float /\
  calculateRecencyScore (F:=float) now (now - 90 * day) = 1%float /\
  calculateRecencyScore (F:=float) now (now - (90 * day + 1)) = 0%float.
Proof.
  unfold calculateRecencyScore.
  rewrite !time_Sub_ago by (vm_compute; split; discriminate).
  repeat split; vm_compute; reflexivity.
Qed.

(** A video without views and an article without reading time have no
    engagement, whatever their likes and reactions. *)
Theorem calculateEngagementScore_zero (published likes reactions : Z) :
  calculateEngagementScore (F:=float)
    (content_with_stats "video" published (video_stats 0 likes)) = 0%float /\
  calculateEngagementScore (F:=float)
    (content_with_stats "article" published (new_stats 0 0 0 reactions)) = 0%float.
Proof. split; reflexivity. Qed.

(** The article and the zero-view video of the end-to-end scenarios: an
    article with reading time 5 and 100 reactions published 100 days ago
    scores 7, 1, 0, 100 and 107; a video with no views and 10 likes published
    now scores 0.1, 1.5, 5, 0 and 5.15. *)
Theorem CalculateScore_scenarios (now : Z) :
  components <$> CalculateScore (F:=float) defaultRules now
     (content_with_stats "article" (now - 100 * day) (new_stats 0 0 5 100))
  = Some (7, 1, 0, 100, 107)%float /\
  components <$> CalculateScore (F:=float) defaultRules now
     (content_with_stats "video" (now - 0) (video_stats 0 10))
  = Some (0.1, 1.5, 5, 0, 5.15)%float.
Proof.
  unfold CalculateScore, calculateRecencyScore, content_with_stats.
  cbn [Stats PublishedAt].
  rewrite !time_Sub_ago by (vm_compute; split; discriminate).
  split; vm_compute; reflexivity.
Qed.

(** Defaulting and clamping: a page below 1 becomes 1, a page size below 1
    becomes 20, a page size above 50 becomes 50, and an empty sort becomes
    popularity. *)
Theorem validateParams_defaults (query : string) :
  validateParams {| Query := query; sp_ContentType := ""; SortBy := "";
                    Page := 0; PageSize := 100 |}
  = Ok {| Query := query; sp_ContentType := ""; SortBy := "popularity";
          Page := 1; PageSize := 50 |} /\
  validateParams {| Query := query; sp_ContentType := "video"; SortBy := "relevance";
                    Page := 3; PageSize := 0 |}
  = Ok {| Query := query; sp_ContentType := "video"; SortBy := "relevance";
          Page := 3; PageSize := 20 |}.
Proof. split; reflexivity. Qed.

(** A result that Execute returned with the cache answering is returned
    again for the same parameters from the cache alone: the second call gives
    the same result and cache whatever the repository would answer. *)
Theorem Execute_cached repo (cache : gmap string cached) (params : SearchParams) :
  match Execute repo cache_up cache params with
  | (Ok r, cache') =>
      forall repo', Execute repo' cache_up cache' params = (Ok r, cache')
  | (Err _, _) => True
  end.
Proof.
  unfold Execute. destruct (validateParams params) as [v|e]; [|exact I].
  cbn [get_ok set_ok cache_up].
  destruct (cache !! generateCacheKey v) as [[r|]|] eqn:Hk.
  - intros repo'. rewrite Hk. reflexivity.
  - destruct (repo v) as [[contents total]|e]; [|exact I].
    intros repo'. rewrite lookup_insert_eq. reflexivity.
  - destruct (repo v) as [[contents total]|e]; [|exact I].
    intros repo'. rewrite lookup_insert_eq. reflexivity.
Qed.

(** ** Search use case: validation, cache and handler *)

(** validateParams accepts exactly the parameters whose sort is empty,
    popularity or relevance and whose type is empty, video or article. What
    it returns keeps the query and the type, has the default sort for an
    empty one, the page raised to 1 at least, the page size 20 for one below
    1 and 50 for one above 50, and is itself accepted unchanged. *)
Theorem validateParams_accepts (p : SearchParams) :
  match validateParams p with
  | Ok v =>
      SortBy p ∈ [""; "popularity"; "relevance"] /\
      sp_ContentType p ∈ [""; "video"; "article"] /\
      Query v = Query p /\ sp_ContentType v = sp_ContentType p /\
      SortBy v = (if String.eqb (SortBy p) "" then "popularity" else SortBy p) /\
      Page v = Z.max 1 (Page p) /\
      PageSize v = (if PageSize p <? 1 then 20 else Z.min 50 (PageSize p)) /\
      validateParams v = Ok v
  | Err _ =>
      SortBy p ∉ [""; "popularity"; "relevance"] \/
      sp_ContentType p ∉ [""; "video"; "article"]
  end.
Proof. exact (validateParams_cases p). Qed.

(** Execute and the cache: a failed search leaves the cache as it was; a
    successful one leaves it as it was or stores the returned result under
    the key of the validated parameters, and touches no other key. *)
Theorem Execute_cache_frame repo env (cache : gmap string cached) (params : SearchParams) :
  match Execute repo env cache params with
  | (Err _, cache') => cache' = cache
  | (Ok r, cache') =>
      cache' = cache \/
      exists v, validateParams params = Ok v /\
                cache' = <[generateCacheKey v := Encoded r]> cache /\
                forall k, k <> generateCacheKey v -> cache' !! k = cache !! k
  end.
Proof.
  unfold Execute. destruct (validateParams params) as [v|e]; [|reflexivity].
  destruct (if get_ok env then _ else _) as [r|]; [left; reflexivity|].
  destruct (repo v) as [[contents total]|e]; [|reflexivity].
  destruct (set_ok env); [|left; reflexivity].
  right. exists v. split; [reflexivity|]. split; [reflexivity|].
  intros k Hk. apply lookup_insert_ne. congruence.
Qed.

(** The handler is lenient with page and page_size: whatever the two strings
    are (not numbers, negative, huge), a request with a valid sort and type
    is answered 200 when the repository answers. On an empty cache the
    result is for page max(1, n) and for the page size 20 when n < 1 and
    min(50, n) otherwise, n being what strconv.Atoi made of the string. *)
Theorem HandleSearch_lenient repo env (r : Request) :
  q_sort r ∈ [""; "popularity"; "relevance"] ->
  q_type r ∈ [""; "video"; "article"] ->
  (forall p, exists items total, repo p = Ok (items, total)) ->
  (forall cache, status (HandleSearch repo env cache r).1 = StatusOK) /\
  exists res,
    body (HandleSearch repo env ∅ r).1 = ResultBody res /\
    pg_Page (sr_Pagination res) = Z.max 1 (Atoi (q_page r)) /\
    pg_PageSize (sr_Pagination res)
    = (if Atoi (q_page_size r) <? 1 then 20 else Z.min 50 (Atoi (q_page_size r))).
Proof.
  intros Hsort Htype Hrepo. unfold HandleSearch.
  set (params := {| Query := q_query r; sp_ContentType := q_type r;
                    SortBy := if String.eqb (q_sort r) "" then "popularity" else q_sort r;
                    Page := if Atoi (q_page r) <? 1 then 1 else Atoi (q_page r);
                    PageSize := if Atoi (q_page_size r) <? 1 then 20
                                else Atoi (q_page_size r) |}).
  pose proof (validateParams_cases params) as Hv.
  destruct (validateParams params) as [v|e] eqn:Hval.
  2:{ exfalso. destruct Hv as [Hbad|Hbad]; apply Hbad; subst params;
        cbn [SortBy sp_ContentType]; [|exact Htype].
      rewrite !elem_of_cons in *. destruct Hsort as [->|[->|[->|Hnil]]]; cbn; auto.
      inversion Hnil. }
  destruct Hv as (_ & _ & _ & _ & _ & Hpage & Hsize & _).
  subst params. cbn [Page PageSize] in Hpage, Hsize.
  split.
  - intros cache. unfold Execute. rewrite Hval.
    destruct (if get_ok env then _ else _) as [res|]; [reflexivity|].
    destruct (Hrepo v) as (items & total & ->). reflexivity.
  - unfold Execute. rewrite Hval. rewrite lookup_empty.
    destruct (Hrepo v) as (items & total & ->).
    replace (if get_ok env then None else None) with (@None SearchResult)
      by (destruct (get_ok env); reflexivity).
    eexists. split; [reflexivity|]. cbn [sr_Pagination pg_Page pg_PageSize].
    rewrite Hpage, Hsize. split.
    + destruct (Z.ltb_spec (Atoi (q_page r)) 1); lia.
    + destruct (Z.ltb_spec (Atoi (q_page_size r)) 1); [reflexivity|].
      destruct (Z.ltb_spec (Atoi (q_page_size r)) 1); [lia|reflexivity].
Qed.

Lemma HandleSearch_lenient_witness :
  (forall cache, status (HandleSearch no_search cache_up cache lenient_request).1 = StatusOK) /\
  exists res,
    body (HandleSearch no_search cache_up ∅ lenient_request).1 = ResultBody res /\
    pg_Page (sr_Pagination res) = Z.max 1 (Atoi (q_page lenient_request)) /\
    pg_PageSize (sr_Pagination res)
    = (if Atoi (q_page_size lenient_request) <? 1 then 20
       else Z.min 50 (Atoi (q_page_size lenient_request))).
Proof.
  apply (HandleSearch_lenient no_search cache_up lenient_request).
  - vm_compute. left.
  - vm_compute. left.
  - intros p. exists [], 0. reflexivity.
Defined.

(** ** Scoring service: weights and recency *)

Lemma time_Sub_antitone (now p1 p2 : Z) : p1 <= p2 -> time_Sub now p2 <= time_Sub now p1.
Proof.
  intros Hle. unfold time_Sub, minInt64, maxInt64.
  destruct (Z.ltb_spec (now - p2) (-9223372036854775808));
    destruct (Z.ltb_spec (now - p1) (-9223372036854775808));
    destruct (Z.ltb_spec 9223372036854775807 (now - p2));
    destruct (Z.ltb_spec 9223372036854775807 (now - p1)); lia.
Qed.

(** Of two contents the newer one never has the smaller recency bonus, and
    content dated now or in the future has the full bonus of 5: the age is
    the saturated difference of the two instants and the steps are tested
    from the youngest. *)
Theorem calculateRecencyScore_monotone (now p1 p2 : Z) :
  p1 <= p2 ->
  PrimFloat.leb (calculateRecencyScore (F:=float) now p1)
                (calculateRecencyScore (F:=float) now p2) = true /\
  calculateRecencyScore (F:=float) now (Z.max now p2) = 5%float.
Proof.
  intros Hle. pose proof (time_Sub_antitone now p1 p2 Hle) as Hsub. split.
  - unfold calculateRecencyScore. unfold Hour.
    repeat match goal with
           | |- context [if ?a <=? ?b then _ else _] => destruct (Z.leb_spec a b); try lia
           end; vm_compute; reflexivity.
  - unfold calculateRecencyScore.
    assert (Hage : time_Sub now (Z.max now p2) <= 0).
    { unfold time_Sub, minInt64, maxInt64.
      destruct (Z.ltb_spec (now - Z.max now p2) (-9223372036854775808)); [lia|].
      destruct (Z.ltb_spec 9223372036854775807 (now - Z.max now p2)); lia. }
    destruct (Z.leb_spec (time_Sub now (Z.max now p2)) (7 * 24 * Hour)); [reflexivity|].
    unfold Hour in *. lia.
Qed.

Lemma calculateRecencyScore_monotone_witness :
  PrimFloat.leb (calculateRecencyScore (F:=float) t0 (t0 - 40 * day))
                (calculateRecencyScore (F:=float) t0 (t0 - 10 * day)) = true /\
  calculateRecencyScore (F:=float) t0 (Z.max t0 (t0 - 10 * day)) = 5%float.
Proof.
  apply (calculateRecencyScore_monotone t0 (t0 - 40 * day) (t0 - 10 * day)).
  vm_compute. discriminate.
Defined.

(** A weight of zero cannot be configured: NewScoringService replaces a
    zero (of either sign) by the default, so the weights of the service are
    never zero, and building a service from the rules of a service changes
    nothing. *)
Theorem NewScoringService_never_zero (rules : ScoringRules float) :
  is_zero (VideoTypeWeight (NewScoringService rules)) = false /\
  is_zero (ArticleTypeWeight (NewScoringService rules)) = false /\
  NewScoringService (NewScoringService rules) = NewScoringService rules.
Proof.
  destruct rules as [v a]. unfold NewScoringService. cbn [VideoTypeWeight ArticleTypeWeight].
  destruct (is_zero v) eqn:Hv; destruct (is_zero a) eqn:Ha;
    repeat match goal with
           | |- _ /\ _ => split
           | |- is_zero _ = false => first [assumption | vm_compute; reflexivity]
           end;
    try rewrite Hv; try rewrite Ha;
    try change (is_zero (fdiv (of_int 3) (of_int 2))) with false;
    try change (is_zero (F:=float) (of_int 1)) with false; reflexivity.
Qed.

(** ** strconv and fmt: the round trip of %d and Atoi *)

Lemma digits_value_acc (d : Decimal.uint) (acc : positive) :
  digits_value (Z.pos acc) (NilEmpty.string_of_uint d) = Some (Z.pos (Pos.of_uint_acc d acc)).
Proof.
  revert acc. induction d; intros acc; cbn [NilEmpty.string_of_uint Pos.of_uint_acc];
    [reflexivity | ..]; cbn [digits_value];
    match goal with
    | |- (if is_digit ?c then _ else _) = _ => change (is_digit c) with true; cbn iota
    end;
    match goal with
    | |- digits_value ?a _ = Some (Z.pos (Pos.of_uint_acc _ ?b)) =>
        replace a with (Z.pos b) by (cbn; lia)
    end; apply IHd.
Qed.

Lemma digits_value_uint (d : Decimal.uint) :
  digits_value 0 (NilEmpty.string_of_uint d) = Some (Z.of_N (Pos.of_uint d)).
Proof.
  induction d; cbn [NilEmpty.string_of_uint Pos.of_uint]; [reflexivity | exact IHd | ..];
    cbn [digits_value];
    match goal with
    | |- (if is_digit ?c then _ else _) = _ => change (is_digit c) with true; cbn iota
    end; cbn [Z.of_N];
    match goal with
    | |- digits_value ?a _ = Some (Z.pos (Pos.of_uint_acc _ ?b)) =>
        change a with (Z.pos b)
    end; apply digits_value_acc.
Qed.

(** The decimal digits of a positive number: not empty, and the first one is
    no sign. *)
Lemma Atoi_digits (p : positive) :
  let s := NilEmpty.string_of_uint (Pos.to_uint p) in
  NilZero.string_of_uint (Pos.to_uint p) = s /\
  Atoi s = Z.max minInt64 (Z.min maxInt64 (Z.pos p)) /\
  Atoi (String "-" s) = Z.max minInt64 (Z.min maxInt64 (Z.neg p)).
Proof.
  intros s.
  assert (Hval : digits_value 0 s = Some (Z.pos p)).
  { subst s. rewrite digits_value_uint, DecimalPos.Unsigned.of_to. reflexivity. }
  assert (Hnil : Pos.to_uint p <> Decimal.Nil) by apply DecimalPos.Unsigned.to_uint_nonnil.
  subst s. destruct (Pos.to_uint p) as [|d|d|d|d|d|d|d|d|d|d]; [congruence|..];
    (split; [reflexivity|]); cbn [NilEmpty.string_of_uint] in *; unfold Atoi;
    rewrite Hval; split; reflexivity.
Qed.

(** strconv.Atoi reads back what %d wrote, for every int64. *)
Lemma Atoi_itoa (n : Z) : minInt64 <= n <= maxInt64 -> Atoi (itoa n) = n.
Proof.
  intros Hn. unfold itoa. destruct n as [|p|p]; cbn [Z.to_int NilZero.string_of_int].
  - reflexivity.
  - destruct (Atoi_digits p) as (-> & -> & _). lia.
  - destruct (Atoi_digits p) as (-> & _ & ->). lia.
Qed.

(** ** Provider clients: what FetchContents returns *)

(** Every record either client returns is a video or an article and has an
    empty description, whatever the feed sends: normalize maps the two type
    names and rejects every other. *)
Theorem FetchContents_types time jmarshal xmarshal limiter_ok jserver xserver :
  match jsonProvider.FetchContents time jmarshal limiter_ok jserver with
  | Ok l => Forall (fun c => nc_ContentType c ∈ ["video"; "article"] /\ nc_Description c = "") l
  | Err _ => True
  end /\
  match xmlProvider.FetchContents time xmarshal limiter_ok xserver with
  | Ok l => Forall (fun c => nc_ContentType c ∈ ["video"; "article"] /\ nc_Description c = "") l
  | Err _ => True
  end.
Proof.
  assert (Htype : forall t ct, content_type_of t = Some ct -> ct ∈ ["video"; "article"]).
  { intros t ct. unfold content_type_of.
    destruct (String.eqb t "video"); [intros [= <-]; set_solver|].
    destruct (String.eqb t "article"); [intros [= <-]; set_solver | discriminate]. }
  split; apply fetch_all_Forall; intros raw rawData c.
  - unfold jsonProvider.normalize.
    destruct (parse_RFC3339 time _); [|discriminate].
    destruct (content_type_of _) eqn:Hct; [|discriminate].
    intros [= <-]. split; [eapply Htype, Hct | reflexivity].
  - unfold xmlProvider.normalize.
    destruct (String.eqb (xi_ID raw) ""); [discriminate|].
    destruct (match parse_RFC3339 time _ with Some _ => _ | None => _ end); [|discriminate].
    destruct (content_type_of _) eqn:Hct; [|discriminate].
    intros [= <-]. split; [eapply Htype, Hct | reflexivity].
Qed.

(** A first page that announces a total of zero or less ends the fetch with
    no record, whatever items the page carries: the test on the total comes
    before the items are read. A body without a pagination block decodes to
    such a page. *)
Theorem FetchContents_no_total time jmarshal xmarshal
    (jserver : Z -> nat -> HttpReply JSONContent) (xserver : Z -> nat -> HttpReply XMLItem)
    (jpage : FeedPage JSONContent) (xpage : FeedPage XMLItem) :
  jserver 1 0%nat = Reply 200 (Some jpage) -> Total jpage <= 0 ->
  xserver 1 0%nat = Reply 200 (Some xpage) -> Total xpage <= 0 ->
  jsonProvider.FetchContents time jmarshal (fun _ => true) jserver = Ok [] /\
  xmlProvider.FetchContents time xmarshal (fun _ => true) xserver = Ok [].
Proof.
  intros Hj Hjt Hx Hxt.
  unfold jsonProvider.FetchContents, xmlProvider.FetchContents, fetch_all, fetch_page, get_page.
  rewrite Hj, Hx. cbn [succeeded negb Z.eqb Pos.eqb length Z.of_nat].
  change (Z.of_nat 0) with 0.
  rewrite (proj2 (Z.leb_le (Total jpage) 0) Hjt), (proj2 (Z.leb_le (Total xpage) 0) Hxt).
  split; reflexivity.
Qed.

Lemma FetchContents_no_total_witness :
  jsonProvider.FetchContents utc_parser (fun _ => "{}") (fun _ => true)
    (untotalled_feed [json_item "v1"; json_item "v2"]) = Ok [] /\
  xmlProvider.FetchContents utc_parser (fun _ => "<item/>") (fun _ => true)
    (untotalled_feed [xml_item "a1"]) = Ok [].
Proof.
  apply (FetchContents_no_total utc_parser (fun _ => "{}") (fun _ => "<item/>")
           (untotalled_feed [json_item "v1"; json_item "v2"])
           (untotalled_feed [xml_item "a1"])
           {| page_items := [json_item "v1"; json_item "v2"]; Total := 0; PerPage := 0 |}
           {| page_items := [xml_item "a1"]; Total := 0; PerPage := 0 |});
    first [reflexivity | cbn; lia].
Defined.

Section FetchSame.
Context {Item : Type}.
Variable normalize : Item -> string -> Result NormalizedContent.
Variable marshal : Item -> string.
Variable limiter_ok : Z -> bool.
Variables server server' : Z -> nat -> HttpReply Item.
Hypothesis same_pages : forall page, get_page server page = get_page server' page.

Lemma fetch_page_same (page totalPages : Z) (all : list NormalizedContent) :
  fetch_page normalize marshal limiter_ok server page totalPages all
  = fetch_page normalize marshal limiter_ok server' page totalPages all.
Proof. unfold fetch_page. rewrite same_pages. reflexivity. Qed.

Lemma fetch_from_same (n : nat) (page totalPages : Z) (all : list NormalizedContent) :
  fetch_from normalize marshal limiter_ok server n page totalPages all
  = fetch_from normalize marshal limiter_ok server' n page totalPages all.
Proof.
  revert page totalPages all. induction n as [|n IH]; intros page totalPages all;
    cbn [fetch_from]; [reflexivity|].
  rewrite fetch_page_same.
  destruct (page <=? totalPages); [|reflexivity].
  destruct (fetch_page _ _ _ _ _ _ _) as [r|tp all']; [reflexivity | apply IH].
Qed.

(** The result depends on the server through the outcome of the retry loop
    of each page only. *)
Lemma fetch_all_same :
  fetch_all normalize marshal limiter_ok server = fetch_all normalize marshal limiter_ok server'.
Proof.
  unfold fetch_all. rewrite fetch_page_same.
  destruct (fetch_page _ _ _ _ _ _ _) as [r|tp all']; [reflexivity | apply fetch_from_same].
Qed.
End FetchSame.

Lemma get_page_flaky {Item} (good : Z -> HttpReply Item) (page : Z) :
  get_page (flaky good) page = get_page (fun p _ => good p) page.
Proof. unfold get_page, flaky. cbn. destruct (succeeded (good page)); reflexivity. Qed.

(** Two failed attempts a page do not show: behind a connection that fails
    the first two attempts of every page (an error, then a 503) either
    client returns what it returns when every page is answered at once. *)
Theorem FetchContents_retries time jmarshal xmarshal limiter_ok
    (jgood : Z -> HttpReply JSONContent) (xgood : Z -> HttpReply XMLItem) :
  jsonProvider.FetchContents time jmarshal limiter_ok (flaky jgood)
  = jsonProvider.FetchContents time jmarshal limiter_ok (fun page _ => jgood page) /\
  xmlProvider.FetchContents time xmarshal limiter_ok (flaky xgood)
  = xmlProvider.FetchContents time xmarshal limiter_ok (fun page _ => xgood page).
Proof. split; apply fetch_all_same, get_page_flaky. Qed.

Section FetchOutcome.
Context {Item : Type}.
Variable normalize : Item -> string -> Result NormalizedContent.
Variable marshal : Item -> string.
Variable limiter_ok : Z -> bool.
Variable server : Z -> nat -> HttpReply Item.

(** One turn of the loop, by what page [S p] is. *)
Lemma fetch_page_cases (p : nat) (totalPages : Z) :
  (p = 0%nat -> totalPages = 1) ->
  match fetch_page normalize marshal limiter_ok server (Z.of_nat (S p)) totalPages
          (first_pages normalize marshal server p) with
  | Stop (Ok l) =>
      l = first_pages normalize marshal server p /\
      page_read limiter_ok server (S p) /\ ~ page_taken normalize marshal server (S p)
  | Stop (Err _) => ~ page_read limiter_ok server (S p)
  | Next totalPages' all' =>
      all' = first_pages normalize marshal server (S p) /\
      totalPages' = (if p =? 0 then hint_pages server else totalPages)%nat /\
      page_read limiter_ok server (S p) /\ page_taken normalize marshal server (S p)
  end.
Proof.
  intros Hfirst.
  pose proof (fetch_page_pages normalize marshal limiter_ok server p totalPages Hfirst) as Hpages.
  unfold fetch_page, page_read, page_taken in *.
  replace (S p - 1)%nat with p by lia.
  destruct (limiter_ok _); cbn [negb] in *; [|intros [H _]; discriminate].
  destruct (get_page server (Z.of_nat (S p))) as [|status [response|]] eqn:Hget.
  - intros [_ [r Hr]]; discriminate.
  - destruct (Z.eqb_spec status 200) as [->|Hne]; cbn [negb] in *.
    2:{ intros [_ [r Hr]]. injection Hr as Hs _. contradiction. }
    destruct (Z.leb_spec (Total response)
                (Z.of_nat (length (first_pages normalize marshal server p)))) as [H1|H1];
      cbn [orb] in *.
    { split; [reflexivity|]. split; [split; [reflexivity | eexists; reflexivity]|].
      intros (r & Hr & Hlt & _). injection Hr as <-. lia. }
    destruct (Z.leb_spec 1000
                (Z.of_nat (length (first_pages normalize marshal server p)))) as [H2|H2].
    { split; [reflexivity|]. split; [split; [reflexivity | eexists; reflexivity]|].
      intros (r & Hr & _ & Hlt). lia. }
    destruct Hpages as [-> ->]. split; [reflexivity|]. split; [reflexivity|].
    split; [split; [reflexivity | eexists; reflexivity]|].
    exists response. split; [reflexivity|]. lia.
  - destruct (Z.eqb_spec status 200) as [->|Hne]; cbn [negb] in *.
    + intros [_ [r Hr]]; discriminate.
    + intros [_ [r Hr]]. injection Hr as Hs. contradiction.
Qed.

Lemma fetch_from_outcome (n p : nat) :
  (1 <= p)%nat -> hint_pages server - Z.of_nat p <= Z.of_nat n ->
  (forall i, (1 <= i <= p)%nat ->
     page_read limiter_ok server i /\ page_taken normalize marshal server i) ->
  fetch_outcome normalize marshal limiter_ok server
    (fetch_from normalize marshal limiter_ok server n (Z.of_nat (S p)) (hint_pages server)
       (first_pages normalize marshal server p)).
Proof.
  revert p. induction n as [|n IH]; intros p Hp Hfuel Htaken; cbn [fetch_from].
  - exists p. split; [reflexivity|]. split; [exact Htaken|]. left. lia.
  - destruct (Z.leb_spec (Z.of_nat (S p)) (hint_pages server)) as [Hle|Hgt].
    2:{ exists p. split; [reflexivity|]. split; [exact Htaken|]. left. lia. }
    pose proof (fetch_page_cases p (hint_pages server) ltac:(lia)) as Hstep.
    destruct (fetch_page _ _ _ _ _ _ _) as [[l|e]|tp all'].
    + destruct Hstep as (-> & Hread & Hnot). exists p.
      split; [reflexivity|]. split; [exact Htaken|]. right. split; assumption.
    + exists (S p). split; [lia|]. split; [intros j Hj; apply Htaken; lia|].
      split; [right; exact Hle | exact Hstep].
    + destruct Hstep as (-> & -> & Hread & Htake).
      replace (p =? 0)%nat with false by (symmetry; apply Nat.eqb_neq; lia).
      replace (Z.of_nat (S p) + 1) with (Z.of_nat (S (S p))) by lia.
      apply IH; [lia | lia |]. intros i Hi.
      destruct (decide (i = S p)) as [->|]; [split; assumption | apply Htaken; lia].
Qed.

Lemma fetch_all_outcome :
  fetch_outcome normalize marshal limiter_ok server
    (fetch_all normalize marshal limiter_ok server).
Proof.
  unfold fetch_all.
  pose proof (fetch_page_cases 0 1 ltac:(reflexivity)) as Hstep.
  change (first_pages normalize marshal server 0) with (@nil NormalizedContent) in Hstep.
  change (Z.of_nat 1) with 1 in Hstep.
  destruct (fetch_page _ _ _ _ _ _ _) as [[l|e]|tp all'].
  - destruct Hstep as (-> & Hread & Hnot). exists 0%nat.
    split; [reflexivity|]. split; [intros i Hi; lia|]. right. split; assumption.
  - exists 1%nat. split; [lia|]. split; [intros j Hj; lia|]. split; [left; reflexivity | exact Hstep].
  - destruct Hstep as (-> & -> & Hread & Htake). cbn [Nat.eqb].
    apply (fetch_from_outcome _ 1); [lia | lia |].
    intros i Hi. replace i with 1%nat by lia. split; assumption.
Qed.
End FetchOutcome.

(** All or nothing: FetchContents (of either client) returns records only
    when the loop ended of itself: the records are those of the pages
    1 .. k, each of which was let through by the limiter, answered 200 with
    a body that decodes and taken by the loop, and after page k the loop
    ended by its own rule (the page count of the first page is used up, or
    the next page was read and one of the two guards held). It fails when a
    page that the loop asks for, after the pages before it were taken, is
    not read; the records of the pages before are then not returned. *)
Theorem FetchContents_all_or_nothing time jmarshal xmarshal limiter_ok jserver xserver :
  match jsonProvider.FetchContents time jmarshal limiter_ok jserver with
  | Ok l =>
      exists k, l = first_pages (jsonProvider.normalize time) jmarshal jserver k /\
                (forall i, (1 <= i <= k)%nat ->
                   page_read limiter_ok jserver i /\
                   page_taken (jsonProvider.normalize time) jmarshal jserver i) /\
                ends_after (jsonProvider.normalize time) jmarshal limiter_ok jserver k
  | Err _ =>
      exists i, (1 <= i)%nat /\
                (forall j, (1 <= j < i)%nat ->
                   page_read limiter_ok jserver j /\
                   page_taken (jsonProvider.normalize time) jmarshal jserver j) /\
                (i = 1%nat \/ Z.of_nat i <= hint_pages jserver) /\
                ~ page_read limiter_ok jserver i
  end /\
  match xmlProvider.FetchContents time xmarshal limiter_ok xserver with
  | Ok l =>
      exists k, l = first_pages (xmlProvider.normalize time) xmarshal xserver k /\
                (forall i, (1 <= i <= k)%nat ->
                   page_read limiter_ok xserver i /\
                   page_taken (xmlProvider.normalize time) xmarshal xserver i) /\
                ends_after (xmlProvider.normalize time) xmarshal limiter_ok xserver k
  | Err _ =>
      exists i, (1 <= i)%nat /\
                (forall j, (1 <= j < i)%nat ->
                   page_read limiter_ok xserver j /\
                   page_taken (xmlProvider.normalize time) xmarshal xserver j) /\
                (i = 1%nat \/ Z.of_nat i <= hint_pages xserver) /\
                ~ page_read limiter_ok xserver i
  end.
Proof.
  split.
  - apply (fetch_all_outcome (jsonProvider.normalize time) jmarshal limiter_ok jserver).
  - apply (fetch_all_outcome (xmlProvider.normalize time) xmarshal limiter_ok xserver).
Qed.

(** A feed of 25 items in pages of 10 whose third page is answered 500 at
    every attempt: the fetch fails, with the 20 records of the first two
    pages read. *)
Example FetchContents_page_fails :
  jsonProvider.FetchContents utc_parser (fun _ => "{}") (fun _ => true)
    (fun page attempt => if page =? 3 then Reply 500 None
                         else paged_feed (numbered_items 25) 10 page attempt)
  = Err (ErrStatus 500).
Proof. vm_compute. reflexivity. Qed.

(** ** The mock feeds *)

(** The two handlers serve the same slices. (A Go slice has less than
    2^63 - 10 elements.) *)
Lemma handleXML_handleJSON {Item} (file : option (list Item)) (pageParam : string) :
  (forall items, file = Some items -> Z.of_nat (length items) + 10 <= maxInt64) ->
  handleXML file pageParam = handleJSON file pageParam.
Proof.
  intros Hlen. destruct file as [items|]; [|reflexivity]. specialize (Hlen items eq_refl).
  unfold handleXML, handleJSON.
  set (page := if Atoi pageParam <? 1 then 1 else Atoi pageParam).
  set (start := wrap64 ((page - 1) * 10)). set (total := Z.of_nat (length items)) in *.
  destruct (Z.ltb_spec start total) as [Hlt|Hge];
    destruct (Z.ltb_spec total start) as [Hlt'|Hge']; try lia; try reflexivity.
  assert (start = total) as Heq by lia.
  rewrite Heq, wrap64_id by (unfold minInt64, maxInt64 in *; lia).
  replace (total <? total + 10) with true by (symmetry; apply Z.ltb_lt; lia).
  unfold slice. fold total.
  destruct (Z.leb_spec 0 total); [|lia].
  rewrite Z.leb_refl. cbn [andb].
  rewrite Z.sub_diag. reflexivity.
Qed.

Lemma take_drop_all {A} (l : list A) (n m : nat) :
  (length l <= n + m)%nat -> take m (drop n l) = drop n l.
Proof. intros Hlen. apply take_ge. rewrite length_drop. lia. Qed.

(** Page p of a mock feed: the ten items from index 10 (p - 1) on, or what
    is left of them. *)
Lemma handleJSON_page {Item} (contents : list Item) (p : Z) :
  1 <= p -> 10 * p <= maxInt64 -> Z.of_nat (length contents) + 10 <= maxInt64 ->
  handleJSON (Some contents) (itoa p)
  = MockStatus 200 (Some {| page_items := take 10 (drop (Z.to_nat (10 * (p - 1))) contents);
                            Total := Z.of_nat (length contents); PerPage := 10 |}).
Proof.
  intros Hp Hmax Hlen. unfold handleJSON.
  rewrite Atoi_itoa by (unfold minInt64, maxInt64 in *; lia).
  replace (p <? 1) with false by (symmetry; apply Z.ltb_ge; lia).
  rewrite (wrap64_id ((p - 1) * 10)) by (unfold minInt64, maxInt64 in *; lia).
  rewrite wrap64_id by (unfold minInt64, maxInt64 in *; lia).
  set (total := Z.of_nat (length contents)) in *.
  replace (10 * (p - 1)) with ((p - 1) * 10) by lia.
  set (start := (p - 1) * 10) in *.
  unfold mock_reply.
  destruct (Z.ltb_spec total start) as [Hbeyond|Hin].
  - rewrite drop_ge by (subst total; lia). reflexivity.
  - unfold slice. fold total.
    destruct (Z.ltb_spec total (start + 10)) as [Hlast|Hfull].
    + rewrite (proj2 (Z.leb_le 0 start)), (proj2 (Z.leb_le start total)), Z.leb_refl by lia.
      cbn [andb].
      rewrite !take_drop_all by (subst total; lia). reflexivity.
    + rewrite (proj2 (Z.leb_le 0 start)), (proj2 (Z.leb_le start (start + 10))),
        (proj2 (Z.leb_le (start + 10) total)) by lia.
      cbn [andb]. replace (start + 10 - start) with 10 by lia. reflexivity.
Qed.

(** The mock handlers page by ten: for a page number p from 1 on, both
    answer 200 with the items of index 10 (p - 1) up to 10 p - 1 that the
    file has (none beyond its end) and with the number of all items as the
    total; and a page parameter that strconv.Atoi reads as less than 1, so
    one that is no number, is served as page 1. *)
Theorem mock_handlers_page {Item} (contents : list Item) (p : Z) (garbage : string) :
  1 <= p -> 10 * p <= maxInt64 -> Z.of_nat (length contents) + 10 <= maxInt64 ->
  Atoi garbage < 1 ->
  let reply :=
    MockStatus 200 (Some {| page_items := take 10 (drop (Z.to_nat (10 * (p - 1))) contents);
                            Total := Z.of_nat (length contents); PerPage := 10 |}) in
  handleJSON (Some contents) (itoa p) = reply /\
  handleXML (Some contents) (itoa p) = reply /\
  handleJSON (Some contents) garbage = handleJSON (Some contents) "1" /\
  handleXML (Some contents) garbage = handleXML (Some contents) "1".
Proof.
  intros Hp Hmax Hlen Hgarbage reply.
  assert (Hfits : forall items, Some contents = Some items ->
                                Z.of_nat (length items) + 10 <= maxInt64)
    by (intros items [= <-]; exact Hlen).
  rewrite !handleXML_handleJSON by exact Hfits.
  split; [apply handleJSON_page; assumption|].
  split; [apply handleJSON_page; assumption|].
  assert (handleJSON (Some contents) garbage = handleJSON (Some contents) "1") as ->; [|auto].
  unfold handleJSON. rewrite (proj2 (Z.ltb_lt _ _) Hgarbage). reflexivity.
Qed.

Lemma mock_handlers_page_witness :
  let reply :=
    MockStatus 200 (Some {| page_items := take 10 (drop (Z.to_nat (10 * (3 - 1)))
                                                     (numbered_items 25));
                            Total := Z.of_nat (length (numbered_items 25)); PerPage := 10 |}) in
  handleJSON (Some (numbered_items 25)) (itoa 3) = reply /\
  handleXML (Some (numbered_items 25)) (itoa 3) = reply /\
  handleJSON (Some (numbered_items 25)) "abc" = handleJSON (Some (numbered_items 25)) "1" /\
  handleXML (Some (numbered_items 25)) "abc" = handleXML (Some (numbered_items 25)) "1".
Proof.
  apply (mock_handlers_page (numbered_items 25) 3 "abc"); vm_compute; congruence.
Defined.

(** Page three of the feed of 25 items holds the last five, and a page
    number whose offset overflows int64 makes the handler panic on the
    slice. *)
Example handleJSON_runs :
  match handleJSON (Some (numbered_items 25)) "3" with
  | MockStatus 200 (Some page) => jc_ID <$> page_items page = ["21"; "22"; "23"; "24"; "25"]
  | _ => False
  end /\
  handleJSON (Some (numbered_items 25)) "922337203685477582" = MockPanic.
Proof. split; vm_compute; reflexivity. Qed.

Section MockClient.
Context {MItem Item : Type}.
Variable normalize : Item -> string -> Result NormalizedContent.
Variable marshal : Item -> string.
Variable wire : MItem -> Item.
Variable contents : list MItem.
Hypothesis small : (length contents <= 1000)%nat.

Local Abbreviation server := (mock_server (handleJSON (Some contents)) wire).
Local Abbreviation items := (wire <$> contents).
Local Abbreviation records := (normalize_all normalize marshal).

Lemma mock_get_page (p : Z) :
  1 <= p <= 1000 ->
  get_page server p
  = Reply 200 (Some {| page_items := take 10 (drop (Z.to_nat (10 * (p - 1))) items);
                       Total := Z.of_nat (length contents); PerPage := 10 |}).
Proof.
  intros Hp. unfold get_page, mock_server.
  rewrite handleJSON_page by (unfold maxInt64; lia).
  cbn [succeeded Z.eqb Pos.eqb fmap option_fmap option_map page_items Total PerPage].
  rewrite fmap_take, fmap_drop. reflexivity.
Qed.

Lemma records_app (l1 l2 : list Item) : records (l1 ++ l2) = records l1 ++ records l2.
Proof. unfold normalize_all. apply flat_map_app. Qed.

Lemma records_length (l : list Item) : (length (records l) <= length l)%nat.
Proof.
  unfold normalize_all. induction l as [|raw l IH]; cbn; [lia|].
  rewrite length_app. destruct (normalize raw (marshal raw)); cbn; lia.
Qed.

Lemma take_more {A} (l : list A) (n : nat) :
  take n l ++ take 10 (drop n l) = take (n + 10) l.
Proof. rewrite take_take_drop. reflexivity. Qed.

Lemma page_count_bounds (len : Z) :
  0 <= len -> len <= 10 * ((len + 9) / 10) /\ 10 * ((len + 9) / 10 - 1) < len.
Proof.
  intros Hlen. pose proof (Z.div_mod (len + 9) 10 ltac:(lia)).
  pose proof (Z.mod_pos_bound (len + 9) 10 ltac:(lia)). lia.
Qed.

(** One turn of the loop on a page that is not the last one to read. *)
Lemma mock_fetch_page (p totalPages : Z) :
  1 <= p -> 10 * (p - 1) < Z.of_nat (length contents) ->
  fetch_page normalize marshal (fun _ => true) server p totalPages
    (records (take (Z.to_nat (10 * (p - 1))) items))
  = Next (if p =? 1 then (Z.of_nat (length contents) + 9) / 10 else totalPages)
         (records (take (Z.to_nat (10 * p)) items)).
Proof.
  intros Hp Hmore. unfold fetch_page. cbn [negb].
  rewrite mock_get_page by lia. cbn [Z.eqb Pos.eqb negb Total PerPage page_items].
  pose proof (records_length (take (Z.to_nat (10 * (p - 1))) items)) as Hlen.
  rewrite length_take in Hlen.
  replace (Z.of_nat (length contents) <=? _) with false by (symmetry; apply Z.leb_gt; lia).
  replace (1000 <=? _) with false by (symmetry; apply Z.leb_gt; lia).
  cbn [orb]. f_equal.
  - change (0 <? 10) with true. rewrite andb_true_r.
    destruct (p =? 1); [|reflexivity].
    rewrite !wrap64_id.
    + rewrite Z.quot_div_nonneg by lia. f_equal. lia.
    + unfold minInt64, maxInt64. lia.
    + unfold minInt64, maxInt64. rewrite wrap64_id by (unfold minInt64, maxInt64; lia).
      pose proof (Z.quot_pos (Z.of_nat (length contents) + 10 - 1) 10 ltac:(lia) ltac:(lia)).
      pose proof (Z.quot_le_upper_bound (Z.of_nat (length contents) + 10 - 1) 10 1009
                    ltac:(lia) ltac:(lia)). lia.
  - rewrite <- records_app. f_equal.
    replace (Z.to_nat (10 * p)) with (Z.to_nat (10 * (p - 1)) + 10)%nat by lia.
    apply take_more.
Qed.

Lemma mock_fetch_from (n : nat) (p totalPages : Z) :
  1 <= p -> p + Z.of_nat n = totalPages ->
  totalPages = (Z.of_nat (length contents) + 9) / 10 ->
  fetch_from normalize marshal (fun _ => true) server n (p + 1) totalPages
    (records (take (Z.to_nat (10 * p)) items))
  = Ok (records items).
Proof.
  revert p. induction n as [|n IH]; intros p Hp Hsum Htp; cbn [fetch_from].
  - pose proof (page_count_bounds (Z.of_nat (length contents)) ltac:(lia)).
    rewrite take_ge; [reflexivity|]. rewrite length_fmap. lia.
  - replace (p + 1 <=? totalPages) with true by (symmetry; apply Z.leb_le; lia).
    assert (Hmore : 10 * (p + 1 - 1) < Z.of_nat (length contents)).
    { pose proof (page_count_bounds (Z.of_nat (length contents)) ltac:(lia)). lia. }
    pose proof (mock_fetch_page (p + 1) totalPages ltac:(lia) Hmore) as Hstep.
    replace (p + 1 - 1) with p in Hstep by lia. rewrite Hstep.
    replace (p + 1 =? 1) with false by (symmetry; apply Z.eqb_neq; lia).
    apply IH; lia.
Qed.

(** Against the mock feed the client reads every item of the file. *)
Lemma mock_fetch_all :
  fetch_all normalize marshal (fun _ => true) server = Ok (records items).
Proof.
  unfold fetch_all. destruct (Nat.eq_dec (length contents) 0%nat) as [Hnone|Hsome].
  - assert (Hitems : items = []) by (apply nil_length_inv; rewrite length_fmap; exact Hnone).
    unfold fetch_page. cbn [negb]. rewrite mock_get_page by lia.
    cbn [Z.eqb Pos.eqb negb Total]. rewrite Hnone, Hitems. reflexivity.
  - pose proof (mock_fetch_page 1 1 ltac:(lia) ltac:(lia)) as Hstep.
    change (records (take (Z.to_nat (10 * (1 - 1))) items)) with (@nil NormalizedContent) in Hstep.
    rewrite Hstep. change (1 =? 1) with true. cbn iota.
    set (tp := (Z.of_nat (length contents) + 9) / 10).
    pose proof (page_count_bounds (Z.of_nat (length contents)) ltac:(lia)).
    apply (mock_fetch_from (Z.to_nat (tp - 1)) 1 tp); [lia | subst tp; lia | reflexivity].
Qed.
End MockClient.

(** Client and mock feed together: when the file of the mock has at most
    1000 items, FetchContents returns the records of all of them, in the
    order of the file, without the items that do not normalize: the pages
    the client asks for are the pages the mock cuts, and no guard of the
    loop stops it early. *)
Theorem FetchContents_mock_complete {MJ MX : Type} time jmarshal xmarshal
    (jwire : MJ -> JSONContent) (xwire : MX -> XMLItem)
    (jfile : list MJ) (xfile : list MX) :
  (length jfile <= 1000)%nat -> (length xfile <= 1000)%nat ->
  jsonProvider.FetchContents time jmarshal (fun _ => true)
    (mock_server (handleJSON (Some jfile)) jwire)
  = Ok (normalize_all (jsonProvider.normalize time) jmarshal (jwire <$> jfile)) /\
  xmlProvider.FetchContents time xmarshal (fun _ => true)
    (mock_server (handleXML (Some xfile)) xwire)
  = Ok (normalize_all (xmlProvider.normalize time) xmarshal (xwire <$> xfile)).
Proof.
  intros Hj Hx. split; [apply mock_fetch_all, Hj|].
  unfold xmlProvider.FetchContents.
  rewrite (fetch_all_same _ _ _ _ (mock_server (handleJSON (Some xfile)) xwire)).
  - apply mock_fetch_all, Hx.
  - intros page. unfold get_page, mock_server.
    rewrite handleXML_handleJSON; [reflexivity|].
    intros items [= <-]. unfold maxInt64. lia.
Qed.

Lemma FetchContents_mock_complete_witness :
  jsonProvider.FetchContents utc_parser (fun _ => "{}") (fun _ => true)
    (mock_server (handleJSON (Some (numbered_items 25))) id)
  = Ok (normalize_all (jsonProvider.normalize utc_parser) (fun _ => "{}")
          (id <$> numbered_items 25)) /\
  xmlProvider.FetchContents utc_parser (fun _ => "<item/>") (fun _ => true)
    (mock_server (handleXML (Some [xml_item "x1"; xml_item ""; xml_item "x3"])) id)
  = Ok (normalize_all (xmlProvider.normalize utc_parser) (fun _ => "<item/>")
          (id <$> [xml_item "x1"; xml_item ""; xml_item "x3"])).
Proof.
  apply (FetchContents_mock_complete utc_parser (fun _ => "{}") (fun _ => "<item/>") id id
           (numbered_items 25) [xml_item "x1"; xml_item ""; xml_item "x3"]);
    vm_compute; lia.
Defined.

(** The feed of 25 items, run through the mock: 25 records, in order. *)
Example FetchContents_mock_runs :
  result_ids (jsonProvider.FetchContents utc_parser (fun _ => "{}") (fun _ => true)
                (mock_server (handleJSON (Some (numbered_items 25))) id))
  = Some (itoa <$> [1; 2; 3; 4; 5; 6; 7; 8; 9; 10; 11; 12; 13; 14; 15; 16; 17; 18; 19; 20;
                    21; 22; 23; 24; 25]).
Proof. vm_compute. reflexivity. Qed.

(** ** Repository: content ids, reading, the sweep *)

Lemma select_content_Some (d : DB) (id : Z) (entry : (Z * string) * ContentRow) :
  select_content d id = Some entry ->
  contents d !! entry.1 = Some entry.2 /\ row_id entry.2 = id /\ row_deleted entry.2 = 0.
Proof.
  unfold select_content. intros Hhead.
  assert (Hin : entry ∈ filter (fun entry => live_with_id id entry = true)
                          (map_to_list (contents d))).
  { destruct (filter _ _) as [|e l]; [discriminate|]. injection Hhead as ->. left. }
  apply list_elem_of_filter in Hin as [Hlive Hin].
  destruct entry as [key row]. apply elem_of_map_to_list in Hin.
  unfold live_with_id in Hlive. cbn [fst snd] in *.
  apply andb_true_iff in Hlive as [Hid Hdel].
  apply Z.eqb_eq in Hid, Hdel. auto.
Qed.

Lemma select_content_None (d : DB) (id : Z) (key : Z * string) (row : ContentRow) :
  select_content d id = None ->
  contents d !! key = Some row -> row_id row = id -> row_deleted row <> 0.
Proof.
  unfold select_content. intros Hhead Hrow Hid Hlive.
  assert (Hin : (key, row) ∈ filter (fun entry => live_with_id id entry = true)
                               (map_to_list (contents d))).
  { apply list_elem_of_filter. split; [|apply elem_of_map_to_list, Hrow].
    unfold live_with_id. cbn [snd]. rewrite Hid, Hlive, !Z.eqb_refl. reflexivity. }
  destruct (filter _ _) as [|e l]; [inversion Hin | discriminate].
Qed.

(** Upsert, refused or run. *)
Lemma Upsert_cases (content : Content float) (w : World) :
  let key := (ProviderID content, ProviderContentID content) in
  (exists w', Upsert content w = (Err ErrDB, w') /\ db w' = db w /\ clock w <= clock w' /\
              fault (next_event w).1 = true) \/
  (exists w' id created,
     Upsert content w
     = (Ok (with_row content id created (clock w')), w') /\
     clock w <= clock w' /\
     pending w' = (next_event w).2 /\
     content_stats (db w') = content_stats (db w) /\
     content_scores (db w') = content_scores (db w) /\
     tags (db w') = tags (db w) /\ content_tags (db w') = content_tags (db w) /\
     contents_seq (db w') = contents_seq (db w) + 1 /\
     contents (db w')
     = <[key := {| row_id := id; row_title := Title content;
                   row_description := Description content;
                   row_content_type := content_Type content;
                   row_published_at := PublishedAt content;
                   row_created_at := created; row_updated_at := clock w';
                   row_raw_data := RawData content; row_deleted := 0 |}]> (contents (db w)) /\
     match contents (db w) !! key with
     | Some old => id = row_id old /\ created = row_created_at old
     | None => id = contents_seq (db w) + 1 /\ created = clock w'
     end).
Proof.
  intros key. unfold Upsert.
  match goal with |- context [statement ?run w] =>
    destruct (statement_cases run w) as [[Hfault ->]|[_ ->]] end.
  - left. eexists. split; [reflexivity|]. cbn. repeat split; [lia | exact Hfault].
  - right. fold key. cbn [fst snd].
    destruct (contents (db w) !! key) as [old|] eqn:Hold; cbn [fst snd];
      eexists {| db := _; clock := _; pending := _ |}, _, _;
      (split; [reflexivity|]); cbn; repeat split; lia.
Qed.

(** What Upsert does to the content rows and their ids. *)
Lemma Upsert_keeps_id_aux (content : Content float) (w : World) :
  content_ids_ok (db w) ->
  let key := (ProviderID content, ProviderContentID content) in
  let '(r, w') := Upsert content w in
  match r with
  | Err _ => tables (db w') = tables (db w)
  | Ok c =>
      content_ids_ok (db w') /\
      exists row,
        contents (db w') = <[key := row]> (contents (db w)) /\
        row_id row = ID c /\ row_deleted row = 0 /\
        match contents (db w) !! key with
        | Some old => ID c = row_id old /\ CreatedAt c = row_created_at old
        | None => forall k r, contents (db w) !! k = Some r -> row_id r <> ID c
        end
  end.
Proof.
  intros [Hseq Huniq] key.
  destruct (Upsert_cases content w) as [(w' & -> & Hdb & _ & _)|
    (w' & id & created & -> & _ & _ & _ & _ & _ & _ & Hs & Hc & Hid)].
  { rewrite Hdb. reflexivity. }
  fold key in Hc, Hid. cbn [ID CreatedAt with_row].
  assert (Hle : id <= contents_seq (db w) + 1).
  { destruct (contents (db w) !! key) as [old|] eqn:Hold; [|lia].
    destruct Hid as [-> _]. pose proof (Hseq _ _ Hold). lia. }
  assert (Hother : forall k r, k <> key -> contents (db w) !! k = Some r -> row_id r <> id).
  { intros k r Hk Hr Heq.
    destruct (contents (db w) !! key) as [old|] eqn:Hold.
    - destruct Hid as [-> _]. apply Hk. eapply Huniq; eauto.
    - destruct Hid as [-> _]. pose proof (Hseq _ _ Hr). lia. }
  split.
  - split.
    + intros k r. rewrite Hc, Hs. intros Hr. apply lookup_insert_Some in Hr as [[_ <-]|[_ Hr]].
      * cbn. lia.
      * pose proof (Hseq _ _ Hr). lia.
    + intros k1 k2 r1 r2. rewrite Hc. intros H1 H2 Heq.
      apply lookup_insert_Some in H1 as [[<- <-]|[Hk1 H1]];
        apply lookup_insert_Some in H2 as [[<- <-]|[Hk2 H2]]; cbn [row_id] in Heq.
      * reflexivity.
      * exfalso. apply (Hother k2 r2); [congruence | exact H2 | symmetry; exact Heq].
      * exfalso. apply (Hother k1 r1); [congruence | exact H1 | exact Heq].
      * eapply Huniq; eauto.
  - eexists. split; [exact Hc|]. cbn [row_id row_deleted]. split; [reflexivity|].
    split; [reflexivity|].
    destruct (contents (db w) !! key) as [old|] eqn:Hold; [exact Hid|].
    intros k r Hr. apply (Hother k r); [|exact Hr]. intros ->. congruence.
Qed.

(** Upsert and the content ids: the id of a content never changes and is
    never given to another content. On tables whose content ids are unique
    and not above the sequence, a refused Upsert changes no table; one that
    runs writes the row of its key, live, and keeps the ids unique. When
    the key was there the row keeps its id and its created_at, also when it
    was deleted; when it was not, the id is one that no row has. *)
Theorem Upsert_keeps_id (content : Content float) (w : World) :
  content_ids_ok (db w) ->
  let key := (ProviderID content, ProviderContentID content) in
  let '(r, w') := Upsert content w in
  match r with
  | Err _ => tables (db w') = tables (db w)
  | Ok c =>
      content_ids_ok (db w') /\
      exists row,
        contents (db w') = <[key := row]> (contents (db w)) /\
        row_id row = ID c /\ row_deleted row = 0 /\
        match contents (db w) !! key with
        | Some old => ID c = row_id old /\ CreatedAt c = row_created_at old
        | None => forall k r, contents (db w) !! k = Some r -> row_id r <> ID c
        end
  end.
Proof. exact (Upsert_keeps_id_aux content w). Qed.

Lemma content_ids_ok_abc : content_ids_ok abc_db.
Proof.
  assert (Hrows : forall key row, contents abc_db !! key = Some row ->
            (key = (1, "a") /\ row_id row = 1) \/ (key = (1, "b") /\ row_id row = 2) \/
            (key = (1, "c") /\ row_id row = 3)).
  { intros key row. unfold abc_db. cbn [contents set_contents].
    intros H. repeat (apply lookup_insert_Some in H as [[<- <-]|[_ H]]; [cbn; tauto|]).
    rewrite lookup_empty in H. discriminate. }
  split.
  - intros key row Hrow. destruct (Hrows _ _ Hrow) as [[_ ->]|[[_ ->]|[_ ->]]]; cbn; lia.
  - intros k1 k2 r1 r2 H1 H2 Heq.
    destruct (Hrows _ _ H1) as [[-> E1]|[[-> E1]|[-> E1]]];
      destruct (Hrows _ _ H2) as [[-> E2]|[[-> E2]|[-> E2]]]; congruence.
Qed.

Lemma Upsert_keeps_id_witness :
  let key := (ProviderID content_b, ProviderContentID content_b) in
  let '(r, w') := Upsert content_b (quiet_world abc_db 100) in
  match r with
  | Err _ => tables (db w') = tables (db (quiet_world abc_db 100))
  | Ok c =>
      content_ids_ok (db w') /\
      exists row,
        contents (db w') = <[key := row]> (contents (db (quiet_world abc_db 100))) /\
        row_id row = ID c /\ row_deleted row = 0 /\
        match contents (db (quiet_world abc_db 100)) !! key with
        | Some old => ID c = row_id old /\ CreatedAt c = row_created_at old
        | None => forall k r, contents (db (quiet_world abc_db 100)) !! k = Some r ->
                              row_id r <> ID c
        end
  end.
Proof. apply (Upsert_keeps_id content_b (quiet_world abc_db 100)), content_ids_ok_abc. Defined.

(** The run: the row b keeps the id 2 and the time 10 of its creation and
    has the new title. *)
Example Upsert_runs :
  (fun row => (row_id row, row_created_at row, row_title row, row_deleted row))
    <$> contents (db (Upsert content_b (quiet_world abc_db 100)).2) !! (1, "b")
  = Some (2, 10, "New title", 0).
Proof. vm_compute. reflexivity. Qed.

Lemma tags_of_linked collate (d : DB) (contentID : Z) (t : Tag) :
  t ∈ tags_of collate d contentID ->
  tags d !! tag_Name t = Some {| tg_id := tag_ID t; tg_created_at := tag_CreatedAt t |} /\
  is_Some (content_tags d !! (contentID, tag_ID t)).
Proof.
  unfold tags_of. rewrite merge_sort_Permutation.
  intros ([name row] & -> & Hin)%list_elem_of_fmap.
  apply list_elem_of_filter in Hin as [Hlink Hin].
  apply elem_of_map_to_list in Hin. cbn [fst snd tag_Name tag_ID tag_CreatedAt] in *.
  split; [|exact Hlink]. rewrite Hin. destruct row. reflexivity.
Qed.

(** A read leaves the database as it is. *)
Lemma read_db {A} (f : DB -> A) (w : World) :
  db (statement (fun _ d => (f d, d)) w).2 = db w /\
  ((statement (fun _ d => (f d, d)) w).1 = Err ErrDB \/
   (statement (fun _ d => (f d, d)) w).1 = Ok (f (db w))).
Proof.
  match goal with |- context [statement ?run w] =>
    destruct (statement_cases run w) as [[_ ->]|[_ ->]] end; cbn; auto.
Qed.

(** FindByID reads and never writes, and never returns a deleted content.
    What it finds is a live row with the id asked for, with the columns of
    the row, the statistics and the score of that id when there are such
    rows, and tags that are all linked to the content (or no tags, when
    loading them fails). It answers "not found" only when no live row has
    the id. *)
Theorem FindByID_spec collate (id : Z) (w : World) :
  let '(r, w') := FindByID collate id w in
  db w' = db w /\
  match r with
  | Found c =>
      exists key row,
        contents (db w) !! key = Some row /\ row_id row = id /\ row_deleted row = 0 /\
        ID c = id /\ ProviderID c = key.1 /\ ProviderContentID c = key.2 /\
        Title c = row_title row /\ Description c = row_description row /\
        content_Type c = row_content_type row /\ PublishedAt c = row_published_at row /\
        CreatedAt c = row_created_at row /\ UpdatedAt c = row_updated_at row /\
        RawData c = row_raw_data row /\ Deleted c = false /\
        Stats c = joined_stats (db w) id /\ Score c = joined_score (db w) id /\
        forall t, t ∈ Tags c ->
          tags (db w) !! tag_Name t
          = Some {| tg_id := tag_ID t; tg_created_at := tag_CreatedAt t |} /\
          is_Some (content_tags (db w) !! (id, tag_ID t))
  | NotFound i =>
      i = id /\
      forall key row, contents (db w) !! key = Some row -> row_id row = id ->
                      row_deleted row <> 0
  | FindFailed _ => True
  end.
Proof.
  unfold FindByID.
  pose proof (read_db (fun d => found_content d <$> select_content d id) w) as [Hdb Hres].
  destruct (statement _ w) as [[found|e] w1]; cbn [fst snd] in *; [|auto].
  destruct Hres as [Hres|Hres]; [discriminate|]. injection Hres as ->.
  destruct (select_content (db w) id) as [[key row]|] eqn:Hsel; cbn [fmap option_fmap option_map].
  2:{ split; [exact Hdb|]. split; [reflexivity|].
      intros k r. apply select_content_None, Hsel. }
  apply select_content_Some in Hsel as (Hrow & Hid & Hlive). cbn [fst snd] in *.
  unfold loadTags. cbn [found_content ID].
  pose proof (read_db (fun d => tags_of collate d (row_id row)) w1) as [Hdb2 Hres2].
  destruct (statement _ w1) as [[tags|e] w2]; cbn [fst snd] in *.
  - destruct Hres2 as [Hres2|Hres2]; [discriminate|]. injection Hres2 as ->.
    split; [congruence|]. exists key, row. cbn. rewrite Hid, Hdb.
    repeat split; try assumption; try reflexivity;
      apply tags_of_linked in H; apply H.
  - split; [congruence|]. exists key, row. cbn. rewrite Hid.
    repeat split; try assumption; try reflexivity; inversion H.
Qed.

Lemma select_content_unique (d : DB) (key : Z * string) (row : ContentRow) :
  content_ids_ok d -> contents d !! key = Some row -> row_deleted row = 0 ->
  select_content d (row_id row) = Some (key, row).
Proof.
  intros [_ Huniq] Hrow Hlive.
  destruct (select_content d (row_id row)) as [[key' row']|] eqn:Hsel.
  - apply select_content_Some in Hsel as (Hrow' & Hid & _). cbn [fst snd] in *.
    assert (key' = key) as -> by (eapply Huniq; eauto). congruence.
  - exfalso. eapply select_content_None; eauto.
Qed.

Lemma select_content_deleted (d : DB) (key : Z * string) (row : ContentRow) :
  content_ids_ok d -> contents d !! key = Some row -> row_deleted row <> 0 ->
  select_content d (row_id row) = None.
Proof.
  intros [_ Huniq] Hrow Hdel.
  destruct (select_content d (row_id row)) as [[key' row']|] eqn:Hsel; [|reflexivity].
  apply select_content_Some in Hsel as (Hrow' & Hid & Hlive). cbn [fst snd] in *.
  assert (key' = key) as -> by (eapply Huniq; eauto). congruence.
Qed.

(** FindByID in a world where no statement is refused. *)
Lemma FindByID_calm collate (id : Z) (w : World) :
  calm w ->
  exists w',
    FindByID collate id w
    = (match select_content (db w) id with
       | Some entry => Found (with_tags (found_content (db w) entry)
                                (tags_of collate (db w) (row_id entry.2)))
       | None => NotFound id
       end, w') /\
    db w' = db w /\ calm w'.
Proof.
  intros Hcalm. unfold FindByID.
  match goal with |- context [statement ?run w] =>
    destruct (statement_calm run w Hcalm) as (t & _ & -> & Hcalm1) end.
  cbn [fst snd].
  destruct (select_content (db w) id) as [[key row]|]; cbn [fmap option_fmap option_map].
  - unfold loadTags.
    match goal with |- context [statement ?run ?w1] =>
      destruct (statement_calm run w1 Hcalm1) as (t2 & _ & -> & Hcalm2) end.
    cbn [fst snd found_content ID db]. eexists. split; [reflexivity|]. split; [reflexivity|].
    exact Hcalm2.
  - eexists. split; [reflexivity|]. split; [reflexivity | exact Hcalm1].
Qed.

(** Insert and look up: in a world where no statement is refused and the
    content ids are unique, the content that Upsert wrote is found under the
    id Upsert returned, with the key, the title, the description, the type
    and the raw data that were written and with the created_at and
    updated_at that Upsert returned. This holds for a new content, for one
    that is updated and for one that had been deleted. (The publication
    date is left out: it passes through a TIMESTAMP column.) *)
Theorem Upsert_FindByID collate (content : Content float) (w : World) :
  calm w -> content_ids_ok (db w) ->
  exists c w1 c' w2,
    Upsert content w = (Ok c, w1) /\
    FindByID collate (ID c) w1 = (Found c', w2) /\
    ID c' = ID c /\ ProviderID c' = ProviderID content /\
    ProviderContentID c' = ProviderContentID content /\
    Title c' = Title content /\ Description c' = Description content /\
    content_Type c' = content_Type content /\ RawData c' = RawData content /\
    CreatedAt c' = CreatedAt c /\ UpdatedAt c' = UpdatedAt c /\ Deleted c' = false.
Proof.
  intros Hcalm Hids.
  pose proof (Upsert_keeps_id_aux content w Hids) as Hok.
  destruct (Upsert_calm content w Hcalm) as (c & w1 & row & Heq & Hcalm1 & _ & Hc & Hlive & _).
  destruct (Upsert_cases content w) as [(w' & Heq' & _)|
    (w' & id & created & Heq' & _ & _ & _ & _ & _ & _ & _ & Hc' & _)]; [congruence|].
  rewrite Heq in Heq'. injection Heq' as -> ->.
  rewrite Heq in Hok. destruct Hok as [Hids1 _].
  set (key := (ProviderID content, ProviderContentID content)) in *.
  set (row1 := {| row_id := id; row_title := Title content;
                  row_description := Description content;
                  row_content_type := content_Type content;
                  row_published_at := PublishedAt content;
                  row_created_at := created; row_updated_at := clock w';
                  row_raw_data := RawData content; row_deleted := 0 |}) in *.
  assert (Hrow1 : contents (db w') !! key = Some row1) by (rewrite Hc'; apply lookup_insert_eq).
  destruct (FindByID_calm collate id w' Hcalm1) as (w2 & Hfind & _ & _).
  pose proof (select_content_unique (db w') key row1 Hids1 Hrow1 eq_refl) as Hsel.
  change (row_id row1) with id in Hsel. rewrite Hsel in Hfind.
  eexists _, w', _, w2. split; [exact Heq|]. cbn [ID with_row].
  split; [exact Hfind|]. cbn. repeat split; reflexivity.
Qed.

Lemma Upsert_FindByID_witness :
  exists c w1 c' w2,
    Upsert content_b (quiet_world abc_db 100) = (Ok c, w1) /\
    FindByID byte_order (ID c) w1 = (Found c', w2) /\
    ID c' = ID c /\ ProviderID c' = ProviderID content_b /\
    ProviderContentID c' = ProviderContentID content_b /\
    Title c' = Title content_b /\ Description c' = Description content_b /\
    content_Type c' = content_Type content_b /\ RawData c' = RawData content_b /\
    CreatedAt c' = CreatedAt c /\ UpdatedAt c' = UpdatedAt c /\ Deleted c' = false.
Proof.
  apply (Upsert_FindByID byte_order content_b (quiet_world abc_db 100));
    [constructor | apply content_ids_ok_abc].
Defined.

(** The sweep, refused or run. *)
Lemma MarkStale_cases (providerID threshold : Z) (w : World) :
  (exists w', MarkStaleContentsAsDeleted providerID threshold w = (Err ErrDB, w') /\
              db w' = db w) \/
  (exists w', MarkStaleContentsAsDeleted providerID threshold w = (Ok tt, w') /\
     content_stats (db w') = content_stats (db w) /\
     content_scores (db w') = content_scores (db w) /\
     tags (db w') = tags (db w) /\ content_tags (db w') = content_tags (db w) /\
     contents_seq (db w') = contents_seq (db w) /\
     forall key,
       contents (db w') !! key
       = (fun row => if stale providerID threshold key row
                     then mark_deleted (clock w') row else row) <$> contents (db w) !! key).
Proof.
  unfold MarkStaleContentsAsDeleted.
  match goal with |- context [statement ?run w] =>
    destruct (statement_cases run w) as [[_ ->]|[_ ->]] end.
  - left. eexists. split; reflexivity.
  - right. eexists. split; [reflexivity|]. cbn. repeat split.
    intros key. rewrite map_lookup_imap. destruct (contents (db w) !! key); reflexivity.
Qed.

Lemma mark_deleted_not_stale (providerID threshold t : Z) (key : Z * string) (row : ContentRow) :
  stale providerID threshold key
    (if stale providerID threshold key row then mark_deleted t row else row) = false.
Proof.
  destruct (stale providerID threshold key row) eqn:Hs; [|exact Hs].
  unfold stale. cbn [mark_deleted row_deleted]. rewrite andb_false_r. reflexivity.
Qed.

(** The sweep is idempotent: once it has run, a second sweep of the same
    provider with the same threshold, at whatever time, changes no table. *)
Theorem MarkStaleContentsAsDeleted_idempotent (providerID threshold : Z) (w : World) :
  let '(r, w1) := MarkStaleContentsAsDeleted providerID threshold w in
  match r with
  | Ok _ =>
      forall w2, tables (db w2) = tables (db w1) ->
        tables (db (MarkStaleContentsAsDeleted providerID threshold w2).2) = tables (db w1)
  | Err _ => True
  end.
Proof.
  destruct (MarkStale_cases providerID threshold w) as [(w1 & -> & _)|
    (w1 & -> & _ & _ & _ & _ & _ & Hrows)]; [exact I|].
  intros w2 Htables.
  destruct (MarkStale_cases providerID threshold w2) as [(w3 & -> & Hdb)|
    (w3 & -> & Hst & Hsc & Htg & Hct & _ & Hrows2)]; cbn [snd].
  { rewrite Hdb. exact Htables. }
  rewrite <- Htables. unfold tables. rewrite Hst, Hsc, Htg, Hct.
  assert (contents (db w3) = contents (db w2)) as ->; [|reflexivity].
  apply map_eq. intros key. rewrite Hrows2.
  assert (Hc : contents (db w2) = contents (db w1)) by (unfold tables in Htables; congruence).
  rewrite Hc, Hrows. destruct (contents (db w) !! key) as [row|]; [|reflexivity].
  cbn [fmap option_fmap option_map]. rewrite mark_deleted_not_stale. reflexivity.
Qed.

(** A swept content is gone for FindByID: in a world where no statement is
    refused and the content ids are unique, after the sweep every content of
    the provider that was live and last written before the threshold is
    reported as not found. *)
Theorem MarkStaleContentsAsDeleted_hides collate (providerID threshold : Z) (w : World)
    (key : Z * string) (row : ContentRow) :
  calm w -> content_ids_ok (db w) ->
  contents (db w) !! key = Some row -> key.1 = providerID ->
  row_deleted row = 0 -> row_updated_at row < threshold ->
  exists w1 w2,
    MarkStaleContentsAsDeleted providerID threshold w = (Ok tt, w1) /\
    FindByID collate (row_id row) w1 = (NotFound (row_id row), w2).
Proof.
  intros Hcalm [Hseq Huniq] Hrow Hprov Hlive Hold.
  assert (Hrun : exists w1, MarkStaleContentsAsDeleted providerID threshold w = (Ok tt, w1)
                            /\ calm w1).
  { unfold MarkStaleContentsAsDeleted.
    match goal with |- context [statement ?run w] =>
      destruct (statement_calm run w Hcalm) as (t & _ & -> & Hcalm1) end.
    eexists. split; [reflexivity | exact Hcalm1]. }
  destruct Hrun as (w1 & Heq & Hcalm1).
  destruct (MarkStale_cases providerID threshold w) as [(w' & Heq' & _)|
    (w' & Heq' & _ & _ & _ & _ & Hs & Hrows)]; [congruence|].
  rewrite Heq in Heq'. injection Heq' as <-.
  assert (Hids1 : content_ids_ok (db w1)).
  { split.
    - intros k r. rewrite Hrows, Hs. intros Hr.
      destruct (contents (db w) !! k) as [r0|] eqn:Hr0; [|discriminate].
      injection Hr as <-. pose proof (Hseq _ _ Hr0).
      destruct (stale _ _ _ _); exact H.
    - intros k1 k2 r1 r2. rewrite !Hrows. intros H1 H2 Heqid.
      destruct (contents (db w) !! k1) as [r01|] eqn:Hr1; [|discriminate].
      destruct (contents (db w) !! k2) as [r02|] eqn:Hr2; [|discriminate].
      injection H1 as <-. injection H2 as <-.
      apply (Huniq k1 k2 r01 r02 Hr1 Hr2).
      destruct (stale _ _ k1 _), (stale _ _ k2 _); exact Heqid. }
  assert (Hrow1 : contents (db w1) !! key = Some (mark_deleted (clock w1) row)).
  { rewrite Hrows, Hrow. cbn. unfold stale.
    rewrite Hprov, Z.eqb_refl, (proj2 (Z.ltb_lt _ _) Hold), Hlive. reflexivity. }
  destruct (FindByID_calm collate (row_id row) w1 Hcalm1) as (w2 & Hfind & _ & _).
  pose proof (select_content_deleted (db w1) key _ Hids1 Hrow1 ltac:(cbn; lia)) as Hsel.
  cbn [mark_deleted row_id] in Hsel. rewrite Hsel in Hfind.
  exists w1, w2. split; [exact Heq | exact Hfind].
Qed.

Lemma MarkStaleContentsAsDeleted_hides_witness :
  exists w1 w2,
    MarkStaleContentsAsDeleted 1 60 (quiet_world abc_db 100) = (Ok tt, w1) /\
    FindByID byte_order (row_id (live_row 2)) w1 = (NotFound (row_id (live_row 2)), w2).
Proof.
  apply (MarkStaleContentsAsDeleted_hides byte_order 1 60 (quiet_world abc_db 100)
           (1, "b") (live_row 2));
    [constructor | apply content_ids_ok_abc | reflexivity | reflexivity | reflexivity
    | cbn; lia].
Defined.

(** ** Sync use case: what a record leaves in the tables *)

Lemma CreateOrUpdateStats_cases (stats : ContentStats) (w : World) :
  (exists w', CreateOrUpdateStats stats w = (Err ErrDB, w') /\ db w' = db w /\
              clock w <= clock w' /\ fault (next_event w).1 = true) \/
  (exists w' st row,
     CreateOrUpdateStats stats w = (Ok st, w') /\ clock w <= clock w' /\
     pending w' = (next_event w).2 /\
     contents (db w') = contents (db w) /\ content_scores (db w') = content_scores (db w) /\
     tags (db w') = tags (db w) /\ content_tags (db w') = content_tags (db w) /\
     content_stats (db w') = <[stats_ContentID stats := row]> (content_stats (db w)) /\
     st_views row = Views stats /\ st_likes row = Likes stats /\
     st_reading_time row = ReadingTime stats /\ st_reactions row = Reactions stats /\
     Views st = Views stats /\ Likes st = Likes stats /\
     ReadingTime st = ReadingTime stats /\ Reactions st = Reactions stats).
Proof.
  unfold CreateOrUpdateStats.
  match goal with |- context [statement ?run w] =>
    destruct (statement_cases run w) as [[Hfault ->]|[_ ->]] end.
  - left. eexists. split; [reflexivity|]. cbn. repeat split; [lia | exact Hfault].
  - right. cbn [fst snd]. eexists {| db := _; clock := _; pending := _ |}, _, _.
    split; [reflexivity|]. cbn. repeat split; lia.
Qed.

Lemma CreateOrUpdateScore_cases (score : ContentScore float) (w : World) :
  (exists w', CreateOrUpdateScore score w = (Err ErrDB, w') /\ db w' = db w /\
              clock w <= clock w' /\ fault (next_event w).1 = true) \/
  (exists w' sc row,
     CreateOrUpdateScore score w = (Ok sc, w') /\ clock w <= clock w' /\
     pending w' = (next_event w).2 /\
     contents (db w') = contents (db w) /\ content_stats (db w') = content_stats (db w) /\
     tags (db w') = tags (db w) /\ content_tags (db w') = content_tags (db w) /\
     content_scores (db w') = <[score_ContentID score := row]> (content_scores (db w)) /\
     (sc_base_score row, sc_type_weight row, sc_recency_score row, sc_engagement_score row,
      sc_final_score row) = components score).
Proof.
  unfold CreateOrUpdateScore.
  match goal with |- context [statement ?run w] =>
    destruct (statement_cases run w) as [[Hfault ->]|[_ ->]] end.
  - left. eexists. split; [reflexivity|]. cbn. repeat split; [lia | exact Hfault].
  - right. cbn [fst snd]. eexists {| db := _; clock := _; pending := _ |}, _, _.
    split; [reflexivity|]. cbn. repeat split; lia.
Qed.

(** processContent, step by step. *)
Lemma processContent_steps {U : CaseTables} rules (providerID : Z) (nc : NormalizedContent) (w : World) :
  let content :=
    {| ID := 0; ProviderID := providerID; ProviderContentID := ExternalID nc;
       Title := nc_Title nc; Description := nc_Description nc;
       content_Type := nc_ContentType nc; PublishedAt := nc_PublishedAt nc;
       CreatedAt := 0; UpdatedAt := 0; Stats := None; Score := None; Tags := [];
       RelevanceScore := 0%float; RawData := ""; Deleted := false |} in
  let tag_step (c : Content float) (w : World) : Result unit * World :=
    match nc_Tags nc with
    | [] => (Ok tt, w)
    | _ => (Ok tt, (AddTags (ID c) (nc_Tags nc) w).2)
    end in
  processContent rules providerID nc w
  = match Upsert content w with
    | (Err e, w1) => (Err (ErrWrap "upsert" e), w1)
    | (Ok c, w1) =>
        match CreateOrUpdateStats
                {| stats_ID := 0; stats_ContentID := ID c; Views := Views (nc_Stats nc);
                   Likes := Likes (nc_Stats nc); ReadingTime := ReadingTime (nc_Stats nc);
                   Reactions := Reactions (nc_Stats nc); stats_UpdatedAt := 0 |} w1 with
        | (Err e, w2) => (Err (ErrWrap "stats" e), w2)
        | (Ok st, w2) =>
            match CalculateScore rules (clock w2) (with_stats c st) with
            | Some score =>
                match CreateOrUpdateScore (with_content_id score (ID c)) w2 with
                | (Err e, w3) => (Err (ErrWrap "score" e), w3)
                | (Ok _, w3) => tag_step c w3
                end
            | None => tag_step c w2
            end
        end
    end.
Proof.
  intros content tag_step. unfold processContent, bind, wrap_err, time_Now, ret, logged.
  fold content.
  destruct (Upsert content w) as [[c|e] w1]; [|reflexivity].
  destruct (CreateOrUpdateStats _ w1) as [[st|e] w2]; [|reflexivity].
  destruct (CalculateScore rules (clock w2) (with_stats c st)) as [score|].
  - destruct (CreateOrUpdateScore _ w2) as [[sc|e] w3]; [|reflexivity].
    subst tag_step. cbn beta. destruct (nc_Tags nc); reflexivity.
  - subst tag_step. cbn beta. destruct (nc_Tags nc); reflexivity.
Qed.

(** What processContent does to the table of contents, in any world: it
    leaves it alone or writes the row of the record, live and stamped
    during the call, with the columns of the record and no raw data. *)
Lemma processContent_contents {U : CaseTables} rules (providerID : Z) (nc : NormalizedContent) (w : World) :
  let '(r, w') := processContent rules providerID nc w in
  clock w <= clock w' /\
  ((r = Err (ErrWrap "upsert" ErrDB) /\ tables (db w') = tables (db w)) \/
   (r <> Err (ErrWrap "upsert" ErrDB) /\
    (r = Ok tt \/ r = Err (ErrWrap "stats" ErrDB) \/ r = Err (ErrWrap "score" ErrDB)) /\
    exists row,
      contents (db w') = <[(providerID, ExternalID nc) := row]> (contents (db w)) /\
      row_title row = nc_Title nc /\ row_description row = nc_Description nc /\
      row_content_type row = nc_ContentType nc /\
      row_published_at row = nc_PublishedAt nc /\
      row_raw_data row = "" /\ row_deleted row = 0 /\ clock w <= row_updated_at row)).
Proof.
  rewrite processContent_steps.
  match goal with |- context [Upsert ?content w] =>
    destruct (Upsert_cases content w) as [(w1 & -> & Hdb & Ht & _)|
      (w1 & id & created & -> & Ht1 & _ & _ & _ & _ & _ & _ & Hc & _)] end.
  { split; [exact Ht|]. left. split; [reflexivity | rewrite Hdb; reflexivity]. }
  cbn [ProviderID ProviderContentID Title Description content_Type PublishedAt RawData] in Hc.
  assert (Hkeep : forall (r : Result unit) (w' : World),
            (r = Ok tt \/ r = Err (ErrWrap "stats" ErrDB) \/ r = Err (ErrWrap "score" ErrDB)) ->
            contents (db w') = contents (db w1) -> clock w1 <= clock w' ->
            let '(r, w') := (r, w') in
            clock w <= clock w' /\
            ((r = Err (ErrWrap "upsert" ErrDB) /\ tables (db w') = tables (db w)) \/
             (r <> Err (ErrWrap "upsert" ErrDB) /\
              (r = Ok tt \/ r = Err (ErrWrap "stats" ErrDB) \/ r = Err (ErrWrap "score" ErrDB)) /\
              exists row,
                contents (db w') = <[(providerID, ExternalID nc) := row]> (contents (db w)) /\
                row_title row = nc_Title nc /\ row_description row = nc_Description nc /\
                row_content_type row = nc_ContentType nc /\
                row_published_at row = nc_PublishedAt nc /\
                row_raw_data row = "" /\ row_deleted row = 0 /\ clock w <= row_updated_at row))).
  { intros r w' Hr Hc' Ht'. split; [lia|]. right.
    split; [destruct Hr as [->|[->| ->]]; discriminate|]. split; [exact Hr|].
    eexists. split; [rewrite Hc', Hc; reflexivity|]. cbn. repeat split; lia. }
  cbn [ID with_row].
  match goal with |- context [CreateOrUpdateStats ?stats w1] =>
    destruct (CreateOrUpdateStats_cases stats w1) as [(w2 & -> & Hdb2 & Ht2 & _)|
      (w2 & st & srow & -> & Ht2 & _ & Hc2 & _)] end.
  { apply (Hkeep _ w2); [tauto | rewrite Hdb2; reflexivity | lia]. }
  assert (Htags : forall w3, contents (db w3) = contents (db w1) -> clock w1 <= clock w3 ->
            let '(r, w') := match nc_Tags nc with
                            | [] => (Ok tt, w3)
                            | _ :: _ => (Ok tt, (AddTags id (nc_Tags nc) w3).2)
                            end in
            clock w <= clock w' /\
            ((r = Err (ErrWrap "upsert" ErrDB) /\ tables (db w') = tables (db w)) \/
             (r <> Err (ErrWrap "upsert" ErrDB) /\
              (r = Ok tt \/ r = Err (ErrWrap "stats" ErrDB) \/ r = Err (ErrWrap "score" ErrDB)) /\
              exists row,
                contents (db w') = <[(providerID, ExternalID nc) := row]> (contents (db w)) /\
                row_title row = nc_Title nc /\ row_description row = nc_Description nc /\
                row_content_type row = nc_ContentType nc /\
                row_published_at row = nc_PublishedAt nc /\
                row_raw_data row = "" /\ row_deleted row = 0 /\ clock w <= row_updated_at row))).
  { intros w3 Hc3 Ht3. destruct (nc_Tags nc) as [|t ts].
    - apply (Hkeep _ w3); [tauto | exact Hc3 | exact Ht3].
    - destruct (AddTags_keeps id (t :: ts) w3) as (Hc4 & Ht4 & _).
      apply (Hkeep _ (AddTags id (t :: ts) w3).2); [tauto | congruence | lia]. }
  destruct (CalculateScore rules (clock w2) _) as [score|].
  - match goal with |- context [CreateOrUpdateScore ?sc w2] =>
      destruct (CreateOrUpdateScore_cases sc w2) as [(w3 & -> & Hdb3 & Ht3 & _)|
        (w3 & sc' & scrow & -> & Ht3 & _ & Hc3 & _)] end.
    + apply (Hkeep _ w3); [tauto | rewrite Hdb3; exact Hc2 | lia].
    + apply Htags; [congruence | lia].
  - apply Htags; [exact Hc2 | lia].
Qed.

(** No transaction spans a record: processContent fails only by a refused
    upsert, statistics or score statement; when it is the upsert, no table
    has changed; when it is one of the other two, the content row of the
    record is written all the same, live, with the title, the description
    and the type of the record. The row never has raw data, with or without
    an error. *)
Theorem processContent_partial {U : CaseTables} rules (providerID : Z) (nc : NormalizedContent) (w : World) :
  let '(r, w') := processContent rules providerID nc w in
  (r = Err (ErrWrap "upsert" ErrDB) /\ tables (db w') = tables (db w)) \/
  ((r = Ok tt \/ r = Err (ErrWrap "stats" ErrDB) \/ r = Err (ErrWrap "score" ErrDB)) /\
   exists row,
     contents (db w') !! (providerID, ExternalID nc) = Some row /\
     row_title row = nc_Title nc /\ row_description row = nc_Description nc /\
     row_content_type row = nc_ContentType nc /\
     row_raw_data row = "" /\ row_deleted row = 0).
Proof.
  pose proof (processContent_contents rules providerID nc w) as H.
  destruct (processContent rules providerID nc w) as [r w'].
  destruct H as [_ [H|(_ & Hr & row & Hc & H)]]; [left; exact H|].
  right. split; [exact Hr|]. exists row. rewrite Hc, lookup_insert_eq. tauto.
Qed.

(** The run of a refused statistics statement: the error names the step,
    the content row of the record is there and there are no statistics. *)
Example processContent_stats_refused :
  let '(r, w') := processContent (U:=no_tables) defaultRules 1 (record "z") (second_refused abc_db 100) in
  r = Err (ErrWrap "stats" ErrDB) /\
  row_id <$> contents (db w') !! (1, "z") = Some 4 /\
  content_stats (db w') = ∅.
Proof. vm_compute. repeat split. Qed.

Lemma sync_loop_frame {U : CaseTables} rules (providerID : Z) (records : list NormalizedContent) (w : World)
    (key : Z * string) :
  key.1 <> providerID ->
  contents (db (foldl (fun w nc => (processContent rules providerID nc w).2) w records)) !! key
  = contents (db w) !! key.
Proof.
  intros Hkey. revert w. induction records as [|nc rest IH]; intros w; cbn [foldl];
    [reflexivity|].
  rewrite IH.
  pose proof (processContent_contents rules providerID nc w) as H.
  destruct (processContent rules providerID nc w) as [r w1]. cbn [snd].
  destruct H as [_ [[_ Ht]|(_ & _ & row & -> & _)]].
  - unfold tables in Ht. congruence.
  - apply lookup_insert_ne. intros <-. apply Hkey. reflexivity.
Qed.

(** syncProvider in any world, with statements refused or not: it fails
    exactly when the fetch failed, and then the database is as it was (no
    record is written and nothing is swept); and it never touches a content
    row of another provider. *)
Theorem syncProvider_frame {U : CaseTables} rules (providerID : Z) (fetch_time : N)
    (fetched : Result (list NormalizedContent)) (w : World) :
  let '(r, w') := syncProvider rules providerID fetch_time fetched w in
  match fetched with
  | Err e => r = Err (ErrWrap "fetch" e) /\ db w' = db w
  | Ok _ => r = Ok tt
  end /\
  forall key, key.1 <> providerID -> contents (db w') !! key = contents (db w) !! key.
Proof.
  unfold syncProvider. destruct fetched as [records|e]; [|cbn; auto].
  unfold logged. cbn [fst snd]. split; [reflexivity|]. intros key Hkey.
  set (w0 := {| db := db w; clock := clock w + Z.of_N fetch_time; pending := pending w |}).
  set (w1 := foldl _ w0 records).
  destruct (MarkStale_cases providerID (clock w) w1) as [(w2 & -> & Hdb)|
    (w2 & -> & _ & _ & _ & _ & _ & Hrows)]; cbn [snd].
  - rewrite Hdb. apply (sync_loop_frame rules providerID records w0 key Hkey).
  - rewrite Hrows. subst w1.
    rewrite (sync_loop_frame rules providerID records w0 key Hkey).
    change (contents (db w0)) with (contents (db w)).
    destruct (contents (db w) !! key) as [row|]; [|reflexivity]. cbn.
    unfold stale. destruct (Z.eqb_spec key.1 providerID); [contradiction | reflexivity].
Qed.

Lemma calm_pending (w w' : World) : calm w -> pending w' = (next_event w).2 -> calm w'.
Proof. intros Hcalm Hp. unfold calm. rewrite Hp. apply calm_tail, Hcalm. Qed.

Lemma calm_not_refused (w : World) : calm w -> fault (next_event w).1 = true -> False.
Proof. intros [Hf _]%calm_next. congruence. Qed.

Lemma add_tags_loop_calm {U : CaseTables} (tx contentID : Z) (names : list string) (w : World) :
  calm w -> exists w', add_tags_loop tx contentID names w = (Ok tt, w') /\ calm w'.
Proof.
  revert w. induction names as [|name rest IH]; intros w Hcalm; cbn [add_tags_loop].
  - eexists. split; [reflexivity | exact Hcalm].
  - unfold bind at 1, insert_tag.
    match goal with |- context [statement ?run w] =>
      destruct (statement_calm run w Hcalm) as (t1 & _ & -> & Hcalm1) end.
    cbn beta iota. unfold bind at 1, insert_content_tag.
    match goal with |- context [statement ?run ?w1] =>
      destruct (statement_calm run w1 Hcalm1) as (t2 & _ & -> & Hcalm2) end.
    cbn beta iota. apply IH, Hcalm2.
Qed.

Lemma AddTags_calm {U : CaseTables} (contentID : Z) (names : list string) (w : World) :
  calm w -> (AddTags contentID names w).1 = Ok tt.
Proof.
  intros Hcalm. unfold AddTags. destruct names as [|name0 rest]; [reflexivity|].
  unfold BeginTx.
  match goal with |- context [statement ?run w] =>
    destruct (statement_calm run w Hcalm) as (t1 & _ & -> & Hcalm1) end.
  cbn [fst snd]. unfold bind.
  match goal with |- context [add_tags_loop ?tx ?c ?ns ?w1] =>
    destruct (add_tags_loop_calm tx c ns w1 Hcalm1) as (w2 & -> & Hcalm2) end.
  unfold Commit.
  match goal with |- context [statement ?run w2] =>
    destruct (statement_calm run w2 Hcalm2) as (t3 & _ & -> & _) end.
  reflexivity.
Qed.

(** The score of a content depends on its type, its date and the four
    counters of its statistics only. *)
Lemma CalculateScore_components rules (now : Z) (c1 c2 : Content float) (s1 s2 : ContentStats) :
  content_Type c1 = content_Type c2 -> PublishedAt c1 = PublishedAt c2 ->
  Stats c1 = Some s1 -> Stats c2 = Some s2 ->
  Views s1 = Views s2 -> Likes s1 = Likes s2 ->
  ReadingTime s1 = ReadingTime s2 -> Reactions s1 = Reactions s2 ->
  components <$> CalculateScore rules now c1 = components <$> CalculateScore rules now c2.
Proof.
  intros Ht Hp H1 H2 Hv Hl Hr Hx.
  unfold CalculateScore, calculateEngagementScore. rewrite H1, H2, Ht, Hp, Hv, Hl, Hr, Hx.
  destruct (String.eqb _ _); reflexivity.
Qed.

(** What a record leaves behind: in a world where no statement is refused,
    processContent succeeds and the tables then hold the content row of the
    record (live, with its title, description and type and without raw
    data), under the id of that row its four counters and the score that
    CalculateScore gives for the type, the date and the counters of the
    record at a time t during the call, and a link to the tag of every tag
    name of the record, the tag stored under lowercase(trim(name)). *)
Theorem processContent_stores {U : CaseTables} rules (providerID : Z) (nc : NormalizedContent) (w : World) :
  calm w ->
  let '(r, w') := processContent rules providerID nc w in
  r = Ok tt /\
  exists row st sc t,
    contents (db w') !! (providerID, ExternalID nc) = Some row /\
    row_title row = nc_Title nc /\ row_description row = nc_Description nc /\
    row_content_type row = nc_ContentType nc /\
    row_raw_data row = "" /\ row_deleted row = 0 /\
    content_stats (db w') !! row_id row = Some st /\
    st_views st = Views (nc_Stats nc) /\ st_likes st = Likes (nc_Stats nc) /\
    st_reading_time st = ReadingTime (nc_Stats nc) /\
    st_reactions st = Reactions (nc_Stats nc) /\
    content_scores (db w') !! row_id row = Some sc /\
    clock w <= t <= clock w' /\
    Some (sc_base_score sc, sc_type_weight sc, sc_recency_score sc, sc_engagement_score sc,
          sc_final_score sc)
    = components <$> CalculateScore rules t (scored_content nc) /\
    forall name, name ∈ nc_Tags nc -> has_tag_link (db w') (row_id row) (tag_name name).
Proof.
  intros Hcalm. rewrite processContent_steps.
  match goal with |- context [Upsert ?content w] =>
    destruct (Upsert_cases content w) as [(w1 & _ & _ & _ & Hf)|
      (w1 & id & created & -> & Ht1 & Hp1 & _ & _ & _ & _ & _ & Hc1 & _)] end.
  { destruct (calm_not_refused w Hcalm Hf). }
  pose proof (calm_pending w w1 Hcalm Hp1) as Hcalm1.
  cbn [ProviderID ProviderContentID Title Description content_Type PublishedAt RawData] in Hc1.
  cbn [ID with_row].
  match goal with |- context [CreateOrUpdateStats ?stats w1] =>
    destruct (CreateOrUpdateStats_cases stats w1) as [(w2 & _ & _ & _ & Hf)|
      (w2 & st & srow & -> & Ht2 & Hp2 & Hc2 & Hsc2 & _ & _ & Hs2 & Hv & Hl & Hr & Hx
         & Hv' & Hl' & Hr' & Hx')] end.
  { destruct (calm_not_refused w1 Hcalm1 Hf). }
  pose proof (calm_pending w1 w2 Hcalm1 Hp2) as Hcalm2.
  cbn [stats_ContentID Views Likes ReadingTime Reactions] in *.
  set (c := with_stats _ st).
  pose proof (CalculateScore_components rules (clock w2) c (scored_content nc) st (nc_Stats nc)
                eq_refl eq_refl eq_refl eq_refl Hv' Hl' Hr' Hx') as Hscore.
  destruct (CalculateScore rules (clock w2) c) as [score|] eqn:Hcs.
  2:{ unfold CalculateScore in Hcs. subst c. cbn [Stats with_stats] in Hcs.
      destruct (String.eqb _ _) in Hcs; discriminate. }
  match goal with |- context [CreateOrUpdateScore ?sc w2] =>
    destruct (CreateOrUpdateScore_cases sc w2) as [(w3 & _ & _ & _ & Hf)|
      (w3 & sc' & scrow & -> & Ht3 & Hp3 & Hc3 & Hst3 & _ & _ & Hs3 & Hcomp)] end.
  { destruct (calm_not_refused w2 Hcalm2 Hf). }
  pose proof (calm_pending w2 w3 Hcalm2 Hp3) as Hcalm3.
  cbn [score_ContentID with_content_id] in Hs3.
  assert (Hcomp' : Some (sc_base_score scrow, sc_type_weight scrow, sc_recency_score scrow,
                         sc_engagement_score scrow, sc_final_score scrow)
                   = components <$> CalculateScore rules (clock w2) (scored_content nc)).
  { rewrite <- Hscore, Hcomp. cbn. destruct score; reflexivity. }
  set (row := {| row_id := id; row_title := nc_Title nc;
                 row_description := nc_Description nc;
                 row_content_type := nc_ContentType nc;
                 row_published_at := nc_PublishedAt nc; row_created_at := created;
                 row_updated_at := clock w1; row_raw_data := ""; row_deleted := 0 |}) in *.
  assert (Hrow3 : contents (db w3) !! (providerID, ExternalID nc) = Some row)
    by (rewrite Hc3, Hc2, Hc1; apply lookup_insert_eq).
  assert (Hst : content_stats (db w3) !! id = Some srow)
    by (rewrite Hst3, Hs2; apply lookup_insert_eq).
  assert (Hsc : content_scores (db w3) !! id = Some scrow)
    by (rewrite Hs3; apply lookup_insert_eq).
  destruct (nc_Tags nc) as [|t ts] eqn:Htags.
  - split; [reflexivity|]. exists row, srow, scrow, (clock w2).
    repeat split; try assumption; try reflexivity; try lia;
      try (intros name Hin; inversion Hin).
  - pose proof (AddTags_calm id (t :: ts) w3 Hcalm3) as Hok.
    pose proof (AddTags_outcome id (t :: ts) w3) as Hout.
    destruct (AddTags_keeps id (t :: ts) w3) as (Hc4 & Ht4 & _).
    destruct (AddTags id (t :: ts) w3) as [r4 w4]. cbn [fst snd] in *. subst r4.
    destruct Hout as [(_ & Hst4 & Hsc4 & _) Hlinks].
    split; [reflexivity|]. exists row, srow, scrow, (clock w2).
    rewrite Hc4, Hst4, Hsc4.
    repeat split; try assumption; try reflexivity; try lia;
      try (intros name Hin; apply Hlinks, Hin).
Qed.

Lemma processContent_stores_witness :
  let '(r, w') := processContent (U:=no_tables) defaultRules 1 (record "z") (quiet_world abc_db 100) in
  r = Ok tt /\
  exists row st sc t,
    contents (db w') !! (1, ExternalID (record "z")) = Some row /\
    row_title row = nc_Title (record "z") /\
    row_description row = nc_Description (record "z") /\
    row_content_type row = nc_ContentType (record "z") /\
    row_raw_data row = "" /\ row_deleted row = 0 /\
    content_stats (db w') !! row_id row = Some st /\
    st_views st = Views (nc_Stats (record "z")) /\
    st_likes st = Likes (nc_Stats (record "z")) /\
    st_reading_time st = ReadingTime (nc_Stats (record "z")) /\
    st_reactions st = Reactions (nc_Stats (record "z")) /\
    content_scores (db w') !! row_id row = Some sc /\
    clock (quiet_world abc_db 100) <= t <= clock w' /\
    Some (sc_base_score sc, sc_type_weight sc, sc_recency_score sc, sc_engagement_score sc,
          sc_final_score sc)
    = components <$> CalculateScore defaultRules t (scored_content (record "z")) /\
    forall name, name ∈ nc_Tags (record "z") ->
                 has_tag_link (db w') (row_id row) (tag_name (U:=no_tables) name).
Proof.
  apply (processContent_stores (U:=no_tables) defaultRules 1 (record "z") (quiet_world abc_db 100)).
  constructor.
Defined.

(** ** The pager of the front end *)

Ltac decide_eqb :=
  repeat match goal with
         | |- context [?a =? ?b] =>
             first [ replace (a =? b) with false by (symmetry; apply Z.eqb_neq; lia)
                   | replace (a =? b) with true by (symmetry; apply Z.eqb_eq; lia) ]
         | |- context [?a <? ?b] =>
             first [ replace (a <? b) with false by (symmetry; apply Z.ltb_ge; lia)
                   | replace (a <? b) with true by (symmetry; apply Z.ltb_lt; lia) ]
         | |- context [?a <=? ?b] =>
             first [ replace (a <=? b) with false by (symmetry; apply Z.leb_gt; lia)
                   | replace (a <=? b) with true by (symmetry; apply Z.leb_le; lia) ]
         end.

Ltac same_pages :=
  repeat match goal with
         | |- ?x :: _ = ?y :: _ =>
             replace x with y by (first [reflexivity | f_equal; lia]); f_equal
         end; reflexivity.

Lemma counting_three (a : Z) : counting a (a + 2) = [a; a + 1; a + 2].
Proof.
  unfold counting. replace (Z.to_nat (a + 2 - a + 1)) with 3%nat by lia.
  cbn. rewrite Z.add_0_r. reflexivity.
Qed.

Lemma counting_two (a : Z) : counting a (a + 1) = [a; a + 1].
Proof.
  unfold counting. replace (Z.to_nat (a + 1 - a + 1)) with 2%nat by lia.
  cbn. rewrite Z.add_0_r. reflexivity.
Qed.

Lemma counting_one (a : Z) : counting a a = [a].
Proof.
  unfold counting. replace (Z.to_nat (a - a + 1)) with 1%nat by lia.
  cbn. rewrite Z.add_0_r. reflexivity.
Qed.

(** The pager beyond five pages, by where the current page is. *)
Lemma visiblePages_many (c n : Z) :
  5 < n -> 1 <= c <= n ->
  (c = 1 /\ visiblePages c n = [PageNumber 1; PageNumber 2; Dots; PageNumber n]) \/
  (c = 2 /\ visiblePages c n = [PageNumber 1; PageNumber 2; PageNumber 3; Dots; PageNumber n]) \/
  (c = 3 /\ visiblePages c n
            = [PageNumber 1; PageNumber 2; PageNumber 3; PageNumber 4; Dots; PageNumber n]) \/
  (3 < c < n - 2 /\
   visiblePages c n = [PageNumber 1; Dots; PageNumber (c - 1); PageNumber c; PageNumber (c + 1);
                       Dots; PageNumber n]) \/
  (3 < c /\ c = n - 2 /\
   visiblePages c n = [PageNumber 1; Dots; PageNumber (c - 1); PageNumber c; PageNumber (c + 1);
                       PageNumber n]) \/
  (3 < c /\ c = n - 1 /\
   visiblePages c n = [PageNumber 1; Dots; PageNumber (c - 1); PageNumber c; PageNumber n]) \/
  (3 < c /\ c = n /\ visiblePages c n = [PageNumber 1; Dots; PageNumber (c - 1); PageNumber n]).
Proof.
  intros Hn Hc. unfold visiblePages.
  replace (n <=? 5) with false by (symmetry; apply Z.leb_gt; lia).
  destruct (Z.le_gt_cases c 3) as [Hlow|Hhigh].
  - assert (c = 1 \/ c = 2 \/ c = 3) as [->|[->| ->]] by lia.
    + left. split; [reflexivity|]. rewrite Z.max_l, Z.min_r by lia.
      change (1 + 1) with 2. rewrite counting_one. cbn [List.filter]. decide_eqb. reflexivity.
    + right; left. split; [reflexivity|]. rewrite Z.max_l, Z.min_r by lia.
      change (2 + 1) with (2 + 1). rewrite counting_two. cbn [List.filter]. decide_eqb.
      reflexivity.
    + right; right; left. split; [reflexivity|]. rewrite Z.max_r, Z.min_r by lia.
      change (3 - 1) with 2. change (3 + 1) with (2 + 2). rewrite counting_three.
      cbn [List.filter]. decide_eqb. reflexivity.
  - do 3 right. rewrite Z.max_r by lia.
    replace (3 <? c) with true by (symmetry; apply Z.ltb_lt; lia).
    destruct (Z.lt_ge_cases c (n - 2)) as [Hmid|Hend].
    + left. split; [lia|]. rewrite Z.min_r by lia.
      replace (c + 1) with (c - 1 + 2) at 1 by lia. rewrite counting_three.
      cbn [List.filter]. decide_eqb. cbn. same_pages.
    + right. assert (c = n - 2 \/ c = n - 1 \/ c = n) as [E|[E|E]] by lia.
      * left. split; [lia|]. split; [exact E|]. rewrite Z.min_r by lia.
        replace (c + 1) with (c - 1 + 2) at 1 by lia. rewrite counting_three.
        cbn [List.filter]. decide_eqb. cbn. same_pages.
      * right; left. split; [lia|]. split; [exact E|]. rewrite Z.min_l by lia.
        replace (n - 1) with (c - 1 + 1) at 1 by lia. rewrite counting_two.
        cbn [List.filter]. decide_eqb. cbn. same_pages.
      * right; right. split; [lia|]. split; [exact E|]. rewrite Z.min_l by lia.
        replace (n - 1) with (c - 1) by lia. rewrite counting_one.
        cbn [List.filter]. decide_eqb. cbn. same_pages.
Qed.

Ltac solve_In :=
  apply list_elem_of_In; cbn;
  repeat first [ left; first [reflexivity | f_equal; lia] | right ].

Lemma visiblePages_few (c n : Z) :
  1 <= n <= 5 ->
  (n = 1 /\ visiblePages c n = [PageNumber 1]) \/
  (n = 2 /\ visiblePages c n = [PageNumber 1; PageNumber 2]) \/
  (n = 3 /\ visiblePages c n = [PageNumber 1; PageNumber 2; PageNumber 3]) \/
  (n = 4 /\ visiblePages c n = [PageNumber 1; PageNumber 2; PageNumber 3; PageNumber 4]) \/
  (n = 5 /\ visiblePages c n
            = [PageNumber 1; PageNumber 2; PageNumber 3; PageNumber 4; PageNumber 5]).
Proof.
  intros Hn. assert (n = 1 \/ n = 2 \/ n = 3 \/ n = 4 \/ n = 5) as [->|[->|[->|[->| ->]]]] by lia;
    [left | right; left | do 2 right; left | do 3 right; left | do 4 right];
    (split; reflexivity).
Qed.

(** The pager is well formed for every current page within the pages: its
    first entry is page 1 and its last entry the last page; from page 1 on
    (so after page 0, as [pager_wf 0] reads it) its numbers go up, by
    one where they follow each other and by two or more across dots, so no
    page is shown twice and dots always stand for pages that are left out;
    it shows the current page and the pages before and after it; it has at
    most seven entries. *)
Theorem visiblePages_well_formed (c n : Z) :
  1 <= c <= n ->
  head (visiblePages c n) = Some (PageNumber 1) /\
  pager_wf 0 (visiblePages c n) = true /\
  last (visiblePages c n) = Some (PageNumber n) /\
  PageNumber c ∈ visiblePages c n /\
  PageNumber (Z.max 1 (c - 1)) ∈ visiblePages c n /\
  PageNumber (Z.min n (c + 1)) ∈ visiblePages c n /\
  (length (visiblePages c n) <= 7)%nat.
Proof.
  intros Hc. destruct (Z.le_gt_cases n 5) as [Hfew|Hmany].
  - assert (c = 1 \/ c = 2 \/ c = 3 \/ c = 4 \/ c = 5) as Hcs by lia.
    destruct (visiblePages_few c n ltac:(lia)) as
      [[-> ->]|[[-> ->]|[[-> ->]|[[-> ->]|[-> ->]]]]];
      destruct Hcs as [->|[->|[->|[->| ->]]]]; try lia;
      (split; [reflexivity|]); (split; [reflexivity|]); (split; [reflexivity|]);
      (split; [solve_In|]); (split; [solve_In|]); (split; [solve_In | cbn; lia]).
  - destruct (visiblePages_many c n Hmany Hc) as
      [[-> ->]|[[-> ->]|[[-> ->]|[[H ->]|[(H & E & ->)|[(H & E & ->)|(H & E & ->)]]]]]];
      (split; [reflexivity|]);
      (split; [cbn [pager_wf]; decide_eqb; reflexivity|]); (split; [reflexivity|]);
      (split; [solve_In|]); (split; [solve_In|]); (split; [solve_In | cbn; lia]).
Qed.

Lemma visiblePages_well_formed_witness :
  head (visiblePages 6 12) = Some (PageNumber 1) /\
  pager_wf 0 (visiblePages 6 12) = true /\
  last (visiblePages 6 12) = Some (PageNumber 12) /\
  PageNumber 6 ∈ visiblePages 6 12 /\
  PageNumber (Z.max 1 (6 - 1)) ∈ visiblePages 6 12 /\
  PageNumber (Z.min 12 (6 + 1)) ∈ visiblePages 6 12 /\
  (length (visiblePages 6 12) <= 7)%nat.
Proof. apply (visiblePages_well_formed 6 12). lia. Defined.

(** The pager in the middle of twelve pages, at its start and at its end. *)
Example visiblePages_runs :
  visiblePages 6 12 = [PageNumber 1; Dots; PageNumber 5; PageNumber 6; PageNumber 7; Dots;
                       PageNumber 12] /\
  visiblePages 1 12 = [PageNumber 1; PageNumber 2; Dots; PageNumber 12] /\
  visiblePages 12 12 = [PageNumber 1; Dots; PageNumber 11; PageNumber 12].
Proof. repeat split; reflexivity. Qed.

(** The entry '...' is in the pager twice exactly when there are more than
    five pages and the current page is more than three pages from both ends
    of them; the template keys its buttons by the entry, so that exactly
    then two buttons have the same key. *)
Theorem visiblePages_duplicate_key (c n : Z) :
  1 <= c <= n ->
  (dots_count (visiblePages c n) <= 2)%nat /\
  (dots_count (visiblePages c n) = 2%nat <-> 5 < n /\ 3 < c < n - 2).
Proof.
  intros Hc. destruct (Z.le_gt_cases n 5) as [Hfew|Hmany].
  - destruct (visiblePages_few c n ltac:(lia)) as
      [[-> ->]|[[-> ->]|[[-> ->]|[[-> ->]|[-> ->]]]]];
      cbn; (split; [lia|]); (split; [discriminate | lia]).
  - destruct (visiblePages_many c n Hmany Hc) as
      [[-> ->]|[[-> ->]|[[-> ->]|[[H ->]|[(H & E & ->)|[(H & E & ->)|(H & E & ->)]]]]]];
      cbn; (split; [lia|]); (split; [try discriminate; lia | try reflexivity; lia]).
Qed.

Lemma visiblePages_duplicate_key_witness :
  (dots_count (visiblePages 6 12) <= 2)%nat /\
  (dots_count (visiblePages 6 12) = 2%nat <-> 5 < 12 /\ 3 < 6 < 12 - 2).
Proof. apply (visiblePages_duplicate_key 6 12). lia. Defined.

(** ** Health check *)

(** The health handler answers 503 exactly when a configured dependency
    fails its ping, and 200 otherwise, so also when nothing is configured;
    the status is degraded exactly with the 503; and the services it lists
    are the configured ones, each with the outcome of its own ping. *)
Theorem HandleHealth_spec (now : Z) (database redis : Dependency) :
  let reply := HandleHealth now database redis in
  let verdict (dep : Dependency) : option string :=
    match dep with
    | NotConfigured => None
    | Ping true => Some "healthy"
    | Ping false => Some "unhealthy"
    end in
  (health_code reply = StatusServiceUnavailable \/ health_code reply = StatusOK) /\
  (health_code reply = StatusServiceUnavailable <->
   database = Ping false \/ redis = Ping false) /\
  (health_status reply = "degraded" <-> health_code reply = StatusServiceUnavailable) /\
  health_services reply !! "database" = verdict database /\
  health_services reply !! "redis" = verdict redis /\
  forall name, name <> "database" -> name <> "redis" -> health_services reply !! name = None.
Proof.
  destruct database as [|[|]], redis as [|[|]]; cbn;
    repeat split; try tauto; try discriminate; try (intros [H|H]; discriminate);
    try (intros name H1 H2; rewrite ?lookup_insert_ne by congruence; apply lookup_empty).
Qed.

(** ** Rate limiting *)

Lemma itoa_head (n : Z) :
  exists c s, itoa n = String c s /\
              (is_digit c = true \/ (c = "-"%char /\ s <> EmptyString)).
Proof.
  unfold itoa. destruct n as [|p|p]; cbn [Z.to_int NilZero.string_of_int].
  - exists "0"%char, EmptyString. split; [reflexivity | left; reflexivity].
  - pose proof (DecimalPos.Unsigned.to_uint_nonnil p) as Hnil.
    destruct (Pos.to_uint p); [congruence|..]; cbn; eexists _, _;
      (split; [reflexivity | left; reflexivity]).
  - pose proof (DecimalPos.Unsigned.to_uint_nonnil p) as Hnil.
    eexists _, _. split; [reflexivity|]. right. split; [reflexivity|].
    destruct (Pos.to_uint p); [congruence|..]; cbn; discriminate.
Qed.

Lemma is_digit_cases (c : ascii) :
  is_digit c = true ->
  exists d, 0 <= d <= 9 /\ String c EmptyString = itoa d /\ Z.of_N (N_of_ascii c) = 48 + d.
Proof.
  intros Hd.
  exists (Z.of_N (N_of_ascii c) - 48).
  destruct c as [[] [] [] [] [] [] [] []]; try discriminate Hd;
    (split; [cbn; lia|]); split; reflexivity.
Qed.

(** The first byte of an encoding of more than one byte is no digit and no
    minus sign. *)
Lemma lead_byte_high (base k : Z) :
  base = 0xC0 \/ base = 0xE0 \/ base = 0xF0 -> 0 <= k < 32 ->
  let c := ascii_of_N (Z.to_N (Z.lor base k)) in is_digit c = false /\ c <> "-"%char.
Proof.
  intros Hbase Hk.
  assert (Hall : forallb (fun b =>
            forallb (fun k => let c := ascii_of_N (Z.to_N (Z.lor b (Z.of_nat k))) in
                              negb (is_digit c) && negb (Ascii.eqb c "-"))
                    (seq 0 32)) [0xC0; 0xE0; 0xF0] = true) by (vm_compute; reflexivity).
  rewrite forallb_forall in Hall.
  assert (Hb : In base [0xC0; 0xE0; 0xF0])
    by (destruct Hbase as [->|[->| ->]]; cbn; tauto).
  specialize (Hall base Hb). rewrite forallb_forall in Hall.
  specialize (Hall (Z.to_nat k) ltac:(apply in_seq; lia)).
  rewrite Z2Nat.id in Hall by lia. cbn zeta in *.
  apply andb_true_iff in Hall as [H1 H2]. split.
  - apply negb_true_iff, H1.
  - intros Heq. rewrite Heq in H2. discriminate.
Qed.

Lemma shiftr_small (r n bound : Z) :
  0 <= r < bound * 2 ^ n -> 0 <= n -> 0 <= Z.shiftr r n < bound.
Proof.
  intros Hr Hn. rewrite Z.shiftr_div_pow2 by lia. split.
  - apply Z.div_pos; lia.
  - apply Z.div_lt_upper_bound; lia.
Qed.

(** The header X-RateLimit-Limit is never the limit in decimal: the
    middleware writes string(rune(burst)), the character whose code point
    the limit is (for the limit 60 the character 60, a less-than sign),
    and that string is different from the decimal digits of the limit for
    every limit. This holds for the refused and for the admitted request. *)
Theorem Middleware_limit_header (Limiter : Type) (NewLimiter : Limiter)
    (Allow : Limiter -> bool * Limiter) (burst : Z)
    (limiters : gmap string Limiter) (r : ClientRequest) :
  let next := fun (_ : ClientRequest) headers =>
    {| reply_code := StatusOK; reply_headers := headers; reply_body := HandlerBody "" |} in
  reply_headers (Middleware Limiter NewLimiter Allow burst next limiters r).1
    !! "X-RateLimit-Limit" = Some (rune_string burst) /\
  rune_string burst <> itoa burst.
Proof.
  intros next. split.
  - unfold Middleware. destruct (getLimiter _ _ _ _) as [limiter limiters'].
    destruct (Allow limiter) as [[|] limiter']; cbn [negb fst reply_headers next].
    + apply lookup_insert_eq.
    + rewrite !lookup_insert_ne by discriminate. apply lookup_insert_eq.
  - intros Heq. destruct (itoa_head burst) as (c & s & Hitoa & Hhead).
    rewrite Hitoa in Heq. unfold rune_string, utf8 in Heq.
    set (rn := wrap32 burst) in *.
    destruct ((rn <? 0) || (1114111 <? rn) || ((55296 <=? rn) && (rn <=? 57343))) eqn:Hbad.
    { cbn in Heq. injection Heq as <- _. destruct Hhead as [H|[H _]]; discriminate. }
    apply orb_false_iff in Hbad as [Hbad _]. apply orb_false_iff in Hbad as [Hneg Hmax].
    apply Z.ltb_ge in Hneg, Hmax.
    destruct (Z.ltb_spec rn 128) as [Hone|Hmore].
    { cbn [byte_string foldr] in Heq. injection Heq as Hc Hs. subst s.
      destruct Hhead as [Hd|[_ Hs]]; [|congruence].
      destruct (is_digit_cases c Hd) as (d & Hdr & Hstr & Hcode).
      assert (burst = d) by (apply itoa_inj; congruence). subst d.
      assert (rn = burst).
      { subst rn. unfold wrap32. rewrite Z.mod_small by lia. lia. }
      rewrite <- Hc, N_ascii_embedding in Hcode by lia. lia. }
    assert (Hlead : forall base k rest,
              base = 0xC0 \/ base = 0xE0 \/ base = 0xF0 -> 0 <= k < 32 ->
              byte_string (Z.lor base k :: rest) = String c s -> False).
    { intros base k rest Hbase Hk Hbytes. cbn [byte_string foldr] in Hbytes.
      injection Hbytes as Hc _.
      destruct (lead_byte_high base k Hbase Hk) as [Hnd Hnm]. rewrite Hc in Hnd, Hnm.
      destruct Hhead as [Hd|[Hm _]]; congruence. }
    destruct (Z.ltb_spec rn 2048).
    { eapply Hlead; [| |exact Heq]; [tauto | apply (shiftr_small rn 6 32); lia]. }
    destruct (Z.ltb_spec rn 65536).
    { eapply Hlead; [| |exact Heq]; [tauto|].
      pose proof (shiftr_small rn 12 16 ltac:(lia) ltac:(lia)). lia. }
    eapply Hlead; [| |exact Heq]; [tauto|].
    pose proof (shiftr_small rn 18 5 ltac:(lia) ltac:(lia)). lia.
Qed.

(** The header for the default limit of 60 requests a minute. *)
Example rune_string_60 : rune_string 60 = "<" /\ rune_string 1000 = byte_string [0xCF; 0xA8].
Proof. split; reflexivity. Qed.

(** The middleware and its limiters: a request is judged by the limiter of
    its address, a new one when the address has none, and by no other; the
    limiter of every other address is left as it was. A request that the
    limiter refuses is answered 429 with Retry-After 60 and does not reach
    the handler; one that it admits is answered by the handler. *)
Theorem Middleware_isolation (Limiter : Type) (NewLimiter : Limiter)
    (Allow : Limiter -> bool * Limiter) (burst : Z)
    (next : ClientRequest -> gmap string string -> MiddlewareReply)
    (limiters : gmap string Limiter) (r : ClientRequest) :
  let ip := getRealIP r in
  let judged := Allow (default NewLimiter (limiters !! ip)) in
  let '(reply, limiters') := Middleware Limiter NewLimiter Allow burst next limiters r in
  limiters' !! ip = Some judged.2 /\
  (forall other, other <> ip -> limiters' !! other = limiters !! other) /\
  if judged.1
  then reply = next r (<["X-RateLimit-Limit" := rune_string burst]> ∅)
  else reply_code reply = StatusTooManyRequests /\
       reply_body reply = RateLimitMessage /\
       reply_headers reply !! "Retry-After" = Some "60".
Proof.
  intros ip judged. unfold Middleware, getLimiter. fold ip.
  destruct (limiters !! ip) as [limiter|] eqn:Hip; subst judged; cbn [default];
    destruct (Allow _) as [[|] limiter']; cbn [negb fst snd];
    (split; [apply lookup_insert_eq|]);
    (split; [intros other Hother; rewrite ?lookup_insert_ne by congruence; reflexivity|]);
    first [reflexivity | repeat split].
Qed.

(** The white space that is trimmed from the first entry of
    X-Forwarded-For is that of Unicode: an entry between two no-break
    spaces (U+00A0) and one after an ideographic space (U+3000) are the
    address of the plain entry, and so share its limiter. *)
Example getRealIP_wide_space :
  getRealIP {| XForwardedFor := byte_string [0xC2; 0xA0] +:+ "10.0.0.7"
                                +:+ byte_string [0xC2; 0xA0] +:+ ", 172.16.0.1";
               XRealIP := ""; RemoteAddr := "r" |} = "10.0.0.7" /\
  getRealIP {| XForwardedFor := byte_string [0xE3; 0x80; 0x80] +:+ "10.0.0.7";
               XRealIP := ""; RemoteAddr := "r" |} = "10.0.0.7".
Proof. split; vm_compute; reflexivity. Qed.

Lemma before_comma_app (ip rest : string) :
  before_comma ip = ip -> before_comma (ip +:+ String "," rest) = ip.
Proof.
  induction ip as [|c ip IH]; simpl; [reflexivity|].
  destruct (Ascii.eqb c ","); [discriminate|]. intros [= H]. rewrite IH by exact H.
  reflexivity.
Qed.

(** The address of a request is what stands before the first comma of
    X-Forwarded-For, trimmed, whenever that header is not empty, whatever
    the connection is: a first entry without space around it is the address
    as it stands, alone or followed by other entries. Without the header it
    is X-Real-IP, and without both the address of the connection. *)
Theorem getRealIP_spec (ip rest xri remote : string) :
  ip <> "" -> before_comma ip = ip -> TrimSpace ip = ip ->
  getRealIP {| XForwardedFor := ip; XRealIP := xri; RemoteAddr := remote |} = ip /\
  getRealIP {| XForwardedFor := ip +:+ String "," rest; XRealIP := xri; RemoteAddr := remote |}
  = ip /\
  getRealIP {| XForwardedFor := ""; XRealIP := ip; RemoteAddr := remote |} = ip /\
  getRealIP {| XForwardedFor := ""; XRealIP := ""; RemoteAddr := remote |} = remote.
Proof.
  intros Hne Hcomma Htrim. unfold getRealIP. cbn [XForwardedFor XRealIP RemoteAddr].
  destruct (String.eqb_spec ip "") as [|_]; [contradiction|]. cbn [negb].
  rewrite Hcomma, Htrim. split; [reflexivity|]. split; [|split; reflexivity].
  destruct ip as [|c ip]; [contradiction|]. cbn [String.append String.eqb].
  replace (String.eqb (String c (ip +:+ String "," rest)) "") with false by reflexivity.
  cbn [negb]. change (String c (ip +:+ String "," rest)) with (String c ip +:+ String "," rest).
  rewrite before_comma_app by exact Hcomma. exact Htrim.
Qed.

Lemma getRealIP_spec_witness :
  getRealIP {| XForwardedFor := "10.0.0.7"; XRealIP := "x"; RemoteAddr := "r" |} = "10.0.0.7" /\
  getRealIP {| XForwardedFor := "10.0.0.7" +:+ String "," " 172.16.0.1";
               XRealIP := "x"; RemoteAddr := "r" |} = "10.0.0.7" /\
  getRealIP {| XForwardedFor := ""; XRealIP := "10.0.0.7"; RemoteAddr := "r" |} = "10.0.0.7" /\
  getRealIP {| XForwardedFor := ""; XRealIP := ""; RemoteAddr := "r" |} = "r".
Proof.
  apply (getRealIP_spec "10.0.0.7" " 172.16.0.1" "x" "r"); [discriminate | reflexivity..].
Defined.

Lemma digits_value_itoa (z : Z) : 0 <= z -> digits_value 0 (itoa z) = Some z.
Proof.
  intros Hz. unfold itoa. destruct z as [|p|p]; [reflexivity | | lia].
  cbn [Z.to_int NilZero.string_of_int].
  destruct (Atoi_digits p) as (-> & _ & _).
  rewrite digits_value_uint, DecimalPos.Unsigned.of_to. reflexivity.
Qed.

Lemma byte_string_bytes (s : string) : byte_string (bytes_of_string s) = s.
Proof.
  induction s as [|c s IH]; [reflexivity|].
  cbn [bytes_of_string byte_string foldr]. fold (byte_string (bytes_of_string s)).
  rewrite IH, N2Z.id, ascii_N_embedding. reflexivity.
Qed.

(** A rune of ASCII that [f] rejects at the start, or at the end, stops the
    trimming there. *)
Lemma TrimLeftFunc_plain (f : Z -> bool) (fuel : nat) (b : Z) (bs : list Z) :
  b < 0x80 -> f b = false -> TrimLeftFunc f fuel (b :: bs) = b :: bs.
Proof.
  intros Hb Hf. destruct fuel as [|fuel]; [reflexivity|].
  cbn [TrimLeftFunc DecodeRune].
  replace (b <? 0x80) with true by (symmetry; apply Z.ltb_lt; exact Hb).
  rewrite Hf. reflexivity.
Qed.

Lemma TrimRightFunc_plain (f : Z -> bool) (fuel : nat) (b : Z) (bs : list Z) :
  last bs = Some b -> b < 0x80 -> f b = false -> TrimRightFunc f fuel bs = bs.
Proof.
  intros Hlast Hb Hf. destruct fuel as [|fuel]; [reflexivity|].
  destruct bs as [|b0 bs']; [discriminate|].
  cbn [TrimRightFunc]. unfold DecodeLastRune. rewrite Hlast.
  replace (b <? 0x80) with true by (symmetry; apply Z.ltb_lt; exact Hb).
  rewrite Hf. reflexivity.
Qed.

Lemma digits_bytes (s : string) (v acc : Z) :
  digits_value acc s = Some v -> Forall (fun b => 48 <= b <= 57) (bytes_of_string s).
Proof.
  revert acc. induction s as [|c s IH]; intros acc; cbn [digits_value bytes_of_string];
    [constructor|].
  unfold is_digit. destruct (N.leb_spec 48 (N_of_ascii c)); cbn [andb]; [|discriminate].
  destruct (N.leb_spec (N_of_ascii c) 57); [|discriminate].
  intros Hv. constructor; [lia | eapply IH; exact Hv].
Qed.

(** A string of digits holds no comma and no white space. *)
Lemma digits_plain (s : string) (v acc : Z) :
  digits_value acc s = Some v -> before_comma s = s /\ TrimSpace s = s.
Proof.
  intros Hv. split.
  - revert acc Hv. induction s as [|c s IH]; intros acc; cbn [digits_value]; [auto|].
    destruct (is_digit c) eqn:Hd; [|discriminate]. intros Hv.
    assert (Hcm : Ascii.eqb c "," = false)
      by (destruct c as [[] [] [] [] [] [] [] []]; try discriminate Hd; reflexivity).
    cbn [before_comma]. rewrite Hcm, (IH _ Hv). reflexivity.
  - pose proof (digits_bytes s v acc Hv) as Hall. unfold TrimSpace.
    set (bs := bytes_of_string s) in *.
    assert (Hsame : TrimRightFunc IsSpace (length bs) (TrimLeftFunc IsSpace (length bs) bs) = bs).
    2:{ rewrite Hsame. apply byte_string_bytes. }
    clearbody bs. destruct bs as [|b bs]; [reflexivity|].
    assert (Hplain : forall x, 48 <= x <= 57 -> x < 0x80 /\ IsSpace x = false).
    { intros x Hx. split; [lia|]. unfold IsSpace.
      repeat match goal with
             | |- context [?a <=? ?b] => destruct (Z.leb_spec a b); try lia
             | |- context [?a =? ?b] => destruct (Z.eqb_spec a b); try lia
             end; reflexivity. }
    rewrite TrimLeftFunc_plain; [| apply Hplain; inversion Hall; assumption ..].
    destruct (last (b :: bs)) as [e|] eqn:Hlast.
    2:{ apply last_None in Hlast. discriminate. }
    assert (He : 48 <= e <= 57).
    { apply last_Some in Hlast as [l' Hl']. rewrite Hl' in Hall.
      apply Forall_app in Hall as [_ Hall]. inversion Hall; assumption. }
    apply (TrimRightFunc_plain _ _ e); [exact Hlast | apply Hplain, He ..].
Qed.

(** A limiter can always be evaded: whatever limiters the middleware holds
    and whatever the connection of the client is, there is a value of
    X-Forwarded-For under which the request has an address without a
    limiter, and so is judged by a new limiter with its full burst. *)
Theorem Middleware_evasion (Limiter : Type) (NewLimiter : Limiter)
    (Allow : Limiter -> bool * Limiter) (burst : Z)
    (next : ClientRequest -> gmap string string -> MiddlewareReply)
    (limiters : gmap string Limiter) (xri remote : string) :
  exists forwarded,
    let r := {| XForwardedFor := forwarded; XRealIP := xri; RemoteAddr := remote |} in
    limiters !! getRealIP r = None /\
    (Middleware Limiter NewLimiter Allow burst next limiters r).2 !! getRealIP r
    = Some (Allow NewLimiter).2 /\
    ((Allow NewLimiter).1 = true ->
     (Middleware Limiter NewLimiter Allow burst next limiters r).1
     = next r (<["X-RateLimit-Limit" := rune_string burst]> ∅)).
Proof.
  set (number := fun s : string => Z.to_nat <$> digits_value 0 s).
  set (taken := set_omap number (dom limiters) : gset nat).
  set (n := fresh taken).
  assert (Hval : digits_value 0 (itoa (Z.of_nat n)) = Some (Z.of_nat n))
    by (apply digits_value_itoa; lia).
  assert (Hfresh : limiters !! itoa (Z.of_nat n) = None).
  { apply not_elem_of_dom. intros Hin. apply (is_fresh taken). fold n.
    apply elem_of_set_omap. exists (itoa (Z.of_nat n)). split; [exact Hin|].
    subst number. cbn beta. rewrite Hval. cbn. f_equal. lia. }
  destruct (digits_plain _ _ _ Hval) as (Hcomma & Htrim).
  assert (Hne : itoa (Z.of_nat n) <> "").
  { destruct (itoa_head (Z.of_nat n)) as (c & s & -> & _). discriminate. }
  exists (itoa (Z.of_nat n)). cbn zeta.
  assert (Hip : getRealIP {| XForwardedFor := itoa (Z.of_nat n); XRealIP := xri;
                             RemoteAddr := remote |} = itoa (Z.of_nat n)).
  { unfold getRealIP. cbn [XForwardedFor].
    destruct (String.eqb_spec (itoa (Z.of_nat n)) "") as [|_]; [contradiction|]. cbn [negb].
    rewrite Hcomma. exact Htrim. }
  rewrite Hip. split; [exact Hfresh|].
  unfold Middleware, getLimiter. rewrite Hip, Hfresh.
  destruct (Allow NewLimiter) as [[|] limiter']; cbn [negb fst snd];
    (split; [apply lookup_insert_eq|]); [reflexivity | discriminate].
Qed.

(** ** Configuration *)

Lemma Atoi_checked_itoa (n : Z) : minInt64 <= n <= maxInt64 -> Atoi_checked (itoa n) = Some n.
Proof.
  intros Hn. unfold itoa. destruct n as [|p|p]; cbn [Z.to_int NilZero.string_of_int].
  - reflexivity.
  - destruct (Atoi_digits p) as (-> & _ & _).
    assert (Hval : digits_value 0 (NilEmpty.string_of_uint (Pos.to_uint p)) = Some (Z.pos p))
      by (rewrite digits_value_uint, DecimalPos.Unsigned.of_to; reflexivity).
    pose proof (DecimalPos.Unsigned.to_uint_nonnil p) as Hnil.
    unfold Atoi_checked.
    destruct (Pos.to_uint p); [congruence|..]; cbn [NilEmpty.string_of_uint] in *;
      rewrite Hval;
      rewrite (proj2 (Z.leb_le _ _) (proj1 Hn)), (proj2 (Z.leb_le _ _) (proj2 Hn));
      reflexivity.
  - destruct (Atoi_digits p) as (-> & _ & _).
    assert (Hval : digits_value 0 (NilEmpty.string_of_uint (Pos.to_uint p)) = Some (Z.pos p))
      by (rewrite digits_value_uint, DecimalPos.Unsigned.of_to; reflexivity).
    pose proof (DecimalPos.Unsigned.to_uint_nonnil p) as Hnil.
    unfold Atoi_checked.
    destruct (Pos.to_uint p); [congruence|..]; cbn [NilEmpty.string_of_uint] in *;
      rewrite Hval; change (- Z.pos p) with (Z.neg p);
      rewrite (proj2 (Z.leb_le _ _) (proj1 Hn)), (proj2 (Z.leb_le _ _) (proj2 Hn));
      reflexivity.
Qed.

(** Reading a number of the environment: a variable set to the decimal
    digits of an int64 is read as that number; a variable that is not set,
    that is empty or that is no number gives the default, without an error;
    and getEnv too takes an empty variable for one that is not set. *)
Theorem getEnvAsInt_spec (env : gmap string string) (key value text : string) (n fallback : Z) :
  minInt64 <= n <= maxInt64 -> Atoi_checked value = None ->
  getEnvAsInt (<[key := itoa n]> env) key fallback = n /\
  getEnvAsInt (<[key := value]> env) key fallback = fallback /\
  getEnvAsInt (<[key := ""]> env) key fallback = fallback /\
  getEnvAsInt (delete key env) key fallback = fallback /\
  getEnv (<[key := ""]> env) key text = text /\
  getEnv (delete key env) key text = text.
Proof.
  intros Hn Hbad. unfold getEnvAsInt, getEnv, Getenv.
  rewrite !lookup_insert_eq, !lookup_delete_eq. cbn [default from_option]. unfold id. cbn zeta.
  rewrite Atoi_checked_itoa by exact Hn. rewrite Hbad.
  destruct (itoa_head n) as (c & s & -> & _).
  repeat split; try reflexivity. destruct (negb (String.eqb value "")); reflexivity.
Qed.

Lemma getEnvAsInt_spec_witness :
  getEnvAsInt (<["PORT" := itoa 8080]> ∅) "PORT" 25 = 8080 /\
  getEnvAsInt (<["PORT" := "80 80"]> ∅) "PORT" 25 = 25 /\
  getEnvAsInt (<["PORT" := ""]> ∅) "PORT" 25 = 25 /\
  getEnvAsInt (delete "PORT" ∅) "PORT" 25 = 25 /\
  getEnv (<["PORT" := ""]> ∅) "PORT" "8080" = "8080" /\
  getEnv (delete "PORT" ∅) "PORT" "8080" = "8080".
Proof.
  apply (getEnvAsInt_spec ∅ "PORT" "80 80" "8080" 8080 25); [vm_compute; split; discriminate|].
  reflexivity.
Defined.

(** ** Repository: the statements of Search *)

Example Fields_runs :
  Fields "  go  lang! ,,  c++ " = ["go"; "lang!"; ",,"; "c++"] /\
  ftsWords "  go  lang! ,,  c++ " = ["go:*"; "lang:*"; "c:*"] /\
  Join (ftsWords "  go  lang! ,,  c++ ") " & " = "go:* & lang:* & c:*".
Proof. repeat split; reflexivity. Qed.

Lemma append_assoc (a b c : string) : (a +:+ b) +:+ c = a +:+ (b +:+ c).
Proof.
  induction a as [|x a IH]; [reflexivity|].
  change (String x ((a +:+ b) +:+ c) = String x (a +:+ (b +:+ c))). f_equal. exact IH.
Qed.

Lemma clean_app (a b : string) : clean (a +:+ b) = clean a +:+ clean b.
Proof.
  induction a as [|c a IH]; [reflexivity|].
  change (String c a +:+ b) with (String c (a +:+ b)). cbn [clean].
  rewrite IH. destruct (is_alnum c); reflexivity.
Qed.

Lemma is_space_not_alnum (c : ascii) : is_space c = true -> is_alnum c = false.
Proof. destruct c as [[] [] [] [] [] [] [] []]; intros H; try discriminate H; reflexivity. Qed.

(** The letters and digits of a string are those of its fields. *)
Lemma clean_Fields (s : string) : clean s = foldr (fun w acc => clean w +:+ acc) "" (Fields s).
Proof.
  induction s as [|c s IH]; [reflexivity|]. cbn [Fields].
  destruct (is_space c) eqn:Hc.
  { cbn [clean]. rewrite (is_space_not_alnum c Hc). exact IH. }
  destruct s as [|c' s'].
  { cbn. destruct (is_alnum c); reflexivity. }
  destruct (is_space c') eqn:Hc'.
  { cbn [foldr]. rewrite <- IH. cbn [clean]. destruct (is_alnum c); reflexivity. }
  destruct (Fields (String c' s')) as [|w ws] eqn:Hf.
  { cbn [Fields] in Hf. rewrite Hc' in Hf.
    destruct s' as [|c'' s'']; [discriminate|].
    destruct (is_space c''); [discriminate|]. destruct (Fields _); discriminate. }
  cbn [foldr] in *. change (clean (String c w)) with (clean (String c "" +:+ w)).
  rewrite clean_app, append_assoc, <- IH.
  change (String c (String c' s')) with (String c "" +:+ String c' s').
  rewrite clean_app. reflexivity.
Qed.

Lemma append_empty (a b : string) : a +:+ b = "" <-> a = "" /\ b = "".
Proof. destruct a; cbn; split; [auto | intros [_ ->]; reflexivity | discriminate | intros [? _]; discriminate]. Qed.

Lemma ftsWords_nil (query : string) : ftsWords query = [] <-> clean query = "".
Proof.
  unfold ftsWords. rewrite clean_Fields.
  induction (Fields query) as [|w ws IH]; cbn [omap list_omap foldr]; [tauto|].
  rewrite append_empty. destruct (String.eqb_spec (clean w) "") as [->|Hne]; cbn beta iota.
  - rewrite IH. tauto.
  - split; [discriminate | tauto].
Qed.

Lemma all_chars_app p (a b : string) :
  all_chars p (a +:+ b) = all_chars p a && all_chars p b.
Proof.
  induction a as [|c a IH]; [reflexivity|].
  change (String c a +:+ b) with (String c (a +:+ b)). cbn [all_chars].
  rewrite IH, andb_assoc. reflexivity.
Qed.

Lemma all_chars_clean (w : string) : all_chars tsquery_char (clean w) = true.
Proof.
  induction w as [|c w IH]; [reflexivity|]. cbn [clean].
  destruct (is_alnum c) eqn:Hc; [|exact IH].
  cbn [all_chars]. unfold tsquery_char at 1. rewrite Hc, IH. reflexivity.
Qed.

Lemma ftsWords_chars (query : string) :
  Forall (fun w => all_chars tsquery_char w = true) (ftsWords query).
Proof.
  unfold ftsWords. induction (Fields query) as [|w ws IH]; cbn [omap list_omap]; [constructor|].
  destruct (String.eqb (clean w) ""); cbn beta iota; [exact IH|].
  constructor; [|exact IH]. rewrite all_chars_app, all_chars_clean. reflexivity.
Qed.

Lemma Join_chars (words : list string) :
  Forall (fun w => all_chars tsquery_char w = true) words ->
  all_chars tsquery_char (Join words " & ") = true.
Proof.
  induction 1 as [|w ws Hw Hws IH]; [reflexivity|]. cbn [Join].
  destruct ws as [|w' ws']; [exact Hw|].
  rewrite !all_chars_app, Hw, IH. reflexivity.
Qed.

(** The two statements of Search, for a query that holds no white space
    outside ASCII. Every placeholder stands for the argument it is meant
    for, in the count and in the page: the full-text query where there is
    one (in the page twice, in the rank and in the filter), then the
    content type where one is asked for, then in the page the page size as
    the limit and (page - 1) * page size as the offset. The full-text
    query holds only letters and digits of ASCII and the characters of the
    operators that Search itself writes, whatever the user typed; and there
    is none exactly when the query has no letter or digit of ASCII: such a
    query is not filtered at all. *)
Theorem Search_statements_bound (params : SearchParams) :
  has_wide_space (Query params) = false ->
  let statements := Search_statements params in
  let words := ftsWords (Query params) in
  let text := match words with
              | [] => []
              | _ => [Some (ArgString (Join words " & "))]
              end in
  let type := if String.eqb (sp_ContentType params) "" then []
              else [Some (ArgString (sp_ContentType params))] in
  bound (countQuery statements) (countArgs statements) = text ++ type /\
  bound (selectQuery statements) (selectArgs statements)
  = text ++ text ++ type
    ++ [Some (ArgInt (PageSize params));
        Some (ArgInt (wrap64 ((Page params - 1) * PageSize params)))] /\
  all_chars tsquery_char (Join words " & ") = true /\
  (words = [] <-> clean (Query params) = "").
Proof.
  intros _ statements words text type.
  split; [|split; [|split; [apply Join_chars, ftsWords_chars | apply ftsWords_nil]]].
  - subst statements text type. unfold Search_statements. fold words.
    destruct (String.eqb_spec (Query params) "") as [Hq|Hq]; cbn [negb].
    + assert (words = []) as -> by (subst words; rewrite Hq; reflexivity).
      destruct (String.eqb (sp_ContentType params) ""); reflexivity.
    + destruct words as [|w ws];
        destruct (String.eqb (sp_ContentType params) ""); reflexivity.
  - subst statements text type. unfold Search_statements. fold words.
    destruct (String.eqb_spec (Query params) "") as [Hq|Hq]; cbn [negb].
    + assert (words = []) as -> by (subst words; rewrite Hq; reflexivity).
      rewrite Hq. destruct (String.eqb (sp_ContentType params) ""); reflexivity.
    + destruct words as [|w ws].
      * destruct (String.eqb (sp_ContentType params) ""); reflexivity.
      * replace (negb (String.eqb (Query params) "")) with true
          by (symmetry; apply negb_true_iff, String.eqb_neq, Hq).
        destruct (String.eqb (sp_ContentType params) ""); reflexivity.
Qed.

Lemma Search_statements_bound_witness :
  let params := params_of turkish_query "video" "relevance" 3 20 in
  let statements := Search_statements params in
  let words := ftsWords (Query params) in
  let text := match words with
              | [] => []
              | _ => [Some (ArgString (Join words " & "))]
              end in
  let type := if String.eqb (sp_ContentType params) "" then []
              else [Some (ArgString (sp_ContentType params))] in
  bound (countQuery statements) (countArgs statements) = text ++ type /\
  bound (selectQuery statements) (selectArgs statements)
  = text ++ text ++ type
    ++ [Some (ArgInt (PageSize params));
        Some (ArgInt (wrap64 ((Page params - 1) * PageSize params)))] /\
  all_chars tsquery_char (Join words " & ") = true /\
  (words = [] <-> clean (Query params) = "").
Proof.
  apply (Search_statements_bound (params_of turkish_query "video" "relevance" 3 20)).
  reflexivity.
Defined.

(** The statements of the Turkish query for videos by relevance, page 3 of
    20: the query keeps its letters of ASCII. *)
Example Search_statements_runs :
  let statements := Search_statements (params_of turkish_query "video" "relevance" 3 20) in
  selectArgs statements = [ArgString "ark:* & go:*"; ArgString "video"; ArgInt 20; ArgInt 40] /\
  bound (selectQuery statements) (selectArgs statements)
  = [Some (ArgString "ark:* & go:*"); Some (ArgString "ark:* & go:*");
     Some (ArgString "video"); Some (ArgInt 20); Some (ArgInt 40)].
Proof. split; reflexivity. Qed.
